(* ===== verification/_CoqProject ===== *)
-Q . S2P
Prelude.v
Text.v
Keys.v
Crc16.v
Redis.v
RedisMem.v
SeatLock.v
SingleNodeLock.v
SeatBitmap.v
LeaseTable.v
HoldCheck.v
ClusterLock.v
RateLimit.v
HttpCache.v
CircuitBreaker.v
ShowActor.v
ActorLease.v
Events.v
SocketAdapter.v
SocketRooms.v
Gateway.v
GatewayRequests.v
GatewayWorkers.v
GatewayApi.v
Db.v
LockServer.v
WsServer.v
WsRooms.v
LockServerProps.v
LockServerSeats.v
Payments.v
PaymentsProps.v
PaymentsSeats.v
HttpPayments.v
HttpPaymentsProps.v
HttpGuards.v
HttpAuth.v
HttpAuthProps.v
HttpAuthHistory.v
Schedules.v
SchedulesProps.v
SchedulesPlans.v
SchedulesRaces.v
HttpLedger.v
Checkout.v
NotifyConfig.v
Notifications.v
NotifyProps.v
Outbox.v
OutboxProps.v
ShowModel.v
Mongo.v
Shows.v
Cdc.v
SearchIndex.v
SearchSync.v
SearchMirror.v
SearchProps.v
SearchLive.v
SearchBlocks.v
Layouts.v
ScheduleJson.v
PublicSchedules.v
PublicLists.v
PublicCoherence.v
PublicHistory.v
PublicStale.v
GatewayProxy.v
GatewayProxyProps.v
Tickets.v
Catalogue.v
CatalogueProps.v
CatalogueStale.v
Categories.v
AdminReads.v
HttpUploads.v
LoadTest.v
Topology.v
Connections.v
Tracing.v
