(* ===== verification/Prelude.v ===== *)
(** * Bookit: a verification library for the seat-booking platform

    ** The program

    Bookit sells seats.  A seat is locked for a user, paid for, and booked:

    - the gateway ([apps/gateway-keeper]) takes lock and cancel requests over HTTP and
      gRPC, admits each seat to one request at a time, locks it in Redis and publishes a
      message; Redis-backed rate limits and a circuit breaker stand in front of services;
    - the lock server ([apps/lock-server]) consumes the messages show by show, completes
      the lock (sorted sets, bitmap, delayed queue) and sweeps locks that are over;
    - the WebSocket server ([apps/ws-server]) relays room and lock events to browsers;
    - the HTTP server ([apps/http-server]) files payment requests and cancellations and
      serves the catalogue; what it writes for other services goes to an outbox table;
    - the outbox server ([apps/outbox-server]) publishes the outbox to RabbitMQ;
    - the payment processor ([apps/payment-processor]) turns payment messages into orders
      and refunds, in one PostgreSQL transaction each;
    - the notification worker ([apps/notification-worker]) makes tickets and sends mails
      for paid and cancelled orders;
    - the administration of the shows files search events in MongoDB, the change-data
      worker ([apps/cdc-worker]) files the changes of the shows there as well, and the
      search server ([apps/search-server]) puts these events into Elasticsearch.

    [packages/redis-conn] holds what they share: the keys, and the two seat locks behind
    the trait [SeatLock].

    ** The files

    - Foundations: this file (machine integers, decimal text, the state monad and its
      Hoare rules, JSON); [Text] ([str] functions); [Redis] (servers as a class of
      operations with laws, the world of servers, clock and faults, the commands);
      [RedisMem] (an in-memory server and a JSON text format, for the concrete runs);
      [Db] (the PostgreSQL tables with their constraints, statements, transactions).
    - [packages/redis-conn]: [SocketAdapter] (adapter.rs), [SocketRooms] (the table of
      connections it refines), [Keys] (keys.rs), [Crc16] and [SingleNodeLock]
      (single_node_lock.rs), [ClusterLock] (cluster_lock.rs), [SeatLock] (seat_lock.rs:
      the interface [SeatLock] and its promise [ExclusiveLock]), [LeaseTable] (the
      abstract table of leases that [SingleNodeLock] refines), [HoldCheck] (who writes the
      context key), [Events] (the messages and their JSON).
    - gateway-keeper: [RateLimit] (rate_limit_sliding.rs), [CircuitBreaker]
      (circuit_breaker.rs), [ShowActor] and [ActorLease] (the seat slots and the lease
      counter of state_active.rs), [Gateway] (its handlers, actor and workers as steps of
      one system), [GatewayRequests], [GatewayWorkers] (theorems),
      [GatewayApi] (main.rs, grpc_service.rs), [GatewayProxy] (proxy.rs and the routes of
      main.rs), [GatewayProxyProps] (theorems).
    - lock-server: [LockServer] (handlers_active.rs, consumer_active.rs),
      [LockServerProps], [LockServerSeats] (theorems).
    - payment-processor: [Payments] (consumer.rs, repository.rs, payment.rs),
      [PaymentsProps], [PaymentsSeats] (theorems).
    - http-server: [HttpPayments] (api/user/payments.rs), [HttpPaymentsProps],
      [HttpLedger] (theorems); [Checkout] composes it with the payment processor.
    - ws-server: [SeatBitmap] (the seat states of locking.rs and their HTTP reader),
      [WsServer] (hooks.rs, handlers.rs, locking.rs, grpc_client.rs, the upgrade of main.rs),
      [WsRooms] (theorems: the composition with the lock server and with the gateway).
    - http-server, around the payments: [HttpCache] (services/cache.rs), [HttpGuards]
      (the route tables of main.rs and api/, middleware, helpers/jwt.rs,
      helpers/errors.rs), [Schedules] (api/admin/schedules_v2.rs), [SchedulesProps], [SchedulesPlans], [SchedulesRaces]
      (theorems), [Layouts] (api/admin/layouts.rs, with theorems), [HttpAuth] (api/auth.rs,
      api/admin/password_reset.rs), [HttpAuthProps], [HttpAuthHistory] (theorems).
    - http-server, for the public: [ScheduleJson] (the JSON of schedules),
      [PublicSchedules] (api/user/schedules_v2.rs), [PublicLists], [PublicCoherence],
      [PublicHistory], [PublicStale] (theorems), [Tickets] (api/user/tickets.rs and the
      summary of payments.rs, with theorems), [Catalogue] (api/user/shows.rs,
      movies.rs and the reads of api/admin/shows.rs), [CatalogueProps], [CatalogueStale]
      (theorems), [Categories] (api/admin/categories.rs,
      api/user/categories.rs, with theorems), [AdminReads] (stats.rs and the
      list of schedules; the shows that are accepted and served; with theorems), [HttpUploads] (services/r2.rs, with theorems).
    - outbox-server: [Outbox] (lib.rs, store.rs, publisher.rs, routing.rs),
      [OutboxProps] (theorems).
    - notification-worker: [NotifyConfig] (the settings of upload and mail),
      [Notifications] (consumer.rs, db.rs), [NotifyProps] (theorems).
    - The search: [ShowModel] (packages/mongo-conn: shows and BSON documents, both ways), [Mongo]
      (the collections and their statements), [Shows] (api/admin/shows.rs), [Cdc]
      (cdc-worker), [SearchIndex] (search-server), [SearchSync] (the administration and
      replicas of both over one database, with their steps), [SearchMirror], [SearchLive], [SearchBlocks] (theorems),
      [SearchProps] (the concrete runs).
    - Around the services: [Topology] (what each declares at RabbitMQ and publishes there, on
      the class [Broker] of the rules of AMQP, with theorems), [Connections] (the retry loops
      of redis-conn, db, mongo-conn and rmq-conn, with theorems), [Tracing]
      (packages/telemetry and the headers of rmq-conn, with theorems), [LoadTest]
      (load-test-runner against the interface [SlotService], which [GatewayApi] implements,
      with theorems).

    ** The theorems

    - Exclusion: a seat locked by either lock is closed to everyone else until its lease
      is over, under any operations of the others and any faults
      ([held_seat_is_exclusive], [cluster_seat_is_exclusive]); the lock server ends no
      hold of another user ([lock_server_spares_holders]); an admission to a slot is won
      once ([one_admission_per_clearing]).
    - Refinement: [SingleNodeLock] answers as the lease table
      ([single_node_lock_refines_table]); the breaker, each call by itself, answers as its
      state machine ([circuit_breaker_refines]); [crc16] is a polynomial remainder.
    - Sockets: the adapter delivers what the table of connections prescribes
      ([adapter_routes_as_table]), and the outcome of a lock message reaches the browsers it
      concerns ([lock_outcome_reaches_browsers]); both readers of the seat bitmap show what
      the locks write ([seat_maps_show_writes]).
    - Schedules: whatever the administration does, plans have no gaps and are frozen once
      started ([administration_keeps_plans], [started_plan_is_frozen]); a layout holds what
      the last update named ([update_replaces_layout_seats]).
    - What is read: the lists of schedules, of shows and of categories are those of the
      databases after any history of requests ([public_lists_follow_database],
      [list_of_shows_follows_database], [category_list_follows_database]), the list of
      tickets says what their details say ([user_tickets_are_details]), a summary states
      what is charged ([summary_states_the_charge]), a search keeps the order of
      Elasticsearch ([admin_search_keeps_ranking]), the administration sees the seats of
      every schedule ([admin_list_counts_seats]), an upload is stored ([upload_is_stored]), a
      show that is accepted is served ([accepted_show_is_served], [show_read_back]).
    - Search: the administration and the change data capture number their events in one
      outbox ([search_outbox_is_numbered]); until the second counter has overtaken the first,
      the index mirrors the catalogue show by show ([search_index_mirrors_catalogue]) and
      catches up ([search_catches_up]).
    - Accounts and mails: nothing runs before its guard ([administration_is_guarded]);
      [password_changes_need_issued_token],
      [acknowledged_confirmation_is_settled].
    - Interleavings: requests, actors, sweeps and evictions of the gateway
      ([lock_answers_partition]), on the release/acquire memory of its atomics
      ([lease_and_eviction_miss_each_other]), publishers of the outbox
      ([outbox_keeps_accounts]), deliveries of a show ([show_requests_handled_in_order]),
      requests of the proxy cut at every command of Redis, where a refusal has its culprit
      ([refusals_have_a_culprit], [reachable_server_is_asked]).
    - Money: the ledger of requests, orders, events and cancellations
      ([ledger_stays_balanced]); what a booking and a payment request need
      ([booking_needs_both_keys], [payment_request_files_one_event]); redelivery
      ([acknowledged_checkout_has_order]).
    - Progress: [accepted_request_is_booked], [publisher_drains_outbox],
      [lock_task_takes_free_seats], [lock_seats_answers];
      the cache survives three failures in a row ([cache_write_is_read]); a service connects
      when what it needs is ready in time ([services_connect_iff_ready]).
    - Messages: services start in any order ([services_start_in_any_order]), an event reaches
      its worker ([published_event_reaches_worker]), a rejected payment is kept
      ([rejected_payment_is_kept]); the trace follows ([trace_context_round_trips],
      [tracing_is_transparent]).
    - The load test: a passed one has made all of its requests
      ([passed_load_test_is_complete]), its load phase ends ([load_phase_ends]) and its counters
      add up ([load_counters_account]).
    - What does not hold is stated as what the code does instead, e.g.
      [gateway_seats_cannot_be_bought], [stale_sweep_announces_locked_seat],
      [cluster_scripts_crossslot], [cancellation_frees_rebooked_seats],
      [lock_without_seats_is_silent], [failed_creation_blocks_place],
      [late_start_unmarks_closed_schedule], [signup_grants_admin], [reset_hands_over_admin],
      [late_confirmation_revives_cancelled_order], [untitled_update_stops_stream],
      [update_of_show_stops_index], [lost_number_ends_administration],
      [late_reader_offers_closed_schedule], [seat_changes_leave_cached_counts],
      [city_page_outlives_its_shows], [lower_case_all_empties_movies],
      [public_categories_stay_empty], [figures_count_database], [uploads_share_a_key],
      [search_outage_run], [lost_trip_run], [restart_keeps_mails_only],
      [rabbit_is_tried_once_more].

    ** Conventions and bounds

    - Stateful code is a function of the state monad [St]; an [.await] is a bind.  A
      handler is one computation, except where the theorems are about interleavings: the
      gateway is cut at its waiting points, the outbox, the change-data worker and the
      indexer at their uses of a service, the proxy and the breaker at their commands, the
      eviction protocol at its atomic operations, each on its own cell of a memory with
      views.  A transaction of the administration is one step of the search pipeline
      ([admin_tx], which the handlers commit: [admin_run_commits]).
    - Each use of a connection to Redis, PostgreSQL, RabbitMQ or Razorpay draws a fault:
      it works, it is lost, or its effect stays and its reply is lost.  Theorems over any
      list of faults cover any network; the list is used up from the left and an empty
      list means that nothing fails any more.
    - Lua scripts and SQL transactions are atomic.  Expiry is that of string keys.  The
      connection pool that is not part of a [Vec] of pools is that of server 0.
    - Integers are [Z] with the wrap-around or the checks of their Rust type; [format!]
      of an integer is [show_Z].  JSON is printed and read back by a class whose only law
      is the round trip, for values nested at most 16 deep ([json_ok]).
    - No fuel: the loops of the program run over lists, and the workers are steps.

    ** Not modelled

    Panics and the restarts of supervisors; the start of the servers, but for their
    connections and declarations, and their routers, but for the route tables of the HTTP
    server (how axum chooses among patterns that fit is a class); the exporters of traces
    and metrics; the code that is commented out ([state.rs], [handlers.rs], [consumer.rs]
    of gateway and lock server).  Of the HTTP server: the list of city names (api/admin/cities.rs), whose
    letters change case by the Unicode tables of the standard library, and the layout of
    PDFs.  Of the search outbox: its expiry after a week.  The text
    of mails; object storage, Elasticsearch, MongoDB and mail clients are third-party code
    behind thin wrappers; the order in which MongoDB finds documents without a sort is a
    function of the collection. *)

From stdpp Require Export base gmap strings list.
From Stdlib Require Export ZArith Lia.
From Stdlib Require Import Ascii DecimalString DecimalZ.

#[global] Open Scope Z_scope.

(** ** Machine integers

    Rust integers are [Z] values; every operation that can leave the range of its
    type is followed by the wrap-around of that type ([as] casts and release-mode
    arithmetic). *)

Definition wrap_u (w z : Z) : Z := z mod 2 ^ w.
Definition wrap_s (w z : Z) : Z := (z + 2 ^ (w - 1)) mod 2 ^ w - 2 ^ (w - 1).

Definition u16 : Z → Z := wrap_u 16.
Definition u32 : Z → Z := wrap_u 32.
Definition u64 : Z → Z := wrap_u 64.
Definition i32 : Z → Z := wrap_s 32.
Definition i64 : Z → Z := wrap_s 64.

Definition in_u (w z : Z) : Prop := 0 ≤ z < 2 ^ w.
Definition in_s (w z : Z) : Prop := - 2 ^ (w - 1) ≤ z < 2 ^ (w - 1).

Definition i32_min : Z := - 2 ^ 31.
Definition i32_max : Z := 2 ^ 31 - 1.
Definition in_i32 (z : Z) : bool := (i32_min <=? z) && (z <=? i32_max).

(** [i32::checked_add], [i32::checked_sub]: [None] out of range. *)
Definition i32_checked (z : Z) : option Z := if in_i32 z then Some z else None.

Lemma wrap_u_small w z : 0 ≤ w → in_u w z → wrap_u w z = z.
Proof. intros Hw Hz. by apply Z.mod_small. Qed.

Lemma wrap_u_range w z : 0 ≤ w → in_u w (wrap_u w z).
Proof. intros Hw. apply Z.mod_pos_bound. lia. Qed.

Lemma wrap_s_small w z : 0 < w → in_s w z → wrap_s w z = z.
Proof.
  intros Hw Hz. unfold wrap_s, in_s in *.
  assert (2 ^ w = 2 * 2 ^ (w - 1)) as Hpow.
  { rewrite <-Z.pow_succ_r by lia. f_equal. lia. }
  rewrite Z.mod_small by lia. lia.
Qed.

(** [xor_tac]: equations between [Z.lxor] expressions, bit by bit. *)
Ltac xor_tac :=
  apply Z.bits_inj'; intros ? ?; rewrite ?Z.lxor_spec, ?Z.bits_0;
  repeat match goal with |- context [Z.testbit ?a ?n] => destruct (Z.testbit a n) end;
  reflexivity.

Lemma bits_above z w m : 0 ≤ z < 2 ^ w → 0 ≤ w ≤ m → Z.testbit z m = false.
Proof.
  intros Hz Hm. rewrite <-(Z.mod_small z (2 ^ w)) by done. apply Z.mod_pow2_bits_high. lia.
Qed.

Lemma bits_bound z w : 0 ≤ w → 0 ≤ z → (∀ m, w ≤ m → Z.testbit z m = false) → z < 2 ^ w.
Proof.
  intros Hw Hz Hb. destruct (decide (z = 0)) as [->|]; [apply Z.pow_pos_nonneg; lia|].
  apply Z.log2_lt_pow2; [lia|]. apply Z.nle_gt. intros Hge.
  specialize (Hb _ Hge). by rewrite Z.bit_log2 in Hb by lia.
Qed.

Lemma lxor_range a b w : 0 ≤ w → 0 ≤ a < 2 ^ w → 0 ≤ b < 2 ^ w → 0 ≤ Z.lxor a b < 2 ^ w.
Proof.
  intros Hw Ha Hb. assert (0 ≤ Z.lxor a b) by (apply Z.lxor_nonneg; lia). split; [done|].
  apply bits_bound; [done|done|]. intros m Hm.
  by rewrite Z.lxor_spec, (bits_above a w), (bits_above b w) by lia.
Qed.

Lemma in_i32_true z : in_i32 z = true ↔ i32_min ≤ z ≤ i32_max.
Proof. unfold in_i32. rewrite andb_true_iff, !Z.leb_le. done. Qed.

(** ** Lists *)

Lemma existsb_none {A} (f : A → bool) l : (∀ x, x ∈ l → f x = false) → existsb f l = false.
Proof.
  intros H. apply not_true_iff_false. intros (x & Hx%list_elem_of_In & Hf)%existsb_exists. by rewrite H in Hf.
Qed.

Lemma filter_every {A} (P : A → Prop) `{∀ x, Decision (P x)} l : Forall P l → filter P l = l.
Proof. induction 1 as [|x l Hx _ IH]; [done|]. by rewrite filter_cons_True, IH. Qed.
Lemma filter_no {A} (P : A → Prop) `{∀ x, Decision (P x)} l : Forall (λ x, ¬ P x) l → filter P l = [].
Proof. induction 1 as [|x l Hx _ IH]; [done|]. by rewrite filter_cons_False. Qed.

(** ** Decimal text

    [format!("{}", n)] and [n.to_string()] for an integer, and [str::parse::<i32>()]. *)

Definition show_Z (z : Z) : string := NilZero.string_of_int (Z.to_int z).

Definition parse_Z (s : string) : option Z :=
  match s with
  | String "+"%char rest => Z.of_uint <$> NilZero.uint_of_string rest
  | _ => Z.of_int <$> NilZero.int_of_string s
  end.

Definition parse_i32 (s : string) : option Z :=
  z ← parse_Z s; i32_checked z.

Lemma to_int_not_nil z : Z.to_int z ≠ Decimal.Pos Decimal.Nil ∧ Z.to_int z ≠ Decimal.Neg Decimal.Nil.
Proof.
  destruct z as [|p|p]; simpl; split; try done.
  - intros [= H]. by destruct (DecimalPos.Unsigned.to_uint_nonnil p).
  - intros [= H]. by destruct (DecimalPos.Unsigned.to_uint_nonnil p).
Qed.

Definition digit_char (a : ascii) : bool :=
  let n := N_of_ascii a in (48 <=? n)%N && (n <=? 57)%N.

Definition int_char (a : ascii) : bool := digit_char a || Ascii.eqb a "-"%char.

Fixpoint all_chars (p : ascii → bool) (s : string) : bool :=
  match s with
  | EmptyString => true
  | String a s' => p a && all_chars p s'
  end.

Lemma string_of_uint_digits d : all_chars digit_char (NilEmpty.string_of_uint d) = true.
Proof. induction d; simpl; done. Qed.

Lemma all_chars_weaken (p q : ascii → bool) s :
  (∀ a, p a = true → q a = true) → all_chars p s = true → all_chars q s = true.
Proof.
  intros Hpq. induction s as [|a s IH]; simpl; [done|].
  rewrite !andb_true_iff. intros [??]. auto.
Qed.

Lemma nz_string_of_uint_digits d : all_chars digit_char (NilZero.string_of_uint d) = true.
Proof. destruct d; try apply string_of_uint_digits. done. Qed.

Lemma show_Z_chars z : all_chars int_char (show_Z z) = true.
Proof.
  assert (∀ d, all_chars int_char (NilZero.string_of_uint d) = true) as Hd.
  { intros d. eapply all_chars_weaken, nz_string_of_uint_digits.
    unfold int_char. by intros a ->. }
  unfold show_Z. destruct (Z.to_int z); simpl; auto.
Qed.

Lemma show_Z_cons z : ∃ a s, show_Z z = String a s ∧ int_char a = true.
Proof.
  pose proof (show_Z_chars z) as Hc.
  destruct (show_Z z) as [|a s] eqn:E; simpl in Hc.
  - exfalso. unfold show_Z in E. destruct (Z.to_int z) as [[]|]; simpl in E; discriminate.
  - apply andb_true_iff in Hc as [??]. eauto.
Qed.

Lemma parse_show_Z z : parse_Z (show_Z z) = Some z.
Proof.
  destruct (show_Z_cons z) as (a & s & E & Ha).
  assert (parse_Z (show_Z z) = Z.of_int <$> NilZero.int_of_string (show_Z z)) as ->.
  { rewrite E. unfold parse_Z. destruct a as [[] [] [] [] [] [] [] []]; done. }
  unfold show_Z. destruct (to_int_not_nil z) as [Hp Hn].
  rewrite NilZero.isi by done. simpl. by rewrite DecimalZ.of_to.
Qed.

#[global] Instance show_Z_inj : Inj (=) (=) show_Z.
Proof. intros x y H. apply (f_equal parse_Z) in H. rewrite !parse_show_Z in H. congruence. Qed.

Lemma parse_show_i32 z : in_i32 z = true → parse_i32 (show_Z z) = Some z.
Proof. intros H. unfold parse_i32. rewrite parse_show_Z. simpl. unfold i32_checked. by rewrite H. Qed.

Lemma app_sep_inj (p : ascii → bool) c (x y r r' : string) :
  all_chars p x = true → all_chars p y = true → p c = false →
  x +:+ String c r = y +:+ String c r' → x = y ∧ r = r'.
Proof.
  intros Hx Hy Hc. revert y Hy. induction x as [|a x IH]; intros [|b y] Hy; simpl in *.
  - by intros [= ->].
  - intros [= -> _]. apply andb_true_iff in Hy as [Hy _]. congruence.
  - intros [= -> _]. apply andb_true_iff in Hx as [Hx _]. congruence.
  - apply andb_true_iff in Hx as [_ Hx], Hy as [_ Hy].
    intros [= -> H]. by destruct (IH Hx y Hy H) as [-> ->].
Qed.

Lemma show_Z_sep_inj c a b r r' :
  int_char c = false →
  show_Z a +:+ String c r = show_Z b +:+ String c r' → a = b ∧ r = r'.
Proof.
  intros Hc H. apply (app_sep_inj int_char) in H as [H ->]; auto using show_Z_chars.
  apply (inj show_Z) in H. done.
Qed.

(** ** The state monad

    Stateful and asynchronous code is a function [S → A * S]: an [.await] that
    returns a value of type [A] is a bind. *)

Definition St (S A : Type) : Type := S → A * S.

#[global] Instance St_ret {S} : MRet (St S) := λ A a s, (a, s).
#[global] Instance St_bind {S} : MBind (St S) := λ A B f m s, let '(a, s') := m s in f a s'.

Definition st_get {S} : St S S := λ s, (s, s).
Definition st_put {S} (s : S) : St S unit := λ _, (tt, s).
Definition st_modify {S} (f : S → S) : St S unit := λ s, (tt, f s).
Definition when {S} (b : bool) (m : St S unit) : St S unit := if b then m else mret tt.

(** [for x in l { body }]. *)
Fixpoint for_each {S A} (l : list A) (body : A → St S unit) : St S unit :=
  match l with
  | [] => mret tt
  | x :: l' => body x ;; for_each l' body
  end.

(** [for x in l { body }] with a local mutable variable [acc]. *)
Fixpoint for_fold {S A B} (l : list A) (acc : B) (body : B → A → St S B) : St S B :=
  match l with
  | [] => mret acc
  | x :: l' => acc' ← body acc x; for_fold l' acc' body
  end.

(** Results: [inr] is an error.  [and_then] is [?], [or_err] is [map_err] or [ok_or_else]
    of a computation whose [None] stands for the error. *)
Definition and_then {S A B E} (m : St S (A + E)) (f : A → St S (B + E)) : St S (B + E) :=
  r ← m; match r with inl a => f a | inr e => mret (inr e) end.
Definition or_err {S A E} (e : E) (m : St S (option A)) : St S (A + E) :=
  r ← m; mret (match r with Some a => inl a | None => inr e end).
Definition check {S E} (b : bool) (e : E) : St S (unit + E) := mret (if b then inl tt else inr e).
Notation "x ←? m ; k" := (and_then m (λ x, k)) (at level 20, m at level 100, k at level 200, right associativity).

(** A computation over one component of a larger state. *)
Definition zoom {S T A} (get : T → S) (put : S → T → T) (m : St S A) : St T A :=
  λ t, let '(a, s') := m (get t) in (a, put s' t).

(** Hoare triples; [keeps P m] is the triple whose pre- and postcondition is [P]. *)
Definition hoare {S A} (P : S → Prop) (m : St S A) (Q : A → S → Prop) : Prop :=
  ∀ s, P s → Q (m s).1 (m s).2.

Definition keeps {S A} (P : S → Prop) (m : St S A) : Prop := hoare P m (λ _, P).

Create HintDb keeps.

Section hoare.
Context {S : Type}.
Implicit Types (P : S → Prop).

Lemma hoare_ret {A} P (a : A) (Q : A → S → Prop) :
  (∀ s, P s → Q a s) → hoare P (mret a) Q.
Proof. intros H s Hs. by apply H. Qed.

Lemma hoare_bind {A B} P (Q : A → S → Prop) (R : B → S → Prop) (m : St S A) (f : A → St S B) :
  hoare P m Q → (∀ a, hoare (Q a) (f a) R) → hoare P (m ≫= f) R.
Proof.
  intros Hm Hf s Hs. specialize (Hm s Hs). unfold mbind, St_bind.
  destruct (m s) as [a s'] eqn:E. simpl in *. by apply Hf.
Qed.

Lemma hoare_conseq {A} (P P' : S → Prop) (Q Q' : A → S → Prop) (m : St S A) :
  (∀ s, P' s → P s) → (∀ a s, Q a s → Q' a s) → hoare P m Q → hoare P' m Q'.
Proof. intros HP HQ Hm s Hs. by apply HQ, Hm, HP. Qed.

Lemma hoare_pure {A} (φ : Prop) P (m : St S A) (Q : A → S → Prop) :
  (φ → hoare P m Q) → hoare (λ s, φ ∧ P s) m Q.
Proof. intros H s [Hφ Hs]. by apply H. Qed.

Lemma hoare_st_get {A} P (f : S → St S A) (Q : A → S → Prop) :
  (∀ s, P s → hoare P (f s) Q) → hoare P (st_get ≫= f) Q.
Proof. intros H s Hs. by apply (H s Hs). Qed.

Lemma keeps_ret {A} P (a : A) : keeps P (mret a : St S A).
Proof. by apply hoare_ret. Qed.

Lemma keeps_bind {A B} P (m : St S A) (f : A → St S B) :
  keeps P m → (∀ a, keeps P (f a)) → keeps P (m ≫= f).
Proof. apply hoare_bind. Qed.

Lemma keeps_and_then {A B E} P (m : St S (A + E)) (f : A → St S (B + E)) :
  keeps P m → (∀ a, keeps P (f a)) → keeps P (and_then m f).
Proof. intros Hm Hf. apply keeps_bind; [exact Hm|]. intros [a|e]; [apply Hf|apply keeps_ret]. Qed.

Lemma keeps_or_err {A E} P (e : E) (m : St S (option A)) : keeps P m → keeps P (or_err e m).
Proof. intros Hm. apply keeps_bind; [exact Hm|]. intros o. apply keeps_ret. Qed.

Lemma keeps_check {E} P b (e : E) : keeps P (check b e : St S (unit + E)).
Proof. apply keeps_ret. Qed.

(** One step of a run. *)
Lemma bind_step {A B} (m : St S A) (f : A → St S B) s a s' : m s = (a, s') → (m ≫= f) s = f a s'.
Proof. intros H. unfold mbind, St_bind. by rewrite H. Qed.

Lemma and_then_step {A B E} (m : St S (A + E)) (f : A → St S (B + E)) s a s' :
  m s = (inl a, s') → and_then m f s = f a s'.
Proof. intros H. unfold and_then. by rewrite (bind_step _ _ _ _ _ H). Qed.

Lemma or_err_step {A E} (e : E) (m : St S (option A)) s a s' : m s = (Some a, s') → or_err e m s = (inl a, s').
Proof. intros H. unfold or_err. by rewrite (bind_step _ _ _ _ _ H). Qed.

Lemma keeps_for_each {A} P (l : list A) (body : A → St S unit) :
  (∀ x, x ∈ l → keeps P (body x)) → keeps P (for_each l body).
Proof.
  induction l as [|x l IH]; intros H; simpl; [apply keeps_ret|].
  apply keeps_bind; [apply H; left|]. intros _. apply IH. intros y Hy. apply H. by right.
Qed.

Lemma keeps_for_fold {A B} P (l : list A) (acc : B) (body : B → A → St S B) :
  (∀ b x, x ∈ l → keeps P (body b x)) → keeps P (for_fold l acc body).
Proof.
  revert acc. induction l as [|x l IH]; intros acc H; simpl; [apply keeps_ret|].
  apply keeps_bind; [apply H; left|]. intros b. apply IH. intros b' y Hy. apply H. by right.
Qed.

Lemma keeps_if {A} P (b : bool) (m1 m2 : St S A) :
  keeps P m1 → keeps P m2 → keeps P (if b then m1 else m2).
Proof. by destruct b. Qed.

Lemma keeps_when P b (m : St S unit) : keeps P m → keeps P (when b m).
Proof. intros H. destruct b; [exact H|apply keeps_ret]. Qed.
End hoare.

#[export] Hint Resolve keeps_ret keeps_if keeps_when keeps_check : keeps.

(** [keeps_tac]: walk through a program text with the rules above, splitting on
    every branch, and close the leaves with the [keeps] hints. *)
Ltac keeps_step :=
  match goal with
  | |- hoare ?P ?m (λ _, ?P) => change (keeps P m)
  | |- keeps _ (mbind _ _) => apply keeps_bind; [|intros ?]
  | |- keeps _ (and_then _ _) => apply keeps_and_then; [|intros ?]
  | |- keeps _ (or_err _ _) => apply keeps_or_err
  | |- keeps _ (when _ _) => apply keeps_when
  | |- keeps _ (for_each _ _) => apply keeps_for_each; intros ? ?
  | |- keeps _ (for_fold _ _ _) => apply keeps_for_fold; intros ? ? ?
  | |- keeps _ (mret _) => apply keeps_ret
  | |- keeps _ (match ?x with _ => _ end) => destruct x
  | |- keeps _ (let '_ := ?x in _) => destruct x
  end.
Ltac keeps_tac := repeat first [ solve [eauto with keeps] | keeps_step ].

(** ** JSON values ([serde_json::Value]) *)

#[warnings="-register-all"]
Inductive json : Type :=
  | JNull
  | JBool (b : bool)
  | JNum (n : Z)
  | JFloat (text : string)
  | JStr (s : string)
  | JArr (l : list json)
  | JObj (fields : list (string * json)).

(** [value[key]] and [value.get(key)]; a missing key, or a value that is not an
    object, reads as [None] ([Value::Null] for the indexing form). *)
Fixpoint assoc {A} (k : string) (l : list (string * A)) : option A :=
  match l with
  | [] => None
  | (k', v) :: l' => if decide (k = k') then Some v else assoc k l'
  end.

Definition jget (k : string) (j : json) : option json :=
  match j with JObj l => assoc k l | _ => None end.
Definition jindex (k : string) (j : json) : json := default JNull (jget k j).

Definition as_i64 (j : json) : option Z :=
  match j with JNum n => if (- 2 ^ 63 <=? n) && (n <? 2 ^ 63) then Some n else None | _ => None end.
Definition as_str (j : json) : option string := match j with JStr s => Some s | _ => None end.
Definition as_array (j : json) : option (list json) := match j with JArr l => Some l | _ => None end.

(** Values [serde_json] prints and reads back unchanged: integers in the range of
    [i64] or [u64], objects without a repeated key, and a nesting (here at most 16) far
    below the recursion limit of its parser. *)
Fixpoint json_ok_at (d : nat) (j : json) : bool :=
  match j with
  | JNum n => (- 2 ^ 63 <=? n) && (n <? 2 ^ 64)
  | JFloat _ => false
  | JArr l => match d with O => false | S d => forallb (json_ok_at d) l end
  | JObj l =>
      match d with
      | O => false
      | S d => bool_decide (NoDup (map fst l)) && forallb (λ kv, json_ok_at d kv.2) l
      end
  | _ => true
  end.

Definition json_ok : json → bool := json_ok_at 16.

(** [serde_json::to_string] and [serde_json::from_str]: third-party code, used here
    through the round trip alone. *)
Class JsonText := {
  json_print : json → string;
  json_parse : string → option json;
  json_parse_print : ∀ j, json_ok j = true → json_parse (json_print j) = Some j
}.

Lemma as_i64_i32 z : in_i32 z = true → as_i64 (JNum z) = Some z.
Proof.
  rewrite in_i32_true. intros Hz. unfold i32_min, i32_max in Hz. simpl.
  destruct (_ && _) eqn:E; [done|]. exfalso.
  apply andb_false_iff in E as [E|E]; [apply Z.leb_gt in E|apply Z.ltb_ge in E]; lia.
Qed.
