(* ===== verification/Text.v ===== *)
(** * Text: the string functions of the Rust standard library the code calls

    Strings are sequences of bytes holding UTF-8 text, as a Rust [String] does. *)

From Stdlib Require Import Ascii.
From S2P Require Import Prelude.

Definition ascii_lower (a : ascii) : ascii :=
  let n := N_of_ascii a in
  if (65 <=? n)%N && (n <=? 90)%N then ascii_of_N (n + 32) else a.

Fixpoint string_lower (s : string) : string :=
  match s with
  | EmptyString => EmptyString
  | String a s' => String (ascii_lower a) (string_lower s')
  end.

(** [str::eq_ignore_ascii_case]. *)
Definition eq_ignore_ascii_case (s t : string) : bool :=
  bool_decide (string_lower s = string_lower t).

(** The UTF-8 encodings of the characters of Unicode's [White_Space], which
    [str::trim] removes: one, two or three bytes long. *)
Definition ws1 (a : N) : bool := ((9 <=? a) && (a <=? 13) || (a =? 32))%N.
Definition ws2 (a b : N) : bool := ((a =? 194) && ((b =? 133) || (b =? 160)))%N.
Definition ws3 (a b c : N) : bool :=
  ((a =? 225) && (b =? 154) && (c =? 128)
   || (a =? 226) && (b =? 128) &&
        ((128 <=? c) && (c <=? 138) || (c =? 168) || (c =? 169) || (c =? 175))
   || (a =? 226) && (b =? 129) && (c =? 159)
   || (a =? 227) && (b =? 128) && (c =? 128))%N.

Fixpoint trim_start_bytes (l : list ascii) : list ascii :=
  match l with
  | a :: l1 =>
      if ws1 (N_of_ascii a) then trim_start_bytes l1 else
      match l1 with
      | b :: l2 =>
          if ws2 (N_of_ascii a) (N_of_ascii b) then trim_start_bytes l2 else
          match l2 with
          | c :: l3 =>
              if ws3 (N_of_ascii a) (N_of_ascii b) (N_of_ascii c) then trim_start_bytes l3 else l
          | [] => l
          end
      | [] => l
      end
  | [] => []
  end.

(** The same on the reversed bytes, for the end of the string. *)
Fixpoint trim_end_bytes (l : list ascii) : list ascii :=
  match l with
  | a :: l1 =>
      if ws1 (N_of_ascii a) then trim_end_bytes l1 else
      match l1 with
      | b :: l2 =>
          if ws2 (N_of_ascii b) (N_of_ascii a) then trim_end_bytes l2 else
          match l2 with
          | c :: l3 =>
              if ws3 (N_of_ascii c) (N_of_ascii b) (N_of_ascii a) then trim_end_bytes l3 else l
          | [] => l
          end
      | [] => l
      end
  | [] => []
  end.

(** [trim_end_matches('/')]. *)
Fixpoint trim_end_slashes (s : string) : string :=
  match s with
  | EmptyString => EmptyString
  | String a s' =>
      match trim_end_slashes s' with
      | EmptyString => if Ascii.eqb a "/" then EmptyString else String a EmptyString
      | t => String a t
      end
  end.

(** [str::trim]. *)
Definition trim (s : string) : string :=
  String.string_of_list_ascii (rev (trim_end_bytes (rev (trim_start_bytes (String.list_ascii_of_string s))))).

(** [str::is_empty]. *)
Definition is_empty (s : string) : bool := match s with EmptyString => true | _ => false end.

(** [str::strip_prefix]. *)
Fixpoint strip_prefix (p s : string) : option string :=
  match p, s with
  | EmptyString, _ => Some s
  | String a p', String b s' => if Ascii.eqb a b then strip_prefix p' s' else None
  | String _ _, EmptyString => None
  end.

(** [str::starts_with]. *)
Definition starts_with (p s : string) : bool := match strip_prefix p s with Some _ => true | None => false end.

(** [str::split(c)]: always at least one piece. *)
Fixpoint split_on (c : ascii) (s : string) : list string :=
  match s with
  | EmptyString => [EmptyString]
  | String a s' =>
      if Ascii.eqb a c then EmptyString :: split_on c s'
      else match split_on c s' with
           | p :: ps => String a p :: ps
           | [] => [String a EmptyString]
           end
  end.

(** *** Trimming twice *)

Definition starts_ws (l : list ascii) : bool :=
  match l with
  | a :: b :: c :: _ => ws1 (N_of_ascii a) || ws2 (N_of_ascii a) (N_of_ascii b) || ws3 (N_of_ascii a) (N_of_ascii b) (N_of_ascii c)
  | [a; b] => ws1 (N_of_ascii a) || ws2 (N_of_ascii a) (N_of_ascii b)
  | [a] => ws1 (N_of_ascii a)
  | [] => false
  end.
Definition ends_ws (l : list ascii) : bool :=
  match l with
  | a :: b :: c :: _ => ws1 (N_of_ascii a) || ws2 (N_of_ascii b) (N_of_ascii a) || ws3 (N_of_ascii c) (N_of_ascii b) (N_of_ascii a)
  | [a; b] => ws1 (N_of_ascii a) || ws2 (N_of_ascii b) (N_of_ascii a)
  | [a] => ws1 (N_of_ascii a)
  | [] => false
  end.

Lemma trim_start_stop l : starts_ws l = false → trim_start_bytes l = l.
Proof.
  destruct l as [|a [|b [|c l]]]; simpl; [done|..]; rewrite ?orb_false_iff;
    [intros ->|intros [-> ->]|intros [[-> ->] ->]]; done.
Qed.
Lemma trim_end_stop l : ends_ws l = false → trim_end_bytes l = l.
Proof.
  destruct l as [|a [|b [|c l]]]; simpl; [done|..]; rewrite ?orb_false_iff;
    [intros ->|intros [-> ->]|intros [[-> ->] ->]]; done.
Qed.

Lemma trim_start_cases l : starts_ws l = false ∧ trim_start_bytes l = l ∨
  ∃ p l', p ≠ [] ∧ l = p ++ l' ∧ trim_start_bytes l = trim_start_bytes l'.
Proof.
  destruct (starts_ws l) eqn:E; [right|left; split; [done|by apply trim_start_stop]]. destruct l as [|a l1]; [done|].
  cbn [trim_start_bytes]. destruct (ws1 _) eqn:E1; [by exists [a], l1|].
  destruct l1 as [|b l2]; [by simpl in E; rewrite E1 in E|]. destruct (ws2 _ _) eqn:E2; [by exists [a; b], l2|].
  destruct l2 as [|c l3]; [by simpl in E; rewrite E1, E2 in E|]. simpl in E. rewrite E1, E2 in E. simpl in E. rewrite E. by exists [a; b; c], l3.
Qed.
Lemma trim_end_cases l : ends_ws l = false ∧ trim_end_bytes l = l ∨
  ∃ p l', p ≠ [] ∧ l = p ++ l' ∧ trim_end_bytes l = trim_end_bytes l'.
Proof.
  destruct (ends_ws l) eqn:E; [right|left; split; [done|by apply trim_end_stop]]. destruct l as [|a l1]; [done|].
  cbn [trim_end_bytes]. destruct (ws1 _) eqn:E1; [by exists [a], l1|].
  destruct l1 as [|b l2]; [by simpl in E; rewrite E1 in E|]. destruct (ws2 _ _) eqn:E2; [by exists [a; b], l2|].
  destruct l2 as [|c l3]; [by simpl in E; rewrite E1, E2 in E|]. simpl in E. rewrite E1, E2 in E. simpl in E. rewrite E. by exists [a; b; c], l3.
Qed.

Lemma trim_start_starts l : starts_ws (trim_start_bytes l) = false.
Proof.
  remember (length l) as n eqn:Hn. revert l Hn. induction n as [n IH] using lt_wf_ind. intros l ->.
  destruct (trim_start_cases l) as [[? ->]|(p & l' & Hp & -> & ->)]; [done|]. apply (IH (length l')); [|done].
  rewrite length_app. destruct p; [done|simpl; lia].
Qed.
Lemma trim_end_ends l : ends_ws (trim_end_bytes l) = false ∧ ∃ k, l = k ++ trim_end_bytes l.
Proof.
  remember (length l) as n eqn:Hn. revert l Hn. induction n as [n IH] using lt_wf_ind. intros l ->.
  destruct (trim_end_cases l) as [[? ->]|(p & l' & Hp & -> & ->)]; [by split; [|exists []]|].
  destruct (IH (length l')) with (l := l') as [H [k Hk]]; [rewrite length_app; destruct p; [done|simpl; lia]|done|].
  split; [done|]. exists (p ++ k). by rewrite <-app_assoc, <-Hk.
Qed.

Lemma starts_ws_prefix l k : starts_ws (l ++ k) = false → starts_ws l = false.
Proof.
  destruct l as [|a [|b [|c l]]]; simpl; [done|..]; destruct k as [|x [|y k]]; simpl; rewrite ?orb_false_iff; tauto.
Qed.

Lemma trim_trim s : trim (trim s) = trim s.
Proof.
  unfold trim. set (x := trim_start_bytes (String.list_ascii_of_string s)). rewrite String.list_ascii_of_string_of_list_ascii.
  pose proof (trim_start_starts (String.list_ascii_of_string s)) as Hx. fold x in Hx.
  destruct (trim_end_ends (rev x)) as [Hy [k Hk]]. set (y := trim_end_bytes (rev x)) in *.
  assert (x = rev y ++ rev k) as E by (by rewrite <-rev_app_distr, <-Hk, rev_involutive).
  rewrite E in Hx. apply starts_ws_prefix in Hx. rewrite (trim_start_stop _ Hx), rev_involutive, (trim_end_stop _ Hy). done.
Qed.

Lemma strip_prefix_app p s : strip_prefix p (p +:+ s) = Some s.
Proof. induction p as [|a p IH]; simpl; [done|]. by rewrite Ascii.eqb_refl. Qed.

Lemma string_app_cons x (a b : string) : String x a +:+ b = String x (a +:+ b).
Proof. reflexivity. Qed.

Lemma string_app_assoc (a b c : string) : (a +:+ b) +:+ c = a +:+ (b +:+ c).
Proof. induction a as [|x a IH]; [done|]. rewrite !string_app_cons. by rewrite IH. Qed.

Lemma string_app_nil_r (a : string) : a +:+ EmptyString = a.
Proof. induction a as [|x a IH]; [done|]. rewrite string_app_cons. by rewrite IH. Qed.

Lemma string_app_inj_l (a b c : string) : a +:+ b = a +:+ c → b = c.
Proof. induction a as [|x a IH]; [done|]. rewrite !string_app_cons. intros [= H]. auto. Qed.

Example trim_ascii : trim "  Pune "%string = "Pune"%string.
Proof. reflexivity. Qed.
Example split_room : split_on ":" "room:17"%string = ["room"; "17"]%string.
Proof. reflexivity. Qed.

(** [jsonwebtoken::decode] with a secret, third-party code: the subject of the claims,
    [None] when the token is invalid. *)
Class TokenDecoder := { decode_sub : string → string → option string }.

Lemma strip_prefix_some p s r : strip_prefix p s = Some r → s = p +:+ r.
Proof.
  revert s. induction p as [|a p IH]; intros s; simpl; [by intros [= ->]|]. destruct s as [|b s]; [done|].
  destruct (Ascii.eqb_spec a b) as [->|]; [|done]. intros H. rewrite string_app_cons. by rewrite (IH _ H).
Qed.
