(* ===== verification/Keys.v ===== *)
(** * Keys: the registry of Redis keys ([packages/redis-conn/src/keys.rs])

    Every key the services use, as the strings the format macros build, and the
    facts the other components need: the families of keys are injective and pairwise
    disjoint. *)

From Stdlib Require Import Ascii.
From S2P Require Import Prelude Text.

#[local] Open Scope string_scope.

(** ** Response caches *)

Definition cache_show_key (mongo_show_id : string) : string := "cache:show:" +:+ mongo_show_id.
Definition cache_schedule_key (schedule_id : Z) : string := "cache:schedule:" +:+ show_Z schedule_id.
Definition cache_schedule_total_seats_key (schedule_id : Z) : string :=
  "cache:schedule:" +:+ show_Z schedule_id +:+ ":seats:total".
Definition cache_schedule_available_seats_key (schedule_id : Z) : string :=
  "cache:schedule:" +:+ show_Z schedule_id +:+ ":seats:available".

(** The city filter shared by the keys: trimmed, and dropped when blank or ["All"]. *)
Definition city_filter (city : option string) : option string :=
  match city with
  | Some c =>
      let c := trim c in
      if negb (is_empty c) && negb (eq_ignore_ascii_case c "All") then Some c else None
  | None => None
  end.

Definition cache_show_schedules_key (mongo_show_id : string) (city : option string) : string :=
  let city := match city_filter city with Some c => c | None => "all" end in
  "cache:show:" +:+ mongo_show_id +:+ ":schedules:city:" +:+ city.

Definition cache_schedules_active_key : string := "cache:schedules:active".

Definition CACHE_SHOWS : string := "cache:shows:all:v2".
Definition CACHE_DASHBOARD_GRID : string := "cache:dashboard:grid:v2".
Definition MOVIES_ALL : string := "cache:movies:all:v2".

Definition cache_movies_key (show_type city : option string) : string :=
  let key := MOVIES_ALL in
  let key := match show_type with
             | Some st => if negb (eq_ignore_ascii_case st "All") then key +:+ ":" +:+ st else key
             | None => key
             end in
  match city_filter city with
  | Some c => key +:+ ":city:" +:+ c
  | None => key
  end.

Definition TTL_24_HOURS : Z := 24 * 60 * 60.
Definition TTL_SHOWS : Z := TTL_24_HOURS.
Definition TTL_MOVIES_ALL : Z := TTL_24_HOURS.
Definition TTL_SHOW_SCHEDULES : Z := TTL_24_HOURS.
Definition TTL_DASHBOARD_GRID : Z := TTL_24_HOURS.
Definition TTL_SCHEDULE_SEAT_COUNTS : Z := TTL_SHOW_SCHEDULES.

Definition movie_detail (id : Z) : string := "cache:movie:" +:+ show_Z id +:+ ":detail".
Definition TTL_MOVIE_DETAIL : Z := 600.
Definition movie_showtimes (movie_id : Z) : string := "cache:movie:" +:+ show_Z movie_id +:+ ":showtimes".
Definition TTL_MOVIE_SHOWTIMES : Z := 300.
Definition showtime_seats (showtime_id : Z) : string := "cache:showtime:" +:+ show_Z showtime_id +:+ ":seats".
Definition TTL_SHOWTIME_SEATS : Z := 60.
Definition ADMIN_STATS : string := "cache:admin:stats".
Definition TTL_ADMIN_STATS : Z := 60.

(** ** Seat state *)

(** [format!("{{{}}}:seats_bitmap", schedule_id)]: a doubled brace prints one. *)
Definition schedule_seat_bitmap (schedule_id : Z) : string :=
  "{" +:+ show_Z schedule_id +:+ "}:seats_bitmap".
Definition seat_lock_key (schedule_id seat_id : Z) : string :=
  show_Z schedule_id +:+ ":" +:+ show_Z seat_id.
Definition seat_user_context_key (schedule_id seat_id user_id : Z) : string :=
  "seat_ctx:{" +:+ show_Z schedule_id +:+ "}:" +:+ show_Z seat_id +:+ ":" +:+ show_Z user_id.
(** [format!("{{{}}}:user:{}", showtime_id, user_id)] and [format!("{{{}}}:locks", showtime_id)],
    written at each use in [single_node_lock.rs] and [cluster_lock.rs]. *)
Definition user_zset_key (schedule_id user_id : Z) : string :=
  "{" +:+ show_Z schedule_id +:+ "}:user:" +:+ show_Z user_id.
Definition room_zset_key (schedule_id : Z) : string := "{" +:+ show_Z schedule_id +:+ "}:locks".
Definition seat_processing_queue_key : string := "cache:seat_processing:queue".
Definition seat_processing_stream_key : string := "cache:seat_processing:stream".
Definition seat_processing_stream_group : string := "seat-processing-group".
Definition seat_processing_queue_lock_key : string := "lock:seat_processing:queue".

(** ** Channels and markers *)

Definition room_channel (schedule_id : Z) : string := "room:" +:+ show_Z schedule_id.
Definition global_events_channel : string := "ws:global:events".
Definition schedule_lifecycle_channel : string := "schedule:lifecycle".
Definition schedule_closed_key (schedule_id : Z) : string := "schedule:closed:" +:+ show_Z schedule_id.
(** [format!("seat_checkout:{showtime_id}:{seat_id}")], written at each use. *)
Definition seat_checkout_key (schedule_id seat_id : Z) : string :=
  "seat_checkout:" +:+ show_Z schedule_id +:+ ":" +:+ show_Z seat_id.

(** ** Separation of the key families *)

Lemma seat_lock_key_inj s t s' t' :
  seat_lock_key s t = seat_lock_key s' t' → s = s' ∧ t = t'.
Proof.
  unfold seat_lock_key. intros H. simpl in H. apply show_Z_sep_inj in H as [-> H]; [|done].
  by apply (inj show_Z) in H as ->.
Qed.

(** A lock key starts with a digit or a minus sign. *)
Lemma seat_lock_key_head s t a r : seat_lock_key s t = String a r → int_char a = true.
Proof.
  unfold seat_lock_key. destruct (show_Z_cons s) as (b & x & -> & Hb). simpl. by intros [= <- _].
Qed.

Lemma seat_lock_key_ne s t a r : int_char a = false → seat_lock_key s t ≠ String a r.
Proof. intros Ha H. apply seat_lock_key_head in H. congruence. Qed.

Lemma seat_user_context_key_inj s t u s' t' u' :
  seat_user_context_key s t u = seat_user_context_key s' t' u' → s = s' ∧ t = t' ∧ u = u'.
Proof.
  unfold seat_user_context_key. intros H. apply string_app_inj_l in H. simpl in H.
  apply show_Z_sep_inj in H as [-> H]; [|done]. simplify_eq/=.
  apply show_Z_sep_inj in H as [-> H]; [|done]. by apply (inj show_Z) in H as ->.
Qed.

Lemma seat_checkout_key_inj s t s' t' :
  seat_checkout_key s t = seat_checkout_key s' t' → s = s' ∧ t = t'.
Proof. unfold seat_checkout_key. intros H. apply string_app_inj_l in H. by apply seat_lock_key_inj in H. Qed.

Lemma schedule_seat_bitmap_inj s s' : schedule_seat_bitmap s = schedule_seat_bitmap s' → s = s'.
Proof.
  unfold schedule_seat_bitmap. intros H. apply string_app_inj_l in H.
  by apply show_Z_sep_inj in H as [-> _].
Qed.

Lemma user_zset_key_inj s u s' u' : user_zset_key s u = user_zset_key s' u' → s = s' ∧ u = u'.
Proof.
  unfold user_zset_key. intros H. apply string_app_inj_l in H. simpl in H.
  apply show_Z_sep_inj in H as [-> H]; [|done]. by simplify_eq/=.
Qed.

Lemma schedule_closed_key_inj s s' : schedule_closed_key s = schedule_closed_key s' → s = s'.
Proof. unfold schedule_closed_key. intros H. apply string_app_inj_l in H. by apply (inj show_Z) in H. Qed.

(** One constructor per family of keys whose members name live state. *)
Inductive redis_key : Type :=
  | KLock (schedule_id seat_id : Z)
  | KContext (schedule_id seat_id user_id : Z)
  | KBitmap (schedule_id : Z)
  | KUserZset (schedule_id user_id : Z)
  | KRoomZset (schedule_id : Z)
  | KQueue
  | KCheckout (schedule_id seat_id : Z)
  | KClosed (schedule_id : Z)
  | KSchedule (schedule_id : Z)
  | KTotalSeats (schedule_id : Z)
  | KAvailableSeats (schedule_id : Z).

Definition key_text (k : redis_key) : string :=
  match k with
  | KLock s t => seat_lock_key s t
  | KContext s t u => seat_user_context_key s t u
  | KBitmap s => schedule_seat_bitmap s
  | KUserZset s u => user_zset_key s u
  | KRoomZset s => room_zset_key s
  | KQueue => seat_processing_queue_key
  | KCheckout s t => seat_checkout_key s t
  | KClosed s => schedule_closed_key s
  | KSchedule s => cache_schedule_key s
  | KTotalSeats s => cache_schedule_total_seats_key s
  | KAvailableSeats s => cache_schedule_available_seats_key s
  end.

Lemma all_chars_app p s t : all_chars p (s +:+ t) = all_chars p s && all_chars p t.
Proof.
  induction s as [|a s IH]; [done|]. rewrite string_app_cons. simpl. by rewrite IH, andb_assoc.
Qed.

Lemma show_Z_ne_colon a b r : show_Z a ≠ show_Z b +:+ String ":" r.
Proof.
  intros H. pose proof (show_Z_chars a) as Hc. rewrite H, all_chars_app in Hc.
  apply andb_true_iff in Hc as [_ Hc]. done.
Qed.

(** Close a goal [key_text k ≠ key_text k'] for two different families. *)
Ltac key_clash :=
  let H := fresh in
  intros H; cbn [key_text] in H;
  first
    [ by apply seat_lock_key_ne in H | by (symmetry in H; apply seat_lock_key_ne in H)
    | discriminate H
    | (apply string_app_inj_l in H;
       first [ by apply show_Z_sep_inj in H as [_ H] | by apply show_Z_ne_colon in H
             | by (symmetry in H; apply show_Z_ne_colon in H) ]) ].

#[export] Instance key_text_inj : Inj (=) (=) key_text.
Proof.
  intros k k' H.
  destruct k, k';
    try reflexivity;
    try (exfalso; revert H; key_clash; fail);
    cbn [key_text] in H.
  - by apply seat_lock_key_inj in H as [-> ->].
  - by apply seat_user_context_key_inj in H as (-> & -> & ->).
  - by apply schedule_seat_bitmap_inj in H as ->.
  - by apply user_zset_key_inj in H as [-> ->].
  - apply string_app_inj_l in H. by apply show_Z_sep_inj in H as [-> _].
  - by apply seat_checkout_key_inj in H as [-> ->].
  - by apply schedule_closed_key_inj in H as ->.
  - apply string_app_inj_l in H. by apply (inj show_Z) in H as ->.
  - apply string_app_inj_l in H. by apply show_Z_sep_inj in H as [-> _].
  - apply string_app_inj_l in H. by apply show_Z_sep_inj in H as [-> _].
Qed.

(** [key_ne] proves that two keys differ, from the families or from the ids. *)
Ltac key_reify t :=
  lazymatch t with
  | seat_lock_key ?s ?x => constr:(KLock s x)
  | seat_user_context_key ?s ?x ?u => constr:(KContext s x u)
  | schedule_seat_bitmap ?s => constr:(KBitmap s)
  | user_zset_key ?s ?u => constr:(KUserZset s u)
  | room_zset_key ?s => constr:(KRoomZset s)
  | seat_processing_queue_key => constr:(KQueue)
  | seat_checkout_key ?s ?x => constr:(KCheckout s x)
  | schedule_closed_key ?s => constr:(KClosed s)
  | cache_schedule_key ?s => constr:(KSchedule s)
  | cache_schedule_total_seats_key ?s => constr:(KTotalSeats s)
  | cache_schedule_available_seats_key ?s => constr:(KAvailableSeats s)
  end.
Ltac key_ne :=
  match goal with
  | |- ?a ≠ ?b =>
      let k := key_reify a in let k' := key_reify b in
      let H := fresh in
      intros H; apply (inj key_text k k') in H; simplify_eq; first [done | intuition congruence]
  end.

(** ** Properties *)

Lemma city_filter_not_all c : city_filter c ≠ Some "all".
Proof.
  unfold city_filter. destruct c as [c|]; [|done].
  destruct (negb (is_empty (trim c)) && _) eqn:E; [|done].
  intros [= H]. rewrite H in E. by vm_compute in E.
Qed.

(** Two live resources (seat locks, user contexts, bitmaps, sorted sets, checkout and
    closed markers, seat counters) never share a Redis key, whatever their ids,
    negative ids included. *)
Theorem keys_never_collide (k k' : redis_key) : key_text k = key_text k' ↔ k = k'.
Proof. split; [apply key_text_inj|by intros ->]. Qed.

(** The schedule list cache of a show is keyed by the effective city filter: two
    requests share an entry exactly when they filter by the same city, blank,
    ["All"] and absent cities being one filter. *)
Theorem show_schedules_key_by_city (id : string) (c c' : option string) :
  cache_show_schedules_key id c = cache_show_schedules_key id c' ↔ city_filter c = city_filter c'.
Proof.
  unfold cache_show_schedules_key. split; [|by intros ->].
  intros H. do 3 apply string_app_inj_l in H.
  pose proof (city_filter_not_all c). pose proof (city_filter_not_all c').
  destruct (city_filter c), (city_filter c'); congruence.
Qed.

(** The movie-list key does not separate its two parameters: a show type spelled
    ["city:X"] without a city reads and writes the cache entry of city [X]. *)
Theorem movies_key_confusion (x : string) :
  city_filter (Some x) = Some x →
  eq_ignore_ascii_case ("city:" +:+ x) "All" = false →
  cache_movies_key (Some ("city:" +:+ x)) None = cache_movies_key None (Some x).
Proof. intros Hx Ht. unfold cache_movies_key. by rewrite Hx, Ht. Qed.

Lemma movies_key_confusion_witness :
  cache_movies_key (Some "city:Pune") None = cache_movies_key None (Some "Pune")
  ∧ cache_movies_key None (Some "Pune") = "cache:movies:all:v2:city:Pune".
Proof. split; [apply (movies_key_confusion "Pune"); reflexivity | reflexivity]. Defined.
