(* ===== verification/Crc16.v ===== *)
(** * Crc16: the hash that places seats on Redis nodes

    [SingleNodeLock::crc16] ([packages/redis-conn/src/single_node_lock.rs]): CRC-16
    with the polynomial 0x1021, as the bit-by-bit loop on [u16] of the code, and its
    specification as a remainder of polynomials over GF(2). *)

From Stdlib Require Import Ascii.
From S2P Require Import Prelude.

(** One round of [for _ in 0..8]. *)
Definition crc16_round (crc : Z) : Z :=
  if negb (Z.land crc 0x8000 =? 0) then Z.lxor (u16 (Z.shiftl crc 1)) 0x1021
  else u16 (Z.shiftl crc 1).

Definition crc16_byte (crc byte : Z) : Z :=
  Nat.iter 8 crc16_round (Z.lxor crc (u16 (Z.shiftl byte 8))).

Definition crc16 (data : list Z) : Z := fold_left crc16_byte data 0.

(** [str::as_bytes]. *)
Definition as_bytes (s : string) : list Z :=
  map (λ a, Z.of_N (N_of_ascii a)) (String.list_ascii_of_string s).

(** The unit test of the source file. *)
Example crc16_check : crc16 (as_bytes "123456789") = 0x31C3.
Proof. reflexivity. Qed.

(** ** Specification: polynomials over GF(2) as the bits of an integer *)

Definition crc_poly : Z := 0x11021.

Fixpoint clmul_pos (q : positive) (p : Z) : Z :=
  match q with
  | xH => p
  | xO q' => Z.shiftl (clmul_pos q' p) 1
  | xI q' => Z.lxor p (Z.shiftl (clmul_pos q' p) 1)
  end.

(** Carry-less product. *)
Definition clmul (q p : Z) : Z := match q with Zpos q' => clmul_pos q' p | _ => 0 end.

(** The message as one big-endian integer. *)
Definition be_int (data : list Z) : Z := fold_left (λ m b, Z.lxor (Z.shiftl m 8) b) data 0.

(** [r] is the remainder of [m * x^16] by the CRC polynomial. *)
Definition crc_remainder (m r : Z) : Prop :=
  0 ≤ r < 2 ^ 16 ∧ ∃ q, 0 ≤ q ∧ Z.shiftl m 16 = Z.lxor (clmul q crc_poly) r.

Lemma clmul_double q p : 0 ≤ q → clmul (Z.shiftl q 1) p = Z.shiftl (clmul q p) 1.
Proof. destruct q; simpl; done. Qed.

Lemma clmul_double_add q p : 0 ≤ q → clmul (Z.lxor 1 (Z.shiftl q 1)) p = Z.lxor p (Z.shiftl (clmul q p) 1).
Proof. destruct q; simpl; try done. intros _. by rewrite Z.lxor_0_r. Qed.

Lemma land_8000 c : 0 ≤ c < 2 ^ 16 → (Z.land c 0x8000 =? 0) = negb (Z.testbit c 15).
Proof.
  intros Hc. change 0x8000 with (2 ^ 15). destruct (Z.testbit c 15) eqn:E; simpl.
  - apply Z.eqb_neq. intros H. assert (Z.testbit (Z.land c (2 ^ 15)) 15 = true) as Hb.
    { by rewrite Z.land_spec, E, Z.pow2_bits_true by lia. }
    by rewrite H in Hb.
  - apply Z.eqb_eq. apply Z.bits_inj'. intros n Hn. rewrite Z.land_spec, Z.bits_0.
    destruct (decide (n = 15)) as [->|]; [by rewrite E|].
    rewrite Z.pow2_bits_false by lia. apply andb_false_r.
Qed.

(** One round multiplies by [x] modulo the polynomial. *)
Lemma crc16_round_spec c : 0 ≤ c < 2 ^ 16 →
  0 ≤ crc16_round c < 2 ^ 16 ∧
  Z.shiftl c 1 = Z.lxor (if Z.testbit c 15 then crc_poly else 0) (crc16_round c).
Proof.
  intros Hc. unfold crc16_round. rewrite land_8000, negb_involutive by done.
  assert (u16 (Z.shiftl c 1) = if Z.testbit c 15 then Z.lxor (Z.shiftl c 1) (2 ^ 16) else Z.shiftl c 1) as Hu.
  { unfold u16, wrap_u. apply Z.bits_inj'. intros n Hn.
    destruct (decide (n < 16)).
    - rewrite Z.mod_pow2_bits_low by lia. destruct (Z.testbit c 15); [|done].
      rewrite Z.lxor_spec, Z.pow2_bits_false by lia. by rewrite xorb_false_r.
    - rewrite Z.mod_pow2_bits_high by lia.
      assert (n = 16 ∨ 16 < n) as [->|Hn16] by lia.
      + destruct (Z.testbit c 15) eqn:E; rewrite ?Z.lxor_spec, Z.shiftl_spec by lia;
          change (16 - 1) with 15; rewrite E; done.
      + assert (Z.testbit c (n - 1) = false) as Hf.
        { rewrite <-(Z.mod_small c (2 ^ 16)) by done. apply Z.mod_pow2_bits_high. lia. }
        destruct (Z.testbit c 15); rewrite ?Z.lxor_spec, Z.shiftl_spec by lia; rewrite Hf; [|done].
        by rewrite Z.pow2_bits_false by lia. }
  assert (0 ≤ u16 (Z.shiftl c 1) < 2 ^ 16) as Hur by (apply Z.mod_pos_bound; lia).
  destruct (Z.testbit c 15).
  - split.
    + by apply lxor_range.
    + rewrite Hu. change crc_poly with (Z.lxor (2 ^ 16) 0x1021).
      generalize (2 ^ 16) as a, 0x1021 as b. intros. xor_tac.
  - split; [done|]. rewrite Hu. done.
Qed.

Lemma iter_round_spec n c : 0 ≤ c < 2 ^ 16 →
  0 ≤ Nat.iter n crc16_round c < 2 ^ 16 ∧
  ∃ q, 0 ≤ q ∧ Z.shiftl c (Z.of_nat n) = Z.lxor (clmul q crc_poly) (Nat.iter n crc16_round c).
Proof.
  intros Hc. induction n as [|n [Hr (q & Hq & IH)]].
  - split; [done|]. exists 0. split; [done|]. simpl. by rewrite Z.shiftl_0_r.
  - simpl Nat.iter. set (r := Nat.iter n crc16_round c) in *.
    destruct (crc16_round_spec r Hr) as [Hr' Hs]. split; [done|].
    rewrite Nat2Z.inj_succ, <-Z.add_1_r, <-Z.shiftl_shiftl by lia.
    rewrite IH, Z.shiftl_lxor, Hs. destruct (Z.testbit r 15).
    + exists (Z.lxor 1 (Z.shiftl q 1)). split.
      * apply Z.lxor_nonneg. split; [|lia]. intros _. apply Z.shiftl_nonneg. lia.
      * rewrite clmul_double_add by done. generalize crc_poly as a. intros. xor_tac.
    + exists (Z.shiftl q 1). split; [apply Z.shiftl_nonneg; lia|].
      rewrite clmul_double by done. by rewrite Z.lxor_0_l.
Qed.

Lemma clmul_pos_lxor_exists q q' p : 0 ≤ q → 0 ≤ q' →
  ∃ q'', 0 ≤ q'' ∧ clmul q'' p = Z.lxor (clmul q p) (clmul q' p).
Proof.
  intros Hq. revert q'. revert q Hq. apply (Zlt_0_ind (λ q, ∀ q', 0 ≤ q' → _)).
  intros q IH Hq q' Hq'.
  destruct (decide (q = 0)) as [->|Hn]; [exists q'; by rewrite Z.lxor_0_l|].
  assert (∀ z, 0 ≤ z → clmul z p =
    Z.lxor (if Z.odd z then p else 0) (Z.shiftl (clmul (Z.div2 z) p) 1)) as Hstep.
  { intros [|[z|z|]|z] Hz; simpl; try done; by rewrite Z.lxor_0_r. }
  destruct (IH (Z.div2 q) ltac:(split; [apply Z.div2_nonneg; lia|rewrite Z.div2_div; apply Z.div_lt; lia])
              (Z.div2 q') ltac:(apply Z.div2_nonneg; lia)) as (r & Hr & Er).
  exists (if xorb (Z.odd q) (Z.odd q') then Z.lxor 1 (Z.shiftl r 1) else Z.shiftl r 1).
  assert (0 ≤ Z.shiftl r 1) by (apply Z.shiftl_nonneg; lia).
  split; [destruct (xorb _ _); [apply Z.lxor_nonneg; lia|done]|].
  rewrite (Hstep q), (Hstep q') by lia.
  transitivity (Z.lxor (if xorb (Z.odd q) (Z.odd q') then p else 0) (Z.shiftl (clmul r p) 1)).
  - destruct (xorb _ _); [by rewrite clmul_double_add|by rewrite clmul_double, Z.lxor_0_l].
  - rewrite Er, Z.shiftl_lxor. destruct (Z.odd q), (Z.odd q'); simpl; xor_tac.
Qed.

Lemma clmul_shiftl n q p : 0 ≤ q → clmul (Z.shiftl q (Z.of_nat n)) p = Z.shiftl (clmul q p) (Z.of_nat n).
Proof.
  intros Hq. induction n as [|n IH]; [by rewrite !Z.shiftl_0_r|].
  rewrite Nat2Z.inj_succ, <-Z.add_1_r, <-!Z.shiftl_shiftl by lia.
  rewrite clmul_double by (apply Z.shiftl_nonneg; lia). by rewrite IH.
Qed.

Lemma clmul_high q : 0 < q → ∃ n, 16 ≤ n ∧ Z.testbit (clmul q crc_poly) n = true.
Proof.
  destruct q as [|q|q]; try lia. intros _. simpl.
  induction q as [q (n & Hn & IH)|q (n & Hn & IH)|]; cbn [clmul_pos].
  - exists (n + 1). split; [lia|]. rewrite Z.lxor_spec, Z.shiftl_spec by lia.
    replace (n + 1 - 1) with n by lia. by rewrite IH, (bits_above crc_poly 17) by (unfold crc_poly; lia).
  - exists (n + 1). split; [lia|]. rewrite Z.shiftl_spec by lia. by replace (n + 1 - 1) with n by lia.
  - by exists 16.
Qed.

Lemma crc_remainder_unique m r r' : crc_remainder m r → crc_remainder m r' → r = r'.
Proof.
  intros [Hr (q & Hq & E)] [Hr' (q' & Hq' & E')].
  destruct (clmul_pos_lxor_exists q q' crc_poly Hq Hq') as (q'' & Hq'' & E'').
  assert (clmul q'' crc_poly = Z.lxor r r') as Hx.
  { rewrite E''. rewrite E in E'. revert E'. generalize (clmul q crc_poly), (clmul q' crc_poly).
    intros a b H. transitivity (Z.lxor (Z.lxor a r) (Z.lxor b r)); [xor_tac|]. rewrite H. xor_tac. }
  assert (q'' = 0 ∨ 0 < q'') as [->|Hpos] by lia.
  - apply Z.lxor_eq. done.
  - exfalso. destruct (clmul_high q'' Hpos) as (n & Hn & Hb).
    rewrite Hx, (bits_above _ 16) in Hb; [done| |lia]. apply lxor_range; lia.
Qed.

Lemma crc16_byte_spec m c b : 0 ≤ b < 2 ^ 8 →
  crc_remainder m c → crc_remainder (Z.lxor (Z.shiftl m 8) b) (crc16_byte c b).
Proof.
  intros Hb [Hc (q & Hq & E)]. unfold crc16_byte.
  assert (u16 (Z.shiftl b 8) = Z.shiftl b 8) as ->.
  { apply wrap_u_small; [lia|]. unfold in_u. rewrite Z.shiftl_mul_pow2 by lia. lia. }
  assert (0 ≤ Z.lxor c (Z.shiftl b 8) < 2 ^ 16) as Hx.
  { apply lxor_range; [lia|lia|]. rewrite Z.shiftl_mul_pow2 by lia. lia. }
  destruct (iter_round_spec 8 _ Hx) as [Hr (q8 & Hq8 & E8)]. split; [done|].
  destruct (clmul_pos_lxor_exists (Z.shiftl q 8) q8 crc_poly ltac:(apply Z.shiftl_nonneg; lia) Hq8)
    as (q' & Hq' & E').
  exists q'. split; [done|].
  pose proof (clmul_shiftl 8 q crc_poly Hq) as Hs. change (Z.of_nat 8) with 8 in *.
  rewrite E', Hs, Z.lxor_assoc, <-E8. rewrite <-!Z.shiftl_lxor.
  replace (Z.shiftl (Z.lxor (Z.shiftl m 8) b) 16)
    with (Z.shiftl (Z.lxor (Z.shiftl m 16) (Z.shiftl b 8)) 8)
    by (rewrite !Z.shiftl_lxor, !Z.shiftl_shiftl by lia; done).
  rewrite E. f_equal. xor_tac.
Qed.

Lemma crc16_fold data m c : Forall (λ b, 0 ≤ b < 2 ^ 8) data → crc_remainder m c →
  crc_remainder (fold_left (λ m b, Z.lxor (Z.shiftl m 8) b) data m) (fold_left crc16_byte data c).
Proof.
  intros Hd. revert m c. induction Hd as [|b data Hb _ IH]; intros m c H; [done|].
  simpl. by apply IH, crc16_byte_spec.
Qed.

Lemma crc16_remainder data : Forall (λ b, 0 ≤ b < 2 ^ 8) data → crc_remainder (be_int data) (crc16 data).
Proof.
  intros Hd. apply crc16_fold; [done|]. split; [lia|]. exists 0. done.
Qed.

Lemma as_bytes_range s : Forall (λ b, 0 ≤ b < 2 ^ 8) (as_bytes s).
Proof.
  unfold as_bytes. apply Forall_fmap, Forall_true. intros a. simpl.
  pose proof (N_ascii_bounded a). lia.
Qed.

Lemma crc16_range s : 0 ≤ crc16 (as_bytes s) < 2 ^ 16.
Proof. apply (crc16_remainder _ (as_bytes_range s)). Qed.

(** C40: the [u16] loop computes the CRC-16 of the message: on every byte string its
    result is the one remainder of the message polynomial, shifted by sixteen bits,
    modulo x^16 + x^12 + x^5 + 1, and nothing is lost to the wrap-around of [u16]. *)
Theorem crc16_is_polynomial_remainder (data : list Z) (r : Z) :
  Forall (λ b, 0 ≤ b < 2 ^ 8) data →
  crc_remainder (be_int data) r ↔ r = crc16 data.
Proof.
  intros Hd. split.
  - intros Hr. eapply crc_remainder_unique; [exact Hr|]. by apply crc16_remainder.
  - intros ->. by apply crc16_remainder.
Qed.

Lemma crc16_is_polynomial_remainder_witness :
  crc_remainder (be_int (as_bytes "123456789")) 0x31C3.
Proof.
  apply (crc16_is_polynomial_remainder (as_bytes "123456789") 0x31C3); [|reflexivity].
  apply as_bytes_range.
Defined.
