(* ===== verification/Redis.v ===== *)
(** * Redis: the interface the services rely on

    Redis is a service outside the repository.  It enters the development as a
    class of operations, [RedisServer], and a class of laws, [RedisLaws], that state
    the documented behaviour of the commands the code sends (string keys with a
    millisecond expiry, sorted sets, and two-bit [BITFIELD] writes).  The file also
    holds the [world] every component runs in: the Redis nodes, the clock, the
    faults the network injects, and the Pub/Sub messages sent so far. *)

From S2P Require Import Prelude.

(** String keys and sorted-set keys are separate name spaces here; [Keys.v] proves
    that the code never uses one key at both types, so no command meets a key of the
    wrong type. *)
Class RedisServer (D : Type) := {
  r_get : D → Z → string → option string;              (* GET, at a time in ms *)
  r_set : D → string → string → D;                      (* SET k v *)
  r_set_px : D → Z → string → string → Z → D;           (* SET k v PX ttl *)
  r_px_ok : Z → bool;                                   (* is a PX argument accepted *)
  r_del : D → string → D;                               (* DEL *)
  r_incrby : D → Z → string → Z → D * option Z;         (* INCRBY; None when the value is no integer *)
  r_pexpire : D → Z → string → Z → D;                   (* PEXPIRE *)
  r_zset : D → string → gmap string Z;                  (* the members and scores of a sorted set *)
  r_zrange : D → string → option Z → option Z → list string; (* ZRANGEBYSCORE k min max; None is an infinity *)
  r_zadd : D → string → string → Z → D;                 (* ZADD k score member *)
  r_zrem : D → string → string → D;                     (* ZREM *)
  r_zremrange : D → string → option Z → option Z → D;   (* ZREMRANGEBYSCORE k min max *)
  r_bitfield : D → Z → string → Z → Z → D;              (* BITFIELD k SET u2 offset v *)
  r_bf_ok : Z → bool                                    (* is a BITFIELD offset accepted *)
}.

(** Bit [i] of a Redis string, counted from the most significant bit of its first
    byte, as [BITFIELD] and [GETBIT] count. *)
Definition byte_at (s : string) (i : nat) : Z :=
  match String.get i s with Some a => Z.of_N (Ascii.N_of_ascii a) | None => 0 end.
Definition bit_at (s : string) (i : Z) : bool :=
  Z.testbit (byte_at s (Z.to_nat (i / 8))) (7 - i mod 8).

(** The score range of a member; [None] is an infinity. *)
Definition in_scores (lo hi : option Z) (ms : string * Z) : Prop :=
  match lo with Some l => l ≤ ms.2 | None => True end ∧
  match hi with Some h => ms.2 ≤ h | None => True end.
#[export] Instance in_scores_dec lo hi ms : Decision (in_scores lo hi ms).
Proof. unfold in_scores. destruct lo, hi; apply _. Defined.

Class RedisLaws (D : Type) `{RedisServer D} := {
  get_set d t k v k' :
    r_get (r_set d k v) t k' = if decide (k = k') then Some v else r_get d t k';
  zset_set d k v k' : r_zset (r_set d k v) k' = r_zset d k';
  get_set_px d t k v ttl t' k' : t ≤ t' →
    r_get (r_set_px d t k v ttl) t' k' =
      if decide (k = k') then (if t' <? t + ttl then Some v else None) else r_get d t' k';
  zset_set_px d t k v ttl k' : r_zset (r_set_px d t k v ttl) k' = r_zset d k';
  px_ok_range ttl : 0 < ttl ≤ 2 ^ 42 → r_px_ok ttl = true;
  px_ok_zero ttl : ttl ≤ 0 → r_px_ok ttl = false;
  get_del d k t k' : r_get (r_del d k) t k' = if decide (k = k') then None else r_get d t k';
  zset_del d k k' : k ≠ k' → r_zset (r_del d k) k' = r_zset d k';
  get_expire d t t' k : t ≤ t' → r_get d t' k = r_get d t k ∨ r_get d t' k = None;
  get_incrby d t k n inc t' k' : t ≤ t' →
    match r_get d t k with Some s => parse_Z s = Some n | None => n = 0 end →
    - 2 ^ 63 ≤ n + inc < 2 ^ 63 →
    r_get (r_incrby d t k inc).1 t' k' =
      if decide (k = k')
      then (match r_get d t k, r_get d t' k with
            | Some _, None => None
            | _, _ => Some (show_Z (n + inc))
            end)
      else r_get d t' k';
  incrby_result d t k n inc :
    match r_get d t k with Some s => parse_Z s = Some n | None => n = 0 end →
    - 2 ^ 63 ≤ n + inc < 2 ^ 63 →
    (r_incrby d t k inc).2 = Some (n + inc);
  get_incrby_ne d t k inc t' k' : k ≠ k' → r_get (r_incrby d t k inc).1 t' k' = r_get d t' k';
  zset_incrby d t k inc k' : r_zset (r_incrby d t k inc).1 k' = r_zset d k';
  get_pexpire d t k ttl t' k' : t ≤ t' →
    r_get (r_pexpire d t k ttl) t' k' =
      if decide (k = k') then (if t' <? t + ttl then r_get d t k else None) else r_get d t' k';
  zset_pexpire d t k ttl k' : r_zset (r_pexpire d t k ttl) k' = r_zset d k';
  get_zadd d k m s t k' : r_get (r_zadd d k m s) t k' = r_get d t k';
  zset_zadd d k m s k' :
    r_zset (r_zadd d k m s) k' = if decide (k = k') then <[m:=s]> (r_zset d k) else r_zset d k';
  get_zrem d k m t k' : r_get (r_zrem d k m) t k' = r_get d t k';
  zset_zrem d k m k' :
    r_zset (r_zrem d k m) k' = if decide (k = k') then delete m (r_zset d k) else r_zset d k';
  get_zremrange d k lo hi t k' : r_get (r_zremrange d k lo hi) t k' = r_get d t k';
  zset_zremrange d k lo hi k' :
    r_zset (r_zremrange d k lo hi) k' =
      if decide (k = k') then filter (λ ms, ¬ in_scores lo hi ms) (r_zset d k) else r_zset d k';
  zrange_elem d k lo hi m :
    m ∈ r_zrange d k lo hi ↔
      ∃ s, r_zset d k !! m = Some s ∧
        (match lo with Some l => l ≤ s | None => True end) ∧
        (match hi with Some h => s ≤ h | None => True end);
  zrange_nodup d k lo hi : NoDup (r_zrange d k lo hi);
  bf_ok_range off : 0 ≤ off < 2 ^ 32 → r_bf_ok off = true;
  bf_ok_out off : 2 ^ 32 ≤ off → r_bf_ok off = false;
  get_bitfield_ne d t k off v t' k' : k ≠ k' → r_get (r_bitfield d t k off v) t' k' = r_get d t' k';
  zset_bitfield d t k off v k' : r_zset (r_bitfield d t k off v) k' = r_zset d k';
  get_bitfield_eq d t k off v : 0 ≤ off < 2 ^ 32 → 0 ≤ v < 4 →
    ∃ s, r_get (r_bitfield d t k off v) t k = Some s ∧
      ∀ i, 0 ≤ i → bit_at s i =
        if decide (i = off) then Z.testbit v 1
        else if decide (i = off + 1) then Z.testbit v 0
        else bit_at (default EmptyString (r_get d t k)) i
}.

(** ** The world

    [w_nodes] are the Redis servers of a [Vec<RedisPool>], in the order of the
    vector.  [w_now] is the wall clock in milliseconds.  Every interaction with a
    server draws one element of [w_faults] (none are left: nothing fails), so a
    theorem over all worlds covers every pattern of lost connections and replies.
    [w_log] holds the messages published on Pub/Sub channels, oldest first. *)

Inductive fault :=
  | FOk            (* the interaction succeeds *)
  | FDown          (* refused: nothing is executed, the caller sees an error *)
  | FReplyLost.    (* executed, and the caller sees an error *)

#[global] Instance fault_eq_dec : EqDecision fault.
Proof. solve_decision. Defined.

Record world (D : Type) := World {
  w_nodes : list D;
  w_now : Z;
  w_faults : list fault;
  w_log : list (string * json)
}.
Arguments World {D}. Arguments w_nodes {D}. Arguments w_now {D}.
Arguments w_faults {D}. Arguments w_log {D}.

Section world.
Context {D : Type} `{!RedisServer D}.
Abbreviation M := (St (world D)).

Definition set_nodes (f : list D → list D) (w : world D) : world D :=
  World (f (w_nodes w)) (w_now w) (w_faults w) (w_log w).

(** [Utc::now().timestamp()] and [timestamp_millis()]. *)
Definition now_ms : M Z := λ w, (w_now w, w).
Definition now_secs : M Z := λ w, (w_now w / 1000, w).

Definition draw : M fault := λ w,
  match w_faults w with
  | [] => (FOk, w)
  | x :: l => (x, World (w_nodes w) (w_now w) l (w_log w))
  end.

(** [pool.get().await]: whether a connection was obtained. *)
Definition pool_get (i : nat) : M bool := fl ← draw; mret (bool_decide (fl ≠ FDown)).

(** One command, [MULTI]/[EXEC] block or Lua script on the server of pool [i].
    The function it runs sees the clock of the server and returns the new contents
    with the reply, [None] being an error reply.  The result is a [RedisResult]:
    [None] is any error the caller sees. *)
Definition node_cmd {R} (i : nat) (f : D → Z → D * option R) : M (option R) :=
  λ w0, let '(fl, w) := draw w0 in
  match w_nodes w !! i with
  | None => (None, w)
  | Some d =>
      match fl with
      | FDown => (None, w)
      | FOk => ((f d (w_now w)).2, set_nodes <[i := (f d (w_now w)).1]> w)
      | FReplyLost => (None, set_nodes <[i := (f d (w_now w)).1]> w)
      end
  end.

(** Commands with a condition or a typed reply, as functions for [node_cmd]. *)

(** [SET k v NX PX ttl], read as a [bool]: [nil] is [false]. *)
Definition cmd_set_nx_px (k v : string) (ttl : Z) (d : D) (t : Z) : D * option bool :=
  if r_px_ok ttl then
    match r_get d t k with
    | Some _ => (d, Some false)
    | None => (r_set_px d t k v ttl, Some true)
    end
  else (d, None).

(** [GET k], read as an [Option<String>] or an [Option<i32>]. *)
Definition cmd_get (k : string) (d : D) (t : Z) : D * option (option string) :=
  (d, Some (r_get d t k)).
Definition cmd_get_i32 (k : string) (d : D) (t : Z) : D * option (option Z) :=
  (d, match r_get d t k with
      | None => Some None
      | Some s => match parse_i32 s with Some n => Some (Some n) | None => None end
      end).

(** [EXISTS k] on a string key, read as a [bool]. *)
Definition cmd_exists (k : string) (d : D) (t : Z) : D * option bool :=
  (d, Some (match r_get d t k with Some _ => true | None => false end)).

(** [PEXPIRE] takes the times [SET PX] takes, and those that are over at once. *)
Definition cmd_pexpire (k : string) (ttl : Z) (d : D) (t : Z) : D * option unit :=
  if r_px_ok ttl || (ttl <=? 0) then (r_pexpire d t k ttl, Some tt) else (d, None).
Definition cmd_del (k : string) (d : D) (t : Z) : D * option unit := (r_del d k, Some tt).
Definition cmd_set (k v : string) (d : D) (t : Z) : D * option unit := (r_set d k v, Some tt).
Definition cmd_zrange (k : string) (lo hi : option Z) (d : D) (t : Z) : D * option (list string) :=
  (d, Some (r_zrange d k lo hi)).

(** The same command sent to every pool ([join_all] over the pools; the servers
    are independent, so the order of the futures does not matter), each through
    [if let Ok(mut cli) = p.get().await], every error ignored. *)
Definition all_nodes (f : D → Z → D) : M unit := λ w,
  for_each (seq 0 (length (w_nodes w)))
    (λ i, ok ← pool_get i; when ok (node_cmd i (λ d t, (f d t, Some tt)) ;; mret tt)) w.

(** [PUBLISH]: the message reaches the subscribers; a failed command may or may
    not have been executed. *)
Definition publish (channel : string) (payload : json) : M unit :=
  λ w0, let '(fl, w) := draw w0 in
  match fl with
  | FDown => (tt, w)
  | _ => (tt, World (w_nodes w) (w_now w) (w_faults w) (w_log w ++ [(channel, payload)]))
  end.

(** *** Reasoning rules *)

Lemma draw_eq (w : world D) : ∃ fl l,
  draw w = (fl, World (w_nodes w) (w_now w) l (w_log w)) ∧ (w_faults w = [] → fl = FOk ∧ l = []).
Proof. destruct w as [n t [|x l] lg]; unfold draw; simpl; eauto 6. do 2 eexists. split; done. Qed.

(** The outcomes of a connection attempt and of a command. *)
Lemma pool_get_cases i (w : world D) :
  ∃ b l, pool_get i w = (b, World (w_nodes w) (w_now w) l (w_log w)) ∧
    (w_faults w = [] → b = true ∧ l = []).
Proof.
  unfold pool_get, mbind, St_bind. destruct (draw_eq w) as (fl & l & -> & Hf).
  do 2 eexists. split; [done|]. intros H. by destruct (Hf H) as [-> ->].
Qed.

Lemma node_cmd_cases {R} i (f : D → Z → D * option R) (w : world D) d :
  w_nodes w !! i = Some d →
  ∃ fl l, (w_faults w = [] → fl = FOk ∧ l = []) ∧
    node_cmd i f w =
      match fl with
      | FDown => (None, World (w_nodes w) (w_now w) l (w_log w))
      | FOk => ((f d (w_now w)).2, World (<[i := (f d (w_now w)).1]> (w_nodes w)) (w_now w) l (w_log w))
      | FReplyLost => (None, World (<[i := (f d (w_now w)).1]> (w_nodes w)) (w_now w) l (w_log w))
      end.
Proof.
  intros H. unfold node_cmd. destruct (draw_eq w) as (fl & l & -> & Hf). simpl. rewrite H.
  exists fl, l. split; [done|]. by destruct fl.
Qed.

(** An assertion about the servers and the clock alone; it ignores the faults left
    and the messages sent. *)
Definition on_nodes (P : list D → Z → Prop) (w : world D) : Prop := P (w_nodes w) (w_now w).

Lemma keeps_pool_get P i : keeps (on_nodes P) (pool_get i).
Proof.
  intros w Hw. unfold pool_get, mbind, St_bind.
  destruct (draw_eq w) as (fl & l & -> & _). done.
Qed.

Lemma keeps_now_ms (P : world D → Prop) : keeps P now_ms.
Proof. by intros w. Qed.
Lemma keeps_now_secs (P : world D → Prop) : keeps P now_secs.
Proof. by intros w. Qed.

Lemma keeps_publish P c j : keeps (on_nodes P) (publish c j).
Proof.
  intros w Hw. unfold publish. destruct (draw_eq w) as (fl & l & -> & _). by destruct fl.
Qed.

(** A command keeps an assertion when the contents it leaves satisfy it. *)
Lemma keeps_node_cmd {R} (P : list D → Z → Prop) i (f : D → Z → D * option R) :
  (∀ ns t d, P ns t → ns !! i = Some d → P (<[i := (f d t).1]> ns) t) →
  keeps (on_nodes P) (node_cmd i f).
Proof.
  intros Hf w Hw. unfold node_cmd. destruct (draw_eq w) as (fl & l & -> & _). simpl.
  destruct (w_nodes w !! i) as [d|] eqn:E; [|done].
  destruct fl; simpl; try done; by apply Hf.
Qed.

Lemma keeps_all_nodes (P : list D → Z → Prop) (f : D → Z → D) :
  (∀ i ns t d, P ns t → ns !! i = Some d → P (<[i := f d t]> ns) t) →
  keeps (on_nodes P) (all_nodes f).
Proof.
  intros Hf w Hw. unfold all_nodes.
  generalize (seq 0 (length (w_nodes w))). intros l. revert w Hw.
  change (keeps (on_nodes P) (for_each l
    (λ i, ok ← pool_get i; when ok (node_cmd i (λ d t, (f d t, Some tt)) ;; mret tt)))).
  keeps_tac; [apply keeps_pool_get|]. apply keeps_node_cmd. intros ns t d. by apply Hf.
Qed.

(** *** Runs without faults *)

Lemma pool_get_ok i ns t lg :
  pool_get i (World ns t [] lg) = (true, World (D:=D) ns t [] lg).
Proof. done. Qed.

Lemma node_cmd_ok {R} i (f : D → Z → D * option R) ns t lg d :
  ns !! i = Some d →
  node_cmd i f (World ns t [] lg) = ((f d t).2, World (<[i := (f d t).1]> ns) t [] lg).
Proof. intros H. unfold node_cmd; simpl. by rewrite H. Qed.

Lemma publish_ok c j ns t lg :
  publish c j (World (D:=D) ns t [] lg) = (tt, World ns t [] (lg ++ [(c, j)])).
Proof. done. Qed.

Lemma all_nodes_ok (f : D → Z → D) ns t lg :
  all_nodes f (World ns t [] lg) = (tt, World ((λ d, f d t) <$> ns) t [] lg).
Proof.
  unfold all_nodes. simpl w_nodes.
  assert (∀ k done todo, length done = k →
    for_each (seq k (length todo))
      (λ i, ok ← pool_get i; when ok (node_cmd i (λ d t, (f d t, Some tt)) ;; mret tt))
      (World (((λ d, f d t) <$> done) ++ todo) t [] lg) =
    (tt, World ((λ d, f d t) <$> (done ++ todo)) t [] lg)) as H.
  { intros k done todo. revert k done. induction todo as [|d todo IH]; intros k done Hk; simpl.
    - rewrite !app_nil_r. done.
    - unfold mbind at 1, St_bind at 1. unfold mbind at 1, St_bind at 1.
      rewrite pool_get_ok. simpl. unfold mbind at 1, St_bind at 1.
      rewrite (node_cmd_ok _ _ _ _ _ d).
      2:{ rewrite lookup_app_r; rewrite length_fmap; [|lia]. by rewrite Hk, Nat.sub_diag. }
      simpl. specialize (IH (S k) (done ++ [d])).
      rewrite fmap_app, <-!app_assoc in IH. simpl in IH.
      rewrite <-IH by (rewrite length_app; simpl; lia).
      rewrite insert_app_r_alt by (rewrite length_fmap; lia).
      by rewrite length_fmap, Hk, Nat.sub_diag. }
  apply (H 0%nat [] ns). done.
Qed.
End world.

#[export] Hint Resolve keeps_pool_get keeps_now_ms keeps_now_secs keeps_publish : keeps.
