(* ===== verification/RedisMem.v ===== *)
(** * Concrete instances of the external interfaces

    An in-memory server that satisfies [RedisLaws], and a JSON text format that
    satisfies [JsonText].  The theorems never mention them; their witnesses do: they
    show that the laws can hold and let the definitions be evaluated. *)

From stdpp Require Import countable sorting.
From Stdlib Require Import Ascii.
From S2P Require Import Prelude Redis.

(** ** Bits of byte strings *)

Definition ascii_of_Z (z : Z) : Ascii.ascii := Ascii.ascii_of_N (Z.to_N z).

Fixpoint set_byte (s : string) (n : nat) (a : Ascii.ascii) : string :=
  match n, s with
  | O, EmptyString => String a EmptyString
  | O, String _ s' => String a s'
  | S n', EmptyString => String Ascii.zero (set_byte EmptyString n' a)
  | S n', String b s' => String b (set_byte s' n' a)
  end.

Definition set_bit (s : string) (i : Z) (b : bool) : string :=
  let n := Z.to_nat (i / 8) in
  let m := 7 - i mod 8 in
  set_byte s n (ascii_of_Z (if b then Z.setbit (byte_at s n) m else Z.clearbit (byte_at s n) m)).

Lemma byte_at_nil n : byte_at EmptyString n = 0.
Proof. by destruct n. Qed.

Lemma byte_at_set s n a n' :
  byte_at (set_byte s n a) n' = if decide (n = n') then Z.of_N (Ascii.N_of_ascii a) else byte_at s n'.
Proof.
  revert s n'. induction n as [|n IH]; intros [|b s] [|n']; simpl; try done.
  - change (byte_at (String Ascii.zero (set_byte EmptyString n a)) (S n'))
      with (byte_at (set_byte EmptyString n a) n').
    rewrite IH, ?byte_at_nil. repeat case_decide; try done; lia.
  - change (byte_at (String b (set_byte s n a)) (S n')) with (byte_at (set_byte s n a) n').
    rewrite IH. change (byte_at (String b s) (S n')) with (byte_at s n').
    repeat case_decide; try done; lia.
Qed.

Lemma byte_range s n : 0 ≤ byte_at s n < 2 ^ 8.
Proof.
  unfold byte_at. destruct (String.get n s) as [a|]; [|lia].
  pose proof (Ascii.N_ascii_bounded a). lia.
Qed.

Lemma bit_at_set s i b j : 0 ≤ i → 0 ≤ j →
  bit_at (set_bit s i b) j = if decide (j = i) then b else bit_at s j.
Proof.
  intros Hi Hj. unfold bit_at, set_bit. rewrite byte_at_set.
  pose proof (Z.mod_pos_bound i 8 ltac:(lia)). pose proof (Z.mod_pos_bound j 8 ltac:(lia)).
  pose proof (Z.div_pos i 8 Hi ltac:(lia)). pose proof (Z.div_pos j 8 Hj ltac:(lia)).
  pose proof (Z.div_mod i 8 ltac:(lia)). pose proof (Z.div_mod j 8 ltac:(lia)).
  set (m := 7 - i mod 8) in *. set (o := byte_at s (Z.to_nat (i / 8))).
  set (v := if b then Z.setbit o m else Z.clearbit o m).
  assert (0 ≤ o < 2 ^ 8) as Ho by apply byte_range.
  assert (∀ k, 0 ≤ k → Z.testbit v k = if decide (k = m) then b else Z.testbit o k) as Hv.
  { intros k Hk. unfold v. destruct b.
    - case_decide as E; [subst k; apply Z.setbit_eq; lia|]. apply Z.setbit_neq; lia.
    - case_decide as E; [subst k; apply Z.clearbit_eq|]. apply Z.clearbit_neq; lia. }
  assert (0 ≤ v < 2 ^ 8) as Hvr.
  { assert (0 ≤ v) by (unfold v; destruct b;
      [apply Z.lor_nonneg; split; [lia|apply Z.shiftl_nonneg; lia] | apply Z.ldiff_nonneg; lia]).
    split; [done|]. apply bits_bound; [lia|done|]. intros k Hk.
    rewrite Hv by lia. rewrite decide_False by lia. by apply (bits_above o 8). }
  assert (Z.of_N (Ascii.N_of_ascii (ascii_of_Z v)) = v) as ->.
  { unfold ascii_of_Z. rewrite Ascii.N_ascii_embedding by lia. lia. }
  case_decide as E1; case_decide as E2.
  - subst j. rewrite Hv by lia. by rewrite decide_True by lia.
  - rewrite Hv by lia. rewrite decide_False by lia. unfold o. by rewrite E1.
  - subst j. lia.
  - done.
Qed.

Definition bitfield_u2 (s : string) (off v : Z) : string :=
  set_bit (set_bit s off (Z.testbit v 1)) (off + 1) (Z.testbit v 0).

Lemma bit_at_bitfield s off v i : 0 ≤ off → 0 ≤ i →
  bit_at (bitfield_u2 s off v) i =
    if decide (i = off) then Z.testbit v 1
    else if decide (i = off + 1) then Z.testbit v 0 else bit_at s i.
Proof.
  intros Hoff Hi. unfold bitfield_u2. rewrite !bit_at_set by lia.
  repeat case_decide; try done; lia.
Qed.

(** ** The in-memory server *)

Record mem_redis := MemRedis {
  m_strs : gmap string (string * option Z);
  m_zsets : gmap string (gmap string Z)
}.

Definition mem_empty : mem_redis := MemRedis ∅ ∅.

Definition mem_get (d : mem_redis) (t : Z) (k : string) : option string :=
  match m_strs d !! k with
  | Some (v, None) => Some v
  | Some (v, Some e) => if t <? e then Some v else None
  | None => None
  end.

Definition mem_put (d : mem_redis) (k v : string) (e : option Z) : mem_redis :=
  MemRedis (<[k := (v, e)]> (m_strs d)) (m_zsets d).
Definition mem_zset (d : mem_redis) (k : string) : gmap string Z := default ∅ (m_zsets d !! k).
Definition mem_zput (d : mem_redis) (k : string) (z : gmap string Z) : mem_redis :=
  MemRedis (m_strs d) (<[k := z]> (m_zsets d)).

Definition mem_incrby (d : mem_redis) (t : Z) (k : string) (inc : Z) : mem_redis * option Z :=
  let go n e :=
    if (- 2 ^ 63 <=? n + inc) && (n + inc <? 2 ^ 63)
    then (mem_put d k (show_Z (n + inc)) e, Some (n + inc)) else (d, None) in
  match mem_get d t k with
  | None => go 0 None
  | Some s => match parse_Z s with
              | Some n => go n (match m_strs d !! k with Some (_, e) => e | None => None end)
              | None => (d, None)
              end
  end.

Definition score_le (x y : string * Z) : Prop := x.2 ≤ y.2.
#[local] Instance score_le_dec x y : Decision (score_le x y).
Proof. unfold score_le. apply _. Defined.
#[local] Instance score_le_total : Total score_le.
Proof. intros x y. unfold score_le. lia. Qed.

Definition mem_zrange (d : mem_redis) (k : string) (lo hi : option Z) : list string :=
  (merge_sort score_le (filter (in_scores lo hi) (map_to_list (mem_zset d k)))).*1.

#[export] Instance mem_server : RedisServer mem_redis := {
  r_get := mem_get;
  r_set d k v := mem_put d k v None;
  r_set_px d t k v ttl := mem_put d k v (Some (t + ttl));
  r_px_ok ttl := (0 <? ttl) && (ttl <=? 2 ^ 62);
  r_del d k := MemRedis (delete k (m_strs d)) (delete k (m_zsets d));
  r_incrby := mem_incrby;
  r_pexpire d t k ttl :=
    match mem_get d t k with Some v => mem_put d k v (Some (t + ttl)) | None => d end;
  r_zset := mem_zset;
  r_zrange := mem_zrange;
  r_zadd d k m s := mem_zput d k (<[m := s]> (mem_zset d k));
  r_zrem d k m := mem_zput d k (delete m (mem_zset d k));
  r_zremrange d k lo hi := mem_zput d k (filter (λ ms, ¬ in_scores lo hi ms) (mem_zset d k));
  r_bitfield d t k off v :=
    mem_put d k (bitfield_u2 (default EmptyString (mem_get d t k)) off v)
      (match m_strs d !! k with Some (_, e) => match mem_get d t k with Some _ => e | None => None end | None => None end);
  r_bf_ok off := (0 <=? off) && (off <? 2 ^ 32)
}.

Lemma mem_get_put d k v e t k' :
  mem_get (mem_put d k v e) t k' =
    if decide (k = k')
    then match e with Some x => if t <? x then Some v else None | None => Some v end
    else mem_get d t k'.
Proof.
  unfold mem_get, mem_put. simpl. case_decide.
  - subst. rewrite lookup_insert_eq. by destruct e.
  - by rewrite lookup_insert_ne.
Qed.

Lemma mem_zset_put d k z k' :
  mem_zset (mem_zput d k z) k' = if decide (k = k') then z else mem_zset d k'.
Proof.
  unfold mem_zset, mem_zput. simpl. case_decide.
  - subst. by rewrite lookup_insert_eq.
  - by rewrite lookup_insert_ne.
Qed.

Lemma mem_get_expire d t t' k : t ≤ t' → mem_get d t' k = mem_get d t k ∨ mem_get d t' k = None.
Proof.
  intros Ht. unfold mem_get. destruct (m_strs d !! k) as [[v [e|]]|]; auto.
  destruct (t' <? e) eqn:E'; auto. apply Z.ltb_lt in E'.
  destruct (t <? e) eqn:E; auto. apply Z.ltb_ge in E. lia.
Qed.

Lemma mem_incrby_spec d t k n inc :
  match mem_get d t k with Some s => parse_Z s = Some n | None => n = 0 end →
  - 2 ^ 63 ≤ n + inc < 2 ^ 63 →
  mem_incrby d t k inc =
    (mem_put d k (show_Z (n + inc))
       (match mem_get d t k with
        | None => None
        | Some _ => match m_strs d !! k with Some (_, e) => e | None => None end
        end), Some (n + inc)).
Proof.
  intros Hn Hr. unfold mem_incrby.
  assert ((- 2 ^ 63 <=? n + inc) && (n + inc <? 2 ^ 63) = true) as Hb.
  { apply andb_true_iff. split; [apply Z.leb_le|apply Z.ltb_lt]; lia. }
  destruct (mem_get d t k) as [s|].
  - rewrite Hn. by rewrite Hb.
  - subst n. by rewrite Hb.
Qed.

Lemma mem_incrby_ne d t k inc t' k' : k ≠ k' → mem_get (mem_incrby d t k inc).1 t' k' = mem_get d t' k'.
Proof.
  intros Hk. unfold mem_incrby.
  repeat match goal with
  | |- context [match ?x with _ => _ end] => destruct x; simpl; try done
  end; rewrite mem_get_put; by rewrite decide_False.
Qed.

Lemma mem_incrby_zset d t k inc k' : mem_zset (mem_incrby d t k inc).1 k' = mem_zset d k'.
Proof.
  unfold mem_incrby.
  repeat match goal with |- context [match ?x with _ => _ end] => destruct x; simpl; try done end.
Qed.

#[export] Instance mem_laws : RedisLaws mem_redis.
Proof.
  constructor; intros; simpl; try done.
  - by rewrite mem_get_put.
  - by rewrite mem_get_put.
  - apply andb_true_iff. split; [apply Z.ltb_lt|apply Z.leb_le]; lia.
  - apply andb_false_iff. left. apply Z.ltb_ge. lia.
  - unfold mem_get; simpl. case_decide; subst; [by rewrite lookup_delete_eq|by rewrite lookup_delete_ne].
  - unfold mem_zset; simpl. by rewrite lookup_delete_ne.
  - by apply mem_get_expire.
  - rewrite (mem_incrby_spec _ _ _ n) by done. simpl. rewrite mem_get_put. case_decide; [|done]. subst k'.
    unfold mem_get. destruct (m_strs d !! k) as [[v [e|]]|]; try done.
    destruct (t <? e) eqn:E; [by destruct (t' <? e)|].
    by destruct (t' <? e).
  - by rewrite (mem_incrby_spec _ _ _ n).
  - by apply mem_incrby_ne.
  - by apply mem_incrby_zset.
  - destruct (mem_get d t k) as [v|] eqn:E; [by rewrite mem_get_put|].
    case_decide; [|done]. subst. destruct (mem_get_expire d t t' k') as [->| ->]; [done| |]; rewrite ?E; by destruct (_ <? _).
  - by destruct (mem_get d t k).
  - rewrite mem_zset_put. by case_decide.
  - rewrite mem_zset_put. by case_decide.
  - rewrite mem_zset_put. by case_decide.
  - unfold mem_zrange. rewrite list_elem_of_fmap. split.
    + intros ([m' s] & -> & Hin). rewrite merge_sort_Permutation in Hin.
      apply list_elem_of_filter in Hin as [[??] Hin]. apply elem_of_map_to_list in Hin. eauto.
    + intros (s & Hs & ? & ?). exists (m, s). split; [done|].
      rewrite merge_sort_Permutation. apply list_elem_of_filter. split; [done|]. by apply elem_of_map_to_list.
  - unfold mem_zrange. rewrite merge_sort_Permutation.
    eapply (sublist_NoDup _ ((map_to_list (mem_zset d k)).*1)).
    + apply NoDup_fst_map_to_list.
    + apply fmap_sublist, sublist_filter.
  - apply andb_true_iff. split; [apply Z.leb_le|apply Z.ltb_lt]; lia.
  - apply andb_false_iff. right. apply Z.ltb_ge. lia.
  - rewrite mem_get_put. by rewrite decide_False.
  - exists (bitfield_u2 (default EmptyString (mem_get d t k)) off v). split.
    + rewrite mem_get_put, decide_True by done. unfold mem_get.
      destruct (m_strs d !! k) as [[w [e|]]|]; try done.
      destruct (t <? e) eqn:E; simpl; by rewrite ?E.
    + intros i Hi. rewrite bit_at_bitfield by lia. done.
Qed.

(** ** A JSON text format *)

Fixpoint json_tree (j : json) : gen_tree (Z + string) :=
  match j with
  | JNull => GenNode 0 []
  | JBool b => GenNode (if b then 1 else 2) []
  | JNum n => GenNode 3 [GenLeaf (inl n)]
  | JFloat s => GenNode 4 [GenLeaf (inr s)]
  | JStr s => GenNode 5 [GenLeaf (inr s)]
  | JArr l => GenNode 6 (map json_tree l)
  | JObj l => GenNode 7 (map (λ kv, GenNode 8 [GenLeaf (inr kv.1); json_tree kv.2]) l)
  end.

Fixpoint tree_json (t : gen_tree (Z + string)) : json :=
  match t with
  | GenNode 1 _ => JBool true
  | GenNode 2 _ => JBool false
  | GenNode 3 [GenLeaf (inl n)] => JNum n
  | GenNode 4 [GenLeaf (inr s)] => JFloat s
  | GenNode 5 [GenLeaf (inr s)] => JStr s
  | GenNode 6 l => JArr (map tree_json l)
  | GenNode 7 l => JObj (map (λ t, match t with
                                   | GenNode _ [GenLeaf (inr k); t'] => (k, tree_json t')
                                   | _ => (EmptyString, JNull)
                                   end) l)
  | _ => JNull
  end.

Lemma json_rect_nested (P : json → Prop) :
  P JNull → (∀ b, P (JBool b)) → (∀ n, P (JNum n)) → (∀ s, P (JFloat s)) → (∀ s, P (JStr s)) →
  (∀ l, Forall P l → P (JArr l)) → (∀ l, Forall (λ kv, P kv.2) l → P (JObj l)) → ∀ j, P j.
Proof.
  intros Hn Hb Hz Hf Hs Ha Ho. fix IH 1. intros [|b|n|s|s|l|l].
  1: exact Hn. 1: apply Hb. 1: apply Hz. 1: apply Hf. 1: apply Hs.
  - apply Ha. induction l as [|j l IHl]; constructor; auto.
  - apply Ho. induction l as [|[k j] l IHl]; constructor; simpl; auto.
Qed.

Lemma tree_json_tree j : tree_json (json_tree j) = j.
Proof.
  induction j as [|[]| | | |l IH|l IH] using json_rect_nested; simpl; try done.
  - f_equal. induction IH as [|j l Hj _ IHl]; simpl; [done|]. by rewrite Hj, IHl.
  - f_equal. induction IH as [|[k j] l Hj _ IHl]; simpl in *; [done|]. by rewrite Hj, IHl.
Qed.

Fixpoint bits_text (p : positive) : string :=
  match p with
  | xH => EmptyString
  | xO q => String "0"%char (bits_text q)
  | xI q => String "1"%char (bits_text q)
  end.
Fixpoint text_bits (s : string) : positive :=
  match s with
  | EmptyString => xH
  | String a q => if Ascii.eqb a "1"%char then xI (text_bits q) else xO (text_bits q)
  end.
Lemma text_bits_text p : text_bits (bits_text p) = p.
Proof. induction p; simpl; by f_equal. Qed.

Lemma json_text_roundtrip j : tree_json <$> decode (text_bits (bits_text (encode (json_tree j)))) = Some j.
Proof. rewrite text_bits_text, decode_encode. simpl. by rewrite tree_json_tree. Qed.

#[export] Instance mem_json : JsonText := {
  json_print j := bits_text (encode (json_tree j));
  json_parse s := tree_json <$> decode (text_bits s);
  json_parse_print j _ := json_text_roundtrip j
}.

(** A cluster of [n] empty servers at time [t], with no faults to come. *)
Definition mem_world (n : nat) (t : Z) : world mem_redis := World (replicate n mem_empty) t [] [].
