(* ===== verification/SeatLock.v ===== *)
(** * SeatLock: the interface of the seat-locking layer

    The trait [SeatLock] ([packages/redis-conn/src/seat_lock.rs]) as a class of
    operations.  [SingleNodeLock.v] and [ClusterLock.v] are its two instances; the
    lock server, the WebSocket server and the payment processor are written against
    the class.  [ExclusiveLock] is what an implementation promises about a held seat,
    and mutual exclusion is proved here from that promise alone. *)

From S2P Require Import Prelude Keys Redis.

Class SeatLock (D : Type) := {
  acquire_seat_lock_lua : Z → Z → Z → Z → St (world D) bool;
  acquire_distributed_lock : Z → Z → Z → Z → St (world D) bool;
  update_seat_metadata_lua : Z → list Z → Z → Z → St (world D) bool;
  release_lock : Z → Z → Z → St (world D) bool;
  release_expired_lock_lua : Z → Z → Z → string → St (world D) bool;
  get_lock_owner : Z → Z → St (world D) (option Z);
  user_holds_lock : Z → Z → Z → St (world D) bool;
  get_user_locked_seats : Z → Z → St (world D) (list Z);
  get_schedule_seat_bitmap_state_cluster : string → St (world D) string;
  set_schedule_seat_bitmap_state_cluster : string → Z → Z → St (world D) unit;
  zrem_cluster : string → string → St (world D) unit;
  zadd_cluster : string → string → Z → St (world D) unit;
  zrembyscore_cluster : string → option Z → option Z → St (world D) unit;
  publish_event : string → json → St (world D) unit;
  book_seat_lua : Z → Z → Z → St (world D) bool;
  force_book_seat_lua : Z → Z → Z → string → St (world D) unit
}.

(** ** Sequences of operations *)

(** The operations of the trait that write, and the passing of time. *)
Inductive lock_op :=
  | OpAcquire (showtime_id seat_id user_id expires_in_sec : Z)
  | OpAcquireLua (showtime_id seat_id user_id expires_in_sec : Z)
  | OpMetadata (showtime_id : Z) (seat_ids : list Z) (user_id expires_in_sec : Z)
  | OpRelease (showtime_id seat_id user_id : Z)
  | OpReleaseExpired (showtime_id seat_id user_id : Z) (member : string)
  | OpBook (showtime_id seat_id user_id : Z)
  | OpForceBook (showtime_id seat_id user_id : Z) (member : string)
  | OpZadd (zset_key member : string) (score : Z)
  | OpZrem (zset_key member : string)
  | OpZremByScore (zset_key : string) (min max : option Z)
  | OpBitmap (schedule_id seat_id state : Z)
  | OpTick (ms : N).

(** The user and the seat of an operation differ from the holder or from the held
    seat. *)
Definition foreign (s t u s' t' u' : Z) : Prop := (s', t') ≠ (s, t) ∨ u' ≠ u.

(** The operation is not one of user [u] on the seat [t] of showtime [s]. *)
Definition op_foreign (s t u : Z) (o : lock_op) : Prop :=
  match o with
  | OpAcquire s' t' u' _ | OpAcquireLua s' t' u' _ | OpRelease s' t' u'
  | OpReleaseExpired s' t' u' _ | OpBook s' t' u' | OpForceBook s' t' u' _ => foreign s t u s' t' u'
  | _ => True
  end.

(** The bookings that do not ask whether the user holds the lock. *)
Definition unforced (o : lock_op) : Prop := match o with OpForceBook _ _ _ _ => False | _ => True end.

Definition advance {D} (ms : N) : St (world D) unit := λ w,
  (tt, World (w_nodes w) (w_now w + Z.of_N ms) (w_faults w) (w_log w)).

Section run.
Context {D : Type} {HS : SeatLock D}.

(** The result of an operation without one is [true]. *)
Definition run_op (o : lock_op) : St (world D) bool :=
  match o with
  | OpAcquire s t u e => acquire_distributed_lock s t u e
  | OpAcquireLua s t u e => acquire_seat_lock_lua s t u e
  | OpMetadata s ts u e => update_seat_metadata_lua s ts u e
  | OpRelease s t u => release_lock s t u
  | OpReleaseExpired s t u m => release_expired_lock_lua s t u m
  | OpBook s t u => book_seat_lua s t u
  | OpForceBook s t u m => force_book_seat_lua s t u m ;; mret true
  | OpZadd k m sc => zadd_cluster k m sc ;; mret true
  | OpZrem k m => zrem_cluster k m ;; mret true
  | OpZremByScore k lo hi => zrembyscore_cluster k lo hi ;; mret true
  | OpBitmap b t st => set_schedule_seat_bitmap_state_cluster (schedule_seat_bitmap b) t st ;; mret true
  | OpTick ms => advance ms ;; mret true
  end.

(** The results of a sequence of operations, in order. *)
Fixpoint run_ops (os : list lock_op) : St (world D) (list bool) :=
  match os with
  | [] => mret []
  | o :: os => r ← run_op o; rs ← run_ops os; mret (r :: rs)
  end.

Lemma keeps_run_ops (P : world D → Prop) os :
  Forall (λ o, keeps P (run_op o)) os → keeps P (run_ops os).
Proof.
  induction 1 as [|o os Ho _ IH]; simpl; [apply keeps_ret|].
  apply keeps_bind; [done|intros ?]. apply keeps_bind; [done|intros ?]. apply keeps_ret.
Qed.

(** Acquisition by either route. *)
Definition acquire_with (lua : bool) : Z → Z → Z → Z → St (world D) bool :=
  if lua then acquire_seat_lock_lua else acquire_distributed_lock.

(** User [u'] can do nothing to the seat. *)
Definition locked_out (s t u' : Z) (w : world D) : Prop :=
  ∀ e, (acquire_distributed_lock s t u' e w).1 = false ∧ (acquire_seat_lock_lua s t u' e w).1 = false ∧
    (release_lock s t u' w).1 = false ∧ (book_seat_lua s t u' w).1 = false.
End run.

(** ** The promise of an implementation

    [lock_held s t u dl] says that user [u] holds seat [t] of showtime [s] until
    [dl]: a matter of the servers and the clock alone, which survives every [safe]
    operation that is not the user's own. *)
Class ExclusiveLock (D : Type) `{SeatLock D} := {
  lock_free : Z → Z → world D → Prop;
  lock_held : Z → Z → Z → Z → world D → Prop;
  lock_ttl : Z → Z;
  safe : lock_op → Prop;
  acquire_held lua s t u e w :
    lock_free s t w → (acquire_with lua s t u e w).1 = true →
    lock_held s t u (w_now w + lock_ttl e) (acquire_with lua s t u e w).2;
  held_stable o s t u dl : safe o → op_foreign s t u o → keeps (lock_held s t u dl) (run_op o);
  safe_unforced o : unforced o → safe o;
  held_world s t u dl w w' :
    w_nodes w' = w_nodes w → w_now w' = w_now w → lock_held s t u dl w → lock_held s t u dl w';
  held_locks_out s t u dl u' w : lock_held s t u dl w → w_now w < dl → u' ≠ u → locked_out s t u' w
}.

Section exclusive.
Context {D : Type} `{HS : SeatLock D} {HE : ExclusiveLock D}.

Lemma exclusive lua s t u e (w : world D) os u' :
  lock_free s t w → (acquire_with lua s t u e w).1 = true →
  Forall safe os → Forall (op_foreign s t u) os →
  let w' := (run_ops os (acquire_with lua s t u e w).2).2 in
  w_now w' < w_now w + lock_ttl e → u' ≠ u → locked_out s t u' w'.
Proof.
  intros Hfree Ha Hsafe Hos w' Hdl Hu. apply (held_locks_out s t u (w_now w + lock_ttl e)); [|done..].
  eapply keeps_run_ops; [|by apply acquire_held].
  rewrite Forall_forall in Hsafe, Hos. apply Forall_forall. intros o Ho. by apply held_stable; auto.
Qed.
End exclusive.
