(* ===== verification/SingleNodeLock.v ===== *)
(** * SingleNodeLock: seat locks on a set of independent Redis servers
    ([packages/redis-conn/src/single_node_lock.rs])

    The state is [w_nodes] of the world, the pools of the struct.  Each operation of
    the [SeatLock] implementation is one definition; a Lua script is the function it
    runs on one server.  The theorems show that a held seat cannot be taken over by
    any sequence of operations of other users, whatever the network does, and give
    the exact effect of each operation when nothing fails. *)

From Stdlib Require Import Ascii.
From S2P Require Import Prelude Text Keys Crc16 Redis RedisMem SeatLock.

(** ** The URLs of [SingleNodeLock::establish] *)

Definition push_new (u : string) (urls : list string) : list string :=
  if bool_decide (u ∈ urls) then urls else urls ++ [u].

(** [REDIS_CLUSTER_URLS], or else [REDIS_URL] and [REDIS_REMOTE_URL]; [None] is the
    panic on a missing [REDIS_URL]. *)
Definition establish_urls (cluster_urls redis_url remote_url : option string) : option (list string) :=
  match cluster_urls with
  | Some extra =>
      Some (fold_left (λ urls u,
        let trimmed := trim u in
        if negb (is_empty trimmed) then push_new trimmed urls else urls) (split_on "," extra) [])
  | None =>
      match redis_url with
      | None => None
      | Some u1 => Some (match remote_url with Some u2 => push_new u2 [u1] | None => [u1] end)
      end
  end.

(** The end of [SingleNodeLock::establish]: one pool per URL, in the order of the
    list; a server that cannot be reached stops the process, so that no process runs
    with a shorter vector than another.  [connect] says which servers answer. *)
Inductive startup := SPanic | SNotConnected | SPools (urls : list string).

Definition establish (cluster_urls redis_url remote_url : option string) (connect : string → bool) : startup :=
  match establish_urls cluster_urls redis_url remote_url with
  | None => SPanic
  | Some urls =>
      if forallb connect urls then
        match urls with [] => SNotConnected | _ => SPools urls end
      else SPanic
  end.

Lemma push_new_nodup u urls : NoDup urls → NoDup (push_new u urls).
Proof.
  intros H. unfold push_new. case_bool_decide; [done|].
  apply NoDup_app. split_and!; [done| |apply NoDup_singleton]. intros x Hx ->%list_elem_of_singleton. done.
Qed.

Lemma establish_urls_nodup c r1 r2 urls : establish_urls c r1 r2 = Some urls → NoDup urls.
Proof.
  unfold establish_urls. destruct c as [extra|].
  - intros [= <-]. generalize (split_on "," extra). intros l.
    assert (∀ acc, NoDup acc → NoDup (fold_left (λ urls u, let trimmed := trim u in
      if negb (is_empty trimmed) then push_new trimmed urls else urls) l acc)) as H; [|apply H, NoDup_nil_2].
    induction l as [|u l IH]; intros acc Hacc; simpl; [done|].
    destruct (negb _); apply IH; auto using push_new_nodup.
  - destruct r1 as [u1|]; [|done]. intros [= <-]. destruct r2; auto using push_new_nodup, NoDup_singleton.
Qed.

(** A process that starts has at least one pool, no server appears in two
    pools, and all of them answer.  The vector depends on the environment alone, so two
    processes with one environment send each seat to the same server. *)
Theorem established_pools c r1 r2 (connect connect' : string → bool) urls urls' :
  establish c r1 r2 connect = SPools urls →
  urls ≠ [] ∧ NoDup urls ∧ (∀ u, u ∈ urls → connect u = true) ∧
  (establish c r1 r2 connect' = SPools urls' → urls' = urls).
Proof.
  unfold establish. destruct (establish_urls c r1 r2) as [l|] eqn:E; [|done].
  apply establish_urls_nodup in E. destruct (forallb connect l) eqn:Hc; [|done].
  destruct l as [|u l]; [done|]. intros [= <-]. split_and!; [done|done| |].
  - intros v Hv. rewrite forallb_forall in Hc. apply Hc. by apply list_elem_of_In.
  - destruct (forallb connect' _); [|done]. congruence.
Qed.

Lemma established_pools_witness :
  establish (Some " redis://a, redis://b ,,redis://a") None None (λ _, true) = SPools ["redis://a"; "redis://b"]%string ∧
  NoDup ["redis://a"; "redis://b"]%string.
Proof.
  assert (establish (Some " redis://a, redis://b ,,redis://a") None None (λ _, true)
    = SPools ["redis://a"; "redis://b"]%string) as H by (vm_compute; reflexivity).
  split; [exact H|]. exact (proj1 (proj2 (established_pools _ _ _ _ (λ _, true) _ [] H))).
Defined.

Section single_node_lock.
Context {D : Type} `{!RedisServer D} {HJ : JsonText}.
Abbreviation M := (St (world D)).

(** [expires_in_sec as u64 * 1000] and [seat_id as usize * 2], with the wrap-around
    of 64-bit arithmetic. *)
Definition ttl_ms_of (expires_in_sec : Z) : Z := u64 (u64 expires_in_sec * 1000).
Definition bit_offset_of (seat_id : Z) : Z := u64 (u64 seat_id * 2).

(** [serde_json::json!({..}).to_string()]: the member of the delayed queue. *)
Definition queue_entry (seat_id schedule_id user_id : Z) : json :=
  JObj [("seat_id", JNum seat_id); ("schedule_id", JNum schedule_id); ("user_id", JNum user_id)]%string.
Definition queue_member (seat_id schedule_id user_id : Z) : string :=
  json_print (queue_entry seat_id schedule_id user_id).

Definition room_member (seat_id user_id : Z) : string := (show_Z seat_id +:+ ":" +:+ show_Z user_id)%string.

(** The index of the pool of a seat, [None] without pools. *)
Definition pool_index (n : nat) (showtime_id seat_id : Z) : option nat :=
  if bool_decide (n = 0%nat) then None
  else
    let input := (show_Z showtime_id +:+ ":" +:+ show_Z seat_id)%string in
    Some (Z.to_nat (crc16 (as_bytes input) mod Z.of_nat n)).

Definition pool_for_seat (showtime_id seat_id : Z) : M (option nat) := λ w,
  (pool_index (length (w_nodes w)) showtime_id seat_id, w).

(** [self.pools.first()]. *)
Definition first_pool : M (option nat) := λ w,
  (if bool_decide (w_nodes w = []) then None else Some 0%nat, w).

(** The end of [acquire_lock]: a key that could not be set is kept when its owner is
    the same user. *)
Definition refresh_own_lock (i : nat) (lock_key : string) (user_id ttl_ms : Z) : M bool :=
  current_owner ← node_cmd i (cmd_get_i32 lock_key);
  if bool_decide (default None current_owner = Some user_id) then
    node_cmd i (cmd_pexpire lock_key ttl_ms) ;; mret true
  else mret false.

Definition acquire_lock (showtime_id seat_id user_id ttl_ms : Z) : M bool :=
  pool ← pool_for_seat showtime_id seat_id;
  match pool with
  | None => mret false
  | Some i =>
      let lock_key := seat_lock_key showtime_id seat_id in
      cli ← pool_get i;
      if (cli : bool) then
        set_res ← node_cmd i (cmd_set_nx_px lock_key (show_Z user_id) ttl_ms);
        match set_res with
        | Some true => mret true
        | _ => refresh_own_lock i lock_key user_id ttl_ms
        end
      else mret false
  end.

Definition sn_acquire_distributed_lock (showtime_id seat_id user_id expires_in_sec : Z) : M bool :=
  acquire_lock showtime_id seat_id user_id (ttl_ms_of expires_in_sec).

(** *** Replicated writes *)

Definition sn_zadd_cluster (zset_key member : string) (score : Z) : M unit :=
  all_nodes (λ d _, r_zadd d zset_key member score).
Definition sn_zrem_cluster (zset_key member : string) : M unit :=
  all_nodes (λ d _, r_zrem d zset_key member).
Definition sn_zrembyscore_cluster (zset_key : string) (min max : option Z) : M unit :=
  all_nodes (λ d _, r_zremrange d zset_key min max).

(** [BITFIELD key SET u2 offset state]; an offset the server refuses leaves it as
    it was. *)
Definition cmd_bitfield (key : string) (off state : Z) (d : D) (t : Z) : D :=
  if r_bf_ok off then r_bitfield d t key off state else d.

Definition sn_set_schedule_seat_bitmap_state_cluster (bitmap_key : string) (seat_id state : Z) : M unit :=
  if seat_id <? 0 then mret tt
  else all_nodes (cmd_bitfield bitmap_key (seat_id * 2) state).

Definition sn_publish_event (channel : string) (payload : json) : M unit := λ w,
  for_each (seq 0 (length (w_nodes w)))
    (λ i, ok ← pool_get i; when ok (publish channel payload)) w.

(** *** Lua scripts and pipelines: functions of one server *)

(** The atomic pipeline of [update_seat_metadata_lua]. *)
Definition metadata_pipe (showtime_id seat_id user_id expiry processing_expiry : Z)
    (d : D) (t : Z) : D * option unit :=
  let d := r_zadd d (room_zset_key showtime_id) (room_member seat_id user_id) expiry in
  let d := r_zadd d (user_zset_key showtime_id user_id) (show_Z seat_id) expiry in
  let d := r_zadd d seat_processing_queue_key (queue_member seat_id showtime_id user_id) processing_expiry in
  if r_bf_ok (bit_offset_of seat_id)
  then (r_bitfield d t (schedule_seat_bitmap showtime_id) (bit_offset_of seat_id) 1, Some tt)
  else (d, None).

Definition acquire_script (showtime_id seat_id user_id ttl_ms expiry processing_expiry : Z)
    (d : D) (t : Z) : D * option Z :=
  let lock_key := seat_lock_key showtime_id seat_id in
  let go :=
    if r_px_ok ttl_ms then
      let d := r_set_px d t lock_key (show_Z user_id) ttl_ms in
      let d := r_set_px d t (seat_user_context_key showtime_id seat_id user_id) "1" ttl_ms in
      let d := r_zadd d (user_zset_key showtime_id user_id) (show_Z seat_id) expiry in
      let d := r_zadd d (room_zset_key showtime_id) (room_member seat_id user_id) expiry in
      let d := r_zadd d seat_processing_queue_key (queue_member seat_id showtime_id user_id) processing_expiry in
      if r_bf_ok (bit_offset_of seat_id)
      then (r_bitfield d t (schedule_seat_bitmap showtime_id) (bit_offset_of seat_id) 1, Some 1)
      else (d, None)
    else (d, None) in
  match r_get d t lock_key with
  | Some current_owner => if bool_decide (current_owner ≠ show_Z user_id) then (d, Some 0) else go
  | None => go
  end.

(** The body shared by the three scripts that give a seat up: the two keys, the
    three sorted-set entries, then the bitmap. *)
Definition clear_keys (showtime_id seat_id user_id : Z) (d : D) : D :=
  r_del (r_del d (seat_lock_key showtime_id seat_id)) (seat_user_context_key showtime_id seat_id user_id).
Definition clear_zsets (showtime_id seat_id user_id : Z) (member : string) (d : D) : D :=
  let d := r_zrem d (user_zset_key showtime_id user_id) (show_Z seat_id) in
  let d := r_zrem d (room_zset_key showtime_id) (room_member seat_id user_id) in
  r_zrem d seat_processing_queue_key member.
Definition finish_script (showtime_id seat_id state : Z) (d : D) (t : Z) : D * option Z :=
  if r_bf_ok (bit_offset_of seat_id)
  then (r_bitfield d t (schedule_seat_bitmap showtime_id) (bit_offset_of seat_id) state, Some 1)
  else (d, None).

(** [not owner or owner == ARGV[1]]. *)
Definition free_or_own (owner : option string) (user_id : Z) : bool :=
  match owner with None => true | Some o => bool_decide (o = show_Z user_id) end.

Definition release_script (showtime_id seat_id user_id : Z) (member : string) (d : D) (t : Z) : D * option Z :=
  if free_or_own (r_get d t (seat_lock_key showtime_id seat_id)) user_id then
    finish_script showtime_id seat_id 0
      (clear_zsets showtime_id seat_id user_id member (clear_keys showtime_id seat_id user_id d)) t
  else (d, Some 0).

Definition release_expired_script (showtime_id seat_id user_id : Z) (member : string) (d : D) (t : Z) : D * option Z :=
  if free_or_own (r_get d t (seat_lock_key showtime_id seat_id)) user_id then
    finish_script showtime_id seat_id 0
      (clear_zsets showtime_id seat_id user_id member (clear_keys showtime_id seat_id user_id d)) t
  else (r_zrem d seat_processing_queue_key member, Some 0).

Definition book_script (showtime_id seat_id user_id : Z) (member : string) (d : D) (t : Z) : D * option Z :=
  if free_or_own (r_get d t (seat_lock_key showtime_id seat_id)) user_id then
    finish_script showtime_id seat_id 2
      (clear_zsets showtime_id seat_id user_id member (clear_keys showtime_id seat_id user_id d)) t
  else (d, Some 0).

Definition force_book_script (showtime_id seat_id user_id : Z) (member : string) (d : D) (t : Z) : D * option Z :=
  let d := if free_or_own (r_get d t (seat_lock_key showtime_id seat_id)) user_id
           then clear_keys showtime_id seat_id user_id d else d in
  finish_script showtime_id seat_id 2 (clear_zsets showtime_id seat_id user_id member d) t.

(** *** Operations *)

Definition sn_update_seat_metadata_lua (showtime_id : Z) (seat_ids : list Z) (user_id expires_in_sec : Z) : M bool :=
  now ← now_secs;
  let expiry := now + expires_in_sec in
  let processing_expiry := expiry + 15 in
  for_fold seat_ids true (λ success seat_id,
    pool ← pool_for_seat showtime_id seat_id;
    match pool with
    | None => mret false
    | Some i =>
        cli ← pool_get i;
        if (cli : bool) then
          res ← node_cmd i (metadata_pipe showtime_id seat_id user_id expiry processing_expiry);
          match res with Some _ => mret success | None => mret false end
        else mret false
    end).

(** The replicated writes that follow a successful acquire script. *)
Definition mirror_acquire (showtime_id seat_id user_id expiry processing_expiry : Z) : M unit :=
  sn_zadd_cluster (user_zset_key showtime_id user_id) (show_Z seat_id) expiry ;;
  sn_zadd_cluster (room_zset_key showtime_id) (room_member seat_id user_id) expiry ;;
  sn_zadd_cluster seat_processing_queue_key (queue_member seat_id showtime_id user_id) processing_expiry ;;
  sn_set_schedule_seat_bitmap_state_cluster (schedule_seat_bitmap showtime_id) seat_id 1.

Definition sn_acquire_seat_lock_lua (showtime_id seat_id user_id expires_in_sec : Z) : M bool :=
  let ttl_ms := ttl_ms_of expires_in_sec in
  now ← now_secs;
  let expiry := now + expires_in_sec in
  let processing_expiry := expiry + 15 in
  pool ← pool_for_seat showtime_id seat_id;
  match pool with
  | None => mret false
  | Some i =>
      cli ← pool_get i;
      if (cli : bool) then
        res ← node_cmd i (acquire_script showtime_id seat_id user_id ttl_ms expiry processing_expiry);
        if bool_decide (res = Some 1) then
          mirror_acquire showtime_id seat_id user_id expiry processing_expiry ;; mret true
        else mret false
      else mret false
  end.

(** The replicated clean-up that follows the scripts that give a seat up. *)
Definition clear_cluster (showtime_id seat_id user_id : Z) (member : string) (state : Z) : M unit :=
  sn_zrem_cluster (user_zset_key showtime_id user_id) (show_Z seat_id) ;;
  sn_zrem_cluster (room_zset_key showtime_id) (room_member seat_id user_id) ;;
  sn_zrem_cluster seat_processing_queue_key member ;;
  sn_set_schedule_seat_bitmap_state_cluster (schedule_seat_bitmap showtime_id) seat_id state.

Definition sn_release_expired_lock_lua (showtime_id seat_id user_id : Z) (member : string) : M bool :=
  pool ← pool_for_seat showtime_id seat_id;
  match pool with
  | None => mret false
  | Some i =>
      cli ← pool_get i;
      if (cli : bool) then
        result ← node_cmd i (release_expired_script showtime_id seat_id user_id member);
        clear_cluster showtime_id seat_id user_id member 0 ;;
        mret (bool_decide (result = Some 1))
      else mret false
  end.

Definition sn_release_lock (showtime_id seat_id user_id : Z) : M bool :=
  pool ← pool_for_seat showtime_id seat_id;
  match pool with
  | None => mret false
  | Some i =>
      let member := queue_member seat_id showtime_id user_id in
      cli ← pool_get i;
      if (cli : bool) then
        res ← node_cmd i (release_script showtime_id seat_id user_id member);
        if bool_decide (res = Some 1) then
          clear_cluster showtime_id seat_id user_id member 0 ;; mret true
        else mret false
      else mret false
  end.

Definition sn_book_seat_lua (showtime_id seat_id user_id : Z) : M bool :=
  pool ← pool_for_seat showtime_id seat_id;
  match pool with
  | None => mret false
  | Some i =>
      let member := queue_member seat_id showtime_id user_id in
      cli ← pool_get i;
      if (cli : bool) then
        res ← node_cmd i (book_script showtime_id seat_id user_id member);
        if bool_decide (res = Some 1) then
          clear_cluster showtime_id seat_id user_id member 2 ;; mret true
        else mret false
      else mret false
  end.

Definition sn_force_book_seat_lua (showtime_id seat_id user_id : Z) (member : string) : M unit :=
  pool ← pool_for_seat showtime_id seat_id;
  match pool with
  | None => mret tt
  | Some i =>
      cli ← pool_get i;
      if (cli : bool) then
        node_cmd i (force_book_script showtime_id seat_id user_id member) ;;
        clear_cluster showtime_id seat_id user_id member 2
      else mret tt
  end.

Definition sn_get_lock_owner (showtime_id seat_id : Z) : M (option Z) :=
  pool ← pool_for_seat showtime_id seat_id;
  match pool with
  | None => mret None
  | Some i =>
      cli ← pool_get i;
      if (cli : bool) then
        owner ← node_cmd i (cmd_get_i32 (seat_lock_key showtime_id seat_id));
        mret (default None owner)
      else mret None
  end.

Definition sn_user_holds_lock (showtime_id seat_id user_id : Z) : M bool :=
  pool ← pool_for_seat showtime_id seat_id;
  match pool with
  | None => mret false
  | Some i =>
      cli ← pool_get i;
      if (cli : bool) then
        exist ← node_cmd i (cmd_exists (seat_user_context_key showtime_id seat_id user_id));
        mret (default false exist)
      else mret false
  end.

Definition sn_get_user_locked_seats (showtime_id user_id : Z) : M (list Z) :=
  now ← now_secs;
  pool ← first_pool;
  match pool with
  | None => mret []
  | Some i =>
      cli ← pool_get i;
      if (cli : bool) then
        members ← node_cmd i (cmd_zrange (user_zset_key showtime_id user_id) (Some now) None);
        mret (omap parse_i32 (default [] members))
      else mret []
  end.

Definition sn_get_schedule_seat_bitmap_state_cluster (bitmap_key : string) : M string :=
  pool ← first_pool;
  match pool with
  | None => mret EmptyString
  | Some i =>
      cli ← pool_get i;
      if (cli : bool) then
        result ← node_cmd i (cmd_get bitmap_key);
        mret (default EmptyString (default None result))
      else mret EmptyString
  end.

Definition single_node_lock : SeatLock D := {|
  acquire_seat_lock_lua := sn_acquire_seat_lock_lua;
  acquire_distributed_lock := sn_acquire_distributed_lock;
  update_seat_metadata_lua := sn_update_seat_metadata_lua;
  release_lock := sn_release_lock;
  release_expired_lock_lua := sn_release_expired_lock_lua;
  get_lock_owner := sn_get_lock_owner;
  user_holds_lock := sn_user_holds_lock;
  get_user_locked_seats := sn_get_user_locked_seats;
  get_schedule_seat_bitmap_state_cluster := sn_get_schedule_seat_bitmap_state_cluster;
  set_schedule_seat_bitmap_state_cluster := sn_set_schedule_seat_bitmap_state_cluster;
  zrem_cluster := sn_zrem_cluster;
  zadd_cluster := sn_zadd_cluster;
  zrembyscore_cluster := sn_zrembyscore_cluster;
  publish_event := sn_publish_event;
  book_seat_lua := sn_book_seat_lua;
  force_book_seat_lua := sn_force_book_seat_lua
|}.
End single_node_lock.

(** ** What a held lock is *)

Section held.
Context {D : Type} `{!RedisServer D} `{!RedisLaws D} {HJ : JsonText}.
Implicit Types (d : D) (ns : list D).

(** Key [k] of [d] reads [v] from [t] until [dl]. *)
Definition still (k v : string) (dl t : Z) (d : D) : Prop :=
  ∀ t', t ≤ t' → t' < dl → r_get d t' k = Some v.

(** Among [n] servers, the one of index [i] holds [k] for [v] until [dl]. *)
Definition held (n i : nat) (k v : string) (dl : Z) (ns : list D) (t : Z) : Prop :=
  length ns = n ∧ ∃ d, ns !! i = Some d ∧ still k v dl t d.

(** A function of one server leaves a held key held. *)
Definition spares (k v : string) (dl : Z) (f : D → Z → D) : Prop :=
  ∀ d t, still k v dl t d → still k v dl t (f d t).

Lemma held_insert n i k v dl j ns t d (f : D → Z → D) :
  spares k v dl f → held n i k v dl ns t → ns !! j = Some d →
  held n i k v dl (<[j := f d t]> ns) t.
Proof.
  intros Hf [Hn (d0 & Hi & Hs)] Hj. split; [by rewrite length_insert|].
  destruct (decide (i = j)) as [<-|Hne].
  - exists (f d t). split; [apply list_lookup_insert_eq; by eapply lookup_lt_Some|].
    apply Hf. by simplify_eq.
  - exists d0. by rewrite list_lookup_insert_ne.
Qed.

Lemma keeps_held_cmd {R} n i k v dl j (f : D → Z → D * option R) :
  spares k v dl (λ d t, (f d t).1) → keeps (on_nodes (held n i k v dl)) (node_cmd j f).
Proof.
  intros Hf. apply keeps_node_cmd. intros ns t d H Hj.
  by apply (held_insert n i k v dl j ns t d (λ d t, (f d t).1)).
Qed.

Lemma keeps_held_all n i k v dl (f : D → Z → D) :
  spares k v dl f → keeps (on_nodes (held n i k v dl)) (all_nodes f).
Proof. intros Hf. apply keeps_all_nodes. intros j ns t d. by apply held_insert. Qed.

Lemma spares_id k v dl : spares k v dl (λ d _, d).
Proof. by intros d t H. Qed.

(** Functions that leave the value of [k] alone at every later time. *)
Lemma spares_get k v dl (f : D → Z → D) :
  (∀ d t t', t ≤ t' → r_get (f d t) t' k = r_get d t' k) → spares k v dl f.
Proof. intros Hf d t H t' Ht Hdl. rewrite Hf by done. by apply H. Qed.
End held.

(** [get_simp]: evaluate [r_get] through the writes of other keys. *)
Ltac get_simp :=
  repeat first
    [ rewrite get_zadd | rewrite get_zrem | rewrite get_zremrange
    | rewrite get_set_px by lia | rewrite get_del | rewrite get_set
    | rewrite get_pexpire by lia
    | rewrite get_bitfield_ne by key_ne
    | rewrite decide_True by done
    | rewrite decide_False by key_ne ].

Section no_steal.
Context {D : Type} `{!RedisServer D} `{!RedisLaws D} {HJ : JsonText}.
#[local] Existing Instance single_node_lock.

Lemma foreign_cases s t u s' t' u' :
  foreign s t u s' t' u' → (s' = s ∧ t' = t ∧ u' ≠ u) ∨ (s' ≠ s ∨ t' ≠ t).
Proof.
  intros H. destruct (decide (s' = s)) as [->|]; [|by auto].
  destruct (decide (t' = t)) as [->|]; [|by auto]. left. destruct H; [congruence|done].
Qed.

Lemma not_free_or_own u u' : u' ≠ u → free_or_own (Some (show_Z u)) u' = false.
Proof. intros H. unfold free_or_own. apply bool_decide_eq_false. intros E. by apply (inj show_Z) in E. Qed.

Lemma spares_bitfield s t v dl b off state :
  spares (seat_lock_key s t) v dl (cmd_bitfield (D:=D) (schedule_seat_bitmap b) off state).
Proof.
  apply spares_get. intros d t0 t1 _. unfold cmd_bitfield. destruct (r_bf_ok off); [|done]. by get_simp.
Qed.

Lemma spares_zadd k v dl z m sc : spares k v dl (λ (d : D) _, r_zadd d z m sc).
Proof. apply spares_get. intros. apply get_zadd. Qed.
Lemma spares_zrem k v dl z m : spares k v dl (λ (d : D) _, r_zrem d z m).
Proof. apply spares_get. intros. apply get_zrem. Qed.
Lemma spares_zremrange k v dl z lo hi : spares k v dl (λ (d : D) _, r_zremrange d z lo hi).
Proof. apply spares_get. intros. apply get_zremrange. Qed.

(** Every script of another user, or for another seat, spares the lock. *)
Ltac script_spares Hf :=
  let d := fresh "d" in let t0 := fresh "t0" in let H := fresh "H" in
  let t1 := fresh "t1" in let Ht := fresh "Ht" in let Hdl := fresh "Hdl" in
  intros d t0 H t1 Ht Hdl;
  destruct (foreign_cases _ _ _ _ _ _ Hf) as [(-> & -> & Hu)|Hs];
  [ rewrite ?(H t0), ?not_free_or_own by (done || lia); simpl; get_simp; by apply H
  | repeat match goal with
      | |- context [free_or_own ?x ?u] => destruct (free_or_own x u)
      | |- context [r_bf_ok ?x] => destruct (r_bf_ok x)
      end; simpl; get_simp; by apply H ].

Lemma spares_release s t u s' t' u' m dl : foreign s t u s' t' u' →
  spares (seat_lock_key s t) (show_Z u) dl (λ d t0, (release_script (D:=D) s' t' u' m d t0).1).
Proof. intros Hf. unfold release_script, finish_script, clear_zsets, clear_keys. script_spares Hf. Qed.

Lemma spares_release_expired s t u s' t' u' m dl : foreign s t u s' t' u' →
  spares (seat_lock_key s t) (show_Z u) dl (λ d t0, (release_expired_script (D:=D) s' t' u' m d t0).1).
Proof. intros Hf. unfold release_expired_script, finish_script, clear_zsets, clear_keys. script_spares Hf. Qed.

Lemma spares_book s t u s' t' u' m dl : foreign s t u s' t' u' →
  spares (seat_lock_key s t) (show_Z u) dl (λ d t0, (book_script (D:=D) s' t' u' m d t0).1).
Proof. intros Hf. unfold book_script, finish_script, clear_zsets, clear_keys. script_spares Hf. Qed.

Lemma spares_force_book s t u s' t' u' m dl : foreign s t u s' t' u' →
  spares (seat_lock_key s t) (show_Z u) dl (λ d t0, (force_book_script (D:=D) s' t' u' m d t0).1).
Proof.
  intros Hf. unfold force_book_script, finish_script, clear_zsets, clear_keys.
  intros d t0 H t1 Ht Hdl. destruct (foreign_cases _ _ _ _ _ _ Hf) as [(-> & -> & Hu)|Hs].
  - rewrite (H t0), not_free_or_own by (done || lia).
    destruct (r_bf_ok _); simpl; get_simp; by apply H.
  - destruct (free_or_own _ _), (r_bf_ok _); simpl; get_simp; by apply H.
Qed.

Lemma spares_acquire_script s t u s' t' u' ttl e pe dl : foreign s t u s' t' u' →
  spares (seat_lock_key s t) (show_Z u) dl (λ d t0, (acquire_script (D:=D) s' t' u' ttl e pe d t0).1).
Proof.
  intros Hf d t0 H t1 Ht Hdl. unfold acquire_script.
  destruct (foreign_cases _ _ _ _ _ _ Hf) as [(-> & -> & Hu)|Hs].
  - rewrite (H t0) by lia. rewrite bool_decide_true; [simpl; by apply H|].
    intros E. apply (inj show_Z) in E. congruence.
  - destruct (r_get d t0 _); [case_bool_decide|]; simpl; try (by apply H);
      destruct (r_px_ok ttl), (r_bf_ok (bit_offset_of t')); simpl; get_simp; by apply H.
Qed.

Lemma spares_metadata_pipe s t u s' t' u' e pe dl :
  spares (seat_lock_key s t) (show_Z u) dl (λ d t0, (metadata_pipe (D:=D) s' t' u' e pe d t0).1).
Proof.
  apply spares_get. intros d t0 t1 _. unfold metadata_pipe.
  destruct (r_bf_ok _); simpl; by get_simp.
Qed.

Lemma spares_set_nx s t u s' t' u' ttl dl : foreign s t u s' t' u' →
  spares (seat_lock_key s t) (show_Z u) dl
    (λ d t0, (cmd_set_nx_px (D:=D) (seat_lock_key s' t') (show_Z u') ttl d t0).1).
Proof.
  intros Hf d t0 H t1 Ht Hdl. unfold cmd_set_nx_px.
  destruct (r_px_ok ttl); [|simpl; by apply H].
  destruct (foreign_cases _ _ _ _ _ _ Hf) as [(-> & -> & Hu)|Hs].
  - rewrite (H t0) by lia. simpl. by apply H.
  - destruct (r_get d t0 _); simpl; get_simp; by apply H.
Qed.

Lemma spares_pexpire s t u s' t' ttl dl : s' ≠ s ∨ t' ≠ t →
  spares (seat_lock_key s t) (show_Z u) dl (λ d t0, (cmd_pexpire (D:=D) (seat_lock_key s' t') ttl d t0).1).
Proof. intros Hs d t0 H t1 Ht Hdl. unfold cmd_pexpire. destruct (_ || _); simpl; get_simp; by apply H. Qed.

(** The seat [t] of showtime [s] is held by [u] until [dl], on a cluster of [n]
    servers. *)
Definition seat_held (n : nat) (s t u dl : Z) : list D → Z → Prop := λ ns now,
  ∃ i, pool_index n s t = Some i ∧ held n i (seat_lock_key s t) (show_Z u) dl ns now.

Lemma keeps_seat_held {A} n s t u dl (m : St (world D) A) :
  (∀ i, pool_index n s t = Some i → keeps (on_nodes (held n i (seat_lock_key s t) (show_Z u) dl)) m) →
  keeps (on_nodes (seat_held n s t u dl)) m.
Proof.
  intros Hm w (i & Hi & Hw). exists i. split; [done|]. by apply (Hm i Hi w).
Qed.

Lemma keeps_pool_for_seat P s t : keeps P (pool_for_seat (D:=D) s t).
Proof. by intros w. Qed.
Lemma keeps_first_pool P : keeps P (first_pool (D:=D)).
Proof. by intros w. Qed.

Lemma hoare_pool_for_seat n i k v dl s t :
  pool_index n s t = Some i →
  hoare (on_nodes (held (D:=D) n i k v dl)) (pool_for_seat s t)
    (λ r w, r = Some i ∧ on_nodes (held n i k v dl) w).
Proof.
  intros Hi w [Hn Hw]. unfold pool_for_seat. simpl. rewrite Hn. done.
Qed.

Lemma parse_i32_show u n : parse_i32 (show_Z u) = Some n → n = u.
Proof.
  unfold parse_i32. rewrite parse_show_Z. simpl. unfold i32_checked.
  destruct (in_i32 u); [|done]. by intros [= ->].
Qed.

(** Reading the owner of a held seat never shows another user. *)
Lemma hoare_read_owner n i s t u u' dl : u' ≠ u →
  hoare (on_nodes (held n i (seat_lock_key s t) (show_Z u) dl))
    (node_cmd i (cmd_get_i32 (D:=D) (seat_lock_key s t)))
    (λ r w, on_nodes (held n i (seat_lock_key s t) (show_Z u) dl) w ∧
            (w_now w < dl → default None r ≠ Some u')).
Proof.
  intros Hu w Hw. split.
  { apply keeps_held_cmd; [apply spares_id|done]. }
  unfold node_cmd. destruct (draw_eq w) as (fl & l & -> & _). simpl.
  destruct Hw as [Hn (d & Hi & Hs)]. rewrite Hi.
  destruct fl; simpl; intros Hlt; try done.
  rewrite (Hs (w_now w)) by lia.
  destruct (parse_i32 (show_Z u)) as [m|] eqn:E; simpl; [|done].
  apply parse_i32_show in E. congruence.
Qed.

(** After the deadline there is nothing left to spare. *)
Lemma keeps_held_late {R} n i k v dl j (f : D → Z → D * option R) :
  hoare (λ w, on_nodes (held n i k v dl) w ∧ (w_now w < dl → False)) (node_cmd j f)
    (λ _, on_nodes (held n i k v dl)).
Proof.
  intros w [[Hn (d & Hi & Hs)] Hlate]. unfold node_cmd.
  destruct (draw_eq w) as (fl & l & -> & _). simpl.
  destruct (w_nodes w !! j) as [dj|] eqn:Hj.
  - assert (on_nodes (held n i k v dl)
      (set_nodes <[j:=(f dj (w_now w)).1]> (World (w_nodes w) (w_now w) l (w_log w)))) as Hset.
    { split; simpl; [by rewrite length_insert|].
      destruct (decide (i = j)) as [<-|Hne].
      - eexists. split; [apply list_lookup_insert_eq; by eapply lookup_lt_Some|].
        intros t' ??. exfalso. apply Hlate. lia.
      - exists d. rewrite list_lookup_insert_ne by done. split; [done|]. intros t' ??. exfalso. apply Hlate. lia. }
    destruct fl; simpl; try done. split; [done|]. by exists d.
  - split; [done|]. by exists d.
Qed.

(** [keeps_held]: a program all of whose server functions spare the lock. *)
Create HintDb spares.
#[local] Hint Resolve spares_id spares_zadd spares_zrem spares_zremrange spares_bitfield
  spares_release spares_release_expired spares_book spares_force_book spares_acquire_script
  spares_metadata_pipe spares_set_nx spares_pexpire : spares.
#[local] Hint Resolve keeps_pool_for_seat keeps_first_pool : keeps.
Ltac keeps_held :=
  repeat first
    [ progress (eauto with keeps nocore)
    | keeps_step
    | apply keeps_held_cmd; [ (* the function *) ..]
    | apply keeps_held_all
    | progress unfold sn_zadd_cluster, sn_zrem_cluster, sn_zrembyscore_cluster,
        sn_set_schedule_seat_bitmap_state_cluster, clear_cluster, mirror_acquire
    | solve [eauto with spares] ].

Lemma keeps_refresh_own_lock n i s t u u' ttl dl : u' ≠ u →
  keeps (on_nodes (held n i (seat_lock_key s t) (show_Z u) dl))
    (refresh_own_lock (D:=D) i (seat_lock_key s t) u' ttl).
Proof.
  intros Hu. eapply hoare_bind; [by apply (hoare_read_owner n i s t u u')|].
  intros r. case_bool_decide as Hr.
  - eapply hoare_bind; [|intros; apply keeps_ret].
    eapply hoare_conseq; [| |apply (keeps_held_late n i (seat_lock_key s t) (show_Z u) dl)]; [|done].
    intros w [Hw Hl]. split; [done|]. intros Hlt. by apply (Hl Hlt).
  - apply hoare_ret. by intros w [Hw _].
Qed.

Lemma keeps_acquire_lock n s t u dl s' t' u' ttl : foreign s t u s' t' u' →
  keeps (on_nodes (seat_held n s t u dl)) (acquire_lock (D:=D) s' t' u' ttl).
Proof.
  intros Hf. apply keeps_seat_held. intros i Hi. unfold acquire_lock.
  destruct (foreign_cases _ _ _ _ _ _ Hf) as [(-> & -> & Hu)|Hs]; [|unfold refresh_own_lock; keeps_held].
  eapply hoare_bind; [by apply hoare_pool_for_seat|]. intros r w [-> Hw]. revert w Hw.
  match goal with |- ∀ w, _ → on_nodes ?P (?m w).2 => change (keeps (on_nodes P) m) end.
  keeps_held; by apply keeps_refresh_own_lock.
Qed.

Lemma keeps_acquire_lua n s t u dl s' t' u' e : foreign s t u s' t' u' →
  keeps (on_nodes (seat_held n s t u dl)) (sn_acquire_seat_lock_lua (D:=D) s' t' u' e).
Proof. intros Hf. apply keeps_seat_held. intros i Hi. unfold sn_acquire_seat_lock_lua. keeps_held. Qed.

Lemma keeps_metadata n s t u dl s' ts' u' e :
  keeps (on_nodes (seat_held n s t u dl)) (sn_update_seat_metadata_lua (D:=D) s' ts' u' e).
Proof. apply keeps_seat_held. intros i Hi. unfold sn_update_seat_metadata_lua. keeps_held. Qed.

Lemma keeps_release_expired n s t u dl s' t' u' m : foreign s t u s' t' u' →
  keeps (on_nodes (seat_held n s t u dl)) (sn_release_expired_lock_lua (D:=D) s' t' u' m).
Proof. intros Hf. apply keeps_seat_held. intros i Hi. unfold sn_release_expired_lock_lua. keeps_held. Qed.

Lemma keeps_release n s t u dl s' t' u' : foreign s t u s' t' u' →
  keeps (on_nodes (seat_held n s t u dl)) (sn_release_lock (D:=D) s' t' u').
Proof. intros Hf. apply keeps_seat_held. intros i Hi. unfold sn_release_lock. keeps_held. Qed.

Lemma keeps_book n s t u dl s' t' u' : foreign s t u s' t' u' →
  keeps (on_nodes (seat_held n s t u dl)) (sn_book_seat_lua (D:=D) s' t' u').
Proof. intros Hf. apply keeps_seat_held. intros i Hi. unfold sn_book_seat_lua. keeps_held. Qed.

Lemma keeps_force_book n s t u dl s' t' u' m : foreign s t u s' t' u' →
  keeps (on_nodes (seat_held n s t u dl)) (sn_force_book_seat_lua (D:=D) s' t' u' m).
Proof. intros Hf. apply keeps_seat_held. intros i Hi. unfold sn_force_book_seat_lua. keeps_held. Qed.

(** *** Sequences of operations *)

Lemma keeps_advance n s t u dl ms : keeps (on_nodes (seat_held n s t u dl)) (advance ms).
Proof.
  intros w (i & Hi & Hn & d & Hd & Hs). exists i. split; [done|]. split; [done|].
  exists d. split; [done|]. intros t' ??. apply Hs; simpl in *; lia.
Qed.

#[local] Hint Resolve keeps_acquire_lock keeps_acquire_lua keeps_metadata keeps_release
  keeps_release_expired keeps_book keeps_force_book keeps_advance : keeps.

Lemma keeps_run_op n s t u dl o : op_foreign s t u o →
  keeps (on_nodes (seat_held n s t u dl)) (run_op o).
Proof.
  destruct o; simpl; intros Hf; unfold sn_acquire_distributed_lock; try (solve [keeps_tac]);
    apply keeps_seat_held; intros i Hi; keeps_held.
Qed.

(** *** What the result of an operation says about the lock *)

Lemma seat_held_nodes n s t u dl (w : world D) :
  on_nodes (seat_held n s t u dl) w →
  ∃ i d, pool_index (length (w_nodes w)) s t = Some i ∧ w_nodes w !! i = Some d ∧
    still (seat_lock_key s t) (show_Z u) dl (w_now w) d.
Proof. intros (i & Hi & Hn & d & Hd & Hs). exists i, d. by rewrite Hn. Qed.

(** [world_step]: run the first connection attempt or command of the goal, on every
    outcome the network can give it. *)
Ltac world_step Hd :=
  match goal with
  | |- context [pool_get ?i ?w] =>
      let b := fresh "b" in let l := fresh "l" in let E := fresh "E" in
      destruct (pool_get_cases i w) as (b & l & E & _); rewrite E; clear E; destruct b; simpl
  | |- context [node_cmd ?i ?f ?w] =>
      let fl := fresh "fl" in let l := fresh "l" in let E := fresh "E" in
      destruct (node_cmd_cases i f w _ Hd) as (fl & l & _ & E); rewrite E; clear E; destruct fl; simpl
  end.

Lemma foreign_refresh_refused i k u u' ttl d (w : world D) :
  w_nodes w !! i = Some d → r_get d (w_now w) k = Some (show_Z u) → u' ≠ u →
  (refresh_own_lock i k u' ttl w).1 = false.
Proof.
  intros Hd Hg Hu. unfold refresh_own_lock, mbind, St_bind. world_step Hd; try done.
  rewrite Hg. destruct (parse_i32 (show_Z u)) as [m|] eqn:E; simpl; [|done].
  apply parse_i32_show in E. rewrite bool_decide_false by congruence. done.
Qed.

(** Once a seat is held, every operation another user could take it with answers
    [false], on every outcome of the network. *)
Lemma foreign_acquire_refused s t u u' ttl dl (w : world D) :
  on_nodes (seat_held (length (w_nodes w)) s t u dl) w → w_now w < dl → u' ≠ u →
  (acquire_lock s t u' ttl w).1 = false.
Proof.
  intros Hw Hdl Hu. destruct (seat_held_nodes _ _ _ _ _ _ Hw) as (i & d & Hi & Hd & Hs).
  assert (r_get d (w_now w) (seat_lock_key s t) = Some (show_Z u)) as Hg by (apply Hs; lia).
  unfold acquire_lock, mbind, St_bind, pool_for_seat. rewrite Hi.
  world_step Hd; [|done].
  world_step Hd; unfold cmd_set_nx_px; rewrite ?Hg; destruct (r_px_ok ttl); simpl;
    eapply foreign_refresh_refused; simpl; try done; rewrite list_insert_id; done.
Qed.

Lemma foreign_script_refused s t u u' (dl : Z) (f : D → Z → D * option Z) (w : world D) :
  on_nodes (seat_held (length (w_nodes w)) s t u dl) w → w_now w < dl → u' ≠ u →
  (∀ d now, r_get d now (seat_lock_key s t) = Some (show_Z u) → (f d now).2 = Some 0) →
  ∃ i, pool_index (length (w_nodes w)) s t = Some i ∧
    ∀ w' : world D, w_nodes w' = w_nodes w → w_now w' = w_now w → (node_cmd i f w').1 ≠ Some 1.
Proof.
  intros Hw Hdl Hu Hf. destruct (seat_held_nodes _ _ _ _ _ _ Hw) as (i & d & Hi & Hd & Hs).
  exists i. split; [done|]. intros w' Hn Ht. rewrite <-Hn in Hd.
  destruct (node_cmd_cases i f w' d Hd) as (fl & l & _ & ->).
  destruct fl; simpl; try done. rewrite Ht, Hf by (apply Hs; lia). done.
Qed.

Ltac script_refused Hw Hdl Hu f :=
  let i := fresh "i" in let Hi := fresh "Hi" in let H := fresh "H" in
  destruct (foreign_script_refused _ _ _ _ _ f _ Hw Hdl Hu) as (i & Hi & H);
  [ intros ?? Hg; simpl; unfold acquire_script, release_script, book_script;
    rewrite Hg, ?not_free_or_own by done; rewrite ?bool_decide_true;
    [done | try (intros E; apply (inj show_Z) in E; congruence)..]
  | unfold mbind, St_bind, pool_for_seat, now_secs; rewrite Hi;
    match goal with |- context [pool_get ?j ?w] =>
      let b := fresh "b" in let l := fresh "l" in let E := fresh "E" in
      destruct (pool_get_cases j w) as (b & l & E & _); rewrite E; clear E; destruct b; simpl; [|done];
      specialize (H (World (w_nodes w) (w_now w) l (w_log w)) eq_refl eq_refl) end;
    match goal with |- context [node_cmd ?j ?f ?w'] => destruct (node_cmd j f w') as [r w2] end;
    simpl in H; by rewrite bool_decide_false ].

Lemma foreign_acquire_lua_refused s t u u' e dl (w : world D) :
  on_nodes (seat_held (length (w_nodes w)) s t u dl) w → w_now w < dl → u' ≠ u →
  (sn_acquire_seat_lock_lua s t u' e w).1 = false.
Proof.
  intros Hw Hdl Hu. unfold sn_acquire_seat_lock_lua.
  script_refused Hw Hdl Hu (acquire_script (D:=D) s t u' (ttl_ms_of e) (w_now w / 1000 + e) (w_now w / 1000 + e + 15)).
Qed.

Lemma foreign_release_refused s t u u' dl (w : world D) :
  on_nodes (seat_held (length (w_nodes w)) s t u dl) w → w_now w < dl → u' ≠ u →
  (sn_release_lock s t u' w).1 = false.
Proof.
  intros Hw Hdl Hu. unfold sn_release_lock.
  script_refused Hw Hdl Hu (release_script (D:=D) s t u' (queue_member t s u')).
Qed.

Lemma foreign_book_refused s t u u' dl (w : world D) :
  on_nodes (seat_held (length (w_nodes w)) s t u dl) w → w_now w < dl → u' ≠ u →
  (sn_book_seat_lua s t u' w).1 = false.
Proof.
  intros Hw Hdl Hu. unfold sn_book_seat_lua.
  script_refused Hw Hdl Hu (book_script (D:=D) s t u' (queue_member t s u')).
Qed.

(** The seat is free on the server that keeps its lock. *)
Definition seat_free (s t : Z) (w : world D) : Prop :=
  ∃ i d, pool_index (length (w_nodes w)) s t = Some i ∧ w_nodes w !! i = Some d ∧
    r_get d (w_now w) (seat_lock_key s t) = None.

Lemma seat_held_insert s t u dl (w : world D) i d d' l lg :
  pool_index (length (w_nodes w)) s t = Some i → w_nodes w !! i = Some d →
  (∀ t', w_now w ≤ t' → t' < dl → r_get d' t' (seat_lock_key s t) = Some (show_Z u)) →
  on_nodes (seat_held (length (w_nodes w)) s t u dl) (World (<[i:=d']> (w_nodes w)) (w_now w) l lg).
Proof.
  intros Hi Hd Hs. exists i. split; [done|]. split; simpl; [by rewrite length_insert|].
  exists d'. split; [|done]. apply list_lookup_insert_eq. by eapply lookup_lt_Some.
Qed.

Lemma free_get_later s t d now t' : now ≤ t' →
  r_get d now (seat_lock_key s t) = None → r_get d t' (seat_lock_key s t) = None.
Proof. intros Ht Hn. destruct (get_expire d now t' (seat_lock_key s t) Ht); congruence. Qed.

(** Keeping a lock this user has just set: the deadline does not move back. *)
Lemma refresh_own_lock_holds s t u ttl (w : world D) i d :
  pool_index (length (w_nodes w)) s t = Some i → w_nodes w !! i = Some d →
  (∀ t', w_now w ≤ t' → t' < w_now w + ttl → r_get d t' (seat_lock_key s t) = Some (show_Z u)) →
  on_nodes (seat_held (length (w_nodes w)) s t u (w_now w + ttl))
    (refresh_own_lock i (seat_lock_key s t) u ttl w).2.
Proof.
  intros Hi Hd Hs. unfold refresh_own_lock, mbind, St_bind.
  assert (∀ l lg, on_nodes (seat_held (length (w_nodes w)) s t u (w_now w + ttl))
    (World (<[i:=d]> (w_nodes w)) (w_now w) l lg)) as Hkeep.
  { intros l lg. by apply (seat_held_insert s t u (w_now w + ttl) w i d). }
  destruct (node_cmd_cases i (cmd_get_i32 (D:=D) (seat_lock_key s t)) w d Hd) as (fl & l & _ & ->).
  assert (<[i:=d]> (w_nodes w) = w_nodes w) as Hid by by apply list_insert_id.
  destruct fl; simpl; rewrite ?Hid in *; try (by apply Hkeep).
  case_bool_decide; [|by apply Hkeep].
  match goal with |- context [node_cmd i ?f ?w'] =>
    destruct (node_cmd_cases i f w' d Hd) as (fl & l' & _ & ->) end.
  assert (∀ l lg, on_nodes (seat_held (length (w_nodes w)) s t u (w_now w + ttl))
    (World (<[i:=(cmd_pexpire (seat_lock_key s t) ttl d (w_now w)).1]> (w_nodes w)) (w_now w) l lg)) as Hpx.
  { intros l2 lg. apply (seat_held_insert s t u _ w i d); try done.
    intros t' ??. unfold cmd_pexpire. destruct (_ || _); simpl; [|by apply Hs].
    rewrite get_pexpire, decide_True by done. rewrite (proj2 (Z.ltb_lt _ _)) by lia. apply Hs; lia. }
  destruct fl; simpl; [apply Hpx|apply Hkeep|apply Hpx].
Qed.

Lemma acquire_lock_holds s t u ttl (w : world D) :
  seat_free s t w → (acquire_lock s t u ttl w).1 = true →
  on_nodes (seat_held (length (w_nodes w)) s t u (w_now w + ttl)) (acquire_lock s t u ttl w).2.
Proof.
  intros (i & d & Hi & Hd & Hg). unfold acquire_lock, mbind, St_bind, pool_for_seat. rewrite Hi.
  world_step Hd; [|done].
  assert (∀ t', w_now w ≤ t' → t' < w_now w + ttl →
    r_get (r_set_px d (w_now w) (seat_lock_key s t) (show_Z u) ttl) t' (seat_lock_key s t) = Some (show_Z u)) as Hset.
  { intros t' ??. rewrite get_set_px, decide_True by done. by rewrite (proj2 (Z.ltb_lt _ _)) by lia. }
  assert (∀ w', w_nodes w' = w_nodes w → w_now w' = w_now w →
    (refresh_own_lock i (seat_lock_key s t) u ttl w').1 = false) as Hfree.
  { intros w' Hn Ht. unfold refresh_own_lock, mbind, St_bind. rewrite <-Hn in Hd.
    destruct (node_cmd_cases i (cmd_get_i32 (D:=D) (seat_lock_key s t)) w' d Hd) as (fl & l' & _ & ->).
    destruct fl; simpl; try done. by rewrite Ht, Hg. }
  assert (<[i:=d]> (w_nodes w) = w_nodes w) as Hid by by apply list_insert_id.
  world_step Hd; unfold cmd_set_nx_px; rewrite ?Hg; destruct (r_px_ok ttl); simpl; rewrite ?Hid;
    try (rewrite Hfree by done; done); intros _;
    [by apply (seat_held_insert s t u _ w i d)|].
  match goal with |- on_nodes _ (refresh_own_lock _ _ _ _ ?w').2 =>
    pose proof (refresh_own_lock_holds s t u ttl w' i
      (r_set_px d (w_now w) (seat_lock_key s t) (show_Z u) ttl)) as H end.
  simpl in H. rewrite length_insert in H. apply H; try done.
  apply list_lookup_insert_eq. by eapply lookup_lt_Some.
Qed.

Lemma keeps_mirror_acquire n s t u dl s' t' u' x y :
  keeps (on_nodes (seat_held n s t u dl)) (mirror_acquire (D:=D) s' t' u' x y).
Proof. apply keeps_seat_held. intros j _. unfold mirror_acquire. keeps_held. Qed.

Lemma pool_index_lookup (w : world D) s t i :
  pool_index (length (w_nodes w)) s t = Some i → is_Some (w_nodes w !! i).
Proof.
  unfold pool_index. intros Hi. apply lookup_lt_is_Some. case_bool_decide; simplify_eq/=.
  pose proof (Z.mod_pos_bound (crc16 (as_bytes (show_Z s +:+ ":" +:+ show_Z t)%string)) (Z.of_nat (length (w_nodes w)))). lia.
Qed.

Lemma acquire_lua_holds s t u e (w : world D) :
  (sn_acquire_seat_lock_lua s t u e w).1 = true →
  on_nodes (seat_held (length (w_nodes w)) s t u (w_now w + ttl_ms_of e)) (sn_acquire_seat_lock_lua s t u e w).2.
Proof.
  unfold sn_acquire_seat_lock_lua, mbind, St_bind, now_secs, pool_for_seat.
  destruct (pool_index (length (w_nodes w)) s t) as [i|] eqn:Hi; [|done].
  destruct (pool_index_lookup w s t i Hi) as [d Hd].
  world_step Hd; [|done]. world_step Hd; [|done..].
  case_bool_decide as Hr; [|done]. intros _.
  match goal with |- context [mirror_acquire ?a ?b ?c ?x ?y ?w'] =>
    pose proof (keeps_mirror_acquire (length (w_nodes w)) s t u (w_now w + ttl_ms_of e) a b c x y w') as Hk;
    destruct (mirror_acquire a b c x y w') as [[] w2] end.
  apply Hk. apply (seat_held_insert s t u _ w i d); try done. revert Hr. unfold acquire_script.
  destruct (r_get d (w_now w) _); [case_bool_decide|]; try done;
    (destruct (r_px_ok _); [|done]); (destruct (r_bf_ok _); [|done]); simpl; intros _ t' ??;
    get_simp; by rewrite (proj2 (Z.ltb_lt _ _)) by lia.
Qed.

(** [SingleNodeLock] keeps the promise of the interface, for every operation. *)
#[local] Program Instance single_node_exclusive : ExclusiveLock D := {|
  lock_free := seat_free;
  lock_held s t u dl w := on_nodes (seat_held (length (w_nodes w)) s t u dl) w;
  lock_ttl := ttl_ms_of;
  safe _ := True
|}.
Next Obligation.
  intros lua s t u e w Hfree Ha.
  assert (on_nodes (seat_held (length (w_nodes w)) s t u (w_now w + ttl_ms_of e)) (acquire_with lua s t u e w).2) as Hw.
  { destruct lua; [by apply acquire_lua_holds|by apply acquire_lock_holds]. }
  destruct (Hw) as (? & _ & Hn & _). simpl. by rewrite Hn.
Qed.
Next Obligation.
  intros o s t u dl _ Hf w Hw. apply (keeps_run_op _ _ _ _ _ _ Hf) in Hw.
  destruct (Hw) as (? & _ & Hn & _). simpl. by rewrite Hn.
Qed.
Next Obligation. done. Qed.
Next Obligation. intros s t u dl w w' Hn Ht. unfold on_nodes. by rewrite Hn, Ht. Qed.
Next Obligation.
  intros s t u dl u' w Hw Hdl Hu e.
  split_and!.
  - by apply (foreign_acquire_refused s t u u' _ dl).
  - by apply (foreign_acquire_lua_refused s t u u' e dl).
  - by apply (foreign_release_refused s t u u' dl).
  - by apply (foreign_book_refused s t u u' dl).
Qed.

(** C1: mutual exclusion.  When an acquisition of a free seat, by either of the two
    routes, answers [true] to user [u], then until the lifetime it asked for has
    passed, and whatever operations the other users run, in any order, with any
    pattern of lost connections and replies, each attempt of another user to acquire,
    release or book the seat is refused. *)
Theorem held_seat_is_exclusive lua s t u e (w : world D) os u' :
  seat_free s t w → (acquire_with lua s t u e w).1 = true →
  Forall (op_foreign s t u) os →
  w_now (run_ops os (acquire_with lua s t u e w).2).2 < w_now w + ttl_ms_of e → u' ≠ u →
  locked_out s t u' (run_ops os (acquire_with lua s t u e w).2).2.
Proof.
  intros Hfree Ha Hos Hdl Hu. apply (exclusive (HE:=single_node_exclusive) lua s t u e w os u' Hfree Ha); try done.
  by apply Forall_forall.
Qed.
End no_steal.

#[local] Existing Instance single_node_lock.

Definition storm : list lock_op :=
  [ OpAcquire 7 3 2 60; OpForceBook 7 3 2 "m"; OpTick 1000; OpReleaseExpired 7 3 2 "m"; OpAcquireLua 7 4 1 60;
    OpBook 7 3 2; OpRelease 7 3 2; OpZremByScore "z" None (Some 10); OpBitmap 7 3 0; OpTick 500 ].

Definition flaky_world : world mem_redis :=
  World [mem_empty; mem_empty] 5000 [FOk; FOk; FReplyLost; FOk; FDown] [].

Lemma held_seat_is_exclusive_witness :
  locked_out 7 3 2 (run_ops storm (acquire_with false 7 3 1 60 flaky_world).2).2.
Proof.
  refine (held_seat_is_exclusive false 7 3 1 60 flaky_world storm 2 _ _ _ _ _).
  - exists 1%nat, mem_empty. by vm_compute.
  - vm_compute. reflexivity.
  - unfold storm; repeat (apply List.Forall_cons; [cbn; try done; (by left) || (right; lia)|]); apply List.Forall_nil.
  - vm_compute. reflexivity.
  - lia.
Defined.
