(* ===== verification/SeatBitmap.v ===== *)
(** * SeatBitmap: two bits per seat
    ([SeatState], [seat_bit_offset] and [bitmap_snapshots] of
    [apps/ws-server/src/locking.rs]; [bitmap_seat_status] of
    [apps/http-server/src/api/user/schedules_v2.rs])

    The services write the state of a seat with [BITFIELD SET u2]; the WebSocket server
    lists the seats of a whole bitmap and the HTTP server looks one seat up.  A bitmap
    read with [GET] is a list of bytes. *)

From S2P Require Import Prelude Keys Redis RedisMem SingleNodeLock.

Inductive seat_state := AVAILABLE | LOCKED | BOOKED.
#[global] Instance seat_state_eq_dec : EqDecision seat_state.
Proof. solve_decision. Defined.

(** [state as i64]. *)
Definition state_bits (s : seat_state) : Z := match s with AVAILABLE => 0 | LOCKED => 1 | BOOKED => 2 end.

Definition from_bitmap (value : Z) : seat_state :=
  if value =? 1 then LOCKED else if value =? 2 then BOOKED else AVAILABLE.

Definition state_status (s : seat_state) : string :=
  match s with AVAILABLE => "AVAILABLE" | LOCKED => "LOCKED" | BOOKED => "BOOKED" end.

(** [usize] has 64 bits. *)
Definition usize_try_from (z : Z) : option Z := if 0 <=? z then Some z else None.
Definition usize_checked_mul (a b : Z) : option Z := if a * b <? 2 ^ 64 then Some (a * b) else None.

Definition seat_bit_offset (seat_id : Z) : option Z :=
  id ← usize_try_from seat_id; usize_checked_mul id 2.

Definition bytes_of (s : string) : list Z := map (λ a, Z.of_N (Ascii.N_of_ascii a)) (String.list_ascii_of_string s).

Definition slot_bits (byte slot : Z) : Z := Z.land (Z.shiftr byte (6 - slot * 2)) 3.

Definition byte_snapshots (byte_index : nat) (byte : Z) : list (Z * seat_state) :=
  omap (λ slot,
    let state := from_bitmap (slot_bits byte slot) in
    if decide (state ≠ AVAILABLE) then Some (i32 (Z.of_nat byte_index * 4 + slot), state) else None) [0; 1; 2; 3].

Definition bitmap_snapshots (bitmap : list Z) : list (Z * seat_state) := concat (imap byte_snapshots bitmap).

Definition bitmap_seat_status (bitmap : list Z) (seat_id : Z) : option string :=
  bit_offset ← (id ← usize_try_from seat_id; usize_checked_mul id 2);
  byte ← bitmap !! Z.to_nat (bit_offset / 8);
  let state := Z.land (Z.shiftr byte (6 - bit_offset mod 8)) 3 in
  Some (if state =? 1 then "Locked"%string else if state =? 2 then "Booked"%string else "Available"%string).

Example decodes_bitfield_order : bitmap_snapshots [24] = [(1, LOCKED); (2, BOOKED)].
Proof. reflexivity. Qed.
Example offsets : map seat_bit_offset [0; 7; -1] = [Some 0; Some 14; None].
Proof. reflexivity. Qed.

(** ** The state of one seat *)

(** The two bits of seat [t], in the order of [BITFIELD]. *)
Definition pair_bits (s : string) (t : Z) : Z := 2 * Z.b2z (bit_at s (2 * t)) + Z.b2z (bit_at s (2 * t + 1)).
Definition state_of (s : string) (t : Z) : seat_state := from_bitmap (pair_bits s t).

Lemma land_3 v : Z.land v 3 = 2 * Z.b2z (Z.testbit v 1) + Z.b2z (Z.testbit v 0).
Proof.
  change 3 with (Z.ones 2). rewrite Z.land_ones by lia. change (2 ^ 2) with 4.
  rewrite !Z.testbit_spec' by lia. change (2 ^ 1) with 2. change (2 ^ 0) with 1. rewrite Z.div_1_r.
  pose proof (Z.div_mod v 4 ltac:(lia)). pose proof (Z.mod_pos_bound v 4 ltac:(lia)).
  pose proof (Z.div_mod v 2 ltac:(lia)). pose proof (Z.mod_pos_bound v 2 ltac:(lia)).
  pose proof (Z.div_mod (v / 2) 2 ltac:(lia)). pose proof (Z.mod_pos_bound (v / 2) 2 ltac:(lia)).
  lia.
Qed.

Lemma slot_bits_seat s (n : nat) slot : 0 ≤ slot < 4 → slot_bits (byte_at s n) slot = pair_bits s (Z.of_nat n * 4 + slot).
Proof.
  intros Hs. unfold slot_bits, pair_bits, bit_at. rewrite land_3, !Z.shiftr_spec by lia.
  replace (2 * (Z.of_nat n * 4 + slot)) with (2 * slot + Z.of_nat n * 8) by lia.
  replace (2 * slot + Z.of_nat n * 8 + 1) with (2 * slot + 1 + Z.of_nat n * 8) by lia.
  rewrite !Z.div_add, !Z.mod_add by lia.
  rewrite !Z.div_small, !Z.mod_small, !Z.add_0_l, Nat2Z.id by lia.
  f_equal; [do 2 f_equal|f_equal]; f_equal; lia.
Qed.

Lemma bytes_lookup s n : (n < length (bytes_of s))%nat → bytes_of s !! n = Some (byte_at s n).
Proof.
  unfold bytes_of, byte_at. revert n. induction s as [|a s IH]; intros [|n]; simpl; try lia; [done|].
  intros H. rewrite <-IH by lia. done.
Qed.

Lemma byte_at_beyond s n : (length (bytes_of s) ≤ n)%nat → byte_at s n = 0.
Proof.
  unfold bytes_of, byte_at. revert n. induction s as [|a s IH]; intros [|n]; simpl; try lia; try done.
  intros H. apply IH. lia.
Qed.

(** A Redis string has at most 512 MB. *)
Definition redis_sized (s : string) : Prop := Z.of_nat (length (bytes_of s)) ≤ 2 ^ 29.

Lemma elem_of_byte_snapshots s n t st : (n < length (bytes_of s))%nat → redis_sized s →
  (t, st) ∈ byte_snapshots n (byte_at s n) ↔ t / 4 = Z.of_nat n ∧ st = state_of s t ∧ st ≠ AVAILABLE.
Proof.
  intros Hn Hs. unfold redis_sized in Hs. unfold byte_snapshots. rewrite list_elem_of_omap. split.
  - intros (slot & Hslot & E). case_decide as Hst; [|done]. injection E as <- <-.
    assert (0 ≤ slot < 4) as Hr by (rewrite !elem_of_cons, elem_of_nil in Hslot; lia).
    rewrite slot_bits_seat in * by done.
    assert (i32 (Z.of_nat n * 4 + slot) = Z.of_nat n * 4 + slot) as -> by (apply wrap_s_small; unfold in_s; simpl; lia).
    split_and!; [|done|done]. rewrite Z.div_add_l by lia. rewrite Z.div_small by lia. lia.
  - intros (Ht & -> & Hst). pose proof (Z.div_mod t 4 ltac:(lia)). pose proof (Z.mod_pos_bound t 4 ltac:(lia)).
    exists (t mod 4). split.
    { assert (t mod 4 = 0 ∨ t mod 4 = 1 ∨ t mod 4 = 2 ∨ t mod 4 = 3) as Hc by lia.
      destruct Hc as [->|[->|[->| ->]]]; by repeat constructor. }
    rewrite slot_bits_seat by done.
    replace (Z.of_nat n * 4 + t mod 4) with t by lia. fold (state_of s t).
    rewrite decide_True by done.
    assert (i32 t = t) as -> by (apply wrap_s_small; unfold in_s; simpl; lia). done.
Qed.

Lemma elem_of_snapshots s t st : redis_sized s → 0 ≤ t →
  (t, st) ∈ bitmap_snapshots (bytes_of s) ↔ st = state_of s t ∧ st ≠ AVAILABLE.
Proof.
  intros Hs Ht. unfold bitmap_snapshots. rewrite list_elem_of_In, in_concat.
  pose proof (Z.div_mod t 4 ltac:(lia)). pose proof (Z.mod_pos_bound t 4 ltac:(lia)).
  split.
  - intros (l & Hl & Hin). apply list_elem_of_In in Hl, Hin.
    apply elem_of_lookup_imap in Hl as (n & byte & -> & Hn).
    pose proof (lookup_lt_Some _ _ _ Hn) as Hlt. rewrite bytes_lookup in Hn by done. injection Hn as <-.
    apply elem_of_byte_snapshots in Hin as (_ & H1 & H2); done.
  - intros [-> Hst].
    assert (Z.to_nat (t / 4) < length (bytes_of s))%nat as Hlt.
    { apply Nat.nle_gt. intros Hge. apply Hst. unfold state_of, pair_bits, bit_at.
      rewrite !(byte_at_beyond s) by (replace (2 * t + 1) with (1 + t * 2) by lia; replace (2 * t) with (0 + t * 2) by lia;
        change 8 with (2 * 4); rewrite <-!Z.div_div, !Z.div_add by lia; simpl; done).
      rewrite !Z.bits_0. done. }
    exists (byte_snapshots (Z.to_nat (t / 4)) (byte_at s (Z.to_nat (t / 4)))). rewrite <-!list_elem_of_In. split.
    { apply elem_of_lookup_imap. eexists _, _. split; [reflexivity|by apply bytes_lookup]. }
    apply elem_of_byte_snapshots; [done..|]. split; [|done]. rewrite Z2Nat.id; [done|]. apply Z.div_pos; lia.
Qed.

(** The label of a state in the seat map of the HTTP server. *)
Definition state_label (st : seat_state) : string :=
  match st with AVAILABLE => "Available" | LOCKED => "Locked" | BOOKED => "Booked" end.

Lemma seat_status_state s t : 0 ≤ t < 2 ^ 31 →
  bitmap_seat_status (bytes_of s) t =
    if decide (Z.to_nat (t / 4) < length (bytes_of s))%nat then Some (state_label (state_of s t)) else None.
Proof.
  intros Ht. unfold bitmap_seat_status, usize_try_from, usize_checked_mul.
  rewrite (proj2 (Z.leb_le 0 t)) by lia. simpl. rewrite (proj2 (Z.ltb_lt (t * 2) _)) by lia. simpl.
  replace (t * 2 / 8) with (t / 4) by (change 8 with (4 * 2); by rewrite Z.div_mul_cancel_r).
  case_decide as Hl; [|by rewrite lookup_ge_None_2 by lia].
  rewrite bytes_lookup by done. simpl.
  pose proof (Z.div_mod t 4 ltac:(lia)). pose proof (Z.mod_pos_bound t 4 ltac:(lia)).
  replace (t * 2 mod 8) with (t mod 4 * 2) by (change 8 with (4 * 2); by rewrite Z.mul_mod_distr_r).
  fold (slot_bits (byte_at s (Z.to_nat (t / 4))) (t mod 4)). rewrite slot_bits_seat by lia.
  rewrite Z2Nat.id by (apply Z.div_pos; lia). replace (t / 4 * 4 + t mod 4) with t by lia.
  unfold state_of, from_bitmap. by repeat case_match.
Qed.

Section maps.
Context {D : Type} `{!RedisServer D} `{!RedisLaws D}.

(** C19: both seat maps show what the locks write.  After the lock layer has set the state
    of a seat, a [GET] of the bitmap of its schedule returns a string in which the
    snapshot of the WebSocket server lists every seat whose state is not available with
    that state and no other, the seat map of the HTTP server gives the same states, the
    seat written has the state written, and every other seat the state it had. *)
Theorem seat_maps_show_writes (d : D) now schedule_id seat_id (st : seat_state) old :
  0 ≤ seat_id < 2 ^ 31 →
  default EmptyString (r_get d now (schedule_seat_bitmap schedule_id)) = old →
  ∃ s, r_get (cmd_bitfield (schedule_seat_bitmap schedule_id) (bit_offset_of seat_id) (state_bits st) d now)
         now (schedule_seat_bitmap schedule_id) = Some s ∧
    (redis_sized s → ∀ t, 0 ≤ t < 2 ^ 31 →
      state_of s t = (if decide (t = seat_id) then st else state_of old t) ∧
      (∀ x, (t, x) ∈ bitmap_snapshots (bytes_of s) ↔ x = state_of s t ∧ x ≠ AVAILABLE) ∧
      bitmap_seat_status (bytes_of s) t ∈ [Some (state_label (state_of s t)); None] ∧
      (bitmap_seat_status (bytes_of s) t = None → state_of s t = AVAILABLE)).
Proof.
  intros Hseat Hold.
  assert (bit_offset_of seat_id = 2 * seat_id) as ->.
  { unfold bit_offset_of, u64. rewrite !wrap_u_small; unfold in_u; rewrite ?wrap_u_small; unfold in_u; lia. }
  unfold cmd_bitfield. rewrite bf_ok_range by lia.
  destruct (get_bitfield_eq d now (schedule_seat_bitmap schedule_id) (2 * seat_id) (state_bits st)) as (s & Hs & Hbits);
    [lia|destruct st; simpl; lia|].
  exists s. split; [done|]. rewrite Hold in Hbits. intros Hsz t Ht.
  split_and!.
  - unfold state_of, pair_bits. rewrite !Hbits by lia. repeat case_decide; try lia; [|done].
    by destruct st.
  - intros x. apply elem_of_snapshots; [done|lia].
  - rewrite seat_status_state by done. case_decide; set_solver.
  - rewrite seat_status_state by done. case_decide as Hl; [done|]. intros _.
    destruct (decide (state_of s t = AVAILABLE)) as [->|Hst]; [done|]. exfalso.
    assert ((t, state_of s t) ∈ bitmap_snapshots (bytes_of s)) as Hin by (apply elem_of_snapshots; [done|lia|done]).
    clear -Hin Hl Hsz Ht. unfold bitmap_snapshots in Hin. apply list_elem_of_In, in_concat in Hin as (l & Hl' & Hin).
    apply list_elem_of_In in Hl', Hin. apply elem_of_lookup_imap in Hl' as (n & byte & -> & Hn).
    pose proof (lookup_lt_Some _ _ _ Hn) as Hlt. rewrite bytes_lookup in Hn by done. injection Hn as <-.
    apply elem_of_byte_snapshots in Hin as (Hn & _ & _); [|done..]. apply Hl. rewrite Hn. lia.
Qed.
End maps.

Definition two_states : mem_redis :=
  cmd_bitfield (schedule_seat_bitmap 7) (bit_offset_of 5) 1
    (cmd_bitfield (schedule_seat_bitmap 7) (bit_offset_of 2) 2 mem_empty 0) 0.

Lemma seat_maps_show_writes_witness :
  (bitmap_snapshots ∘ bytes_of <$> r_get two_states 0 (schedule_seat_bitmap 7)) = Some [(2, BOOKED); (5, LOCKED)] ∧
  ∃ s, r_get (cmd_bitfield (schedule_seat_bitmap 7) (bit_offset_of 9) (state_bits LOCKED) two_states 0)
         0 (schedule_seat_bitmap 7) = Some s ∧
    (redis_sized s → ∀ t, 0 ≤ t < 2 ^ 31 →
      state_of s t = (if decide (t = 9) then LOCKED
                      else state_of (default EmptyString (r_get two_states 0 (schedule_seat_bitmap 7))) t) ∧
      (∀ x, (t, x) ∈ bitmap_snapshots (bytes_of s) ↔ x = state_of s t ∧ x ≠ AVAILABLE) ∧
      bitmap_seat_status (bytes_of s) t ∈ [Some (state_label (state_of s t)); None] ∧
      (bitmap_seat_status (bytes_of s) t = None → state_of s t = AVAILABLE)).
Proof.
  split; [vm_compute; reflexivity|].
  assert (0 ≤ 9 < 2 ^ 31) as Hseat by lia.
  pose proof (seat_maps_show_writes two_states 0 7 9 LOCKED _ Hseat eq_refl) as H. exact H.
Defined.
