(* ===== verification/LeaseTable.v ===== *)
(** * LeaseTable: the contract of the seat lock, and its refinement

    The abstract object is a finite map from seats to leases (an owner and a
    deadline).  In a world whose network does not fail, [SingleNodeLock] answers
    every sequence of operations as the table does; this is the refinement theorem of
    the file.  [SingleNodeLock.v] covers the failing network. *)

From S2P Require Import Prelude Text Keys Crc16 Redis RedisMem SeatLock SingleNodeLock.

(** ** The table *)

Abbreviation seat := (Z * Z)%type (only parsing).
Abbreviation lease := (Z * Z)%type (only parsing).

(** The owner of a seat at a time. *)
Definition live (σ : gmap seat lease) (k : seat) (now : Z) : option Z :=
  match σ !! k with
  | Some (owner, deadline) => if now <? deadline then Some owner else None
  | None => None
  end.

Definition can_take (σ : gmap seat lease) (k : seat) (now u : Z) : bool :=
  match live σ k now with None => true | Some o => bool_decide (o = u) end.

Definition grant (σ : gmap seat lease) (k : seat) (now u ttl : Z) : bool * gmap seat lease :=
  (can_take σ k now u, if can_take σ k now u then <[k := (u, now + ttl)]> σ else σ).
Definition cede (σ : gmap seat lease) (k : seat) (now u : Z) : bool * gmap seat lease :=
  (can_take σ k now u, if can_take σ k now u then delete k σ else σ).

(** One operation on the table: its answer, the new table and the new time. *)
Definition table_op (o : lock_op) (σ : gmap seat lease) (now : Z) : bool * gmap seat lease * Z :=
  match o with
  | OpAcquire s t u e | OpAcquireLua s t u e => (grant σ (s, t) now u (e * 1000), now)
  | OpRelease s t u | OpReleaseExpired s t u _ | OpBook s t u => (cede σ (s, t) now u, now)
  | OpForceBook s t u _ => (true, (cede σ (s, t) now u).2, now)
  | OpTick ms => (true, σ, now + Z.of_N ms)
  | _ => (true, σ, now)
  end.

Fixpoint table_ops (os : list lock_op) (σ : gmap seat lease) (now : Z) : list bool * gmap seat lease * Z :=
  match os with
  | [] => ([], σ, now)
  | o :: os =>
      let '(r, σ, now) := table_op o σ now in
      let '(rs, σ, now) := table_ops os σ now in (r :: rs, σ, now)
  end.

(** The arguments the callers pass: [i32] values, non-negative seat numbers and a
    positive lifetime. *)
Definition seat_arg (t : Z) : bool := (0 <=? t) && (t <=? i32_max).
Definition op_ok (o : lock_op) : bool :=
  match o with
  | OpAcquire _ t u e | OpAcquireLua _ t u e => seat_arg t && in_i32 u && (0 <? e) && (e <=? i32_max)
  | OpMetadata _ ts _ _ => forallb seat_arg ts
  | OpRelease _ t _ | OpReleaseExpired _ t _ _ | OpBook _ t _ | OpForceBook _ t _ _ => seat_arg t
  | _ => true
  end.

Section refine.
Context {D : Type} `{!RedisServer D} `{!RedisLaws D} {HJ : JsonText}.
#[local] Existing Instance single_node_lock.
Implicit Types (V : seat → Z → option string) (σ : gmap seat lease).
Abbreviation M := (St (world D)).

(** The lock key of a seat, on the server that keeps it. *)
Definition lock_view (ns : list D) (k : seat) (τ : Z) : option string :=
  match pool_index (length ns) k.1 k.2 with
  | Some i => match ns !! i with Some d => r_get d τ (seat_lock_key k.1 k.2) | None => None end
  | None => None
  end.

(** A world without faults, of [n] servers, at time [now], whose locks read [V]
    from now on. *)
Definition sees (n : nat) V (now : Z) (w : world D) : Prop :=
  w_faults w = [] ∧ length (w_nodes w) = n ∧ n ≠ 0%nat ∧ w_now w = now ∧
  ∀ k τ, now ≤ τ → lock_view (w_nodes w) k τ = V k τ.

Definition upd V (k : seat) (x : option (Z → option string)) : seat → Z → option string :=
  λ k' τ, match x with Some y => if decide (k = k') then y τ else V k' τ | None => V k' τ end.

(** A function of one server that may change the lock of seat [k] alone; what it
    becomes depends on its owner now. *)
Definition only_lock (k : seat) (x : Z → option string → option (Z → option string))
    (f : D → Z → D) : Prop :=
  ∀ d now k' τ, now ≤ τ →
    r_get (f d now) τ (seat_lock_key k'.1 k'.2) =
      match x now (r_get d now (seat_lock_key k.1 k.2)) with
      | Some y => if decide (k = k') then y τ else r_get d τ (seat_lock_key k'.1 k'.2)
      | None => r_get d τ (seat_lock_key k'.1 k'.2)
      end.
Definition no_lock (f : D → Z → D) : Prop :=
  ∀ d now k τ, now ≤ τ → r_get (f d now) τ (seat_lock_key k.1 k.2) = r_get d τ (seat_lock_key k.1 k.2).

Lemma pool_index_total n s t : n ≠ 0%nat → ∃ i, pool_index n s t = Some i ∧ (i < n)%nat.
Proof.
  intros Hn. unfold pool_index. rewrite bool_decide_false by done. eexists. split; [done|].
  pose proof (Z.mod_pos_bound (crc16 (as_bytes (show_Z s +:+ ":" +:+ show_Z t)%string)) (Z.of_nat n)). lia.
Qed.

Lemma hoare_cmd {R} n V now k i x (f : D → Z → D * option R) (r : option string → option R) :
  pool_index n k.1 k.2 = Some i →
  only_lock k x (λ d t, (f d t).1) →
  (∀ d, (f d now).2 = r (r_get d now (seat_lock_key k.1 k.2))) →
  hoare (sees n V now) (node_cmd i f)
    (λ a w, a = r (V k now) ∧ sees n (upd V k (x now (V k now))) now w).
Proof.
  intros Hi Hx Hr w (Hf & Hn & Hn0 & Ht & HV).
  destruct (pool_index_lookup w k.1 k.2 i) as [d Hd]; [congruence|].
  assert (r_get d now (seat_lock_key k.1 k.2) = V k now) as Hg.
  { rewrite <-(HV k now) by lia. unfold lock_view. by rewrite Hn, Hi, Hd. }
  destruct (node_cmd_cases i f w d Hd) as (fl & l & Hfl & ->).
  destruct (Hfl Hf) as [-> ->]. rewrite Ht. split; [by rewrite Hr, Hg|].
  split_and!; try done; cbn [snd w_nodes]; [by rewrite length_insert|]. intros k' τ Hτ.
  specialize (HV k' τ Hτ). unfold lock_view, upd in *. rewrite length_insert. rewrite Hn in *.
  destruct (pool_index_total n k'.1 k'.2 Hn0) as (j & Hj & Hjn). rewrite Hj in *.
  destruct (decide (i = j)) as [<-|Hij].
  - rewrite list_lookup_insert_eq by lia. rewrite (Hx d now k' τ Hτ), Hg.
    rewrite Hd in HV. rewrite HV. done.
  - rewrite list_lookup_insert_ne by done. rewrite HV. destruct (x _ _); [|done].
    rewrite decide_False; [done|]. intros ->. congruence.
Qed.

Lemma hoare_all_nodes n V now (f : D → Z → D) :
  no_lock f → keeps (sees n V now) (all_nodes f).
Proof.
  intros Hf [ns t fl lg] (Hfl & Hn & Hn0 & Ht & HV). simpl in *. subst fl t.
  rewrite all_nodes_ok. split_and!; cbn [snd w_nodes]; try done; [by rewrite length_fmap|].
  intros k τ Hτ. rewrite <-(HV k τ Hτ). unfold lock_view. rewrite length_fmap.
  destruct (pool_index _ _ _) as [i|]; [|done]. rewrite list_lookup_fmap.
  destruct (ns !! i) as [d|]; simpl; [|done]. by apply Hf.
Qed.

Lemma hoare_pool n V now k :
  n ≠ 0%nat →
  hoare (sees n V now) (pool_for_seat k.1 k.2)
    (λ p w, (∃ i, p = Some i ∧ pool_index n k.1 k.2 = Some i) ∧ sees n V now w).
Proof.
  intros Hn0 w Hw. unfold pool_for_seat. simpl. split; [|done].
  destruct Hw as (_ & -> & _). destruct (pool_index_total n k.1 k.2 Hn0) as (i & -> & _). eauto.
Qed.

Lemma hoare_get n V now i : hoare (sees n V now) (pool_get i) (λ b w, b = true ∧ sees n V now w).
Proof.
  intros w Hw. destruct (pool_get_cases i w) as (b & l & -> & Hfl).
  destruct Hw as (Hf & Hw). destruct (Hfl Hf) as [-> ->]. done.
Qed.

(** The locks a table describes. *)
Definition view σ : seat → Z → option string := λ k τ, show_Z <$> live σ k τ.

Lemma sees_ext n V V' now w :
  (∀ k τ, now ≤ τ → V k τ = V' k τ) → sees n V now w → sees n V' now w.
Proof. intros HV (?&?&?&?&H). split_and!; try done. intros k τ ?. by rewrite H, HV. Qed.

Definition lease_until (u deadline : Z) : Z → option string := λ τ,
  if τ <? deadline then Some (show_Z u) else None.
Definition no_lease : Z → option string := λ _, None.

Lemma view_grant σ k u dl k' τ :
  upd (view σ) k (Some (lease_until u dl)) k' τ = view (<[k:=(u, dl)]> σ) k' τ.
Proof.
  unfold upd, view, live, lease_until. case_decide as Hk.
  - subst k'. rewrite lookup_insert_eq. by destruct (τ <? dl).
  - by rewrite lookup_insert_ne.
Qed.
Lemma view_delete σ k k' τ :
  upd (view σ) k (Some no_lease) k' τ = view (delete k σ) k' τ.
Proof.
  unfold upd, view, live, no_lease. case_decide as Hk.
  - subst k'. by rewrite lookup_delete_eq.
  - by rewrite lookup_delete_ne.
Qed.

(** The two ways an operation changes the lock of seat [k], by its owner now. *)
Definition granted (u ttl now : Z) (o : option string) : option (Z → option string) :=
  if free_or_own o u then Some (lease_until u (now + ttl)) else None.
Definition given_up (u now : Z) (o : option string) : option (Z → option string) :=
  if free_or_own o u then Some no_lease else None.

Lemma free_or_own_view σ k now u : free_or_own (view σ k now) u = can_take σ k now u.
Proof.
  unfold free_or_own, can_take, view. destruct (live σ k now) as [o|]; simpl; [|done].
  apply bool_decide_ext. split; [by intros ?%(inj show_Z)|by intros ->].
Qed.

Lemma sees_grant n σ now k u ttl w :
  sees n (upd (view σ) k (granted u ttl now (view σ k now))) now w →
  sees n (view (grant σ k now u ttl).2) now w.
Proof.
  unfold granted, grant. rewrite free_or_own_view. destruct (can_take _ _ _ _); [|done].
  apply sees_ext. intros k' τ _. apply view_grant.
Qed.
Lemma sees_cede n σ now k u w :
  sees n (upd (view σ) k (given_up u now (view σ k now))) now w →
  sees n (view (cede σ k now u).2) now w.
Proof.
  unfold given_up, cede. rewrite free_or_own_view. destruct (can_take _ _ _ _); [|done].
  apply sees_ext. intros k' τ _. apply view_delete.
Qed.

Lemma seat_arg_bf t : seat_arg t = true → r_bf_ok (bit_offset_of t) = true.
Proof.
  unfold seat_arg, bit_offset_of. rewrite andb_true_iff, !Z.leb_le. unfold i32_max. intros Ht.
  apply bf_ok_range. unfold u64. rewrite (wrap_u_small 64 t), wrap_u_small by (unfold in_u; lia). lia.
Qed.

Lemma ttl_arg e : 0 < e → e ≤ i32_max → ttl_ms_of e = e * 1000 ∧ r_px_ok (ttl_ms_of e) = true.
Proof.
  intros ??. unfold i32_max in *. assert (ttl_ms_of e = e * 1000) as ->.
  { unfold ttl_ms_of, u64. rewrite (wrap_u_small 64 e), wrap_u_small by (unfold in_u; lia). done. }
  split; [done|]. apply px_ok_range. lia.
Qed.

Lemma seat_ne (s t s' t' : Z) : (s, t) ≠ (s', t') → s' ≠ s ∨ t' ≠ t.
Proof. intros H. destruct (decide (s' = s)) as [->|]; [|by left]. right. congruence. Qed.

(** [only_tac]: the effect of a script on the lock keys, for the seat of the script
    and for another seat. *)
Ltac only_tac :=
  intros d now [s' t'] τ Hτ; cbn [fst snd]; unfold given_up, granted;
  repeat match goal with H : r_bf_ok _ = true |- _ => rewrite H; clear H end;
  repeat match goal with H : r_px_ok _ = true |- _ => rewrite H; clear H end;
  destruct (free_or_own (r_get d now _) _) eqn:?; cbn [fst snd]; [|by get_simp];
  destruct (decide ((_, _) = _)) as [[= <- <-]|Hne];
  [ get_simp; try done; by get_simp | apply seat_ne in Hne; get_simp; by get_simp ].

Lemma only_release s t u m : seat_arg t = true →
  only_lock (s, t) (given_up u) (λ d t0, (release_script (D:=D) s t u m d t0).1).
Proof.
  intros Ht%seat_arg_bf. unfold release_script, finish_script, clear_zsets, clear_keys. only_tac.
Qed.
Lemma only_release_expired s t u m : seat_arg t = true →
  only_lock (s, t) (given_up u) (λ d t0, (release_expired_script (D:=D) s t u m d t0).1).
Proof.
  intros Ht%seat_arg_bf. unfold release_expired_script, finish_script, clear_zsets, clear_keys. only_tac.
Qed.
Lemma only_book s t u m : seat_arg t = true →
  only_lock (s, t) (given_up u) (λ d t0, (book_script (D:=D) s t u m d t0).1).
Proof.
  intros Ht%seat_arg_bf. unfold book_script, finish_script, clear_zsets, clear_keys. only_tac.
Qed.
Lemma only_force_book s t u m : seat_arg t = true →
  only_lock (s, t) (given_up u) (λ d t0, (force_book_script (D:=D) s t u m d t0).1).
Proof.
  intros Ht%seat_arg_bf. unfold force_book_script, finish_script, clear_zsets, clear_keys. only_tac.
Qed.

Lemma get_set_px_until d now k u ttl τ : now ≤ τ →
  r_get (r_set_px d now k (show_Z u) ttl) τ k = lease_until u (now + ttl) τ.
Proof. intros Hτ. by rewrite get_set_px, decide_True. Qed.

Lemma acquire_script_step s t u ttl e pe d now :
  (acquire_script (D:=D) s t u ttl e pe d now) =
    if free_or_own (r_get d now (seat_lock_key s t)) u then
      acquire_script s t u ttl e pe d now
    else (d, Some 0).
Proof.
  unfold acquire_script, free_or_own. destruct (r_get d now _) as [o|]; [|done].
  case_bool_decide; [rewrite bool_decide_false by done; done|].
  by rewrite bool_decide_true by (destruct (decide (o = show_Z u)); [done|exfalso; auto]).
Qed.

Lemma acquire_script_go s t u ttl e pe d now :
  free_or_own (r_get d now (seat_lock_key s t)) u = true →
  r_px_ok ttl = true → r_bf_ok (bit_offset_of t) = true →
  acquire_script (D:=D) s t u ttl e pe d now =
    (r_bitfield
      (r_zadd (r_zadd (r_zadd
        (r_set_px (r_set_px d now (seat_lock_key s t) (show_Z u) ttl) now (seat_user_context_key s t u) "1" ttl)
        (user_zset_key s u) (show_Z t) e) (room_zset_key s) (room_member t u) e)
        seat_processing_queue_key (queue_member t s u) pe)
      now (schedule_seat_bitmap s) (bit_offset_of t) 1, Some 1).
Proof.
  unfold acquire_script, free_or_own. intros Ho -> ->. destruct (r_get d now _) as [o|]; [|done].
  apply bool_decide_eq_true in Ho. rewrite bool_decide_false; [done|]. by intros [].
Qed.

Lemma only_acquire_script s t u ttl e pe : seat_arg t = true → r_px_ok ttl = true →
  only_lock (s, t) (granted u ttl) (λ d t0, (acquire_script (D:=D) s t u ttl e pe d t0).1).
Proof.
  intros Ht%seat_arg_bf Hpx d now k' τ Hτ. cbn [fst snd]. rewrite acquire_script_step.
  unfold granted. destruct (free_or_own _ _) eqn:Ho; [|done].
  rewrite acquire_script_go by done. cbn [fst snd].
  destruct (decide ((s, t) = k')) as [<-|Hne]; cbn [fst snd].
  - get_simp. done.
  - destruct k' as [s' t']. cbn [fst snd]. apply seat_ne in Hne. by get_simp.
Qed.

Lemma acquire_script_result s t u ttl e pe d now : seat_arg t = true → r_px_ok ttl = true →
  (acquire_script (D:=D) s t u ttl e pe d now).2 =
    Some (if free_or_own (r_get d now (seat_lock_key s t)) u then 1 else 0).
Proof.
  intros Ht%seat_arg_bf Hpx. rewrite acquire_script_step. destruct (free_or_own _ _) eqn:Ho; [|done].
  by rewrite acquire_script_go.
Qed.

Lemma cede_result (f : Z → Z → Z → string → D → Z → D * option Z) s t u m d now :
  f = release_script ∨ f = release_expired_script ∨ f = book_script → seat_arg t = true →
  (f s t u m d now).2 = Some (if free_or_own (r_get d now (seat_lock_key s t)) u then 1 else 0).
Proof.
  intros Hf Ht%seat_arg_bf.
  destruct Hf as [->|[->| ->]]; unfold release_script, release_expired_script, book_script, finish_script;
    destruct (free_or_own _ _); rewrite ?Ht; done.
Qed.

Lemma only_set_nx s t u ttl : r_px_ok ttl = true →
  only_lock (s, t) (λ now o, match o with None => Some (lease_until u (now + ttl)) | Some _ => None end)
    (λ d t0, (cmd_set_nx_px (D:=D) (seat_lock_key s t) (show_Z u) ttl d t0).1).
Proof.
  intros Hpx d now [s' t'] τ Hτ. unfold cmd_set_nx_px. rewrite Hpx. cbn [fst snd].
  destruct (r_get d now _); [done|]. cbn [fst snd].
  destruct (decide ((s, t) = (s', t'))) as [[= <- <-]|Hne].
  - by apply get_set_px_until.
  - apply seat_ne in Hne. by get_simp.
Qed.

Lemma only_pexpire s t ttl : r_px_ok ttl = true →
  only_lock (s, t) (λ now o, Some (λ τ, if τ <? now + ttl then o else None))
    (λ d t0, (cmd_pexpire (D:=D) (seat_lock_key s t) ttl d t0).1).
Proof.
  intros Hpx d now [s' t'] τ Hτ. unfold cmd_pexpire. rewrite Hpx. cbn [fst snd orb].
  destruct (decide ((s, t) = (s', t'))) as [[= <- <-]|Hne].
  - by rewrite get_pexpire, decide_True.
  - apply seat_ne in Hne. by get_simp.
Qed.

(** *** The operations, one triple each *)

Lemma no_lock_zadd z m sc : no_lock (λ (d : D) _, r_zadd d z m sc).
Proof. intros d now k τ _. apply get_zadd. Qed.
Lemma no_lock_zrem z m : no_lock (λ (d : D) _, r_zrem d z m).
Proof. intros d now k τ _. apply get_zrem. Qed.
Lemma no_lock_zremrange z lo hi : no_lock (λ (d : D) _, r_zremrange d z lo hi).
Proof. intros d now k τ _. apply get_zremrange. Qed.
Lemma no_lock_bitfield b off st : no_lock (cmd_bitfield (D:=D) (schedule_seat_bitmap b) off st).
Proof. intros d now [s t] τ _. unfold cmd_bitfield. destruct (r_bf_ok off); [|done]. cbn [fst snd]. by get_simp. Qed.

Lemma keeps_sees_zadd n V now z m sc : keeps (sees n V now) (sn_zadd_cluster z m sc).
Proof. apply hoare_all_nodes, no_lock_zadd. Qed.
Lemma keeps_sees_zrem n V now z m : keeps (sees n V now) (sn_zrem_cluster z m).
Proof. apply hoare_all_nodes, no_lock_zrem. Qed.
Lemma keeps_sees_zremrange n V now z lo hi : keeps (sees n V now) (sn_zrembyscore_cluster z lo hi).
Proof. apply hoare_all_nodes, no_lock_zremrange. Qed.
Lemma keeps_sees_bitmap n V now b t st :
  keeps (sees n V now) (sn_set_schedule_seat_bitmap_state_cluster (schedule_seat_bitmap b) t st).
Proof.
  unfold sn_set_schedule_seat_bitmap_state_cluster. destruct (t <? 0); [apply keeps_ret|].
  apply hoare_all_nodes, no_lock_bitfield.
Qed.
#[local] Hint Resolve keeps_sees_zadd keeps_sees_zrem keeps_sees_zremrange keeps_sees_bitmap : keeps.

Lemma keeps_sees_clear n V now s t u m st : keeps (sees n V now) (clear_cluster s t u m st).
Proof. unfold clear_cluster. keeps_tac. Qed.
Lemma keeps_sees_mirror n V now s t u x y : keeps (sees n V now) (mirror_acquire s t u x y).
Proof. unfold mirror_acquire. keeps_tac. Qed.

(** The answer [a] and the table [σ] after an operation. *)
Definition answers {A} (n : nat) (now : Z) (a : A) σ : A → world D → Prop := λ a' w,
  a' = a ∧ sees n (view σ) now w.

Lemma hoare_refresh n σ now s t u ttl i o :
  pool_index n s t = Some i → live σ (s, t) now = Some o → in_i32 u = true → r_px_ok ttl = true →
  hoare (sees n (view σ) now) (refresh_own_lock i (seat_lock_key s t) u ttl)
    (answers n now (can_take σ (s, t) now u) (grant σ (s, t) now u ttl).2).
Proof.
  intros Hi Ho Hu Hpx. unfold refresh_own_lock.
  assert (view σ (s, t) now = Some (show_Z o)) as Hv by (unfold view; by rewrite Ho).
  eapply hoare_bind.
  { apply (hoare_cmd n (view σ) now (s, t) i (λ _ _, None) _
      (λ x, match x with None => Some None | Some v => match parse_i32 v with Some m => Some (Some m) | None => None end end)); try done. }
  intros a. apply hoare_pure. intros ->. rewrite Hv.
  assert (can_take σ (s, t) now u = bool_decide (o = u)) as Hc by (unfold can_take; by rewrite Ho).
  assert (bool_decide (default None match parse_i32 (show_Z o) with Some m => Some (Some m) | None => None end = Some u)
    = bool_decide (o = u)) as ->.
  { apply bool_decide_ext. split.
    - destruct (parse_i32 (show_Z o)) as [m|] eqn:E; simpl; [|done].
      apply parse_i32_show in E. congruence.
    - intros ->. by rewrite parse_show_i32. }
  unfold answers, grant. rewrite Hc. case_bool_decide as Hou; [subst o|].
  - eapply hoare_bind.
    { apply (hoare_cmd n _ now (s, t) i _ _ (λ _, Some tt) Hi (only_pexpire s t ttl Hpx)).
      intros d. unfold cmd_pexpire. by rewrite Hpx. }
    intros a. apply hoare_pure. intros _. apply hoare_ret. intros w Hw. split; [done|].
    eapply sees_ext, Hw. intros k τ _. cbn [fst snd]. rewrite <-view_grant. unfold upd. by rewrite Hv.
  - apply hoare_ret. done.
Qed.

Lemma hoare_acquire n σ now s t u ttl :
  n ≠ 0%nat → in_i32 u = true → r_px_ok ttl = true →
  hoare (sees n (view σ) now) (acquire_lock s t u ttl)
    (answers n now (can_take σ (s, t) now u) (grant σ (s, t) now u ttl).2).
Proof.
  intros Hn Hu Hpx. unfold acquire_lock.
  eapply hoare_bind; [apply (hoare_pool n _ now (s, t) Hn)|]. intros p. apply hoare_pure. intros (i & -> & Hi).
  eapply hoare_bind; [apply hoare_get|]. intros b. apply hoare_pure. intros ->.
  eapply hoare_bind.
  { apply (hoare_cmd n (view σ) now (s, t) i _ _
      (λ o, match o with None => Some true | Some _ => Some false end) Hi (only_set_nx s t u ttl Hpx)).
    intros d. unfold cmd_set_nx_px. rewrite Hpx. cbn [fst snd]. by destruct (r_get d now _). }
  intros a. apply hoare_pure. intros ->.
  destruct (live σ (s, t) now) as [o|] eqn:Ho.
  - replace (view σ (s, t) now) with (Some (show_Z o)) by (unfold view; by rewrite Ho).
    by apply (hoare_refresh n σ now s t u ttl i o).
  - replace (view σ (s, t) now) with (@None string) by (unfold view; by rewrite Ho).
    apply hoare_ret. intros w Hw. unfold answers, grant, can_take. rewrite Ho. split; [done|].
    eapply sees_ext, Hw. intros k τ _. apply view_grant.
Qed.

(** [run_pool]: a program that starts by finding the pool of a seat and connecting
    to it. *)
Ltac run_pool Hn s t :=
  eapply hoare_bind; [apply (hoare_pool _ _ _ (s, t) Hn)|];
  let i := fresh "i" in let Hi := fresh "Hi" in
  intros ?; apply hoare_pure; intros (i & -> & Hi);
  eapply hoare_bind; [apply hoare_get|]; intros ?; apply hoare_pure; intros ->.

Lemma keeps_answers {A} n now (a : A) σ (m : M unit) :
  (∀ V, keeps (sees n V now) m) → hoare (sees n (view σ) now) (m ;; mret a) (answers n now a σ).
Proof. intros Hm. eapply hoare_bind; [apply Hm|]. intros ?. apply hoare_ret. done. Qed.

(** The reply of the scripts with a condition on the owner. *)
Definition owner_reply (u : Z) (o : option string) : option Z := Some (if free_or_own o u then 1 else 0).

Lemma hoare_acquire_lua n σ now s t u e :
  n ≠ 0%nat → seat_arg t = true → r_px_ok (ttl_ms_of e) = true →
  hoare (sees n (view σ) now) (sn_acquire_seat_lock_lua s t u e)
    (answers n now (can_take σ (s, t) now u) (grant σ (s, t) now u (ttl_ms_of e)).2).
Proof.
  intros Hn Ht Hpx. unfold sn_acquire_seat_lock_lua.
  eapply hoare_bind; [apply (keeps_now_secs (sees n (view σ) now))|]. intros now_s. run_pool Hn s t.
  eapply hoare_bind.
  { apply (hoare_cmd n _ now (s, t) i _ _ (owner_reply u) Hi (only_acquire_script s t u _ _ _ Ht Hpx)).
    intros d. by apply (acquire_script_result s t u). }
  intros r. apply hoare_pure. intros ->. unfold owner_reply. rewrite free_or_own_view.
  eapply hoare_conseq; [intros w; apply sees_grant|by intros a w|].
  destruct (can_take _ _ _ _).
  - rewrite bool_decide_true by done. apply keeps_answers. intros V. apply keeps_sees_mirror.
  - rewrite bool_decide_false by done. by apply hoare_ret.
Qed.

(** The shape shared by the operations that give a seat up. *)
Lemma hoare_cede (f : Z → Z → Z → string → D → Z → D * option Z) n σ now s t u m i (state : Z) :
  f = release_script ∨ f = book_script →
  pool_index n s t = Some i → seat_arg t = true →
  hoare (sees n (view σ) now)
    (res ← node_cmd i (f s t u m);
     if bool_decide (res = Some 1) then clear_cluster s t u m state ;; mret true else mret false)
    (answers n now (can_take σ (s, t) now u) (cede σ (s, t) now u).2).
Proof.
  intros Hf Hi Ht. eapply hoare_bind.
  { apply (hoare_cmd n _ now (s, t) i (given_up u) _ (owner_reply u) Hi).
    - destruct Hf as [->| ->]; [by apply only_release|by apply only_book].
    - intros d. apply (cede_result f s t u m); [tauto|done]. }
  intros r. apply hoare_pure. intros ->. unfold owner_reply. rewrite free_or_own_view.
  eapply hoare_conseq; [intros w; apply sees_cede|by intros a w|].
  destruct (can_take _ _ _ _).
  - rewrite bool_decide_true by done. apply keeps_answers. intros V. apply keeps_sees_clear.
  - rewrite bool_decide_false by done. by apply hoare_ret.
Qed.

Lemma hoare_release n σ now s t u : n ≠ 0%nat → seat_arg t = true →
  hoare (sees n (view σ) now) (sn_release_lock s t u)
    (answers n now (can_take σ (s, t) now u) (cede σ (s, t) now u).2).
Proof. intros Hn Ht. unfold sn_release_lock. run_pool Hn s t. apply hoare_cede; auto. Qed.

Lemma hoare_book n σ now s t u : n ≠ 0%nat → seat_arg t = true →
  hoare (sees n (view σ) now) (sn_book_seat_lua s t u)
    (answers n now (can_take σ (s, t) now u) (cede σ (s, t) now u).2).
Proof. intros Hn Ht. unfold sn_book_seat_lua. run_pool Hn s t. apply hoare_cede; auto. Qed.

Lemma hoare_release_expired n σ now s t u m : n ≠ 0%nat → seat_arg t = true →
  hoare (sees n (view σ) now) (sn_release_expired_lock_lua s t u m)
    (answers n now (can_take σ (s, t) now u) (cede σ (s, t) now u).2).
Proof.
  intros Hn Ht. unfold sn_release_expired_lock_lua. run_pool Hn s t. eapply hoare_bind.
  { apply (hoare_cmd n _ now (s, t) i _ _ (owner_reply u) Hi (only_release_expired s t u m Ht)).
    intros d. apply (cede_result release_expired_script s t u m); [tauto|done]. }
  intros r. apply hoare_pure. intros ->. unfold owner_reply. rewrite free_or_own_view.
  eapply hoare_conseq; [intros w; apply sees_cede|by intros a w|].
  eapply hoare_bind; [apply keeps_sees_clear|]. intros ?. apply hoare_ret. intros w Hw.
  split; [|done]. by destruct (can_take _ _ _ _).
Qed.

Lemma hoare_force_book n σ now s t u m : n ≠ 0%nat → seat_arg t = true →
  hoare (sees n (view σ) now) (sn_force_book_seat_lua s t u m ;; mret true)
    (answers n now true (cede σ (s, t) now u).2).
Proof.
  intros Hn Ht. eapply (hoare_bind _ (λ _, sees n (view (cede σ (s, t) now u).2) now));
    [|intros []; by apply hoare_ret].
  unfold sn_force_book_seat_lua. run_pool Hn s t. eapply hoare_bind.
  { apply (hoare_cmd n _ now (s, t) i _ _ (λ _, Some 1) Hi (only_force_book s t u m Ht)).
    intros d. unfold force_book_script, finish_script. destruct (free_or_own _ _); by rewrite (seat_arg_bf t Ht). }
  intros r. apply hoare_pure. intros _.
  eapply hoare_conseq; [intros w; apply sees_cede| |apply keeps_sees_clear]. done.
Qed.

Lemma metadata_pipe_result s t u e pe d now : seat_arg t = true →
  (metadata_pipe (D:=D) s t u e pe d now).2 = Some tt.
Proof. intros Ht%seat_arg_bf. unfold metadata_pipe. by rewrite Ht. Qed.

Lemma only_metadata s t u e pe : only_lock (s, t) (λ _ _, None) (λ d t0, (metadata_pipe (D:=D) s t u e pe d t0).1).
Proof.
  intros d now [s' t'] τ Hτ. unfold metadata_pipe. destruct (r_bf_ok _); cbn [fst snd]; by get_simp.
Qed.

Lemma hoare_metadata n σ now s ts u e : n ≠ 0%nat → forallb seat_arg ts = true →
  hoare (sees n (view σ) now) (sn_update_seat_metadata_lua s ts u e) (answers n now true σ).
Proof.
  intros Hn Hts. unfold sn_update_seat_metadata_lua.
  eapply hoare_bind; [apply (keeps_now_secs (sees n (view σ) now))|]. intros now_s.
  induction ts as [|t ts IH]; cbn [for_fold]; [by apply hoare_ret|].
  apply andb_true_iff in Hts as [Ht Hts].
  eapply (hoare_bind _ (answers n now true σ)); [|intros b; apply hoare_pure; intros ->; by apply IH].
  run_pool Hn s t. eapply hoare_bind.
  { apply (hoare_cmd n _ now (s, t) i _ _ (λ _, Some tt) Hi (only_metadata s t u _ _)).
    intros d. by apply metadata_pipe_result. }
  intros r. apply hoare_pure. intros ->. apply hoare_ret. intros w Hw. by split.
Qed.

(** One operation, and a sequence of operations. *)
Lemma hoare_run_op n σ now o r σ' now' :
  n ≠ 0%nat → op_ok o = true → table_op o σ now = (r, σ', now') →
  hoare (sees n (view σ) now) (run_op o) (λ a w, a = r ∧ sees n (view σ') now' w).
Proof.
  intros Hn Hok Ho. destruct o; cbn [run_op op_ok table_op] in *; unfold grant, cede in Ho; simplify_eq.
  1,2: rewrite !andb_true_iff in Hok; destruct Hok as [[[Ht Hu] He1%Z.ltb_lt] He2%Z.leb_le];
    destruct (ttl_arg expires_in_sec He1 He2) as [Hms Hpx]; rewrite <-Hms.
  - by apply hoare_acquire.
  - by apply hoare_acquire_lua.
  - by apply hoare_metadata.
  - by apply hoare_release.
  - by apply hoare_release_expired.
  - by apply hoare_book.
  - by apply hoare_force_book.
  - apply keeps_answers. intros V. apply keeps_sees_zadd.
  - apply keeps_answers. intros V. apply keeps_sees_zrem.
  - apply keeps_answers. intros V. apply keeps_sees_zremrange.
  - apply keeps_answers. intros V. apply keeps_sees_bitmap.
  - intros w (Hf & Hl & _ & Ht & HV). split; [done|]. split_and!; try done; simpl; [by rewrite Ht|].
    intros k τ Hτ. apply HV. lia.
Qed.

Lemma hoare_run_ops n os σ now rs σ' now' :
  n ≠ 0%nat → Forall (λ o, op_ok o = true) os → table_ops os σ now = (rs, σ', now') →
  hoare (sees n (view σ) now) (run_ops os) (λ a w, a = rs ∧ sees n (view σ') now' w).
Proof.
  intros Hn Hok. revert σ now rs. induction Hok as [|o os Ho Hok IH]; intros σ now rs Hrun; simpl in *.
  { simplify_eq. by apply hoare_ret. }
  destruct (table_op o σ now) as [[r σ1] now1] eqn:E1.
  destruct (table_ops os σ1 now1) as [[rs1 σ2] now2] eqn:E2. simplify_eq.
  eapply hoare_bind; [by apply hoare_run_op|]. intros ?. apply hoare_pure. intros ->.
  eapply hoare_bind; [by apply IH|]. intros ?. apply hoare_pure. intros ->. by apply hoare_ret.
Qed.

(** C2: refinement.  Without network faults, a cluster of [SingleNodeLock] servers
    answers every sequence of operations with the answers of the lease table, and
    its lock keys read what the table says, now and at every later time. *)
Theorem single_node_lock_refines_table n σ now (w : world D) os rs σ' now' :
  sees n (view σ) now w → forallb op_ok os = true → table_ops os σ now = (rs, σ', now') →
  (run_ops os w).1 = rs ∧ sees n (view σ') now' (run_ops os w).2.
Proof.
  intros Hw Hok Hrun. destruct Hw as (?&?&Hn&Hw').
  apply (hoare_run_ops n os σ now rs σ' now'); [done| |done|done].
  apply Forall_forall. intros o Ho. rewrite forallb_forall in Hok. apply Hok. by apply list_elem_of_In.
Qed.

(** *** The bitmap of a schedule *)

(** The two bits of a seat, as the readers of the bitmap decode them: 0 available,
    1 locked, 2 booked. *)
Definition seat_bits (d : D) (now s t : Z) : Z :=
  let bitmap := default EmptyString (r_get d now (schedule_seat_bitmap s)) in
  2 * Z.b2z (bit_at bitmap (2 * t)) + Z.b2z (bit_at bitmap (2 * t + 1)).

Lemma seat_bits_set d now s t st :
  seat_arg t = true → 0 ≤ st < 4 →
  seat_bits (cmd_bitfield (schedule_seat_bitmap s) (t * 2) st d now) now s t = st.
Proof.
  unfold seat_arg. rewrite andb_true_iff, !Z.leb_le. unfold i32_max. intros Ht Hst.
  unfold cmd_bitfield. rewrite bf_ok_range by lia. unfold seat_bits.
  destruct (get_bitfield_eq d now (schedule_seat_bitmap s) (t * 2) st) as (b & -> & Hb); [lia..|].
  simpl. rewrite !Hb by lia. rewrite decide_True by lia. rewrite decide_False by lia. rewrite decide_True by lia.
  assert (st = 0 ∨ st = 1 ∨ st = 2 ∨ st = 3) as [->|[->|[->| ->]]] by lia; done.
Qed.

(** After a replicated write of the bitmap every server shows the new state. *)
Lemma bitmap_cluster_bits s t st ns now lg :
  seat_arg t = true → 0 ≤ st < 4 →
  Forall (λ d, seat_bits d now s t = st)
    (w_nodes (sn_set_schedule_seat_bitmap_state_cluster (schedule_seat_bitmap s) t st (World ns now [] lg)).2).
Proof.
  intros Ht Hst. unfold sn_set_schedule_seat_bitmap_state_cluster.
  assert ((t <? 0) = false) as ->.
  { unfold seat_arg in Ht. rewrite andb_true_iff, !Z.leb_le in Ht. apply Z.ltb_ge. lia. }
  rewrite all_nodes_ok. cbn [snd w_nodes]. apply Forall_fmap, Forall_forall. intros d _. by apply seat_bits_set.
Qed.

Lemma clear_cluster_bits n V now s t u m st (w : world D) :
  sees n V now w → seat_arg t = true → 0 ≤ st < 4 →
  Forall (λ d, seat_bits d now s t = st) (w_nodes (clear_cluster s t u m st w).2).
Proof.
  intros Hw Ht Hst. unfold clear_cluster.
  assert (hoare (sees n V now)
    (sn_zrem_cluster (user_zset_key s u) (show_Z t) ;; sn_zrem_cluster (room_zset_key s) (room_member t u) ;;
     sn_zrem_cluster seat_processing_queue_key m ;;
     sn_set_schedule_seat_bitmap_state_cluster (schedule_seat_bitmap s) t st)
    (λ _ w, Forall (λ d, seat_bits d now s t = st) (w_nodes w))) as H; [|by apply H].
  do 3 (eapply hoare_bind; [apply keeps_sees_zrem|intros ?]).
  intros [ns t0 fl lg] (Hf & _ & _ & Hn & _). simpl in Hf, Hn. subst. by apply bitmap_cluster_bits.
Qed.

(** The bitmap after a sweep, whoever holds the seat, and after a forced booking. *)
Lemma release_expired_bits n σ now s t u m (w : world D) :
  sees n (view σ) now w → seat_arg t = true →
  Forall (λ d, seat_bits d now s t = 0) (w_nodes (sn_release_expired_lock_lua s t u m w).2).
Proof.
  intros Hw Ht. destruct (Hw) as (_ & _ & Hn & _).
  assert (hoare (sees n (view σ) now) (sn_release_expired_lock_lua s t u m)
    (λ _ w, Forall (λ d, seat_bits d now s t = 0) (w_nodes w))) as H; [|by apply H].
  unfold sn_release_expired_lock_lua. run_pool Hn s t. eapply hoare_bind.
  { apply (hoare_cmd n _ now (s, t) i _ _ (owner_reply u) Hi (only_release_expired s t u m Ht)).
    intros d. apply (cede_result release_expired_script s t u m); [tauto|done]. }
  intros r. apply hoare_pure. intros _. eapply (hoare_bind _ (λ _ w, Forall (λ d, seat_bits d now s t = 0) (w_nodes w))).
  - intros w' Hw'. eapply clear_cluster_bits; [done|done|lia].
  - intros ?. by apply hoare_ret.
Qed.

Lemma force_book_bits n σ now s t u m (w : world D) :
  sees n (view σ) now w → seat_arg t = true →
  Forall (λ d, seat_bits d now s t = 2) (w_nodes (sn_force_book_seat_lua s t u m w).2).
Proof.
  intros Hw Ht. destruct (Hw) as (_ & _ & Hn & _).
  assert (hoare (sees n (view σ) now) (sn_force_book_seat_lua s t u m)
    (λ _ w, Forall (λ d, seat_bits d now s t = 2) (w_nodes w))) as H; [|by apply H].
  unfold sn_force_book_seat_lua. run_pool Hn s t. eapply hoare_bind.
  { apply (hoare_cmd n _ now (s, t) i _ _ (λ _, Some 1) Hi (only_force_book s t u m Ht)).
    intros d. unfold force_book_script, finish_script. destruct (free_or_own _ _); by rewrite (seat_arg_bf t Ht). }
  intros r. apply hoare_pure. intros _. intros w' Hw'. eapply clear_cluster_bits; [done|done|lia].
Qed.

(** The sweep of an expired queue entry whose seat another user has locked in the
    meantime answers [false] and leaves the lock in place. *)
Lemma stale_release_refused n σ now (w : world D) s t u o m :
  sees n (view σ) now w → seat_arg t = true → live σ (s, t) now = Some o → o ≠ u →
  (sn_release_expired_lock_lua s t u m w).1 = false ∧
  sees n (view σ) now (sn_release_expired_lock_lua s t u m w).2.
Proof.
  intros Hw Ht Ho Hne. destruct (Hw) as (_ & _ & Hn & _).
  destruct (hoare_release_expired n σ now s t u m Hn Ht w Hw) as [-> Hs].
  assert (can_take σ (s, t) now u = false) as Hc.
  { unfold can_take. rewrite Ho. by apply bool_decide_eq_false. }
  unfold cede in Hs. rewrite Hc in Hs. rewrite Hc. done.
Qed.
End refine.

#[local] Existing Instance single_node_lock.

Lemma mem_world_sees n t : n ≠ 0%nat → sees n (view ∅) t (mem_world n t).
Proof.
  intros Hn. split_and!; try done; [apply length_replicate|]. intros k τ _. unfold lock_view, mem_world. simpl.
  destruct (pool_index _ _ _) as [i|]; [|done]. destruct (replicate n mem_empty !! i) as [d|] eqn:E; [|done].
  apply lookup_replicate in E as [-> _]. reflexivity.
Qed.

Definition lease_ops : list lock_op :=
  [ OpAcquire 7 3 1 60; OpAcquireLua 7 3 2 60; OpMetadata 7 [3] 1 60; OpTick 59000; OpAcquire 7 3 2 60;
    OpTick 1000; OpAcquire 7 3 2 60; OpRelease 7 3 1; OpBook 7 3 2; OpReleaseExpired 7 3 1 "m"; OpForceBook 7 3 1 "m" ].

Lemma single_node_lock_refines_table_witness :
  (run_ops lease_ops (mem_world 2 5000)).1 =
    [true; false; true; true; false; true; true; false; true; true; true].
Proof.
  refine (proj1 (single_node_lock_refines_table 2 ∅ 5000 (mem_world 2 5000) lease_ops _ _ _ _ _ _)).
  - by apply mem_world_sees.
  - vm_compute. reflexivity.
  - vm_compute. reflexivity.
Defined.

(** User 1 let the seat expire, user 2 holds it. *)
Definition taken_over : world mem_redis :=
  (run_ops [OpAcquireLua 7 3 1 60; OpTick 61000; OpAcquireLua 7 3 2 60] (mem_world 2 5000)).2.

Lemma taken_over_sees : sees 2 (view (<[(7, 3):=(2, 126000)]> ∅)) 66000 taken_over.
Proof.
  refine (proj2 (hoare_run_ops 2 [OpAcquireLua 7 3 1 60; OpTick 61000; OpAcquireLua 7 3 2 60] ∅ 5000
    [true; true; true] _ 66000 _ _ _ (mem_world 2 5000) (mem_world_sees 2 5000 _))); try done.
  repeat (apply List.Forall_cons; [reflexivity|]). apply List.Forall_nil.
Qed.
