(* ===== verification/HoldCheck.v ===== *)
(** * HoldCheck: which routes make [user_holds_lock] true

    [user_holds_lock] reads the per-user context key.  Of the operations of
    [SingleNodeLock], only the acquire script writes that key: every other operation, the
    gateway's [acquire_distributed_lock] and the lock server's
    [update_seat_metadata_lua] included, leaves it absent on any network. *)

From S2P Require Import Prelude Text Keys Crc16 Redis RedisMem SeatLock SingleNodeLock.

Section absent.
Context {D : Type} `{!RedisServer D} `{!RedisLaws D} {HJ : JsonText}.
#[local] Existing Instance single_node_lock.

(** No server holds [k], now or later. *)
Definition absent (k : string) (ns : list D) (now : Z) : Prop :=
  Forall (λ d, ∀ t, now ≤ t → r_get d t k = None) ns.

(** A function of one server does not create [k]. *)
Definition no_create (k : string) (f : D → Z → D) : Prop :=
  ∀ d now t, now ≤ t → r_get d t k = None → r_get (f d now) t k = None.

Lemma keeps_absent_cmd {R} k i (f : D → Z → D * option R) :
  no_create k (λ d t, (f d t).1) → keeps (on_nodes (absent k)) (node_cmd i f).
Proof.
  intros Hf. apply keeps_node_cmd. intros ns now d Hns Hd. apply Forall_insert; [done|].
  intros t Ht. apply Hf; [done|]. by apply (Forall_lookup_1 _ _ _ _ Hns Hd).
Qed.
Lemma keeps_absent_all k (f : D → Z → D) :
  no_create k f → keeps (on_nodes (absent k)) (all_nodes f).
Proof.
  intros Hf. apply keeps_all_nodes. intros i ns now d Hns Hd. apply Forall_insert; [done|].
  intros t Ht. apply Hf; [done|]. by apply (Forall_lookup_1 _ _ _ _ Hns Hd).
Qed.

Abbreviation ctx := seat_user_context_key.

(** [no_create_tac]: run a script on a server without the context key. *)
Ltac no_create_tac :=
  intros d now t0 Ht Hnone;
  repeat match goal with
    | |- context [free_or_own ?x ?u] => destruct (free_or_own x u)
    | |- context [r_bf_ok ?x] => destruct (r_bf_ok x)
    | |- context [r_px_ok ?x] => destruct (r_px_ok x)
    end; cbn [fst snd orb];
  repeat first
    [ done | progress get_simp | case_decide ].

Lemma no_create_give_up s t u s' t' u' m (f : Z → Z → Z → string → D → Z → D * option Z) :
  f = release_script ∨ f = release_expired_script ∨ f = book_script ∨ f = force_book_script →
  no_create (ctx s t u) (λ d t0, (f s' t' u' m d t0).1).
Proof.
  intros [->|[->|[->| ->]]]; unfold release_script, release_expired_script, book_script, force_book_script,
    finish_script, clear_zsets, clear_keys; no_create_tac.
Qed.

Lemma no_create_metadata s t u s' t' u' e pe :
  no_create (ctx s t u) (λ d t0, (metadata_pipe (D:=D) s' t' u' e pe d t0).1).
Proof. unfold metadata_pipe. no_create_tac. Qed.

Lemma no_create_acquire s t u s' t' u' ttl e pe : (s', t', u') ≠ (s, t, u) →
  no_create (ctx s t u) (λ d t0, (acquire_script (D:=D) s' t' u' ttl e pe d t0).1).
Proof.
  intros Hne d now t0 Ht Hnone. unfold acquire_script.
  assert (seat_user_context_key s' t' u' ≠ seat_user_context_key s t u) as Hk.
  { intros H%seat_user_context_key_inj. destruct H as (->&->&->). done. }
  destruct (r_get d now _) as [o|]; [case_bool_decide|]; cbn [fst]; try done;
    destruct (r_px_ok ttl), (r_bf_ok (bit_offset_of t')); cbn [fst]; try done; get_simp;
    try (rewrite get_set_px, decide_False by done); get_simp; done.
Qed.

Lemma no_create_set_nx s t u s' t' v ttl :
  no_create (ctx s t u) (λ d t0, (cmd_set_nx_px (D:=D) (seat_lock_key s' t') v ttl d t0).1).
Proof.
  intros d now t0 Ht Hnone. unfold cmd_set_nx_px. destruct (r_px_ok ttl); [|done].
  destruct (r_get d now _); [done|]. cbn [fst]. by get_simp.
Qed.

Lemma no_create_pexpire s t u s' t' ttl :
  no_create (ctx s t u) (λ d t0, (cmd_pexpire (D:=D) (seat_lock_key s' t') ttl d t0).1).
Proof. unfold cmd_pexpire. intros d now t0 Ht Hnone. destruct (_ || _); [|done]. cbn [fst]. by get_simp. Qed.

Lemma no_create_id k : no_create k (λ (d : D) _, d).
Proof. by intros d now t _. Qed.
Lemma no_create_zadd k z m sc : no_create k (λ (d : D) _, r_zadd d z m sc).
Proof. intros d now t _ H. by rewrite get_zadd. Qed.
Lemma no_create_zrem k z m : no_create k (λ (d : D) _, r_zrem d z m).
Proof. intros d now t _ H. by rewrite get_zrem. Qed.
Lemma no_create_zremrange k z lo hi : no_create k (λ (d : D) _, r_zremrange d z lo hi).
Proof. intros d now t _ H. by rewrite get_zremrange. Qed.
Lemma no_create_bitfield s t u b off st :
  no_create (ctx s t u) (cmd_bitfield (D:=D) (schedule_seat_bitmap b) off st).
Proof. intros d now t0 _ H. unfold cmd_bitfield. destruct (r_bf_ok off); [|done]. by get_simp. Qed.

Create HintDb absent.
#[local] Hint Resolve no_create_metadata no_create_acquire no_create_set_nx no_create_pexpire
  no_create_id no_create_zadd no_create_zrem no_create_zremrange no_create_bitfield
  no_create_give_up : absent.
#[local] Hint Extern 5 (_ = _ ∨ _) => tauto : absent.
#[local] Hint Resolve keeps_pool_for_seat : keeps.

Ltac keeps_absent :=
  repeat first
    [ progress (eauto with keeps nocore)
    | keeps_step
    | apply keeps_absent_cmd
    | apply keeps_absent_all
    | progress unfold sn_zadd_cluster, sn_zrem_cluster, sn_zrembyscore_cluster,
        sn_set_schedule_seat_bitmap_state_cluster, clear_cluster, mirror_acquire, refresh_own_lock
    | solve [eauto with absent] ].

(** The operation is not the acquire script of user [u] for the seat. *)
Definition not_lua (s t u : Z) (o : lock_op) : Prop :=
  match o with OpAcquireLua s' t' u' _ => (s', t', u') ≠ (s, t, u) | _ => True end.

Lemma keeps_absent_op s t u o :
  not_lua s t u o → keeps (on_nodes (absent (ctx s t u))) (run_op o).
Proof.
  destruct o; simpl; intros Ho;
    unfold sn_acquire_distributed_lock, acquire_lock, sn_acquire_seat_lock_lua, sn_update_seat_metadata_lua,
      sn_release_lock, sn_release_expired_lock_lua, sn_book_seat_lua, sn_force_book_seat_lua; keeps_absent.
  intros w Hw. eapply Forall_impl; [exact Hw|]. simpl. intros d Hd t0 Ht0. apply Hd. lia.
Qed.

Lemma keeps_absent_ops s t u os :
  Forall (not_lua s t u) os → keeps (on_nodes (absent (ctx s t u))) (run_ops os).
Proof.
  intros H. apply keeps_run_ops. eapply Forall_impl; [exact H|]. intros o. apply keeps_absent_op.
Qed.

End absent.

#[local] Existing Instance single_node_lock.

(** The lock is taken and completed, and belongs to user 1. *)
Definition gateway_route : list lock_op := [ OpAcquire 7 3 1 300; OpMetadata 7 [3] 1 300; OpTick 2000 ].
