(* ===== verification/ClusterLock.v ===== *)
(** * ClusterLock: seat locks on a Redis Cluster
    ([packages/redis-conn/src/cluster_lock.rs])

    The second implementation of [SeatLock].  The cluster is one logical server, the
    first node of the world.  A script is refused when its keys do not hash to one
    slot; the slot of a key is a parameter, [key_slot]. *)

From Stdlib Require Import Ascii.
From S2P Require Import Prelude Text Keys Crc16 Redis RedisMem SeatLock SingleNodeLock.

(** The hash slot of a key, computed by the cluster. *)
Class ClusterSlots := { key_slot : string → Z }.

Section cluster_lock.
Context {D : Type} `{!RedisServer D} {HJ : JsonText} {HC : ClusterSlots}.
Abbreviation M := (St (world D)).

Definition one_slot (keys : list string) : bool :=
  match keys with
  | [] => true
  | k :: ks => forallb (λ k', key_slot k' =? key_slot k) ks
  end.

(** A command sent through the cluster connection. *)
Definition cluster_cmd {R} (f : D → Z → D * option R) : M (option R) := node_cmd 0 f.

(** A script with its [KEYS]: CROSSSLOT is an error reply and nothing runs. *)
Definition cluster_script {R} (keys : list string) (f : D → Z → D * option R) : M (option R) :=
  cluster_cmd (λ d t, if one_slot keys then f d t else (d, None)).

(** [(expires_in_sec * 1000) as u64]: the product is an [i32]. *)
Definition cl_ttl_ms (expires_in_sec : Z) : Z := u64 (i32 (expires_in_sec * 1000)).
(** [now + ttl_ms as i64] and [now + (expires_in_sec as i64 * 1000) + 15000]. *)
Definition cl_expiry (now expires_in_sec : Z) : Z := i64 (now + i64 (cl_ttl_ms expires_in_sec)).
Definition cl_processing_expiry (now expires_in_sec : Z) : Z := i64 (now + expires_in_sec * 1000 + 15000).

(** [usize::try_from(seat_id).ok().and_then(|id| id.checked_mul(2))] for an [i32]. *)
Definition cl_bit_offset (seat_id : Z) : option Z := if seat_id <? 0 then None else Some (seat_id * 2).

(** The members [acquire], [release] and [book] write and remove. *)
Definition cl_member (seat_id user_id : Z) : string := (show_Z seat_id +:+ ":" +:+ show_Z user_id)%string.

Definition cl_bitfield {R} (key : string) (off v : Z) (r : R) (d : D) (t : Z) : D * option R :=
  if r_bf_ok off then (r_bitfield d t key off v, Some r) else (d, None).

(** *** Scripts *)

Definition cl_acquire_script (showtime_id seat_id user_id ttl_ms expiry processing_expiry bit_offset : Z)
    (d : D) (t : Z) : D * option Z :=
  let lock_key := seat_lock_key showtime_id seat_id in
  let queue_member := cl_member seat_id user_id in
  if free_or_own (r_get d t lock_key) user_id then
    if r_px_ok ttl_ms then
      let d := r_set_px d t lock_key (show_Z user_id) ttl_ms in
      let d := r_zadd d (room_zset_key showtime_id) queue_member expiry in
      let d := r_zadd d (user_zset_key showtime_id user_id) (show_Z seat_id) expiry in
      let d := r_zadd d seat_processing_queue_key queue_member processing_expiry in
      cl_bitfield (schedule_seat_bitmap showtime_id) bit_offset 1 1 d t
    else (d, None)
  else (d, Some 0).

(** The loop over the [(seat_id, queue_member, bit_offset)] triples of [ARGV]. *)
Fixpoint cl_metadata_script (showtime_id user_id expiry : Z) (seats : list (Z * Z)) (d : D) (t : Z) : D * option Z :=
  match seats with
  | [] => (d, Some 1)
  | (seat_id, bit_offset) :: seats =>
      let d := r_zadd d (room_zset_key showtime_id) (queue_member seat_id showtime_id user_id) expiry in
      let d := r_zadd d (user_zset_key showtime_id user_id) (show_Z seat_id) expiry in
      if r_bf_ok bit_offset then
        cl_metadata_script showtime_id user_id expiry seats
          (r_bitfield d t (schedule_seat_bitmap showtime_id) bit_offset 1) t
      else (d, None)
  end.

Definition cl_release_script (showtime_id seat_id user_id : Z) (d : D) (t : Z) : D * option Z :=
  let lock_key := seat_lock_key showtime_id seat_id in
  match r_get d t lock_key with
  | None => (d, Some 1)
  | Some owner =>
      if bool_decide (owner = show_Z user_id) then
        (r_del (r_del d lock_key) (seat_user_context_key showtime_id seat_id user_id), Some 1)
      else (d, Some 0)
  end.

(** The body shared by [release_expired], [book] and [force_book]. *)
Definition cl_drop_seat (showtime_id seat_id user_id : Z) (member : string) (bit_offset state : Z)
    (d : D) (t : Z) : D * option Z :=
  let d := r_del d (seat_lock_key showtime_id seat_id) in
  let d := r_del d (seat_user_context_key showtime_id seat_id user_id) in
  let d := r_zrem d (room_zset_key showtime_id) member in
  let d := r_zrem d (user_zset_key showtime_id user_id) (show_Z seat_id) in
  let d := r_zrem d seat_processing_queue_key member in
  cl_bitfield (schedule_seat_bitmap showtime_id) bit_offset state 1 d t.

Definition cl_release_expired_script (showtime_id seat_id user_id : Z) (member : string) (bit_offset : Z)
    (d : D) (t : Z) : D * option Z :=
  if free_or_own (r_get d t (seat_lock_key showtime_id seat_id)) user_id
  then cl_drop_seat showtime_id seat_id user_id member bit_offset 0 d t
  else (d, Some 0).

Definition cl_book_script (showtime_id seat_id user_id : Z) (member : string) (bit_offset : Z)
    (d : D) (t : Z) : D * option Z :=
  if bool_decide (r_get d t (seat_lock_key showtime_id seat_id) = Some (show_Z user_id))
  then cl_drop_seat showtime_id seat_id user_id member bit_offset 2 d t
  else (d, Some 0).

(** [KEYS] of the scripts that drop a seat, and of the acquire script. *)
Definition drop_keys (showtime_id seat_id user_id : Z) : list string :=
  [ seat_lock_key showtime_id seat_id; seat_user_context_key showtime_id seat_id user_id;
    room_zset_key showtime_id; user_zset_key showtime_id user_id; seat_processing_queue_key;
    schedule_seat_bitmap showtime_id ].
Definition acquire_keys (showtime_id seat_id user_id : Z) : list string :=
  [ seat_lock_key showtime_id seat_id; room_zset_key showtime_id; user_zset_key showtime_id user_id;
    seat_processing_queue_key; schedule_seat_bitmap showtime_id ].

(** *** Operations *)

Definition cl_acquire_seat_lock_lua (showtime_id seat_id user_id expires_in_sec : Z) : M bool :=
  let ttl_ms := cl_ttl_ms expires_in_sec in
  now ← now_ms;
  let expiry := cl_expiry now expires_in_sec in
  let processing_expiry := cl_processing_expiry now expires_in_sec in
  match cl_bit_offset seat_id with
  | None => mret false
  | Some bit_offset =>
      result ← cluster_script (acquire_keys showtime_id seat_id user_id)
        (cl_acquire_script showtime_id seat_id user_id ttl_ms expiry processing_expiry bit_offset);
      mret (bool_decide (result = Some 1))
  end.

Definition cl_acquire_distributed_lock (showtime_id seat_id user_id expires_in_sec : Z) : M bool :=
  result ← cluster_cmd (cmd_set_nx_px (seat_lock_key showtime_id seat_id) (show_Z user_id) (cl_ttl_ms expires_in_sec));
  mret (bool_decide (result = Some true)).

(** [ZADD key score member score member ..]: without a pair it is an error. *)
Definition cmd_zadd_all (key : string) (score : Z) (members : list string) (d : D) (t : Z) : D * option unit :=
  match members with
  | [] => (d, None)
  | _ => (fold_left (λ d m, r_zadd d key m score) members d, Some tt)
  end.

Definition cl_update_seat_metadata_lua (showtime_id : Z) (seat_ids : list Z) (user_id expires_in_sec : Z) : M bool :=
  now ← now_ms;
  let expiry := cl_expiry now expires_in_sec in
  let seats := omap (λ seat_id, off ← cl_bit_offset seat_id; Some (seat_id, off)) seat_ids in
  result ← cluster_script [room_zset_key showtime_id; user_zset_key showtime_id user_id; schedule_seat_bitmap showtime_id]
    (cl_metadata_script showtime_id user_id expiry seats);
  when (bool_decide (result ≠ None))
    (cluster_cmd (cmd_zadd_all seat_processing_queue_key (cl_processing_expiry now expires_in_sec)
       (map (λ seat_id, queue_member seat_id showtime_id user_id) seat_ids)) ;; mret tt) ;;
  mret (bool_decide (result = Some 1)).

Definition cl_zrem_cluster (key member : string) : M unit :=
  cluster_cmd (λ d _, (r_zrem d key member, Some tt)) ;; mret tt.
Definition cl_zadd_cluster (key member : string) (score : Z) : M unit :=
  cluster_cmd (λ d _, (r_zadd d key member score, Some tt)) ;; mret tt.
Definition cl_zrembyscore_cluster (key : string) (min max : option Z) : M unit :=
  cluster_cmd (λ d _, (r_zremrange d key min max, Some tt)) ;; mret tt.
Definition cl_set_schedule_seat_bitmap_state_cluster (bitmap_key : string) (seat_id state : Z) : M unit :=
  match cl_bit_offset seat_id with
  | None => mret tt
  | Some off => cluster_cmd (cl_bitfield bitmap_key off state tt) ;; mret tt
  end.

Definition cl_release_lock (showtime_id seat_id user_id : Z) : M bool :=
  result ← cluster_script [seat_lock_key showtime_id seat_id; seat_user_context_key showtime_id seat_id user_id]
    (cl_release_script showtime_id seat_id user_id);
  if bool_decide (result = Some 1) then
    let member := cl_member seat_id user_id in
    cl_zrem_cluster (user_zset_key showtime_id user_id) (show_Z seat_id) ;;
    cl_zrem_cluster (room_zset_key showtime_id) member ;;
    cl_zrem_cluster seat_processing_queue_key member ;;
    cl_set_schedule_seat_bitmap_state_cluster (schedule_seat_bitmap showtime_id) seat_id 0 ;;
    mret true
  else mret false.

Definition cl_release_expired_lock_lua (showtime_id seat_id user_id : Z) (member : string) : M bool :=
  match cl_bit_offset seat_id with
  | None => mret false
  | Some off =>
      result ← cluster_script (drop_keys showtime_id seat_id user_id)
        (cl_release_expired_script showtime_id seat_id user_id member off);
      mret (bool_decide (result = Some 1))
  end.

Definition cl_book_seat_lua (showtime_id seat_id user_id : Z) : M bool :=
  match cl_bit_offset seat_id with
  | None => mret false
  | Some off =>
      result ← cluster_script (drop_keys showtime_id seat_id user_id)
        (cl_book_script showtime_id seat_id user_id (cl_member seat_id user_id) off);
      mret (bool_decide (result = Some 1))
  end.

Definition cl_force_book_seat_lua (showtime_id seat_id user_id : Z) (member : string) : M unit :=
  match cl_bit_offset seat_id with
  | None => mret tt
  | Some off =>
      cluster_script (drop_keys showtime_id seat_id user_id)
        (cl_drop_seat showtime_id seat_id user_id member off 2) ;; mret tt
  end.

Definition cl_get_lock_owner (showtime_id seat_id : Z) : M (option Z) :=
  result ← cluster_cmd (cmd_get_i32 (seat_lock_key showtime_id seat_id)); mret (default None result).
Definition cl_user_holds_lock (showtime_id seat_id user_id : Z) : M bool :=
  exist ← cluster_cmd (cmd_exists (seat_user_context_key showtime_id seat_id user_id)); mret (default false exist).
Definition cl_get_user_locked_seats (showtime_id user_id : Z) : M (list Z) :=
  now ← now_secs;
  members ← cluster_cmd (cmd_zrange (user_zset_key showtime_id user_id) (Some now) None);
  mret (omap parse_i32 (default [] members)).
Definition cl_get_schedule_seat_bitmap_state_cluster (bitmap_key : string) : M string :=
  result ← cluster_cmd (cmd_get bitmap_key); mret (default EmptyString (default None result)).
Definition cl_publish_event (channel : string) (payload : json) : M unit := publish channel payload.

Definition cluster_lock : SeatLock D := {|
  acquire_seat_lock_lua := cl_acquire_seat_lock_lua;
  acquire_distributed_lock := cl_acquire_distributed_lock;
  update_seat_metadata_lua := cl_update_seat_metadata_lua;
  release_lock := cl_release_lock;
  release_expired_lock_lua := cl_release_expired_lock_lua;
  get_lock_owner := cl_get_lock_owner;
  user_holds_lock := cl_user_holds_lock;
  get_user_locked_seats := cl_get_user_locked_seats;
  get_schedule_seat_bitmap_state_cluster := cl_get_schedule_seat_bitmap_state_cluster;
  set_schedule_seat_bitmap_state_cluster := cl_set_schedule_seat_bitmap_state_cluster;
  zrem_cluster := cl_zrem_cluster;
  zadd_cluster := cl_zadd_cluster;
  zrembyscore_cluster := cl_zrembyscore_cluster;
  publish_event := cl_publish_event;
  book_seat_lua := cl_book_seat_lua;
  force_book_seat_lua := cl_force_book_seat_lua
|}.
End cluster_lock.

#[local] Arguments one_slot : simpl never.

(** ** A held seat of the cluster *)

Section cluster_held.
Context {D : Type} `{!RedisServer D} `{!RedisLaws D} {HJ : JsonText} {HC : ClusterSlots}.
#[local] Existing Instance cluster_lock.

(** The seat is held by [u] until [dl] on the logical server of the cluster. *)
Definition cl_held (s t u dl : Z) (w : world D) : Prop :=
  on_nodes (held (length (w_nodes w)) 0 (seat_lock_key s t) (show_Z u) dl) w.
Definition cl_free (s t : Z) (w : world D) : Prop :=
  ∃ d, w_nodes w !! 0%nat = Some d ∧ r_get d (w_now w) (seat_lock_key s t) = None.

(** [foreign_script Hf]: a script of another user, or for another seat, spares the
    lock. *)
Ltac foreign_script Hf :=
  let d := fresh "d" in let t0 := fresh "t0" in let H := fresh "H" in
  let t1 := fresh "t1" in let Ht := fresh "Ht" in let Hdl := fresh "Hdl" in
  intros d t0 H t1 Ht Hdl;
  destruct (foreign_cases _ _ _ _ _ _ Hf) as [(-> & -> & Hu)|Hs];
  [ rewrite ?(H t0), ?not_free_or_own by (done || lia);
    rewrite ?bool_decide_false by (intros [= E]; apply (inj show_Z) in E; congruence);
    simpl; get_simp; by apply H
  | repeat match goal with
      | |- context [free_or_own ?x ?u] => destruct (free_or_own x u)
      | |- context [bool_decide ?x] => destruct (bool_decide x)
      | |- context [match r_get ?d ?t ?k with _ => _ end] => destruct (r_get d t k)
      | |- context [r_bf_ok ?x] => destruct (r_bf_ok x)
      | |- context [r_px_ok ?x] => destruct (r_px_ok x)
      end; simpl; get_simp; by apply H ].

Lemma spares_script k v dl keys {R} (f : D → Z → D * option R) :
  spares k v dl (λ d t, (f d t).1) →
  spares k v dl (λ d t, (if one_slot keys then f d t else (d, None)).1).
Proof. intros Hf d t H. destruct (one_slot keys); [by apply Hf|done]. Qed.

Lemma spares_cl_acquire s t u s' t' u' ttl e pe off dl : foreign s t u s' t' u' →
  spares (seat_lock_key s t) (show_Z u) dl (λ d t0, (cl_acquire_script (D:=D) s' t' u' ttl e pe off d t0).1).
Proof. intros Hf. unfold cl_acquire_script, cl_bitfield. foreign_script Hf. Qed.
Lemma spares_cl_release s t u s' t' u' dl : foreign s t u s' t' u' →
  spares (seat_lock_key s t) (show_Z u) dl (λ d t0, (cl_release_script (D:=D) s' t' u' d t0).1).
Proof. intros Hf. unfold cl_release_script. foreign_script Hf. Qed.
Lemma spares_cl_expired s t u s' t' u' m off dl : foreign s t u s' t' u' →
  spares (seat_lock_key s t) (show_Z u) dl (λ d t0, (cl_release_expired_script (D:=D) s' t' u' m off d t0).1).
Proof. intros Hf. unfold cl_release_expired_script, cl_drop_seat, cl_bitfield. foreign_script Hf. Qed.
Lemma spares_cl_book s t u s' t' u' m off dl : foreign s t u s' t' u' →
  spares (seat_lock_key s t) (show_Z u) dl (λ d t0, (cl_book_script (D:=D) s' t' u' m off d t0).1).
Proof. intros Hf. unfold cl_book_script, cl_drop_seat, cl_bitfield. foreign_script Hf. Qed.
Lemma spares_cl_metadata s t u s' u' e seats dl :
  spares (seat_lock_key s t) (show_Z u) dl (λ d t0, (cl_metadata_script (D:=D) s' u' e seats d t0).1).
Proof.
  apply spares_get. induction seats as [|[t' off] seats IH]; intros d t0 t1 Ht; simpl; [done|].
  destruct (r_bf_ok off); [rewrite IH by done|]; simpl; by get_simp.
Qed.
Lemma spares_cl_bitfield {R} s t v dl b off st (r : R) :
  spares (seat_lock_key s t) v dl (λ d t0, (cl_bitfield (D:=D) (schedule_seat_bitmap b) off st r d t0).1).
Proof. apply spares_get. intros d t0 t1 _. unfold cl_bitfield. destruct (r_bf_ok off); simpl; by get_simp. Qed.
Lemma spares_zadd_all k v dl z sc ms : spares k v dl (λ d t0, (cmd_zadd_all (D:=D) z sc ms d t0).1).
Proof.
  apply spares_get. intros d t0 t1 _. unfold cmd_zadd_all. destruct ms as [|m ms]; [done|]. cbn [fst].
  generalize (m :: ms). intros l. revert d. induction l as [|x l IH]; intros d; simpl; [done|].
  by rewrite IH, get_zadd.
Qed.

Lemma keeps_cl_held {A} s t u dl (m : St (world D) A) :
  (∀ n, keeps (on_nodes (held n 0 (seat_lock_key s t) (show_Z u) dl)) m) → keeps (cl_held s t u dl) m.
Proof. intros Hm w Hw. apply Hm in Hw. destruct (Hw) as [Hn _]. unfold cl_held. by rewrite Hn. Qed.

Create HintDb cl_spares.
#[local] Hint Resolve spares_script spares_cl_acquire spares_cl_release spares_cl_expired spares_cl_book
  spares_cl_metadata spares_cl_bitfield spares_zadd_all spares_zadd spares_zrem spares_zremrange
  spares_set_nx : cl_spares.

Lemma keeps_cl_op s t u dl o : unforced o → op_foreign s t u o → keeps (cl_held s t u dl) (run_op o).
Proof.
  destruct o; simpl; intros Hsafe Hf; try done; apply keeps_cl_held; intros n;
    unfold cl_acquire_distributed_lock, cl_acquire_seat_lock_lua, cl_update_seat_metadata_lua, cl_release_lock,
      cl_release_expired_lock_lua, cl_book_seat_lua, cl_zadd_cluster, cl_zrem_cluster, cl_zrembyscore_cluster,
      cl_set_schedule_seat_bitmap_state_cluster, cluster_script, cluster_cmd;
    repeat first [ keeps_step | progress (eauto with keeps nocore) | apply keeps_held_cmd | solve [eauto with cl_spares] ].
  intros w [Hn (d & Hd & Hs)]. split; [done|]. exists d. split; [done|]. intros t' ??. apply Hs; simpl in *; lia.
Qed.

(** One command on the cluster, on every outcome of the network. *)
Lemma cluster_cmd_cases {R} (f : D → Z → D * option R) (w : world D) d :
  w_nodes w !! 0%nat = Some d →
  ∃ r w', cluster_cmd f w = (r, w') ∧ w_now w' = w_now w ∧ w_log w' = w_log w ∧
    (r = None ∨ r = (f d (w_now w)).2 ∧ w_nodes w' = <[0%nat := (f d (w_now w)).1]> (w_nodes w)).
Proof.
  intros Hd. unfold cluster_cmd. destruct (node_cmd_cases 0 f w d Hd) as (fl & l & _ & ->).
  destruct fl; simpl; do 2 eexists; (split; [reflexivity|]); split_and!; simpl; auto.
Qed.

Lemma cl_held_set s t u dl (w w' : world D) d d' :
  w_nodes w !! 0%nat = Some d → w_now w' = w_now w → w_nodes w' = <[0%nat := d']> (w_nodes w) →
  (∀ t', w_now w ≤ t' → t' < dl → r_get d' t' (seat_lock_key s t) = Some (show_Z u)) →
  cl_held s t u dl w'.
Proof.
  intros Hd Hn Hns Hs. split; [done|]. exists d'. rewrite Hns, Hn. split; [|done].
  apply list_lookup_insert_eq. by eapply lookup_lt_Some.
Qed.

#[local] Program Instance cluster_exclusive : ExclusiveLock D := {|
  lock_free := cl_free;
  lock_held := cl_held;
  lock_ttl := cl_ttl_ms;
  safe := unforced
|}.
Next Obligation.
  intros lua s t u e w (d & Hd & Hg) Ha. destruct lua; simpl in *.
  - unfold cl_acquire_seat_lock_lua, mbind, St_bind, now_ms in *.
    destruct (cl_bit_offset t) as [off|]; [|done]. unfold cluster_script in *.
    match goal with |- context [cluster_cmd ?f w] =>
      destruct (cluster_cmd_cases f w d Hd) as (r & w' & E & Hn & _ & [->|[-> Hns]]); rewrite E in * end;
      [done|]. simpl in *. eapply cl_held_set; [exact Hd|done|exact Hns|].
    destruct (one_slot _); [|done]. revert Ha. unfold cl_acquire_script, cl_bitfield.
    destruct (free_or_own _ _); [|done]. destruct (r_px_ok _); [|done]. destruct (r_bf_ok _); [|done].
    simpl. intros _ t' ??. get_simp. by rewrite (proj2 (Z.ltb_lt _ _)) by lia.
  - unfold cl_acquire_distributed_lock, mbind, St_bind in *.
    match goal with |- context [cluster_cmd ?f w] =>
      destruct (cluster_cmd_cases f w d Hd) as (r & w' & E & Hn & _ & [->|[-> Hns]]); rewrite E in * end;
      [done|]. simpl in *. eapply cl_held_set; [exact Hd|done|exact Hns|].
    revert Ha. unfold cmd_set_nx_px. rewrite Hg. destruct (r_px_ok _); [|done]. simpl. intros _ t' ??.
    get_simp. by rewrite (proj2 (Z.ltb_lt _ _)) by lia.
Qed.
Next Obligation. intros o s t u dl Hs Hf. by apply keeps_cl_op. Qed.
Next Obligation. done. Qed.
Next Obligation. intros s t u dl w w' Hn Ht. unfold cl_held, on_nodes. by rewrite Hn, Ht. Qed.
Next Obligation.
  intros s t u dl u' w [_ (d & Hd & Hs)] Hdl Hu e.
  assert (r_get d (w_now w) (seat_lock_key s t) = Some (show_Z u)) as Hg by (apply Hs; lia).
  assert (show_Z u ≠ show_Z u') as Hne by (intros E; apply (inj show_Z) in E; congruence).
  split_and!; simpl; unfold cl_acquire_distributed_lock, cl_acquire_seat_lock_lua, cl_release_lock, cl_book_seat_lua,
    mbind, St_bind, now_ms, cluster_script; try (destruct (cl_bit_offset t) as [off|]; [|done]);
    match goal with |- context [cluster_cmd ?f w] =>
      destruct (cluster_cmd_cases f w d Hd) as (r & w' & -> & _ & _ & [->|[-> _]]) end; try done; simpl;
    unfold cmd_set_nx_px, cl_acquire_script, cl_release_script, cl_book_script; rewrite ?Hg, ?not_free_or_own by done;
    rewrite ?(bool_decide_false (show_Z u = show_Z u')) by done;
    rewrite ?(bool_decide_false (Some (show_Z u) = Some (show_Z u'))) by congruence;
    try destruct (r_px_ok _); try destruct (one_slot _); done.
Qed.

(** C31: the cluster keeps the promise of the lock interface as long as nobody
    forces a booking: a seat acquired when free stays closed to the other users until
    its lifetime has passed, on any network. *)
Theorem cluster_seat_is_exclusive lua s t u e (w : world D) os u' :
  cl_free s t w → (acquire_with lua s t u e w).1 = true →
  Forall unforced os → Forall (op_foreign s t u) os →
  w_now (run_ops os (acquire_with lua s t u e w).2).2 < w_now w + cl_ttl_ms e → u' ≠ u →
  locked_out s t u' (run_ops os (acquire_with lua s t u e w).2).2.
Proof.
  intros Hfree Ha Hs Hos Hdl Hu.
  apply (exclusive (HE:=cluster_exclusive) lua s t u e w os u' Hfree Ha Hs Hos Hdl Hu).
Qed.

Lemma refused_script {R} keys (f : D → Z → D * option R) (w : world D) :
  one_slot keys = false →
  (cluster_script keys f w).1 = None ∧ w_nodes (cluster_script keys f w).2 = w_nodes w.
Proof.
  intros Hk. unfold cluster_script, cluster_cmd, node_cmd. rewrite Hk.
  destruct (draw_eq w) as (fl & l & -> & _). simpl.
  destruct (w_nodes w !! 0%nat) as [d|] eqn:Hd; [|done].
  destruct fl; simpl; split; try done; by rewrite list_insert_id.
Qed.

Lemma one_slot_false k ks k' : k' ∈ ks → key_slot k' ≠ key_slot k → one_slot (k :: ks) = false.
Proof.
  intros Hin Hne. unfold one_slot. apply not_true_iff_false. rewrite forallb_forall. intros H.
  apply Hne, Z.eqb_eq, H. by apply list_elem_of_In.
Qed.

(** The lock key carries no hash tag and the other keys of a seat carry the
    tag of the schedule.  When the cluster keeps them in different slots it refuses
    every script that names both: no seat can be acquired by script, released, swept or
    booked, whatever its state, and the servers are left unchanged. *)
Theorem cluster_scripts_crossslot s t u m e (w : world D) :
  key_slot (seat_user_context_key s t u) ≠ key_slot (seat_lock_key s t) →
  key_slot (room_zset_key s) ≠ key_slot (seat_lock_key s t) →
  let refused {A} (no : A) (r : A * world D) := r.1 = no ∧ w_nodes r.2 = w_nodes w in
  refused false (cl_acquire_seat_lock_lua s t u e w) ∧
  refused false (cl_release_lock s t u w) ∧
  refused false (cl_release_expired_lock_lua s t u m w) ∧
  refused false (cl_book_seat_lua s t u w) ∧
  refused tt (cl_force_book_seat_lua s t u m w).
Proof.
  intros Hc Hr refused.
  assert (one_slot (drop_keys s t u) = false) as Hd by (eapply one_slot_false, Hc; set_solver).
  assert (one_slot (acquire_keys s t u) = false) as Ha by (eapply one_slot_false, Hr; set_solver).
  assert (one_slot [seat_lock_key s t; seat_user_context_key s t u] = false) as Hl
    by (eapply one_slot_false, Hc; set_solver).
  subst refused. cbn beta.
  unfold cl_acquire_seat_lock_lua, cl_release_lock, cl_release_expired_lock_lua, cl_book_seat_lua,
    cl_force_book_seat_lua, mbind, St_bind, now_ms.
  split_and!; try (destruct (cl_bit_offset t) as [off|]; [|done]);
    match goal with |- context [cluster_script ?ks ?f w] =>
      destruct (refused_script ks f w) as [Hn Hw]; [done|];
      destruct (cluster_script ks f w) as [r w'] end; simpl in *; subst r; done.
Qed.

Lemma cl_expiry_exact now e : 0 ≤ now < 2 ^ 62 → 0 < e ≤ 2000000 → cl_expiry now e = now + e * 1000.
Proof.
  intros Hnow He. unfold cl_expiry, cl_ttl_ms. unfold i32. rewrite (wrap_s_small 32) by (try unfold in_s; lia).
  unfold u64, i64. rewrite (wrap_u_small 64) by (try unfold in_u; lia).
  rewrite (wrap_s_small 64 (e * 1000)) by (try unfold in_s; lia).
  by rewrite wrap_s_small by (try unfold in_s; lia).
Qed.

(** In the cluster the seats of a user do not drop out of
    [get_user_locked_seats] when their lock expires: the scores are milliseconds and
    the query asks in seconds, so a seat whose metadata was written at time [now] is
    listed for as long as the clock in seconds does not exceed [now] in milliseconds. *)
Theorem cluster_locked_seats_outlive_lock s t u e (w : world D) d ms :
  w_nodes w !! 0%nat = Some d → w_faults w = [] → 0 ≤ w_now w < 2 ^ 62 → 0 < e ≤ 2000000 →
  0 ≤ t < 2 ^ 31 → one_slot [room_zset_key s; user_zset_key s u; schedule_seat_bitmap s] = true →
  (w_now w + Z.of_N ms) / 1000 ≤ w_now w →
  t ∈ (cl_get_user_locked_seats s u (advance ms (cl_update_seat_metadata_lua s [t] u e w).2).2).1.
Proof.
  intros Hd Hf Hnow He Ht Hk Hsec. destruct w as [ns now fl lg]. simpl in Hd, Hf, Hnow, Hsec. subst fl.
  unfold cl_update_seat_metadata_lua, mbind, St_bind, now_ms, cl_bit_offset, cluster_script, cluster_cmd. simpl.
  rewrite (proj2 (Z.ltb_ge _ _)) by lia. simpl.
  rewrite (node_cmd_ok _ _ _ _ _ d) by done. rewrite Hk. simpl. rewrite bf_ok_range by lia. simpl.
  set (d1 := r_bitfield _ _ _ _ _).
  rewrite (node_cmd_ok _ _ _ _ _ d1) by (apply list_lookup_insert_eq; by eapply lookup_lt_Some). simpl.
  rewrite list_insert_insert_eq. set (d2 := r_zadd d1 _ _ _).
  unfold cl_get_user_locked_seats, cluster_cmd, mbind, St_bind, now_secs. simpl.
  rewrite (node_cmd_ok _ _ _ _ _ d2) by (apply list_lookup_insert_eq; by eapply lookup_lt_Some). simpl.
  apply list_elem_of_omap. exists (show_Z t). split.
  - apply zrange_elem. exists (cl_expiry now e). unfold d2, d1.
    rewrite zset_zadd, decide_False, zset_bitfield, zset_zadd, decide_True, lookup_insert_eq by (done || key_ne).
    rewrite cl_expiry_exact by done. split_and!; [done|lia|done].
  - apply parse_show_i32. apply in_i32_true. unfold i32_min, i32_max. lia.
Qed.
End cluster_held.

(** ** Witnesses: a cluster with the hash slots of Redis

    The slot is the CRC-16 of the hash tag modulo 16384; the tag is the text between
    the first brace and the next closing brace, when there is some. *)
Fixpoint until (c : Ascii.ascii) (s : string) : option string :=
  match s with
  | EmptyString => None
  | String a s' => if Ascii.eqb a c then Some EmptyString else String a <$> until c s'
  end.
Fixpoint hash_tag (s : string) : option string :=
  match s with
  | EmptyString => None
  | String a s' =>
      if Ascii.eqb a "{"%char
      then match until "}"%char s' with Some (String b t) => Some (String b t) | _ => None end
      else hash_tag s'
  end.
#[local] Instance redis_slots : ClusterSlots := {|
  key_slot k := crc16 (as_bytes (default k (hash_tag k))) mod 16384
|}.
#[local] Existing Instance cluster_lock.

Definition cluster_storm : list lock_op :=
  [ OpAcquire 7 3 2 60; OpTick 1000; OpReleaseExpired 7 3 2 "m"; OpMetadata 7 [3; 4] 2 60; OpBook 7 3 2; OpRelease 7 3 2 ].

Lemma cluster_seat_is_exclusive_witness :
  locked_out 7 3 2 (run_ops cluster_storm (acquire_with false 7 3 1 60 flaky_world).2).2.
Proof.
  refine (cluster_seat_is_exclusive false 7 3 1 60 flaky_world cluster_storm 2 _ _ _ _ _ _).
  - exists mem_empty. by vm_compute.
  - vm_compute. reflexivity.
  - unfold cluster_storm; repeat (apply List.Forall_cons; [exact I|]); apply List.Forall_nil.
  - unfold cluster_storm; repeat (apply List.Forall_cons; [cbn; try done; (by left) || (right; lia)|]); apply List.Forall_nil.
  - vm_compute. reflexivity.
  - lia.
Defined.

Definition cluster_locked : world mem_redis := (acquire_with (HS:=cluster_lock) false 7 3 1 60 (mem_world 1 5000)).2.

Lemma cluster_scripts_crossslot_witness :
  (cl_get_lock_owner 7 3 cluster_locked).1 = Some 1 ∧ (cl_release_lock 7 3 1 cluster_locked).1 = false ∧
  (cl_book_seat_lua 7 3 1 cluster_locked).1 = false.
Proof.
  split; [vm_compute; reflexivity|].
  destruct (cluster_scripts_crossslot 7 3 1 "m" 60 cluster_locked) as (_ & [H1 _] & _ & [H2 _] & _).
  - vm_compute. discriminate.
  - vm_compute. discriminate.
  - split; [exact H1|exact H2].
Defined.

(** The lock of one minute is gone after an hour, the seat is still listed. *)
Definition hour_later : world mem_redis :=
  (advance 3600000 (cl_update_seat_metadata_lua 7 [3] 1 60 (cl_acquire_distributed_lock 7 3 1 60 (mem_world 1 1750000000000)).2).2).2.

Lemma cluster_locked_seats_outlive_lock_witness :
  (cl_get_lock_owner 7 3 hour_later).1 = None ∧ 3 ∈ (cl_get_user_locked_seats 7 1 hour_later).1.
Proof.
  split; [vm_compute; reflexivity|].
  refine (cluster_locked_seats_outlive_lock 7 3 1 60
    (cl_acquire_distributed_lock 7 3 1 60 (mem_world 1 1750000000000)).2 _ 3600000 _ _ _ _ _ _ _).
  - vm_compute. reflexivity.
  - vm_compute. reflexivity.
  - vm_compute. split; [discriminate|reflexivity].
  - lia.
  - lia.
  - vm_compute. reflexivity.
  - vm_compute. discriminate.
Defined.
