(* ===== verification/RateLimit.v ===== *)
(** * RateLimit: the sliding window of the gateway
    ([apps/gateway-keeper/src/rate_limit_sliding.rs])

    The log of a key is a sorted set of request members scored by their time.  The
    [PEXPIRE] of the script drops the set two windows after the last admitted
    request, when every entry is older than a window; the model leaves the set to the
    next trim, which removes the same entries. *)

From S2P Require Import Prelude Text Keys Redis RedisMem SeatLock.

Section rate_limit.
Context {D : Type} `{!RedisServer D}.
Abbreviation M := (St (world D)).

Definition window_script (key : string) (now window_start limit ttl_ms : Z) (member : string)
    (d : D) (t : Z) : D * option (Z * Z) :=
  let d := r_zremrange d key None (Some window_start) in
  let count := Z.of_nat (size (r_zset d key)) in
  if count <? limit then
    let d := r_zadd d key member now in
    (r_pexpire d t key ttl_ms, Some (1, count + 1))
  else (d, Some (0, count)).

Definition request_member (now_ms random : Z) : string := (show_Z now_ms +:+ ":" +:+ show_Z random)%string.

(** The answer: allowed, the count, and when the window ends.  [random] is the value
    [fastrand] draws; the connection is one of node 0. *)
Definition check_sliding_window (key : string) (limit window_ms random : Z) : M (bool * Z * Z) :=
  now ← now_ms;
  let window_start := now - window_ms in
  let member := request_member now random in
  result ← node_cmd 0 (window_script key now window_start limit (window_ms * 2) member);
  let '(ok, count) := default (0, 0) result in
  mret (ok =? 1, count, now + window_ms).

(** *** A sequence of requests

    Each element is the time that passes before a request and its random value;
    the result lists the requests that were let through, with their times. *)
Fixpoint requests (key : string) (limit window_ms : Z) (rs : list (N * Z)) : M (list (string * Z)) :=
  match rs with
  | [] => mret []
  | (wait, random) :: rs =>
      (advance wait : M unit) ;;
      now ← (now_ms : M Z);
      '(allowed, _, _) ← check_sliding_window key limit window_ms random;
      log ← requests key limit window_ms rs;
      mret (if (allowed : bool) then (request_member now random, now) :: log else log)
  end.
End rate_limit.

Section window_limit.
Context {D : Type} `{!RedisServer D} `{!RedisLaws D}.
Implicit Types (log : list (string * Z)).

(** The members let through in the window that ends at [t]. *)
Definition in_window (window t : Z) (log : list (string * Z)) : gset string :=
  list_to_set (omap (λ e, if (t - window <? e.2) && (e.2 <=? t) then Some e.1 else None) log).

Lemma elem_of_in_window window t log m :
  m ∈ in_window window t log ↔ ∃ s, (m, s) ∈ log ∧ t - window < s ≤ t.
Proof.
  unfold in_window. rewrite elem_of_list_to_set, list_elem_of_omap. split.
  - intros ([m' s] & Hin & Hs). simpl in Hs. destruct (_ && _) eqn:E; [|done]. simplify_eq.
    apply andb_true_iff in E as [?%Z.ltb_lt ?%Z.leb_le]. by exists s.
  - intros (s & Hin & H1 & H2). exists (m, s). split; [done|]. simpl.
    by rewrite (proj2 (Z.ltb_lt _ _)), (proj2 (Z.leb_le _ _)) by lia.
Qed.

(** [past] is what was let through so far; the sorted set still holds what is
    younger than a window, and no window holds more than [limit] of it. *)
Definition limited (key : string) (limit window : Z) (past : list (string * Z)) (w : world D) : Prop :=
  (∀ m s, (m, s) ∈ past → s ≤ w_now w ∧ ∃ random, m = request_member s random) ∧
  (∀ t, Z.of_nat (size (in_window window t past)) ≤ limit) ∧
  (∀ d, w_nodes w !! 0%nat = Some d → ∀ m s, (m, s) ∈ past → w_now w - window < s → r_zset d key !! m = Some s).

Lemma script_zset key now start limit ttl m (d : D) t :
  let z := filter (λ ms, ¬ in_scores None (Some start) ms) (r_zset d key) in
  r_zset (window_script key now start limit ttl m d t).1 key =
    (if Z.of_nat (size z) <? limit then <[m := now]> z else z) ∧
  (window_script key now start limit ttl m d t).2 =
    Some (if Z.of_nat (size z) <? limit then (1, Z.of_nat (size z) + 1) else (0, Z.of_nat (size z))).
Proof.
  simpl. unfold window_script. rewrite !zset_zremrange, !decide_True by done.
  destruct (_ <? limit); simpl; [|by rewrite zset_zremrange, decide_True].
  by rewrite zset_pexpire, zset_zadd, decide_True, zset_zremrange, decide_True.
Qed.

Lemma lookup_trim (z : gmap string Z) start m s :
  z !! m = Some s → start < s → filter (λ ms, ¬ in_scores None (Some start) ms) z !! m = Some s.
Proof. intros H Hs. apply map_lookup_filter_Some. split; [done|]. unfold in_scores. simpl. lia. Qed.

(** The members of one window fit in the trimmed set. *)
Lemma window_in_zset window t past (z : gmap string Z) :
  (∀ m s, (m, s) ∈ past → t - window < s → z !! m = Some s) →
  (size (in_window window t past) ≤ size z)%nat.
Proof.
  intros H. rewrite <-size_dom. apply subseteq_size. intros m (s & Hin & Hs)%elem_of_in_window.
  apply elem_of_dom. exists s. apply H; [done|lia].
Qed.

(** What a request lets through stays within the limit in every window: the last
    window is checked by the script, the later ones hold less. *)
Lemma limit_cons limit window past m now :
  (∀ m s, (m, s) ∈ past → s ≤ now) →
  (∀ t, Z.of_nat (size (in_window window t past)) ≤ limit) →
  Z.of_nat (size ({[m]} ∪ in_window window now past)) ≤ limit →
  ∀ t, Z.of_nat (size (in_window window t (past ++ [(m, now)]))) ≤ limit.
Proof.
  intros Hle Hlim Hnow t. destruct (decide (t < now)) as [Ht|Ht].
  - etrans; [|apply (Hlim t)]. apply inj_le, subseteq_size. intros x (s & Hin & Hs)%elem_of_in_window.
    apply elem_of_in_window. exists s. split; [|done].
    apply elem_of_app in Hin as [Hin|[=-> ->]%list_elem_of_singleton]; [done|lia].
  - etrans; [|apply Hnow]. apply inj_le, subseteq_size. intros x (s & Hin & Hw)%elem_of_in_window.
    apply elem_of_app in Hin as [Hin|Heq%list_elem_of_singleton]; [|apply elem_of_union_l, elem_of_singleton; congruence].
    apply elem_of_union_r, elem_of_in_window. exists s. split; [done|]. specialize (Hle _ _ Hin). lia.
Qed.

Lemma limited_advance key limit window past ms :
  keeps (limited key limit window past) (advance ms).
Proof.
  intros w (H1 & H2 & H3). unfold limited. simpl. split_and!; [|done|].
  - intros m s Hin. destruct (H1 m s Hin). split; [lia|done].
  - intros d Hd m s Hin Hs. apply (H3 d Hd m s Hin). lia.
Qed.

(** The trimmed set, with or without the new member, still holds what is young. *)
Lemma young_kept key window (past : list (string * Z)) (w : world D) d m random (b : bool) :
  (∀ m s, (m, s) ∈ past → s ≤ w_now w ∧ ∃ random, m = request_member s random) →
  (∀ m s, (m, s) ∈ past → w_now w - window < s → r_zset d key !! m = Some s) →
  let z := filter (λ ms, ¬ in_scores None (Some (w_now w - window)) ms) (r_zset d key) in
  m = request_member (w_now w) random →
  ∀ m' s, (m', s) ∈ past → w_now w - window < s →
    (if b then <[m := w_now w]> z else z) !! m' = Some s.
Proof.
  intros Hmem Hz z Hm m' s Hin Hs.
  assert (z !! m' = Some s) as Hz' by (apply lookup_trim; [by apply Hz|done]).
  destruct b; [|done]. destruct (decide (m' = m)) as [->|Hne]; [|by rewrite lookup_insert_ne].
  rewrite lookup_insert_eq. f_equal. destruct (Hmem _ _ Hin) as [_ [r Hr]]. rewrite Hr in Hm.
  unfold request_member in Hm. by apply show_Z_sep_inj in Hm as [-> _].
Qed.

Lemma limited_check key limit window past random :
  hoare (limited key limit window past) (now ← now_ms; r ← check_sliding_window key limit window random;
      mret (if (r.1.1 : bool) then [(request_member now random, now)] else []))
    (λ log w, limited key limit window (past ++ log) w).
Proof.
  intros w (Hmem & Hlim & Hz). unfold check_sliding_window, mbind, St_bind, now_ms.
  set (m := request_member (w_now w) random).
  set (f := window_script _ _ _ _ _ _).
  destruct (w_nodes w !! 0%nat) as [d|] eqn:Hd.
  2:{ unfold node_cmd. destruct (draw_eq w) as (fl & l & -> & _). simpl. rewrite Hd. simpl. rewrite app_nil_r.
      unfold limited. simpl. rewrite Hd. done. }
  destruct (script_zset key (w_now w) (w_now w - window) limit (window * 2) m d (w_now w)) as [Hz' Hr].
  fold f in Hz', Hr. specialize (Hz d eq_refl).
  set (z := filter _ _) in *. set (b := Z.of_nat (size z) <? limit) in *.
  pose proof (young_kept key window past w d m random b Hmem Hz eq_refl) as Hkept. cbn zeta in Hkept. fold z in Hkept.
  assert (∀ l lg, limited key limit window past (World (<[0%nat:=(f d (w_now w)).1]> (w_nodes w)) (w_now w) l lg)) as Hold.
  { intros l lg. split_and!; [done|done|]. simpl. intros d' Hd' m' s Hin Hs.
    rewrite list_lookup_insert_eq in Hd' by (by eapply lookup_lt_Some). simplify_eq. rewrite Hz'. by apply Hkept. }
  destruct (node_cmd_cases 0 f w d Hd) as (fl & l & _ & ->). destruct fl; simpl; rewrite ?app_nil_r.
  - rewrite Hr. destruct b eqn:Hb; simpl; [|rewrite app_nil_r; apply Hold]. apply Z.ltb_lt in Hb.
    split_and!; simpl.
    + intros m' s [Hin|[=-> ->]%list_elem_of_singleton]%elem_of_app; [by apply Hmem|]. split; [lia|by exists random].
    + apply limit_cons; [intros m' s Hin; apply (Hmem _ _ Hin)|done|].
      assert (size ({[m]} ∪ in_window window (w_now w) past) ≤ size (<[m:=w_now w]> z))%nat.
      { rewrite <-size_dom. apply subseteq_size. rewrite dom_insert_L. apply union_mono_l.
        intros m' (s & Hin & Hs)%elem_of_in_window. apply elem_of_dom. exists s. apply lookup_trim; [|lia].
        apply Hz; [done|lia]. }
      pose proof (map_size_insert m (w_now w) z). destruct (z !! m); simpl in *; lia.
    + intros d' Hd' m' s Hin Hs. rewrite list_lookup_insert_eq in Hd' by (by eapply lookup_lt_Some). simplify_eq.
      rewrite Hz'. apply elem_of_app in Hin as [Hin|[=-> ->]%list_elem_of_singleton]; [by apply Hkept|].
      by rewrite lookup_insert_eq.
  - split_and!; [done|done|]. simpl. rewrite Hd. intros d' [= <-]. by apply Hz.
  - apply Hold.
Qed.

Lemma limited_requests key limit window rs past :
  hoare (limited key limit window past) (requests key limit window rs)
    (λ log w, limited key limit window (past ++ log) w).
Proof.
  revert past. induction rs as [|[wait random] rs IH]; intros past; simpl.
  { apply hoare_ret. intros w. by rewrite app_nil_r. }
  eapply hoare_bind; [apply limited_advance|]. intros ?.
  intros w Hw. pose proof (limited_check key limit window past random w Hw) as Hc.
  unfold mbind, St_bind in *. unfold now_ms in *.
  destruct (check_sliding_window key limit window random w) as [[[b c] e] w']. simpl in *.
  specialize (IH _ w' Hc). destruct (requests key limit window rs w') as [log w'']. simpl in *.
  destruct b; rewrite <-app_assoc in IH; simpl in IH; done.
Qed.

(** C33: the rate limit.  Whatever the key holds at the start, whenever the
    requests arrive, with any random members and on any network, no window of
    [window] milliseconds lets more than [limit] distinct requests through. *)
Theorem window_never_exceeds_limit key limit window rs (w : world D) t :
  0 ≤ limit →
  Z.of_nat (size (in_window window t (requests key limit window rs w).1)) ≤ limit.
Proof.
  intros Hl. destruct (limited_requests key limit window rs [] w) as (_ & H & _); [|apply (H t)].
  split_and!; [by intros m s ?%not_elem_of_nil| |by intros d _ m s ?%not_elem_of_nil].
  intros t'. replace (in_window window t' []) with (∅ : gset string) by done. by rewrite size_empty.
Qed.
End window_limit.

(** Limit 2 in 1000 ms: five requests in 1.2 s, with a lost reply. *)
Definition burst : list (N * Z) := [(0%N, 1); (100%N, 2); (100%N, 3); (900%N, 4); (100%N, 5)].

Lemma window_never_exceeds_limit_witness :
  (requests "rl:user:1" 2 1000 burst (mem_world 1 50000)).1 =
    [(request_member 50000 1, 50000); (request_member 50100 2, 50100); (request_member 51100 4, 51100);
     (request_member 51200 5, 51200)] ∧
  Z.of_nat (size (in_window 1000 51200 (requests "rl:user:1" 2 1000 burst (mem_world 1 50000)).1)) ≤ 2.
Proof.
  split; [vm_compute; reflexivity|].
  apply (window_never_exceeds_limit "rl:user:1" 2 1000 burst (mem_world 1 50000) 51200). lia.
Defined.
