(* ===== verification/HttpCache.v ===== *)
(** * HttpCache: the response cache of the HTTP server
    ([apps/http-server/src/services/cache.rs])

    Values are JSON texts under keys with an expiry in seconds.  The asynchronous
    functions try four times with growing pauses; the synchronous ones try once.  The
    connection manager is a connection to server 0. *)

From S2P Require Import Prelude Keys Redis RedisMem SeatLock.

Section cache.
Context {D : Type} `{!RedisServer D} {HJ : JsonText}.
Abbreviation M := (St (world D)).

(** [SETEX key ttl raw]. *)
Definition cmd_setex (key raw : string) (ttl_secs : Z) (d : D) (t : Z) : D * option unit :=
  if r_px_ok (ttl_secs * 1000) then (r_set_px d t key raw (ttl_secs * 1000), Some tt) else (d, None).

(** One connection and one command. *)
Definition get_cached {T} (de : json → option T) (key : string) : M (option T) :=
  conn ← pool_get 0;
  if negb conn then mret None
  else
    raw ← node_cmd 0 (cmd_get key);
    mret (raw ← default None raw; j ← json_parse raw; de j).

Definition set_cached (key : string) (value : json) (ttl_secs : Z) : M bool :=
  conn ← pool_get 0;
  if negb conn then mret false
  else r ← node_cmd 0 (cmd_setex key (json_print value) ttl_secs); mret (bool_decide (r = Some tt)).

Definition invalidate (key : string) : M unit :=
  conn ← pool_get 0; when conn (node_cmd 0 (cmd_del key) ;; mret tt).

(** The loops: a pause after each failure, and no attempt after the last pause but one. *)
Definition retry_pauses : list N := [50; 100; 200]%N.

Fixpoint get_loop (key : string) (pauses : list N) : M (option string) :=
  cached_res ← node_cmd 0 (cmd_get key);
  match cached_res with
  | Some raw => mret raw
  | None =>
      match pauses with
      | [] => mret None
      | ms :: pauses => (advance ms : M unit) ;; get_loop key pauses
      end
  end.

Fixpoint unit_loop (cmd : D → Z → D * option unit) (pauses : list N) : M unit :=
  res ← node_cmd 0 cmd;
  match res with
  | Some _ => mret tt
  | None =>
      match pauses with
      | [] => mret tt
      | ms :: pauses => (advance ms : M unit) ;; unit_loop cmd pauses
      end
  end.

Definition get_async_cached {T} (de : json → option T) (key : string) : M (option T) :=
  raw ← get_loop key retry_pauses; mret (raw ← raw; j ← json_parse raw; de j).
Definition set_async_cached (key : string) (value : json) (ttl_secs : Z) : M unit :=
  unit_loop (cmd_setex key (json_print value) ttl_secs) retry_pauses.
Definition invalidate_async (key : string) : M unit := unit_loop (cmd_del key) retry_pauses.
End cache.

(** ** What a reader sees *)

Section cache_laws.
Context {D : Type} `{!RedisServer D} `{!RedisLaws D} {HJ : JsonText}.
Implicit Types (w : world D) (fl : list fault).

(** The attempts that fail before the first that works. *)
Fixpoint failures (fl : list fault) : nat :=
  match fl with [] | FOk :: _ => O | _ :: fl => S (failures fl) end.

(** What holds after any execution of a command, and as time passes, holds after the
    loop, unless every attempt fails. *)
Lemma unit_loop_effect (cmd : D → Z → D * option unit) (P : D → Z → Prop) pauses w d :
  w_nodes w !! 0%nat = Some d →
  (∀ d t, (cmd d t).2 = Some tt) → (∀ d t, P (cmd d t).1 t) →
  (failures (w_faults w) ≤ length pauses)%nat →
  ∃ d', w_nodes (unit_loop cmd pauses w).2 !! 0%nat = Some d' ∧ P d' (w_now (unit_loop cmd pauses w).2).
Proof.
  intros Hd Hok HP.
  assert (∀ (ns : list D) t d0, ns !! 0%nat = Some d0 → ∃ d', <[0%nat:=(cmd d0 t).1]> ns !! 0%nat = Some d' ∧ P d' t) as Hdone.
  { intros ns t d0 H0. exists (cmd d0 t).1. split; [|apply HP].
    apply list_lookup_insert_eq. by eapply lookup_lt_Some. }
  revert w d Hd. induction pauses as [|ms pauses IH]; intros [ns t fl lg] d Hd Hf; simpl in *;
    unfold mbind, St_bind, node_cmd, draw; destruct fl as [|[| |] fl]; simpl in *; try lia; rewrite Hd, ?Hok; simpl; try (by apply Hdone).
  - unfold advance. apply (IH (World ns _ fl lg) d Hd). simpl. lia.
  - unfold advance. refine (IH (World _ _ fl lg) _ _ _); simpl; [|lia].
    apply list_lookup_insert_eq. by eapply lookup_lt_Some.
Qed.

Lemma get_loop_value key pauses v w d :
  w_nodes w !! 0%nat = Some d →
  (∀ t, w_now w ≤ t → t ≤ w_now w + Z.of_N (foldr N.add 0%N pauses) → r_get d t key = v) →
  (failures (w_faults w) ≤ length pauses)%nat →
  (get_loop key pauses w).1 = v.
Proof.
  revert w. induction pauses as [|ms pauses IH]; intros [ns t fl lg] Hd Hv Hf; simpl in *;
    unfold mbind, St_bind, node_cmd, draw; destruct fl as [|[| |] fl]; simpl in *; try lia; rewrite Hd; simpl;
    try (apply Hv; lia); unfold advance; apply IH; simpl; try lia; try done; try (intros t' H1 H2; apply Hv; lia).
  apply list_lookup_insert_eq. by eapply lookup_lt_Some.
Qed.

Lemma get_async_value key v w d :
  w_nodes w !! 0%nat = Some d → (∀ t, w_now w ≤ t → t ≤ w_now w + 350 → r_get d t key = v) →
  (failures (w_faults w) ≤ 3)%nat →
  (get_async_cached Some key w).1 = (raw ← v; json_parse raw).
Proof.
  intros Hd Hv Hf. unfold get_async_cached. unfold mbind at 1, St_bind.
  pose proof (get_loop_value key retry_pauses v w d Hd Hv Hf) as H.
  destruct (get_loop key retry_pauses w) as [raw w']. simpl in *. subst raw. destruct v as [v|]; [|done]. simpl.
  by destruct (json_parse v).
Qed.

(** The cache is as fresh as the retries.  If at most three interactions in a row
    fail, [set_async_cached] leaves a value that a reader gets for as long as its TTL
    allows, and [invalidate_async] leaves none; a reader whose own attempts fail at most
    three times in a row gets the same answer. *)
Theorem cache_write_is_read key j ttl w d delay reader_faults :
  w_nodes w !! 0%nat = Some d → json_ok j = true → 0 < ttl * 1000 ≤ 2 ^ 42 →
  (failures (w_faults w) ≤ 3)%nat → (failures reader_faults ≤ 3)%nat →
  let read (w : world D) :=
    (get_async_cached Some key (World (w_nodes w) (w_now w + Z.of_N delay) reader_faults (w_log w))).1 in
  (350 + Z.of_N delay < ttl * 1000 → read (set_async_cached key j ttl w).2 = Some j) ∧
  read (invalidate_async key w).2 = None.
Proof.
  intros Hd Hj Httl Hf Hr read. subst read. split.
  - intros Ht.
    destruct (unit_loop_effect (cmd_setex key (json_print j) ttl)
      (λ d t, ∀ t', t ≤ t' → t' < t + ttl * 1000 → r_get d t' key = Some (json_print j)) retry_pauses w d Hd) as (d' & Hd' & HP).
    + intros d0 t. unfold cmd_setex. by rewrite px_ok_range.
    + intros d0 t t' H1 H2. unfold cmd_setex. rewrite px_ok_range by done. simpl.
      rewrite get_set_px, decide_True by done. by rewrite (proj2 (Z.ltb_lt _ _)) by lia.
    + exact Hf.
    + cbv zeta. erewrite (get_async_value key (Some (json_print j))); [simpl; by rewrite json_parse_print|exact Hd'| |exact Hr].
      intros t H1 H2. change (unit_loop _ _ w) with (set_async_cached key j ttl w) in HP. simpl in *. apply HP; lia.
  - destruct (unit_loop_effect (cmd_del key) (λ d _, ∀ t', r_get d t' key = None) retry_pauses w d Hd) as (d' & Hd' & HP).
    + done.
    + intros d0 t t'. simpl. by rewrite get_del, decide_True.
    + exact Hf.
    + cbv zeta. by erewrite (get_async_value key None); [|exact Hd'|intros t _ _; apply HP|exact Hr].
Qed.
End cache_laws.

(** A writer that fails three times, a reader that fails once a second later. *)
Definition lossy_world : world mem_redis := World [mem_empty] 1000 [FDown; FReplyLost; FDown] [].

Lemma cache_write_is_read_witness :
  (350 + Z.of_N 1000 < TTL_SCHEDULE_SEAT_COUNTS * 1000 →
     (get_async_cached (HJ := mem_json) Some "k" (World (w_nodes (set_async_cached "k" (JNum 7) TTL_SCHEDULE_SEAT_COUNTS lossy_world).2)
       (w_now (set_async_cached (HJ := mem_json) "k" (JNum 7) TTL_SCHEDULE_SEAT_COUNTS lossy_world).2 + Z.of_N 1000) [FDown]
       (w_log (set_async_cached (HJ := mem_json) "k" (JNum 7) TTL_SCHEDULE_SEAT_COUNTS lossy_world).2))).1 = Some (JNum 7)) ∧
  (get_async_cached (HJ := mem_json) Some "k" (World (w_nodes (invalidate_async "k" lossy_world).2)
       (w_now (invalidate_async "k" lossy_world).2 + Z.of_N 1000) [FDown] (w_log (invalidate_async "k" lossy_world).2))).1 = None.
Proof.
  assert (w_nodes lossy_world !! 0%nat = Some mem_empty) as Hd by reflexivity.
  assert (0 < TTL_SCHEDULE_SEAT_COUNTS * 1000 ≤ 2 ^ 42) as Ht by (vm_compute; split; [reflexivity|discriminate]).
  assert (failures (w_faults lossy_world) ≤ 3)%nat as Hf by (vm_compute; lia).
  assert (failures [FDown] ≤ 3)%nat as Hr by (vm_compute; lia).
  pose proof (cache_write_is_read (HJ := mem_json) "k" (JNum 7) TTL_SCHEDULE_SEAT_COUNTS lossy_world mem_empty 1000 [FDown]
    Hd eq_refl Ht Hf Hr) as H.
  exact H.
Defined.
