(* ===== verification/CircuitBreaker.v ===== *)
(** * CircuitBreaker: the breaker the gateway keeps in Redis
    ([apps/gateway-keeper/src/circuit_breaker.rs])

    The breaker of a service is three keys: its state, the failure counter and the end
    of the open period.  The theorems show that, as long as Redis answers, the three
    operations implement the state machine [breaker] when each runs as one piece;
    [GatewayProxyProps] has what they guarantee when others run in between. *)

From S2P Require Import Prelude Text Keys Redis RedisMem SeatLock.

Record RedisCircuitBreaker := {
  failure_threshold : Z;      (* u32 *)
  open_ttl_secs : Z           (* i64 *)
}.

Definition cb_state_key (service : string) : string := ("cb:" +:+ service +:+ ":state")%string.
Definition cb_failures_key (service : string) : string := ("cb:" +:+ service +:+ ":failures")%string.
Definition cb_until_key (service : string) : string := ("cb:" +:+ service +:+ ":open_until")%string.

(** One command for Redis or one look at the clock, in the monad of the caller: at once, or as
    a step of a program that others run between. *)
Class Actions (W : Type) (M : Type → Type) := act : ∀ {A : Type}, St W A → M A.
#[export] Instance at_once W : Actions W (St W) := λ A m, m.

Section commands.
Context {D : Type} `{!RedisServer D}.

(** [GET k] read as an [Option<i64>]: another text is an error. *)
Definition cmd_get_i64 (k : string) (d : D) (t : Z) : D * option (option Z) :=
  (d, match r_get d t k with
      | None => Some None
      | Some s =>
          match parse_Z s with
          | Some n => if (- 2 ^ 63 <=? n) && (n <? 2 ^ 63) then Some (Some n) else None
          | None => None
          end
      end).

(** [INCR k] read as a [u32]. *)
Definition cmd_incr_u32 (k : string) (d : D) (t : Z) : D * option Z :=
  let '(d', r) := r_incrby d t k 1 in
  (d', match r with Some n => if (0 <=? n) && (n <? 2 ^ 32) then Some n else None | None => None end).
End commands.

Section circuit_breaker.
Context {D : Type} `{!RedisServer D} {M : Type → Type} `{!MRet M, !MBind M, !Actions (world D) M}.

(** [GET state], an error or a missing key reading as CLOSED. *)
Definition cb_read_state (service : string) : M string :=
  current_state ← act (node_cmd 0 (cmd_get (cb_state_key service)));
  mret (default "CLOSED"%string (default None current_state)).

Definition allow_request (service : string) : M bool :=
  cli ← act (pool_get 0);
  if (cli : bool) then
    state_str ← cb_read_state service;
    if bool_decide (state_str = "OPEN"%string) then
      open_until ← act (node_cmd 0 (cmd_get_i64 (cb_until_key service)));
      let open_until := default 0 (default (Some 0) open_until) in
      now ← act now_secs;
      if now <? open_until then mret false
      else act (node_cmd 0 (cmd_set (cb_state_key service) "HALF_OPEN")) ;; mret true
    else mret true
  else mret true.

Definition record_success (service : string) : M unit :=
  cli ← act (pool_get 0);
  if (cli : bool) then
    cb_read_state service ;;
    act (node_cmd 0 (cmd_del (cb_failures_key service))) ;;
    act (node_cmd 0 (cmd_set (cb_state_key service) "CLOSED")) ;; mret tt
  else mret tt.

Definition record_failure (cb : RedisCircuitBreaker) (service : string) : M unit :=
  cli ← act (pool_get 0);
  if (cli : bool) then
    state_str ← cb_read_state service;
    failures ← act (node_cmd 0 (cmd_incr_u32 (cb_failures_key service)));
    let failures := default 1 failures in
    if (failure_threshold cb <=? failures) || bool_decide (state_str = "HALF_OPEN"%string) then
      now ← act now_secs;
      let open_until := now + open_ttl_secs cb in
      act (node_cmd 0 (cmd_set (cb_state_key service) "OPEN")) ;;
      act (node_cmd 0 (cmd_set (cb_until_key service) (show_Z open_until))) ;; mret tt
    else mret tt
  else mret tt.
End circuit_breaker.

Section cb_run.
Context {D : Type} `{!RedisServer D}.
Abbreviation M := (St (world D)).

(** Calls around a service, and the passing of time. *)
Inductive cb_op := CbAllow | CbSuccess | CbFailure | CbTick (ms : N).

Definition cb_run_op (cb : RedisCircuitBreaker) (service : string) (o : cb_op) : M bool :=
  match o with
  | CbAllow => allow_request service
  | CbSuccess => record_success service ;; mret true
  | CbFailure => record_failure cb service ;; mret true
  | CbTick ms => advance ms ;; mret true
  end.
Fixpoint cb_run (cb : RedisCircuitBreaker) (service : string) (os : list cb_op) : M (list bool) :=
  match os with
  | [] => mret []
  | o :: os => r ← cb_run_op cb service o; rs ← cb_run cb service os; mret (r :: rs)
  end.
End cb_run.

(** ** The state machine *)

Inductive cb_state := Closed | Open | HalfOpen.
Record breaker := Breaker { b_state : cb_state; b_failures : Z; b_until : Z }.

Definition step (cb : RedisCircuitBreaker) (now : Z) (o : cb_op) (b : breaker) : bool * breaker :=
  match o with
  | CbAllow =>
      match b_state b with
      | Open =>
          if now / 1000 <? b_until b then (false, b)
          else (true, Breaker HalfOpen (b_failures b) (b_until b))
      | _ => (true, b)
      end
  | CbSuccess => (true, Breaker Closed 0 (b_until b))
  | CbFailure =>
      let n := b_failures b + 1 in
      match b_state b with
      | HalfOpen => (true, Breaker Open n (now / 1000 + open_ttl_secs cb))
      | s => if failure_threshold cb <=? n then (true, Breaker Open n (now / 1000 + open_ttl_secs cb))
             else (true, Breaker s n (b_until b))
      end
  | CbTick _ => (true, b)
  end.

Fixpoint steps (cb : RedisCircuitBreaker) (now : Z) (os : list cb_op) (b : breaker) : list bool * breaker :=
  match os with
  | [] => ([], b)
  | o :: os =>
      let '(r, b) := step cb now o b in
      let '(rs, b) := steps cb (match o with CbTick ms => now + Z.of_N ms | _ => now end) os b in
      (r :: rs, b)
  end.

Section refine.
Context {D : Type} `{!RedisServer D} `{!RedisLaws D}.
Implicit Types (b : breaker) (d : D).
Abbreviation M := (St (world D)).

Definition state_text (s : cb_state) : string :=
  match s with Closed => "CLOSED" | Open => "OPEN" | HalfOpen => "HALF_OPEN" end.

(** From [now] on the key reads [text], or is missing where the value is the
    default. *)
Definition reads (k text : string) (is_default : Prop) d (now : Z) : Prop :=
  (∀ t, now ≤ t → r_get d t k = Some text) ∨ (∀ t, now ≤ t → r_get d t k = None) ∧ is_default.

(** The keys of the service hold the breaker, from [now] on. *)
Definition holds (service : string) b d (now : Z) : Prop :=
  reads (cb_state_key service) (state_text (b_state b)) (b_state b = Closed) d now ∧
  reads (cb_failures_key service) (show_Z (b_failures b)) (b_failures b = 0) d now ∧
  reads (cb_until_key service) (show_Z (b_until b)) (b_until b = 0) d now.

(** The calls stay within the machine integers: the counter is a [u32], the time an
    [i64]. *)
Fixpoint ticks (os : list cb_op) : Z :=
  match os with [] => 0 | CbTick ms :: os => Z.of_N ms + ticks os | _ :: os => ticks os end.
Definition in_bounds (cb : RedisCircuitBreaker) (os : list cb_op) (now : Z) (b : breaker) : Prop :=
  0 ≤ b_failures b ∧ b_failures b + Z.of_nat (length os) < 2 ^ 32 ∧ - 2 ^ 63 ≤ b_until b < 2 ^ 63 ∧
  0 ≤ now ∧ now + ticks os < 2 ^ 62 ∧ 0 ≤ open_ttl_secs cb < 2 ^ 62.

(** A world without faults whose first server holds the breaker. *)
Definition cb_world (service : string) b (now : Z) (w : world D) : Prop :=
  ∃ d ns lg, w = World (d :: ns) now [] lg ∧ holds service b d now.
Lemma string_app_ne (s a a' : string) : a ≠ a' → (s +:+ a ≠ s +:+ a')%string.
Proof. intros H E. by apply string_app_inj_l in E. Qed.
Lemma cb_keys_differ service :
  cb_state_key service ≠ cb_failures_key service ∧ cb_state_key service ≠ cb_until_key service ∧
  cb_failures_key service ≠ cb_until_key service.
Proof. split_and!; do 2 apply string_app_ne; discriminate. Qed.

Lemma reads_later k text P d now now' : now ≤ now' → reads k text P d now → reads k text P d now'.
Proof. intros Hn [H|[H ?]]; [left|right; split; [|done]]; intros t Ht; apply H; lia. Qed.

Lemma holds_later service b d now now' : now ≤ now' → holds service b d now → holds service b d now'.
Proof. intros Hn (?&?&?). split_and!; by eapply reads_later. Qed.

Lemma reads_set k text P d now : reads k text P (r_set d k text) now.
Proof. left. intros t _. by rewrite get_set, decide_True. Qed.
Lemma reads_set_ne k k' v text P d now : k' ≠ k → reads k text P d now → reads k text P (r_set d k' v) now.
Proof. intros Hk [H|[H ?]]; [left|right; split; [|done]]; intros t Ht; rewrite get_set, decide_False; auto. Qed.
Lemma reads_del k text P d now : P → reads k text P (r_del d k) now.
Proof. intros HP. right. split; [|done]. intros t _. by rewrite get_del, decide_True. Qed.
Lemma reads_del_ne k k' text P d now : k' ≠ k → reads k text P d now → reads k text P (r_del d k') now.
Proof. intros Hk [H|[H ?]]; [left|right; split; [|done]]; intros t Ht; rewrite get_del, decide_False; auto. Qed.
Lemma reads_incr_ne k k' text P d now t : k' ≠ k → reads k text P d now → reads k text P (r_incrby d t k' 1).1 now.
Proof. intros Hk [H|[H ?]]; [left|right; split; [|done]]; intros t' Ht; rewrite get_incrby_ne; auto. Qed.

Lemma reads_incr k n P d now :
  - 2 ^ 62 ≤ n < 2 ^ 62 → reads k (show_Z n) (n = 0) d now →
  reads k (show_Z (n + 1)) P (r_incrby d now k 1).1 now ∧ (r_incrby d now k 1).2 = Some (n + 1).
Proof.
  intros Hn H.
  assert (match r_get d now k with Some s => parse_Z s = Some n | None => n = 0 end) as Hg.
  { destruct H as [H|[H ->]]; rewrite H by lia; [apply parse_show_Z|done]. }
  split; [|by apply incrby_result; [|lia]]. left. intros t Ht.
  rewrite (get_incrby d now k n 1 t k) by (done || lia). rewrite decide_True by done.
  by destruct H as [H|[H ->]]; rewrite !H by lia.
Qed.

Lemma node_cmd_first {R} (f : D → Z → D * option R) d ns now lg :
  node_cmd 0 f (World (d :: ns) now [] lg) = ((f d now).2, World ((f d now).1 :: ns) now [] lg).
Proof. done. Qed.

Lemma read_state_ok service b d ns now lg :
  holds service b d now →
  cb_read_state service (World (d :: ns) now [] lg) = (state_text (b_state b), World (d :: ns) now [] lg).
Proof.
  intros ([H|[H Hb]] & _). 
  all: unfold cb_read_state, act, at_once, mbind, St_bind; rewrite (node_cmd_ok _ _ _ _ _ d) by done; simpl; rewrite H by lia.
  - done.
  - by rewrite Hb.
Qed.

Lemma read_until_ok service b d ns now lg :
  holds service b d now → - 2 ^ 63 ≤ b_until b < 2 ^ 63 →
  ∃ r, node_cmd 0 (cmd_get_i64 (cb_until_key service)) (World (d :: ns) now [] lg) = (r, World (d :: ns) now [] lg) ∧
    default 0 (default (Some 0) r) = b_until b.
Proof.
  intros (_ & _ & H) Hb. rewrite (node_cmd_ok _ _ _ _ _ d) by done. simpl. eexists. split; [done|].
  destruct H as [H|[H ->]]; rewrite H by lia; [|done]. rewrite parse_show_Z.
  rewrite (proj2 (Z.leb_le _ _)), (proj2 (Z.ltb_lt _ _)) by lia. done.
Qed.

#[local] Opaque node_cmd.
(** [cmd_ok]: run the next command on the first server. *)
Ltac cmd_ok := rewrite node_cmd_first; simpl.
Ltac keys_differ service := destruct (cb_keys_differ service) as (? & ? & ?).
Ltac solve_reads :=
  repeat first
    [ apply reads_set | apply reads_set_ne; [by auto|] | apply reads_del; reflexivity
    | apply reads_del_ne; [by auto|] | apply reads_incr_ne; [by auto|] | assumption ].

Lemma allow_ok service cb b now :
  - 2 ^ 63 ≤ b_until b < 2 ^ 63 →
  hoare (cb_world service b now) (allow_request service)
    (λ r w, r = (step cb now CbAllow b).1 ∧ cb_world service (step cb now CbAllow b).2 now w).
Proof.
  intros Hb w (d & ns & lg & -> & Hh). keys_differ service.
  unfold allow_request, act, at_once, mbind, St_bind. rewrite pool_get_ok, (read_state_ok service b) by done. unfold step.
  destruct (b_state b) eqn:Hs; simpl; try (split; [done|]; exists d, ns, lg; split; [done|done]).
  destruct (read_until_ok service b d ns now lg Hh Hb) as (r & -> & ->). simpl.
  destruct (_ <? _); simpl; [split; [done|]; exists d, ns, lg; done|]. cmd_ok. split; [done|].
  eexists _, ns, lg. split; [reflexivity|]. destruct Hh as (?&?&?). split_and!; simpl; solve_reads.
Qed.

Lemma success_ok service cb b now :
  hoare (cb_world service b now) (record_success service)
    (λ _ w, cb_world service (step cb now CbSuccess b).2 now w).
Proof.
  intros w (d & ns & lg & -> & Hh). keys_differ service.
  unfold record_success, act, at_once, mbind, St_bind. rewrite pool_get_ok. rewrite (read_state_ok service b) by done.
  cmd_ok. cmd_ok. eexists _, ns, lg. split; [reflexivity|]. destruct Hh as (?&?&?).
  split_and!; simpl; solve_reads.
Qed.

Lemma failure_ok service cb b now :
  0 ≤ b_failures b → b_failures b + 1 < 2 ^ 32 →
  hoare (cb_world service b now) (record_failure cb service)
    (λ _ w, cb_world service (step cb now CbFailure b).2 now w).
Proof.
  intros Hn0 Hn w (d & ns & lg & -> & Hh). keys_differ service.
  unfold record_failure, act, at_once, mbind, St_bind. rewrite pool_get_ok. rewrite (read_state_ok service b) by done.
  destruct (Hh) as (Hst & Hf & Hu).
  destruct (reads_incr (cb_failures_key service) (b_failures b) (b_failures b + 1 = 0) d now) as [Hi Hr]; [lia|done|].
  cmd_ok. unfold cmd_incr_u32.
  destruct (r_incrby d now (cb_failures_key service) 1) as [d' r] eqn:Ed. simpl in *. subst r.
  assert (reads (cb_state_key service) (state_text (b_state b)) (b_state b = Closed) d' now) as Hst'.
  { replace d' with (r_incrby d now (cb_failures_key service) 1).1 by (by rewrite Ed). solve_reads. }
  assert (reads (cb_until_key service) (show_Z (b_until b)) (b_until b = 0) d' now) as Hu'.
  { replace d' with (r_incrby d now (cb_failures_key service) 1).1 by (by rewrite Ed). solve_reads. }
  rewrite (proj2 (Z.leb_le 0 _)), (proj2 (Z.ltb_lt _ (2 ^ 32))) by lia. simpl.
  destruct (b_state b) eqn:Hs; simpl; rewrite ?orb_false_r, ?orb_true_r;
    try (destruct (failure_threshold cb <=? b_failures b + 1)); simpl; repeat cmd_ok;
    (eexists _, ns, lg; split; [reflexivity|]; split_and!; simpl; solve_reads).
Qed.

Lemma tick_ok service b now ms :
  hoare (cb_world service b now) (advance ms) (λ _ w, cb_world service b (now + Z.of_N ms) w).
Proof.
  intros w (d & ns & lg & -> & Hh). exists d, ns, lg. split; [done|]. eapply holds_later; [|done]. lia.
Qed.

Definition after (o : cb_op) (now : Z) : Z := match o with CbTick ms => now + Z.of_N ms | _ => now end.

Lemma run_op_ok service cb o os b now :
  in_bounds cb (o :: os) now b →
  hoare (cb_world service b now) (cb_run_op cb service o)
    (λ r w, r = (step cb now o b).1 ∧ cb_world service (step cb now o b).2 (after o now) w).
Proof.
  intros (H1 & H2 & H3 & H4 & H5 & H6). simpl length in H2. rewrite Nat2Z.inj_succ in H2.
  destruct o; simpl cb_run_op; simpl after.
  - by apply allow_ok.
  - eapply hoare_bind; [apply (success_ok service cb)|]. intros ?. by apply hoare_ret.
  - eapply hoare_bind; [apply (failure_ok service cb b now); lia|]. intros ?. apply hoare_ret. intros w Hw.
    split; [|done]. unfold step. by destruct (b_state b), (failure_threshold cb <=? b_failures b + 1).
  - eapply hoare_bind; [apply tick_ok|]. intros ?. by apply hoare_ret.
Qed.

Lemma in_bounds_step cb o os b now :
  in_bounds cb (o :: os) now b → in_bounds cb os (after o now) (step cb now o b).2.
Proof.
  intros (H1 & H2 & H3 & H4 & H5 & H6). simpl length in H2. rewrite Nat2Z.inj_succ in H2.
  assert (0 ≤ ticks os) as Ht.
  { clear. induction os as [|[] os IH]; simpl; lia. }
  pose proof (Z.div_pos now 1000 H4 ltac:(lia)). pose proof (Z.div_le_upper_bound now 1000 now ltac:(lia) ltac:(lia)).
  destruct o; unfold step; simpl in *; try (destruct (b_state b)); repeat case_match; simplify_eq/=;
    split_and!; simpl; lia.
Qed.

Lemma cb_run_ok service cb os b now (w : world D) :
  cb_world service b now w → in_bounds cb os now b →
  (cb_run cb service os w).1 = (steps cb now os b).1 ∧
  cb_world service (steps cb now os b).2 (now + ticks os) (cb_run cb service os w).2.
Proof.
  revert b now w. induction os as [|o os IH]; intros b now w Hw Hb; simpl.
  { split; [done|]. by rewrite Z.add_0_r. }
  pose proof (in_bounds_step _ _ _ _ _ Hb) as Hb'.
  destruct (run_op_ok service cb o os b now Hb w Hw) as [Hr Hw'].
  unfold mbind, St_bind. destruct (cb_run_op cb service o w) as [r w']. simpl in Hr, Hw'. subst r.
  destruct (step cb now o b) as [r b'] eqn:E. simpl in *.
  assert ((match o with CbTick ms => now + Z.of_N ms | _ => now end) = after o now) as -> by done.
  destruct (IH b' (after o now) w' Hw' Hb') as [Hrs Hw''].
  destruct (cb_run cb service os w') as [rs w'']. destruct (steps cb (after o now) os b') as [rs' b''].
  simpl in *. subst rs'. split; [done|].
  replace (now + match o with CbTick ms => Z.of_N ms + ticks os | _ => ticks os end)
    with (after o now + ticks os) by (destruct o; simpl; lia). done.
Qed.

(** The breaker in Redis is the state machine.  While Redis answers, every
    sequence of [allow_request], [record_success] and [record_failure] calls gets the
    answers of [steps], and the three keys keep describing its state. *)
Theorem circuit_breaker_refines service cb os b now (w : world D) :
  cb_world service b now w → in_bounds cb os now b →
  (cb_run cb service os w).1 = (steps cb now os b).1 ∧
  cb_world service (steps cb now os b).2 (now + ticks os) (cb_run cb service os w).2.
Proof. apply cb_run_ok. Qed.

Lemma run_allow service cb b now n (w : world D) :
  cb_world service b now w → - 2 ^ 63 ≤ b_until b < 2 ^ 63 → b_state b = HalfOpen →
  (cb_run cb service (replicate n CbAllow) w).1 = replicate n true.
Proof.
  revert w. induction n as [|n IH]; intros w Hw Hb Hs; simpl; [done|].
  destruct (allow_ok service cb b now Hb w Hw) as [Hr Hw']. unfold step in Hr, Hw'. rewrite Hs in Hr, Hw'.
  unfold mbind, St_bind. destruct (allow_request (M := M) service w) as [r w']. simpl in Hr, Hw'. subst r.
  specialize (IH w' Hw' Hb Hs). destruct (cb_run cb service (replicate n CbAllow) w') as [rs w'']. simpl in *. by subst.
Qed.

(** The half-open breaker is no single probe: once the open period is over,
    any number of requests passes before the first of them has reported back. *)
Theorem half_open_admits_every_request service cb n b now (w : world D) :
  cb_world service b now w → - 2 ^ 63 ≤ b_until b < 2 ^ 63 → b_state b = Open → b_until b ≤ now / 1000 →
  (cb_run cb service (replicate n CbAllow) w).1 = replicate n true.
Proof.
  destruct n as [|n]; [done|]. intros Hw Hb Hs Ht. simpl.
  destruct (allow_ok service cb b now Hb w Hw) as [Hr Hw']. unfold step in Hr, Hw'. rewrite Hs in Hr, Hw'.
  rewrite (proj2 (Z.ltb_ge _ _)) in Hr, Hw' by done.
  unfold mbind, St_bind. destruct (allow_request (M := M) service w) as [r w']. simpl in Hr, Hw'. subst r.
  pose proof (run_allow service cb (Breaker HalfOpen (b_failures b) (b_until b)) now n w' Hw' Hb eq_refl) as H.
  destruct (cb_run cb service (replicate n CbAllow) w') as [rs w'']. simpl in *. by subst.
Qed.
End refine.

(** The breaker of the gateway: 3 failures, 30 seconds. *)
Definition gateway_cb : RedisCircuitBreaker := {| failure_threshold := 3; open_ttl_secs := 30 |}.
Definition outage : list cb_op :=
  [CbFailure; CbAllow; CbFailure; CbFailure; CbAllow; CbTick 29000; CbAllow; CbTick 1000; CbAllow; CbFailure; CbAllow;
   CbSuccess; CbAllow].

Lemma fresh_breaker service t : cb_world service (Breaker Closed 0 0) t (mem_world 1 t).
Proof. exists mem_empty, [], []. split; [done|]. split_and!; right; done. Qed.

Lemma circuit_breaker_refines_witness :
  (cb_run gateway_cb "http" outage (mem_world 1 5000)).1 =
    [true; true; true; true; false; true; false; true; true; true; false; true; true].
Proof.
  refine (eq_trans (proj1 (circuit_breaker_refines "http" gateway_cb outage (Breaker Closed 0 0) 5000 (mem_world 1 5000) _ _)) _).
  - apply fresh_breaker.
  - unfold in_bounds. split_and!; by vm_compute.
  - vm_compute. reflexivity.
Defined.

Definition tripped : world mem_redis := (cb_run gateway_cb "http" [CbFailure; CbFailure; CbFailure; CbTick 31000] (mem_world 1 5000)).2.

Lemma half_open_admits_every_request_witness :
  (cb_run gateway_cb "http" (replicate 10 CbAllow) tripped).1 = replicate 10 true.
Proof.
  assert (cb_world "http" (Breaker Open 3 35) 36000 tripped) as Hw.
  { refine (proj2 (cb_run_ok "http" gateway_cb [CbFailure; CbFailure; CbFailure; CbTick 31000] (Breaker Closed 0 0) 5000
      (mem_world 1 5000) (fresh_breaker _ _) _)). unfold in_bounds. split_and!; by vm_compute. }
  apply (half_open_admits_every_request "http" gateway_cb 10 (Breaker Open 3 35) 36000 tripped Hw);
    [split; by vm_compute|reflexivity|by vm_compute].
Defined.
