(* ===== verification/ShowActor.v ===== *)
(** * ShowActor: the in-memory admission state of one show
    ([CachePaddedShowActor] of [apps/gateway-keeper/src/state_active.rs])

    The atomics are read and written in one total order (sequential consistency): a
    method that performs one atomic operation is one step, and the protocol between
    [begin_request] and [try_begin_idle_eviction], which performs several, is a step
    relation over the threads of the gateway. *)

From S2P Require Import Prelude.

Definition STATE_AVAILABLE : Z := 0.
Definition STATE_PROCESSING : Z := 1.
Definition SHOW_QUEUE_CAPACITY : nat := 5.
Definition MAX_SEATS_PER_SHOW : Z := 200000.
Definition ACTOR_IDLE_TTL : Z := 2 * 60 * 60.

Record seat_slot := Slot { slot_seat : Z; slot_state : Z }.

Record show_actor := Actor {
  a_seats : list seat_slot;          (* seat_states *)
  a_indices : gmap Z nat;            (* seat_indices *)
  a_last_access : Z;
  a_in_flight : Z;
  a_closing : bool
}.

Definition set_seats (f : list seat_slot → list seat_slot) (a : show_actor) : show_actor :=
  Actor (f (a_seats a)) (a_indices a) (a_last_access a) (a_in_flight a) (a_closing a).
Definition set_indices (f : gmap Z nat → gmap Z nat) (a : show_actor) : show_actor :=
  Actor (a_seats a) (f (a_indices a)) (a_last_access a) (a_in_flight a) (a_closing a).
Definition set_closing (b : bool) (a : show_actor) : show_actor :=
  Actor (a_seats a) (a_indices a) (a_last_access a) (a_in_flight a) b.

(** [CachePaddedShowActor::new] once the memory is there. *)
Definition new_actor (seat_count : nat) (now : Z) : show_actor :=
  Actor (replicate seat_count (Slot 0 STATE_AVAILABLE)) ∅ now 0 false.

Definition validate_seat_count (seat_count : nat) (a : show_actor) : bool :=
  bool_decide (length (a_seats a) = seat_count).

Inductive seat_error :=
  | NotPositive | OutsideCount | OtherIndex | OtherSeat.

(** [one_based_index.checked_sub(1)], in the range of [usize] and of the slots. *)
Definition slot_index (one_based_index : Z) (a : show_actor) : option nat :=
  i ← i32_checked (one_based_index - 1);
  if (0 <=? i) && (i <? Z.of_nat (length (a_seats a))) then Some (Z.to_nat i) else None.

(** The compare-and-exchange of the slot, and the removal when it fails. *)
Definition claim_slot (seat_id : Z) (index : nat) (a : show_actor) : (nat + seat_error) * show_actor :=
  match a_seats a !! index with
  | None => (inr OutsideCount, a)      (* not reached: the index is in range *)
  | Some slot =>
      if slot_seat slot =? 0 then
        (inl index, set_seats <[index := Slot seat_id (slot_state slot)]> a)
      else if slot_seat slot =? seat_id then (inl index, a)
      else
        (inr OtherSeat,
         set_indices (λ m, if decide (m !! seat_id = Some index) then delete seat_id m else m) a)
  end.

Definition register_seat (seat_id one_based_index : Z) (a : show_actor) : (nat + seat_error) * show_actor :=
  if seat_id <=? 0 then (inr NotPositive, a)
  else
    match slot_index one_based_index a with
    | None => (inr OutsideCount, a)
    | Some index =>
        match a_indices a !! seat_id with
        | Some existing =>
            if bool_decide (existing ≠ index) then (inr OtherIndex, a) else claim_slot seat_id index a
        | None => claim_slot seat_id index (set_indices <[seat_id := index]> a)
        end
    end.

(** The indexing panics out of range; [register_seat] has checked the index. *)
Definition try_admit (index : nat) (a : show_actor) : bool * show_actor :=
  match a_seats a !! index with
  | Some slot =>
      if slot_state slot =? STATE_AVAILABLE
      then (true, set_seats <[index := Slot (slot_seat slot) STATE_PROCESSING]> a)
      else (false, a)
  | None => (false, a)
  end.

Definition clear_seat (seat_id : Z) (a : show_actor) : show_actor :=
  match a_indices a !! seat_id with
  | Some index =>
      set_seats (alter (λ slot, Slot (slot_seat slot) STATE_AVAILABLE) index) a
  | None => a
  end.

(** ** Seat registration *)

(** Seats and slots are paired one to one: a seat is mapped to an index exactly when
    the slot of that index carries the seat. *)
Definition paired (a : show_actor) : Prop :=
  ∀ seat_id index, a_indices a !! seat_id = Some index ↔
    0 < seat_id ∧ slot_seat <$> a_seats a !! index = Some seat_id.

Lemma slot_index_range x a i : slot_index x a = Some i → (i < length (a_seats a))%nat ∧ x = Z.of_nat i + 1.
Proof.
  unfold slot_index, i32_checked. destruct (in_i32 (x - 1)); [|done]. simpl.
  destruct (_ && _) eqn:E; [|done]. apply andb_true_iff in E as [?%Z.leb_le ?%Z.ltb_lt]. intros [= <-]. lia.
Qed.

Lemma claim_slot_same a seat_id index :
  paired a → a_indices a !! seat_id = Some index → claim_slot seat_id index a = (inl index, a).
Proof.
  intros Hp H. apply Hp in H as [Hpos H]. unfold claim_slot.
  destruct (a_seats a !! index) as [slot|]; [|done]. simplify_eq/=.
  rewrite (proj2 (Z.eqb_neq _ _)) by lia. by rewrite Z.eqb_refl.
Qed.

(** The slot of [index] is free, taken by the seat, or taken by another seat. *)
Definition register_result (seat_id : Z) (index : nat) (a : show_actor) : nat + seat_error :=
  match a_indices a !! seat_id with
  | Some existing => if bool_decide (existing = index) then inl index else inr OtherIndex
  | None => if bool_decide (slot_seat <$> a_seats a !! index = Some 0) then inl index else inr OtherSeat
  end.

Lemma register_step seat_id x index a :
  paired a → 0 < seat_id → slot_index x a = Some index →
  register_seat seat_id x a =
    (register_result seat_id index a,
     match a_indices a !! seat_id, register_result seat_id index a with
     | None, inl _ => set_indices <[seat_id := index]> (set_seats (alter (λ s, Slot seat_id (slot_state s)) index) a)
     | _, _ => a
     end).
Proof.
  intros Hp Hpos Hx. pose proof (slot_index_range _ _ _ Hx) as [Hlen _].
  unfold register_seat, register_result. rewrite (proj2 (Z.leb_gt _ _)) by done. rewrite Hx.
  destruct (a_indices a !! seat_id) as [existing|] eqn:E.
  - destruct (decide (existing = index)) as [->|Hne].
    + rewrite bool_decide_false by auto. rewrite bool_decide_true by done. by apply claim_slot_same.
    + rewrite bool_decide_true by done. by rewrite bool_decide_false by done.
  - destruct (lookup_lt_is_Some_2 _ _ Hlen) as [slot Hs]. unfold claim_slot. simpl. rewrite Hs. simpl.
    destruct (decide (slot_seat slot = 0)) as [Hz|Hz].
    + rewrite Hz. simpl. f_equal. unfold set_indices, set_seats. simpl. f_equal.
      symmetry. apply list_eq. intros j. destruct (decide (j = index)) as [->|Hj].
      * rewrite list_lookup_insert_eq by done. rewrite list_lookup_alter_eq, Hs. done.
      * rewrite list_lookup_insert_ne by done. by rewrite list_lookup_alter_ne.
    + rewrite (proj2 (Z.eqb_neq _ _)) by done. rewrite (bool_decide_false (Some (slot_seat slot) = Some 0)) by congruence.
      destruct (slot_seat slot =? seat_id) eqn:Heq.
      * apply Z.eqb_eq in Heq. exfalso. assert (a_indices a !! seat_id = Some index) as Hc; [|congruence].
        apply Hp. split; [done|]. rewrite Hs. simpl. congruence.
      * f_equal. unfold set_indices. simpl. rewrite decide_True by apply lookup_insert_eq.
        rewrite delete_insert_id by done. by destruct a.
Qed.

Lemma paired_new n now : paired (new_actor n now).
Proof.
  intros seat_id index. simpl. rewrite lookup_empty. split; [done|]. intros [Hpos H].
  destruct (replicate n _ !! index) as [s|] eqn:E; [|done]. apply lookup_replicate in E as [-> _]. simplify_eq/=. lia.
Qed.

Lemma paired_register seat_id x a : paired a → paired (register_seat seat_id x a).2.
Proof.
  intros Hp. destruct (decide (0 < seat_id)) as [Hpos|Hpos].
  2:{ unfold register_seat. by rewrite (proj2 (Z.leb_le _ _)) by lia. }
  destruct (slot_index x a) as [index|] eqn:Hx.
  2:{ unfold register_seat. rewrite (proj2 (Z.leb_gt _ _)) by lia. by rewrite Hx. }
  rewrite (register_step seat_id x index a) by done. simpl. unfold register_result.
  destruct (a_indices a !! seat_id) as [existing|] eqn:E; [exact Hp|].
  case_bool_decide as Hz; [|done]. intros id i. simpl. rewrite lookup_insert_Some.
  destruct (decide (i = index)) as [->|Hi].
  - rewrite list_lookup_alter_eq. destruct (a_seats a !! index) as [s|] eqn:Hs; [|done]. simpl in *. split.
    + intros [[-> _]|[Hne H]]; [done|]. apply Hp in H as [Hid H]. rewrite Hs in H. simplify_eq/=. lia.
    + intros [Hid [= ->]]. by left.
  - rewrite list_lookup_alter_ne by done. rewrite <-(Hp id i). split.
    + intros [[-> ->]|[Hne H]]; done.
    + intros H. right. split; [|done]. intros <-. congruence.
Qed.

(** *** Sequences of atomic operations

    Any interleaving of the handlers of a show is a sequence of these. *)
Inductive actor_op :=
  | ARegister (seat_id one_based_index : Z)
  | AAdmit (index : nat)
  | AClear (seat_id : Z).

(** What a run does: the registrations and admissions that succeed, and the slots
    cleared. *)
Inductive actor_event := ERegistered (seat_id : Z) (index : nat) | EAdmitted (index : nat) | ECleared (index : nat).
#[global] Instance actor_event_eq_dec : EqDecision actor_event.
Proof. solve_decision. Defined.

Definition actor_step (o : actor_op) (a : show_actor) : list actor_event * show_actor :=
  match o with
  | ARegister s x =>
      match register_seat s x a with (inl i, a) => ([ERegistered s i], a) | (inr _, a) => ([], a) end
  | AAdmit i => match try_admit i a with (true, a) => ([EAdmitted i], a) | (false, a) => ([], a) end
  | AClear s => (match a_indices a !! s with Some i => [ECleared i] | None => [] end, clear_seat s a)
  end.

Fixpoint actor_run (os : list actor_op) (a : show_actor) : list actor_event * show_actor :=
  match os with
  | [] => ([], a)
  | o :: os => let '(es, a) := actor_step o a in let '(es', a) := actor_run os a in (es ++ es', a)
  end.

Lemma paired_seats_same a a' :
  a_indices a' = a_indices a → (∀ i, slot_seat <$> a_seats a' !! i = slot_seat <$> a_seats a !! i) →
  paired a → paired a'.
Proof. intros Hi Hs Hp id i. rewrite Hi, Hs. apply Hp. Qed.

Lemma admit_seats index a i : slot_seat <$> a_seats (try_admit index a).2 !! i = slot_seat <$> a_seats a !! i.
Proof.
  unfold try_admit. destruct (a_seats a !! index) as [slot|] eqn:E; [|done]. destruct (_ =? _); [|done]. simpl.
  destruct (decide (i = index)) as [->|Hi]; [|by rewrite list_lookup_insert_ne].
  rewrite list_lookup_insert_eq by (by eapply lookup_lt_Some). by rewrite E.
Qed.
Lemma admit_indices index a : a_indices (try_admit index a).2 = a_indices a.
Proof. unfold try_admit. destruct (a_seats a !! index); [|done]. by destruct (_ =? _). Qed.
Lemma clear_seats s a i : slot_seat <$> a_seats (clear_seat s a) !! i = slot_seat <$> a_seats a !! i.
Proof.
  unfold clear_seat. destruct (a_indices a !! s) as [j|]; [|done]. simpl.
  destruct (decide (i = j)) as [->|Hi]; [|by rewrite list_lookup_alter_ne].
  rewrite list_lookup_alter_eq. by destruct (a_seats a !! j).
Qed.
Lemma clear_indices s a : a_indices (clear_seat s a) = a_indices a.
Proof. unfold clear_seat. by destruct (a_indices a !! s). Qed.

Lemma paired_step o a : paired a → paired (actor_step o a).2.
Proof.
  intros Hp. destruct o as [s x|i|s]; simpl.
  - pose proof (paired_register s x a Hp) as H. by destruct (register_seat s x a) as [[i|e] a'].
  - assert (paired (try_admit i a).2) as H.
    { eapply paired_seats_same, Hp; [apply admit_indices|apply admit_seats]. }
    by destruct (try_admit i a) as [[] a'].
  - eapply paired_seats_same, Hp; [apply clear_indices|apply clear_seats].
Qed.

(** Registrations are never lost, and a logged one is in the map. *)
Lemma indices_step o a s i : paired a → a_indices a !! s = Some i → a_indices (actor_step o a).2 !! s = Some i.
Proof.
  intros Hp H. destruct o as [s' x|j|s']; simpl.
  - destruct (decide (0 < s')) as [Hpos|Hpos].
    2:{ unfold register_seat. by rewrite (proj2 (Z.leb_le _ _)) by lia. }
    destruct (slot_index x a) as [index|] eqn:Hx.
    2:{ unfold register_seat. rewrite (proj2 (Z.leb_gt _ _)) by lia. by rewrite Hx. }
    rewrite (register_step s' x index a) by done.
    destruct (a_indices a !! s') as [e|] eqn:E; [by destruct (register_result _ _ _)|].
    destruct (register_result s' index a); simpl; [|done]. rewrite lookup_insert_ne by congruence. done.
  - pose proof (admit_indices j a) as Ha. destruct (try_admit j a) as [[] a']; simpl in *; by rewrite Ha.
  - by rewrite clear_indices.
Qed.

Lemma registered_step o a s i : paired a → ERegistered s i ∈ (actor_step o a).1 → a_indices (actor_step o a).2 !! s = Some i.
Proof.
  intros Hp H. destruct o as [s' x|j|s']; simpl in *.
  - destruct (decide (0 < s')) as [Hpos|Hpos].
    2:{ exfalso. revert H. unfold register_seat. rewrite (proj2 (Z.leb_le _ _)) by lia. apply not_elem_of_nil. }
    destruct (slot_index x a) as [index|] eqn:Hx.
    2:{ exfalso. revert H. unfold register_seat. rewrite (proj2 (Z.leb_gt _ _)) by lia. rewrite Hx. apply not_elem_of_nil. }
    rewrite (register_step s' x index a) in * by done. unfold register_result in *.
    destruct (a_indices a !! s') as [e|] eqn:E.
    + case_bool_decide; simpl in *; [|by apply not_elem_of_nil in H].
      apply list_elem_of_singleton in H as [= -> ->]. congruence.
    + case_bool_decide; simpl in *; [|by apply not_elem_of_nil in H].
      apply list_elem_of_singleton in H as [= -> ->]. apply lookup_insert_eq.
  - destruct (try_admit j a) as [[] a']; simpl in *; [|by apply not_elem_of_nil in H].
    apply list_elem_of_singleton in H. done.
  - destruct (a_indices a !! s'); [|by apply not_elem_of_nil in H]. by apply list_elem_of_singleton in H.
Qed.

Lemma run_registered os a :
  paired a → paired (actor_run os a).2 ∧
  (∀ s i, a_indices a !! s = Some i → a_indices (actor_run os a).2 !! s = Some i) ∧
  (∀ s i, ERegistered s i ∈ (actor_run os a).1 → a_indices (actor_run os a).2 !! s = Some i).
Proof.
  revert a. induction os as [|o os IH]; intros a Hp; simpl.
  { split_and!; [done|done|]. intros s i H. by apply not_elem_of_nil in H. }
  pose proof (paired_step o a Hp) as Hp1. pose proof (indices_step o a) as Hi. pose proof (registered_step o a) as Hr.
  destruct (actor_step o a) as [es a1]. simpl in *. destruct (IH a1 Hp1) as (Hp2 & Hi2 & Hr2).
  destruct (actor_run os a1) as [es' a2]. simpl in *. split_and!; [done|auto|].
  intros s i [H|H]%elem_of_app; auto.
Qed.

(** For a show opened with [n] seats, after any sequence of registrations,
    admissions and clearings by any requests, no two seats were ever registered at the
    same index and no seat at two indices. *)
Theorem seats_and_slots_paired n now os s i s' i' :
  let log := (actor_run os (new_actor n now)).1 in
  ERegistered s i ∈ log → ERegistered s' i' ∈ log → (s = s' ↔ i = i').
Proof.
  intros log H H'. destruct (run_registered os _ (paired_new n now)) as (Hp & _ & Hr).
  apply Hr in H, H'. split; [intros ->; congruence|]. intros ->.
  apply Hp in H as [_ H], H' as [_ H']. congruence.
Qed.

Lemma seats_and_slots_paired_witness :
  let log := (actor_run [ARegister 101 1; ARegister 102 1; ARegister 102 2; ARegister 101 2; AAdmit 0; ARegister 101 1]
                (new_actor 3 0)).1 in
  log = [ERegistered 101 0; ERegistered 102 1; EAdmitted 0; ERegistered 101 0] ∧ (101 = 102 ↔ 0%nat = 1%nat).
Proof.
  split; [vm_compute; reflexivity|].
  apply (seats_and_slots_paired 3 0 [ARegister 101 1; ARegister 102 1; ARegister 102 2; ARegister 101 2; AAdmit 0; ARegister 101 1]);
    vm_compute; set_solver.
Defined.

(** *** Admission *)

Definition admissions (index : nat) (es : list actor_event) : Z :=
  Z.of_nat (length (filter (λ e, e = EAdmitted index) es)).
Definition clearings (index : nat) (es : list actor_event) : Z :=
  Z.of_nat (length (filter (λ e, e = ECleared index) es)).

Definition available (index : nat) (a : show_actor) : bool :=
  match a_seats a !! index with Some slot => slot_state slot =? STATE_AVAILABLE | None => false end.

Lemma admissions_app i es es' : admissions i (es ++ es') = admissions i es + admissions i es'.
Proof. unfold admissions. rewrite filter_app, length_app. lia. Qed.
Lemma clearings_app i es es' : clearings i (es ++ es') = clearings i es + clearings i es'.
Proof. unfold clearings. rewrite filter_app, length_app. lia. Qed.

Lemma tally_one i e :
  admissions i [e] = (if decide (e = EAdmitted i) then 1 else 0) ∧
  clearings i [e] = (if decide (e = ECleared i) then 1 else 0).
Proof.
  unfold admissions, clearings. rewrite !filter_cons, !filter_nil.
  split; destruct (decide _); done.
Qed.

Lemma available_register i s x a : available i (register_seat s x a).2 = available i a.
Proof.
  unfold register_seat. destruct (s <=? 0); [done|]. destruct (slot_index x a) as [index|]; [|done].
  assert (∀ a, available i (claim_slot s index a).2 = available i a) as Hc.
  { intros a'. unfold claim_slot. destruct (a_seats a' !! index) as [slot|] eqn:E; [|done].
    destruct (_ =? 0); [|by destruct (_ =? _)]. unfold available. simpl.
    destruct (decide (i = index)) as [->|Hi]; [|by rewrite list_lookup_insert_ne].
    rewrite list_lookup_insert_eq by (by eapply lookup_lt_Some). by rewrite E. }
  destruct (a_indices a !! s); [destruct (bool_decide _); [done|]|]; (etrans; [apply Hc|done]).
Qed.

(** One operation: each admission uses the slot up, each clearing frees it at most once. *)
Lemma tally_step i o a :
  admissions i (actor_step o a).1 + Z.b2z (available i (actor_step o a).2) ≤
    Z.b2z (available i a) + clearings i (actor_step o a).1 ∧
  (clearings i (actor_step o a).1 = 0 →
    admissions i (actor_step o a).1 + Z.b2z (available i (actor_step o a).2) = Z.b2z (available i a)) ∧
  (o = AAdmit i → available i (actor_step o a).2 = false).
Proof.
  assert (admissions i [] = 0 ∧ clearings i [] = 0) as Hnil by done.
  destruct o as [s x|j|s]; cbn [actor_step].
  - pose proof (available_register i s x a) as H. destruct (register_seat s x a) as [[k|e] a']; cbn [fst snd] in *; rewrite H.
    + destruct (tally_one i (ERegistered s k)) as [-> ->]. rewrite !decide_False by done. split_and!; [lia|lia|done].
    + destruct Hnil as [-> ->]. split_and!; [lia|lia|done].
  - unfold try_admit, available. destruct (a_seats a !! j) as [slot|] eqn:E.
    2:{ cbn [fst snd]. destruct Hnil as [-> ->]. split_and!; [lia|lia|]. intros [= ->]. by rewrite E. }
    destruct (slot_state slot =? STATE_AVAILABLE) eqn:Es; cbn [fst snd].
    + destruct (tally_one i (EAdmitted j)) as [-> ->]. rewrite (decide_False (P:=EAdmitted j = ECleared i)) by done.
      simpl. destruct (decide (i = j)) as [->|Hne].
      * rewrite decide_True by done. rewrite list_lookup_insert_eq by (by eapply lookup_lt_Some). rewrite E. simpl.
        rewrite Es. split_and!; done.
      * rewrite decide_False by congruence. rewrite list_lookup_insert_ne by done. split_and!; [lia|lia|congruence].
    + destruct Hnil as [-> ->]. split_and!; [lia|lia|]. intros [= ->]. by rewrite E.
  - unfold clear_seat. destruct (a_indices a !! s) as [j|] eqn:E.
    2:{ cbn [fst snd]. destruct Hnil as [-> ->]. split_and!; [lia|lia|done]. }
    cbn [fst snd]. destruct (tally_one i (ECleared j)) as [-> ->]. rewrite (decide_False (P:=ECleared j = EAdmitted i)) by done.
    unfold available. simpl. destruct (decide (i = j)) as [->|Hne].
    + rewrite decide_True by done. rewrite list_lookup_alter_eq. split_and!; [|done|done].
      destruct (a_seats a !! j) as [slot|]; simpl; [|lia]. destruct (_ =? _); simpl; lia.
    + rewrite decide_False by congruence. rewrite list_lookup_alter_ne by done. split_and!; [lia|lia|done].
Qed.

Lemma tally_run i os a :
  admissions i (actor_run os a).1 + Z.b2z (available i (actor_run os a).2) ≤
    Z.b2z (available i a) + clearings i (actor_run os a).1 ∧
  (clearings i (actor_run os a).1 = 0 →
    admissions i (actor_run os a).1 + Z.b2z (available i (actor_run os a).2) = Z.b2z (available i a)) ∧
  (clearings i (actor_run os a).1 = 0 → AAdmit i ∈ os ∨ available i a = false →
    available i (actor_run os a).2 = false).
Proof.
  revert a. induction os as [|o os IH]; intros a; simpl.
  { assert (admissions i [] = 0 ∧ clearings i [] = 0) as [-> ->] by done. split_and!; [lia|lia|]. by intros _ [H%not_elem_of_nil|H]. }
  destruct (tally_step i o a) as (H1 & H2 & H3). destruct (actor_step o a) as [es a1]. cbn [fst snd] in *.
  destruct (IH a1) as (H1' & H2' & H3'). destruct (actor_run os a1) as [es' a2]. cbn [fst snd] in *.
  rewrite admissions_app, clearings_app.
  assert (0 ≤ clearings i es ∧ 0 ≤ clearings i es') as [Hc Hc'] by (unfold clearings; lia).
  assert (0 ≤ admissions i es) by (unfold admissions; lia).
  split_and!; [lia|lia|]. intros Hz Ha. apply H3'; [lia|].
  destruct Ha as [[Ho|Ha]%elem_of_cons|Ha]; [right; apply H3; congruence|by left|].
  right. specialize (H2 ltac:(lia)). rewrite Ha in H2. destruct (available i a1); simpl in H2; [lia|done].
Qed.

(** C3: admission is won once.  In any interleaving of the operations of a show's
    requests, the admissions of a slot exceed its clearings by at most one; and when
    nobody clears it, a free slot that somebody tries to admit is won exactly once. *)
Theorem one_admission_per_clearing i os a :
  admissions i (actor_run os a).1 ≤ 1 + clearings i (actor_run os a).1 ∧
  (clearings i (actor_run os a).1 = 0 → available i a = true → AAdmit i ∈ os →
   admissions i (actor_run os a).1 = 1).
Proof.
  destruct (tally_run i os a) as (H1 & H2 & H3). split.
  - destruct (available i a), (available i (actor_run os a).2); simpl in *; lia.
  - intros Hc Ha Hin. specialize (H2 Hc). rewrite (H3 Hc), Ha in H2 by auto. simpl in H2. lia.
Qed.

Lemma one_admission_per_clearing_witness :
  admissions 0 (actor_run (ARegister 101 1 :: replicate 256 (AAdmit 0)) (new_actor 1 0)).1 = 1.
Proof.
  refine (proj2 (one_admission_per_clearing 0 (ARegister 101 1 :: replicate 256 (AAdmit 0)) (new_actor 1 0)) _ _ _).
  - vm_compute. reflexivity.
  - reflexivity.
  - right. left.
Defined.
