(* ===== verification/ActorLease.v ===== *)
(** * ActorLease: requests against idle eviction, on release/acquire memory
    ([begin_request], [ActorRequestLease::drop], [try_begin_idle_eviction] and
    [mark_schedule_closed] of [apps/gateway-keeper/src/state_active.rs])

    Any number of requests and of eviction passes run on one actor.  Every atomic
    operation is a step.  The loads are [Acquire], the stores [Release] and the
    read-modify-writes [AcqRel], so the memory is the release/acquire one: the messages of
    a cell are ordered by their timestamps, a thread knows a timestamp of each cell (its
    view), reads any message that is not older, and takes over the view of the message.
    A read-modify-write comes right after the message it reads.

    Threads start with the least view, and whoever closes a schedule knows nothing: what
    else synchronises them only leaves fewer runs.  With [fresh], every operation is on
    the newest message, as with [SeqCst] operations or on a machine whose
    read-modify-writes are full fences. *)

From S2P Require Import Prelude ShowActor.

(** ** Memory *)

Inductive cell := Closing | InFlight | LastAccess.
#[export] Instance cell_eq_dec : EqDecision cell.
Proof. solve_decision. Defined.

Definition view := cell → Z.
Definition view_join (v w : view) : view := λ c, Z.max (v c) (w c).
Definition view_set (c : cell) (t : Z) (v : view) : view := λ c', if decide (c' = c) then t else v c'.

(** A message: its cell and timestamp, the timestamp of the message that a
    read-modify-write read, the value (a flag is 0 or 1) and the view it carries. *)
Record message := Message { ms_cell : cell; ms_at : Z; ms_from : option Z; ms_val : Z; ms_view : view }.
Definition of_cell (c : cell) (m : message) : bool := bool_decide (ms_cell m = c).
Definition newest (c : cell) (mem : list message) : Z := foldr (λ m t, if of_cell c m then Z.max (ms_at m) t else t) 0 mem.

(** The message a thread with view [v] reads at timestamp [at_]. *)
Definition pick (fresh : bool) (c : cell) (at_ : Z) (v : view) (mem : list message) : option message :=
  m ← find (λ m, of_cell c m && (ms_at m =? at_)) mem;
  if (v c <=? at_) && (negb fresh || (at_ =? newest c mem)) then Some m else None.
(** A timestamp that is not taken and does not part a read-modify-write from what it read. *)
Definition free_at (c : cell) (t : Z) (mem : list message) : bool :=
  forallb (λ m, negb (of_cell c m) || negb (ms_at m =? t) && match ms_from m with Some f => negb ((f <? t) && (t <? ms_at m)) | None => true end) mem.
Definition none_between (c : cell) (a t : Z) (mem : list message) : bool :=
  forallb (λ m, negb (of_cell c m && (a <? ms_at m) && (ms_at m <? t))) mem.

Definition load (fresh : bool) (c : cell) (at_ : Z) (v : view) (mem : list message) : option (Z * view) :=
  m ← pick fresh c at_ v mem; Some (ms_val m, view_join v (ms_view m)).
Definition store (fresh : bool) (c : cell) (t x : Z) (v : view) (mem : list message) : option (view * list message) :=
  if (v c <? t) && free_at c t mem && (negb fresh || (newest c mem <? t)) then
    let v := view_set c t v in Some (v, mem ++ [Message c t None x v])
  else None.
(** The read-modify-write that makes [f x] of [x]. *)
Definition rmw (fresh : bool) (c : cell) (at_ t : Z) (f : Z → Z) (v : view) (mem : list message) : option (Z * view * list message) :=
  m ← pick fresh c at_ v mem;
  if (at_ <? t) && free_at c t mem && none_between c at_ t mem then
    let v := view_set c t (view_join v (ms_view m)) in
    Some (ms_val m, v, mem ++ [Message c t (Some at_) (f (ms_val m)) v])
  else None.

(** ** The threads *)

(** Where a request is in [begin_request] and in the drop of its lease.  [counted] is the
    timestamp of its increment and [saw] that of the flag it read after it; no step depends
    on them. *)
Inductive request_pc :=
  | RStart                          (* before the first load of closing *)
  | RChecked                        (* closing was false; before fetch_add *)
  | RCounted (counted : Z)          (* before the second load *)
  | RUndo (counted : Z)             (* closing was true; before fetch_sub *)
  | RRefused                        (* returned Err *)
  | RPassed (counted saw : Z)       (* before the store of last_access *)
  | RHeld (counted saw : Z)         (* holds the lease *)
  | RDropping (counted saw : Z)     (* dropping: before fetch_sub *)
  | RDone.

(** Where an eviction pass is.  [mark] is the timestamp of its closing, [read] that of the
    counter it read. *)
Inductive evict_pc :=
  | EStart                          (* before evict_idle_actors reads the clock *)
  | ECalled (now : Z)               (* before the load of last_access *)
  | EIdle                           (* idle for long enough; before the compare-exchange *)
  | EOwn (mark : Z)                 (* set closing; before the load of in_flight *)
  | EReset (mark : Z)               (* requests are in flight; before the store of closing *)
  | EKept                           (* returned false *)
  | EEvicted (mark read : Z).       (* returned true *)

Definition add_one (x : Z) : Z := u64 (x + 1).
Definition sub_one (x : Z) : Z := u64 (x - 1).

(** A step at timestamp [at_] and, when it writes, at timestamp [t]. *)
Definition request_step (fresh : bool) (now at_ t : Z) (pc : request_pc) (v : view) (mem : list message) : option (request_pc * view * list message) :=
  match pc with
  | RStart => '(x, v) ← load fresh Closing at_ v mem; Some (if x =? 1 then RRefused else RChecked, v, mem)
  | RChecked => '(_, v, mem) ← rmw fresh InFlight at_ t add_one v mem; Some (RCounted t, v, mem)
  | RCounted n => '(x, v) ← load fresh Closing at_ v mem; Some (if x =? 1 then RUndo n else RPassed n at_, v, mem)
  | RUndo _ => '(_, v, mem) ← rmw fresh InFlight at_ t sub_one v mem; Some (RRefused, v, mem)
  | RPassed n a => '(v, mem) ← store fresh LastAccess t now v mem; Some (RHeld n a, v, mem)
  | RHeld n a => '(v, mem) ← store fresh LastAccess t now v mem; Some (RDropping n a, v, mem)
  | RDropping _ _ => '(_, v, mem) ← rmw fresh InFlight at_ t sub_one v mem; Some (RDone, v, mem)
  | RRefused | RDone => None
  end.

Definition evict_step (fresh : bool) (now at_ t : Z) (pc : evict_pc) (v : view) (mem : list message) : option (evict_pc * view * list message) :=
  match pc with
  | EStart => Some (ECalled now, v, mem)
  | ECalled now => '(last, v) ← load fresh LastAccess at_ v mem; Some (if Z.max 0 (now - last) <? ACTOR_IDLE_TTL then EKept else EIdle, v, mem)
  | EIdle =>
      '(x, v') ← load fresh Closing at_ v mem;
      if x =? 1 then Some (EKept, v', mem)
      else '(_, v, mem) ← rmw fresh Closing at_ t (λ _, 1) v mem; Some (EOwn t, v, mem)
  | EOwn n => '(x, v) ← load fresh InFlight at_ v mem; Some (if x =? 0 then EEvicted n at_ else EReset n, v, mem)
  | EReset _ => '(v, mem) ← store fresh Closing t 0 v mem; Some (EKept, v, mem)
  | EKept | EEvicted _ _ => None
  end.

Record lease_state := LState {
  l_mem : list message; l_now : Z; l_reqs : list (request_pc * view); l_evs : list (evict_pc * view)
}.

Definition nothing_seen : view := λ _, 0.

(** One step: of a request, of a pass, of [mark_schedule_closed], or of the clock. *)
Inductive move := MRequest (i : nat) (at_ t : Z) | MEvict (j : nat) (at_ t : Z) | MClose (t : Z) | MTick (d : N).

Definition lease_move (fresh : bool) (m : move) (s : lease_state) : option lease_state :=
  match m with
  | MRequest i at_ t =>
      '(pc, v) ← l_reqs s !! i; '(pc, v, mem) ← request_step fresh (l_now s) at_ t pc v (l_mem s);
      Some (LState mem (l_now s) (<[i := (pc, v)]> (l_reqs s)) (l_evs s))
  | MEvict j at_ t =>
      '(pc, v) ← l_evs s !! j; '(pc, v, mem) ← evict_step fresh (l_now s) at_ t pc v (l_mem s);
      Some (LState mem (l_now s) (l_reqs s) (<[j := (pc, v)]> (l_evs s)))
  | MClose t => '(_, mem) ← store fresh Closing t 1 nothing_seen (l_mem s); Some (LState mem (l_now s) (l_reqs s) (l_evs s))
  | MTick d => Some (LState (l_mem s) (l_now s + Z.of_N d) (l_reqs s) (l_evs s))
  end.
Fixpoint run_lease (fresh : bool) (ms : list move) (s : lease_state) : option lease_state :=
  match ms with [] => Some s | m :: ms => s ← lease_move fresh m s; run_lease fresh ms s end.

(** A fresh actor with [r] requests and [e] eviction passes to come. *)
Definition lease_init (r e : nat) (now : Z) : lease_state :=
  LState [Message Closing 0 None 0 nothing_seen; Message InFlight 0 None 0 nothing_seen; Message LastAccess 0 None now nothing_seen]
    now (replicate r (RStart, nothing_seen)) (replicate e (EStart, nothing_seen)).

(** ** Counting *)

Fixpoint count {A} (f : A → bool) (l : list A) : Z :=
  match l with [] => 0 | x :: l => Z.b2z (f x) + count f l end.

Lemma count_insert {A} (f : A → bool) l i x y :
  l !! i = Some x → count f (<[i := y]> l) = count f l - Z.b2z (f x) + Z.b2z (f y).
Proof.
  revert i. induction l as [|z l IH]; intros [|i] H; simplify_eq/=; [lia|]. rewrite IH by done. lia.
Qed.
Lemma count_range {A} (f : A → bool) l : 0 ≤ count f l ≤ Z.of_nat (length l).
Proof. induction l as [|x l IH]; simpl; [lia|]. destruct (f x); simpl; lia. Qed.
Lemma count_some {A} (f : A → bool) l i x : l !! i = Some x → f x = true → 1 ≤ count f l.
Proof.
  revert i. induction l as [|z l IH]; intros [|i] H Hf; simpl in *; [done|done| |].
  - injection H as ->. rewrite Hf. simpl. pose proof (count_range f l). lia.
  - specialize (IH i H Hf). destruct (f z); simpl; lia.
Qed.
Lemma count_le {A} (f g : A → bool) l : (∀ x, f x = true → g x = true) → count f l ≤ count g l.
Proof.
  intros H. induction l as [|x l IH]; simpl; [lia|]. specialize (H x). destruct (f x), (g x); simpl; try lia.
Qed.
Lemma count_replicate {A} (f : A → bool) n x : f x = false → count f (replicate n x) = 0.
Proof. intros H. induction n; simpl; [done|]. by rewrite H. Qed.

(** ** What an operation on the memory does *)

Definition consumed (c : cell) (a : Z) (mem : list message) : Prop := ∃ m, m ∈ mem ∧ ms_cell m = c ∧ ms_from m = Some a.
(** A read-modify-write comes after what it reads. *)
Definition ordered (mem : list message) : Prop := ∀ m f, m ∈ mem → ms_from m = Some f → f < ms_at m.
(** The message is the last of its cell that nothing has consumed. *)
Definition open_end (m : message) (mem : list message) : Prop := ¬ consumed (ms_cell m) (ms_at m) mem.

Lemma of_cell_true c m : of_cell c m = true ↔ ms_cell m = c.
Proof. apply bool_decide_eq_true. Qed.
Lemma newest_ge c m mem : m ∈ mem → ms_cell m = c → ms_at m ≤ newest c mem.
Proof.
  intros Hin Hc. induction mem as [|x mem IH]; [by apply elem_of_nil in Hin|]. simpl. apply elem_of_cons in Hin as [<-|Hin].
  - rewrite (proj2 (of_cell_true c m) Hc). lia.
  - specialize (IH Hin). destruct (of_cell c x); lia.
Qed.
Lemma consumed_app c a mem m : consumed c a (mem ++ [m]) ↔ consumed c a mem ∨ ms_cell m = c ∧ ms_from m = Some a.
Proof.
  unfold consumed. split.
  - intros (x & [Hx|Hx%list_elem_of_singleton]%elem_of_app & ? & ?); [left; by exists x|subst; by right].
  - intros [(x & Hx & ?)|[H1 H2]]; [exists x; by split; [apply elem_of_app; left|]|exists m; split; [apply elem_of_app; right; by left|done]].
Qed.

Lemma pick_spec fresh c a v mem m : pick fresh c a v mem = Some m →
  m ∈ mem ∧ ms_cell m = c ∧ ms_at m = a ∧ v c ≤ a ∧ (fresh = true → a = newest c mem).
Proof.
  unfold pick. destruct (find _ mem) as [m'|] eqn:Hf; [|done]. simpl.
  destruct (v c <=? a) eqn:Hv; [|done]. destruct (negb fresh || (a =? newest c mem)) eqn:Hn; [|done]. simpl. intros [= ->].
  apply find_some in Hf as [Hin [Hc Ha]%andb_true_iff]. apply Z.leb_le in Hv. split; [by apply list_elem_of_In|].
  split; [by apply of_cell_true|]. split; [lia|]. split; [done|]. intros ->. simpl in Hn. lia.
Qed.

Lemma free_at_spec c t mem m : free_at c t mem = true → m ∈ mem → ms_cell m = c →
  ms_at m ≠ t ∧ ∀ f, ms_from m = Some f → ¬ (f < t < ms_at m).
Proof.
  unfold free_at. rewrite forallb_forall. intros H Hin Hc. specialize (H m (proj1 (list_elem_of_In _ _) Hin)).
  rewrite (proj2 (of_cell_true c m) Hc) in H. simpl in H. apply andb_true_iff in H as [H1 H2]. split; [lia|].
  intros f Hf. rewrite Hf in H2. lia.
Qed.

Lemma load_spec fresh c a v mem x v' : load fresh c a v mem = Some (x, v') →
  ∃ m, m ∈ mem ∧ ms_cell m = c ∧ ms_at m = a ∧ ms_val m = x ∧ (∀ c', v c' ≤ v' c') ∧ (fresh = true → a = newest c mem).
Proof.
  unfold load. destruct (pick fresh c a v mem) as [m|] eqn:Hp; [|done]. intros [= <- <-].
  apply pick_spec in Hp as (? & ? & ? & ? & ?). exists m. split_and!; try done. intros c'. unfold view_join. lia.
Qed.

Lemma store_spec fresh c t x v mem v' mem' : store fresh c t x v mem = Some (v', mem') →
  mem' = mem ++ [Message c t None x v'] ∧ v c < t ∧ (∀ c', v c' ≤ v' c') ∧ (fresh = true → newest c mem < t).
Proof.
  unfold store. destruct (v c <? t) eqn:Hv; [|done]. destruct (free_at c t mem); [|done].
  destruct (negb fresh || (newest c mem <? t)) eqn:Hn; [|done]. simpl. intros [= <- <-]. apply Z.ltb_lt in Hv. split; [done|]. split; [done|].
  split; [|intros ->; simpl in Hn; lia]. intros c'. unfold view_set. case_decide; [subst; lia|lia].
Qed.

(** A read-modify-write takes a message that none has taken, and comes right after it. *)
Lemma rmw_spec fresh c a t f v mem x v' mem' : ordered mem → rmw fresh c a t f v mem = Some (x, v', mem') →
  ∃ m, m ∈ mem ∧ ms_cell m = c ∧ ms_at m = a ∧ ms_val m = x ∧ open_end m mem ∧ a < t ∧
    mem' = mem ++ [Message c t (Some a) (f x) v'] ∧ (∀ c', v c' ≤ v' c') ∧ t ≤ v' c ∧ (fresh = true → a = newest c mem).
Proof.
  unfold rmw. intros Hord. destruct (pick fresh c a v mem) as [m|] eqn:Hp; [|done]. simpl.
  destruct (a <? t) eqn:Hat; [|done]. destruct (free_at c t mem) eqn:Hfree; [|done]. destruct (none_between c a t mem) eqn:Hb; [|done].
  simpl. intros [= <- <- <-]. apply pick_spec in Hp as (H1 & H2 & H3 & H4 & H5). apply Z.ltb_lt in Hat. exists m. split_and!; try done.
  - intros (m' & Hin & Hc & Hf). rewrite H2 in Hc. rewrite H3 in Hf. pose proof (Hord m' a Hin Hf) as Hlt.
    destruct (free_at_spec _ _ _ m' Hfree Hin Hc) as [Hne Hgap]. specialize (Hgap a Hf).
    unfold none_between in Hb. rewrite forallb_forall in Hb. specialize (Hb m' (proj1 (list_elem_of_In _ _) Hin)).
    rewrite (proj2 (of_cell_true c m') Hc) in Hb. simpl in Hb. lia.
  - intros c'. unfold view_set, view_join. case_decide; [subst; lia|lia].
  - unfold view_set. by rewrite decide_True.
Qed.

(** ** The counter *)

Definition count_time (pc : request_pc) : option Z :=
  match pc with RCounted n | RUndo n | RPassed n _ | RHeld n _ | RDropping n _ => Some n | _ => None end.
(** The request has passed both checks and has not given its lease back: the timestamps of
    its increment and of the flag it read after it. *)
Definition lease_of (pc : request_pc) : option (Z * Z) :=
  match pc with RPassed n a | RHeld n a | RDropping n a => Some (n, a) | _ => None end.

Definition counted (th : request_pc * view) : bool := match count_time th.1 with Some _ => true | None => false end.
Definition counted_by (t : Z) (th : request_pc * view) : bool := match count_time th.1 with Some n => n <=? t | None => false end.
Definition leased (th : request_pc * view) : bool := match lease_of th.1 with Some _ => true | None => false end.

Implicit Types (v w u : view) (mem : list message) (reqs : list (request_pc * view)) (evs : list (evict_pc * view)).

(** The last counter is the number of counted requests; an older one is at least the number
    of those that had been counted then and still are. *)
Record flight_inv mem reqs : Prop := {
  fl_last m : m ∈ mem → ms_cell m = InFlight → open_end m mem →
    ms_val m = count counted reqs ∧ ∀ m', m' ∈ mem → ms_cell m' = InFlight → ms_at m' ≤ ms_at m;
  fl_value m : m ∈ mem → ms_cell m = InFlight → count (counted_by (ms_at m)) reqs ≤ ms_val m;
  fl_counted i pc v n : reqs !! i = Some (pc, v) → count_time pc = Some n → ∃ m, m ∈ mem ∧ ms_cell m = InFlight ∧ ms_at m = n
}.

Lemma in_snoc (m x : message) mem : m ∈ mem ++ [x] ↔ m ∈ mem ∨ m = x.
Proof. by rewrite elem_of_app, list_elem_of_singleton. Qed.
Lemma open_end_app m x mem : ms_cell m ≠ ms_cell x ∨ ms_from x = None → open_end m (mem ++ [x]) ↔ open_end m mem.
Proof. intros Hx. unfold open_end. rewrite consumed_app. destruct Hx as [Hx|Hx]; [|rewrite Hx]; naive_solver. Qed.
Lemma open_end_left m x mem : open_end m (mem ++ [x]) → open_end m mem.
Proof. unfold open_end. rewrite consumed_app. tauto. Qed.

Lemma flight_app x mem reqs : ms_cell x ≠ InFlight → flight_inv mem reqs → flight_inv (mem ++ [x]) reqs.
Proof.
  intros Hx [H1 H2 H3]. split.
  - intros m [Hm| ->]%in_snoc Hc Ho; [|done]. apply open_end_left in Ho. destruct (H1 m Hm Hc Ho) as [? Hmax]. split; [done|].
    intros m' [Hm'| ->]%in_snoc; [by apply Hmax|done].
  - intros m [Hm| ->]%in_snoc Hc; [by apply H2|done].
  - intros i pc v n Hi Hn. destruct (H3 i pc v n Hi Hn) as (m & ? & ?). exists m. split; [apply in_snoc; by left|done].
Qed.

Lemma flight_same i pc v pc' (v' : view) mem reqs : reqs !! i = Some (pc, v) → count_time pc' = count_time pc →
  flight_inv mem reqs → flight_inv mem (<[i := (pc', v')]> reqs).
Proof.
  intros Hi Hpc [H1 H2 H3].
  assert (∀ f : request_pc * view → bool, f (pc', v') = f (pc, v) → count f (<[i := (pc', v')]> reqs) = count f reqs) as Hcnt
    by (intros f Hf; rewrite (count_insert _ _ _ _ _ Hi), Hf; lia).
  split.
  - intros m Hm Hc Ho. rewrite Hcnt; [by apply H1|]. unfold counted. simpl. by rewrite Hpc.
  - intros m Hm Hc. rewrite Hcnt; [by apply H2|]. unfold counted_by. simpl. by rewrite Hpc.
  - intros k q w n [(-> & [= <- <-] & _)|[_ Hk]]%list_lookup_insert_Some Hn; [|by eapply H3]. rewrite Hpc in Hn. by eapply H3.
Qed.

Lemma counted_by_all mem reqs t : flight_inv mem reqs → (∀ m, m ∈ mem → ms_cell m = InFlight → ms_at m ≤ t) →
  count (counted_by t) reqs = count counted reqs.
Proof.
  intros [_ _ H3] Ht. assert (∀ i th, reqs !! i = Some th → counted_by t th = counted th) as H.
  { intros i [pc v] Hi. unfold counted_by, counted. simpl. destruct (count_time pc) as [n|] eqn:Hn; [|done].
    destruct (H3 i pc v n Hi Hn) as (m & Hm & Hc & <-). apply Z.leb_le. by apply Ht. }
  clear H3. induction reqs as [|th reqs IH]; [done|]. simpl. rewrite (H 0%nat th eq_refl), IH; [done|]. intros i. apply (H (S i)).
Qed.

(** A request is counted, or no longer. *)
Lemma flight_rmw i pc v pc' (v' : view) m t x w mem reqs :
  reqs !! i = Some (pc, v) → m ∈ mem → ms_cell m = InFlight → open_end m mem → ms_at m < t →
  (count_time pc = None ∧ count_time pc' = Some t ∧ x = ms_val m + 1 ∨ is_Some (count_time pc) ∧ count_time pc' = None ∧ x = ms_val m - 1) →
  flight_inv mem reqs → flight_inv (mem ++ [Message InFlight t (Some (ms_at m)) x w]) (<[i := (pc', v')]> reqs).
Proof.
  intros Hi Hm Hc Ho Ht Hpc H. pose proof H as [H1 H2 H3]. destruct (H1 m Hm Hc Ho) as [Hval Hmax].
  assert (x = count counted (<[i := (pc', v')]> reqs)) as Hx.
  { rewrite (count_insert _ _ _ _ _ Hi), <-Hval. unfold counted. simpl. destruct Hpc as [(-> & -> & ->)|([n ->] & -> & ->)]; simpl; lia. }
  assert (∀ m', m' ∈ mem → ms_cell m' = InFlight → ms_at m' < t) as Hlt by (intros m' Hm' Hc'; specialize (Hmax m' Hm' Hc'); lia).
  assert (∀ k q u n, <[i := (pc', v')]> reqs !! k = Some (q, u) → count_time q = Some n →
    ∃ m0, m0 ∈ mem ++ [Message InFlight t (Some (ms_at m)) x w] ∧ ms_cell m0 = InFlight ∧ ms_at m0 = n) as H3'.
  { intros k q u n [(-> & [= <- <-] & _)|[_ Hk]]%list_lookup_insert_Some Hn.
    - destruct Hpc as [(_ & Hn' & _)|(_ & Hn' & _)]; [|congruence]. eexists. split; [apply in_snoc; by right|]. simpl. split; [done|congruence].
    - destruct (H3 k q u n Hk Hn) as (m0 & ? & ?). exists m0. split; [apply in_snoc; by left|done]. }
  assert (count (counted_by t) (<[i := (pc', v')]> reqs) ≤ x) as Hnew.
  { rewrite Hx. apply count_le. unfold counted_by, counted. intros th. by destruct (count_time th.1). }
  split; [| |exact H3'].
  - intros m0 [Hm0| ->]%in_snoc Hc0 Ho0.
    + exfalso. pose proof (open_end_left _ _ _ Ho0) as Ho1. destruct (H1 m0 Hm0 Hc0 Ho1) as [_ Hmax0]. apply Ho0. apply consumed_app. right.
      simpl. split; [done|]. f_equal. specialize (Hmax m0 Hm0 Hc0). specialize (Hmax0 m Hm Hc). lia.
    + split; [exact Hx|]. intros m' [Hm'| ->]%in_snoc Hc'; [specialize (Hlt m' Hm' Hc'); simpl; lia|done].
  - intros m0 [Hm0| ->]%in_snoc Hc0; [|exact Hnew]. specialize (H2 m0 Hm0 Hc0). specialize (Hlt m0 Hm0 Hc0).
    rewrite (count_insert _ _ _ _ _ Hi). assert (counted_by (ms_at m0) (pc', v') = false) as ->; [|destruct (counted_by _ (pc, v)); simpl; lia].
    unfold counted_by. simpl. destruct Hpc as [(_ & -> & _)|(_ & -> & _)]; [apply Z.leb_gt; lia|done].
Qed.

(** ** The flag *)

Definition owner_mark (pc : evict_pc) : option Z := match pc with EOwn n | EReset n | EEvicted n _ => Some n | _ => None end.
Definition owns (th : evict_pc * view) : bool := match owner_mark th.1 with Some _ => true | None => false end.
Definition clear_flag (m : message) : Prop := ms_cell m = Closing ∧ ms_val m ≠ 1.

(** At most one pass owns the flag, and every clear flag is older than its mark; a clear flag
    that nobody has taken is the newest one, and then nobody owns the flag. *)
Record closing_inv mem evs : Prop := {
  cl_one : count owns evs ≤ 1;
  cl_clear m : m ∈ mem → clear_flag m → consumed Closing (ms_at m) mem ∨
    count owns evs = 0 ∧ ∀ m', m' ∈ mem → clear_flag m' → ms_at m' ≤ ms_at m;
  cl_mark j pc v n : evs !! j = Some (pc, v) → owner_mark pc = Some n → n ≤ v Closing ∧
    (∀ m, m ∈ mem → clear_flag m → ms_at m < n) ∧ ∃ m, m ∈ mem ∧ ms_cell m = Closing ∧ ms_at m = n
}.

Lemma consumed_left c a x mem : consumed c a mem → consumed c a (mem ++ [x]).
Proof. intros H. apply consumed_app. by left. Qed.

(** A message of another cell, or a closed flag that consumes nothing. *)
Lemma closing_app x mem evs : ¬ clear_flag x → closing_inv mem evs → closing_inv (mem ++ [x]) evs.
Proof.
  intros Hx [H1 H2 H3]. split; [done| |].
  - intros m [Hm| ->]%in_snoc Hc; [|done]. destruct (H2 m Hm Hc) as [?|[? Hmax]]; [left; by apply consumed_left|right; split; [done|]].
    intros m' [Hm'| ->]%in_snoc Hc'; [by apply Hmax|done].
  - intros j pc v n Hj Hn. destruct (H3 j pc v n Hj Hn) as (? & Ha & m & ? & ?). split; [done|]. split.
    + intros m' [Hm'| ->]%in_snoc Hc'; [by apply Ha|done].
    + exists m. split; [apply in_snoc; by left|done].
Qed.

Lemma closing_keep j pc v pc' (v' : view) mem evs : evs !! j = Some (pc, v) → owner_mark pc' = owner_mark pc → (∀ c, v c ≤ v' c) →
  closing_inv mem evs → closing_inv mem (<[j := (pc', v')]> evs).
Proof.
  intros Hj Hpc Hv [H1 H2 H3].
  assert (count owns (<[j := (pc', v')]> evs) = count owns evs) as Hcnt.
  { rewrite (count_insert _ _ _ _ _ Hj). assert (owns (pc', v') = owns (pc, v)) as -> by (unfold owns; simpl; by rewrite Hpc). lia. }
  split; [by rewrite Hcnt|by rewrite Hcnt|].
  intros k q u n [(-> & [= <- <-] & _)|[_ Hk]]%list_lookup_insert_Some Hn; [|by eapply H3].
  rewrite Hpc in Hn. destruct (H3 _ pc v n Hj Hn) as (? & ? & ?). split; [|done]. specialize (Hv Closing). lia.
Qed.

Lemma owner_counted evs j pc v n : evs !! j = Some (pc, v) → owner_mark pc = Some n → 1 ≤ count owns evs.
Proof. intros Hj Hn. apply (count_some _ _ _ _ Hj). unfold owns. simpl. by rewrite Hn. Qed.

(** A pass takes the flag. *)
Lemma closing_take j pc v (v' : view) m t w mem evs : evs !! j = Some (pc, v) → owner_mark pc = None →
  m ∈ mem → clear_flag m → open_end m mem → ms_at m < t → t ≤ v' Closing →
  closing_inv mem evs → closing_inv (mem ++ [Message Closing t (Some (ms_at m)) 1 w]) (<[j := (EOwn t, v')]> evs).
Proof.
  intros Hj Hpc Hm Hc Ho Ht Hv [H1 H2 H3].
  destruct (H2 m Hm Hc) as [H|[H0 Hmax]]; [destruct Hc as [Hcell _]; unfold open_end in Ho; by rewrite Hcell in Ho|].
  assert (¬ clear_flag (Message Closing t (Some (ms_at m)) 1 w)) as Hnew by (by intros []).
  split.
  - rewrite (count_insert _ _ _ _ _ Hj), H0. destruct (owns _), (owns _); simpl; lia.
  - intros m0 [Hm0| ->]%in_snoc Hc0; [|done]. left. apply consumed_app. destruct (H2 m0 Hm0 Hc0) as [?|[_ Hmax0]]; [by left|right].
    simpl. split; [done|]. f_equal. specialize (Hmax m0 Hm0 Hc0). specialize (Hmax0 m Hm Hc). lia.
  - intros k q u n [(-> & [= <- <-] & _)|[_ Hk]]%list_lookup_insert_Some Hn.
    + simpl in Hn. injection Hn as <-. split; [done|]. split.
      * intros m0 [Hm0| ->]%in_snoc Hc0; [|done]. specialize (Hmax m0 Hm0 Hc0). lia.
      * eexists. split; [apply in_snoc; by right|done].
    + pose proof (owner_counted _ _ _ _ _ Hk Hn). lia.
Qed.

(** The pass that owns the flag clears it. *)
Lemma closing_clear j v (v' : view) n t x w mem evs : evs !! j = Some (EReset n, v) → v Closing < t →
  closing_inv mem evs → closing_inv (mem ++ [Message Closing t None x w]) (<[j := (EKept, v')]> evs).
Proof.
  intros Hj Ht [H1 H2 H3]. pose proof (owner_counted _ _ _ _ _ Hj eq_refl) as Hone.
  destruct (H3 j _ v n Hj eq_refl) as (Hn & Hold & _).
  assert (count owns (<[j := (EKept, v')]> evs) = 0) as H0.
  { rewrite (count_insert _ _ _ _ _ Hj). assert (owns (EReset n, v) = true) as -> by done. assert (owns (EKept, v') = false) as -> by done. simpl. lia. }
  split; [lia| |].
  - intros m [Hm| ->]%in_snoc Hc.
    + left. apply consumed_left. destruct (H2 m Hm Hc) as [?|[? _]]; [done|lia].
    + right. split; [done|]. simpl. intros m' [Hm'| ->]%in_snoc Hc'; [specialize (Hold m' Hm' Hc'); lia|done].
  - intros k q u n' Hk Hn'. pose proof (owner_counted _ _ _ _ _ Hk Hn'). lia.
Qed.

(** ** The system *)

Record lease_inv (fresh : bool) (r : nat) (s : lease_state) : Prop := {
  li_ordered : ordered (l_mem s);
  li_length : length (l_reqs s) = r;
  li_flight : flight_inv (l_mem s) (l_reqs s);
  li_closing : closing_inv (l_mem s) (l_evs s);
  li_saw i pc v n a : l_reqs s !! i = Some (pc, v) → lease_of pc = Some (n, a) → ∃ m, m ∈ l_mem s ∧ clear_flag m ∧ ms_at m = a;
  li_read j v n a : l_evs s !! j = Some (EEvicted n a, v) → ∃ m, m ∈ l_mem s ∧ ms_cell m = InFlight ∧ ms_at m = a ∧ ms_val m = 0;
  li_fresh j v n a : fresh = true → l_evs s !! j = Some (EEvicted n a, v) → count leased (l_reqs s) = 0
}.

Lemma ordered_app x mem : (∀ f, ms_from x = Some f → f < ms_at x) → ordered mem → ordered (mem ++ [x]).
Proof. intros Hx H m f [Hm| ->]%in_snoc Hf; [by apply (H m)|by apply Hx]. Qed.

Lemma leased_insert reqs i pc v pc' (v' : view) : reqs !! i = Some (pc, v) → (leased (pc', v') = true → leased (pc, v) = true) →
  count leased reqs = 0 → count leased (<[i := (pc', v')]> reqs) = 0.
Proof.
  intros Hi H H0. rewrite (count_insert _ _ _ _ _ Hi). pose proof (count_range leased (<[i := (pc', v')]> reqs)) as Hr.
  rewrite (count_insert _ _ _ _ _ Hi) in Hr. destruct (leased (pc, v)) eqn:E; [pose proof (count_some _ _ _ _ Hi E); lia|].
  destruct (leased (pc', v')); [by specialize (H eq_refl)|simpl in *; lia].
Qed.

(** A request that moves without a message, or with one that is neither counter nor flag. *)
Lemma request_moves fresh r s i pc v pc' (v' : view) mem :
  lease_inv fresh r s → l_reqs s !! i = Some (pc, v) →
  (mem = l_mem s ∨ ∃ x, mem = l_mem s ++ [x] ∧ ms_cell x = LastAccess ∧ ms_from x = None) → count_time pc' = count_time pc →
  (∀ n a, lease_of pc' = Some (n, a) → ∃ m, m ∈ l_mem s ∧ clear_flag m ∧ ms_at m = a) →
  (fresh = true → (∃ j w n a, l_evs s !! j = Some (EEvicted n a, w)) → leased (pc', v') = true → leased (pc, v) = true) →
  lease_inv fresh r (LState mem (l_now s) (<[i := (pc', v')]> (l_reqs s)) (l_evs s)).
Proof.
  intros [H1 H2 H3 H4 H5 H6 H7] Hi Hmem Hct Hlease Hfresh.
  assert (∀ m, m ∈ l_mem s → m ∈ mem) as Hin by (intros m Hm; destruct Hmem as [->|(x & -> & _)]; [done|apply in_snoc; by left]).
  split; simpl.
  - destruct Hmem as [->|(x & -> & _ & Hx)]; [done|]. apply ordered_app; [by rewrite Hx|done].
  - by rewrite length_insert.
  - apply (flight_same _ _ _ _ _ _ _ Hi Hct). destruct Hmem as [->|(x & -> & Hx & _)]; [done|]. apply flight_app; [by rewrite Hx|done].
  - destruct Hmem as [->|(x & -> & Hx & _)]; [done|]. apply closing_app; [|done]. intros [? _]. congruence.
  - intros k q u n a [(-> & [= <- <-] & _)|[_ Hk]]%list_lookup_insert_Some Hn.
    + destruct (Hlease n a Hn) as (m & ? & ? & ?). eauto.
    + destruct (H5 k q u n a Hk Hn) as (m & ? & ? & ?). eauto.
  - intros j w n a Hj. destruct (H6 j w n a Hj) as (m & ? & ? & ? & ?). eauto 6.
  - intros j w n a Hf Hj. apply (leased_insert _ _ _ _ _ _ Hi); [|by eapply H7]. apply Hfresh; [done|]. by exists j, w, n, a.
Qed.

(** A request that is counted, or no longer. *)
Lemma request_counts fresh r s i pc v pc' (v' w : view) m t x :
  lease_inv fresh r s → l_reqs s !! i = Some (pc, v) → m ∈ l_mem s → ms_cell m = InFlight → open_end m (l_mem s) → ms_at m < t →
  Z.of_nat r < 2 ^ 64 →
  (count_time pc = None ∧ count_time pc' = Some t ∧ x = add_one (ms_val m) ∨ is_Some (count_time pc) ∧ count_time pc' = None ∧ x = sub_one (ms_val m)) →
  lease_of pc' = None →
  lease_inv fresh r (LState (l_mem s ++ [Message InFlight t (Some (ms_at m)) x w]) (l_now s) (<[i := (pc', v')]> (l_reqs s)) (l_evs s)).
Proof.
  intros [H1 H2 H3 H4 H5 H6 H7] Hi Hm Hc Ho Ht Hr Hpc Hlease. set (y := Message InFlight t (Some (ms_at m)) x w).
  destruct (fl_last _ _ H3 m Hm Hc Ho) as [Hval _].
  pose proof (count_range counted (<[i := (pc', v')]> (l_reqs s))) as Hnew. rewrite length_insert, (count_insert _ _ _ _ _ Hi), H2 in Hnew.
  pose proof (count_range counted (l_reqs s)) as Hold.
  assert (count_time pc = None ∧ count_time pc' = Some t ∧ x = ms_val m + 1 ∨ is_Some (count_time pc) ∧ count_time pc' = None ∧ x = ms_val m - 1) as Hx.
  { assert (∀ q (u : view), counted (q, u) = match count_time q with Some _ => true | None => false end) as Hcd by done.
    rewrite !Hcd in Hnew. destruct Hpc as [(E1 & E2 & ->)|([n E1] & E2 & ->)]; rewrite E1, E2 in Hnew; simpl in Hnew.
    - left. split_and!; [done|done|]. apply wrap_u_small; [done|]. unfold in_u. lia.
    - right. split_and!; [by exists n|done|]. apply wrap_u_small; [done|]. unfold in_u.
      assert (1 ≤ count counted (l_reqs s)) by (apply (count_some _ _ _ _ Hi); unfold counted; simpl; by rewrite E1). lia. }
  split; simpl.
  - apply ordered_app; [|done]. by intros f [= <-].
  - by rewrite length_insert.
  - by apply (flight_rmw i pc v).
  - apply closing_app; [|done]. by intros [? _].
  - intros k q u n a [(-> & [= <- <-] & _)|[_ Hk]]%list_lookup_insert_Some Hn; [congruence|].
    destruct (H5 k q u n a Hk Hn) as (m0 & ? & ? & ?). exists m0. split; [apply in_snoc; by left|done].
  - intros j u n a Hj. destruct (H6 j u n a Hj) as (m0 & ? & ?). exists m0. split; [apply in_snoc; by left|done].
  - intros j u n a Hf Hj. apply (leased_insert _ _ _ _ _ _ Hi); [|by eapply H7]. unfold leased. simpl. by rewrite Hlease.
Qed.

(** The newest flag is set while a pass owns it. *)
Lemma newest_closed fresh r s j pc v n m : lease_inv fresh r s → l_evs s !! j = Some (pc, v) → owner_mark pc = Some n →
  m ∈ l_mem s → ms_cell m = Closing → ms_at m = newest Closing (l_mem s) → ms_val m = 1.
Proof.
  intros H Hj Hn Hm Hc Hmax. destruct (cl_mark _ _ (li_closing _ _ _ H) j pc v n Hj Hn) as (_ & Hold & m0 & Hm0 & Hc0 & Ha).
  destruct (decide (ms_val m = 1)) as [?|Hv]; [done|]. specialize (Hold m Hm (conj Hc Hv)). pose proof (newest_ge Closing m0 _ Hm0 Hc0). lia.
Qed.

Lemma request_inv fresh r s i at_ t pc v pc' v' mem : Z.of_nat r < 2 ^ 64 →
  lease_inv fresh r s → l_reqs s !! i = Some (pc, v) → request_step fresh (l_now s) at_ t pc v (l_mem s) = Some (pc', v', mem) →
  lease_inv fresh r (LState mem (l_now s) (<[i := (pc', v')]> (l_reqs s)) (l_evs s)).
Proof.
  intros Hr H Hi Hs.
  assert (∀ n a, lease_of pc = Some (n, a) → ∃ m, m ∈ l_mem s ∧ clear_flag m ∧ ms_at m = a) as Hsaw by (intros n a; by apply (li_saw _ _ _ H i pc v)).
  destruct pc as [| |n|n| |n a|n a|n a|]; simpl in Hs; try done.
  - destruct (load _ _ _ _ _) as [[x u]|] eqn:Hl; [|done]. injection Hs as <- <- <-.
    apply (request_moves _ _ _ i RStart v); try done; [by left|by destruct (x =? 1)|by destruct (x =? 1)|by destruct (x =? 1)].
  - destruct (rmw _ _ _ _ _ _ _) as [[[x u] mem']|] eqn:Hl; [|done]. injection Hs as <- <- <-.
    apply rmw_spec in Hl as (m & ? & ? & <- & <- & ? & ? & -> & _); [|apply H].
    apply (request_counts _ _ _ i RChecked v); try done. by left.
  - destruct (load _ _ _ _ _) as [[x u]|] eqn:Hl; [|done]. injection Hs as <- <- <-. apply load_spec in Hl as (m & Hm & Hc & <- & <- & _ & Hnew).
    apply (request_moves _ _ _ i (RCounted n) v); try done; [by left|by destruct (_ =? 1)| |].
    + intros n' a'. destruct (ms_val m =? 1) eqn:E; [done|]. intros [= <- <-]. exists m. split; [done|]. split; [|done]. split; [done|lia].
    + intros Hf (j & w & n' & a' & Hj). rewrite (newest_closed fresh r s j _ w n' m) by (done || by apply Hnew). done.
  - destruct (rmw _ _ _ _ _ _ _) as [[[x u] mem']|] eqn:Hl; [|done]. injection Hs as <- <- <-.
    apply rmw_spec in Hl as (m & ? & ? & <- & <- & ? & ? & -> & _); [|apply H].
    apply (request_counts _ _ _ i (RUndo n) v); try done. right. split_and!; [by eexists|done|done].
  - destruct (store _ _ _ _ _ _) as [[u mem']|] eqn:Hl; [|done]. injection Hs as <- <- <-. apply store_spec in Hl as (-> & _).
    apply (request_moves _ _ _ i (RPassed n a) v); try done. right. by eexists.
  - destruct (store _ _ _ _ _ _) as [[u mem']|] eqn:Hl; [|done]. injection Hs as <- <- <-. apply store_spec in Hl as (-> & _).
    apply (request_moves _ _ _ i (RHeld n a) v); try done. right. by eexists.
  - destruct (rmw _ _ _ _ _ _ _) as [[[x u] mem']|] eqn:Hl; [|done]. injection Hs as <- <- <-.
    apply rmw_spec in Hl as (m & ? & ? & <- & <- & ? & ? & -> & _); [|apply H].
    apply (request_counts _ _ _ i (RDropping n a) v); try done. right. split_and!; [by eexists|done|done].
Qed.

Lemma newest_open c m mem : ordered mem → ms_cell m = c → ms_at m = newest c mem → open_end m mem.
Proof. intros Ho Hc Hn (m' & Hin & Hc' & Hf). pose proof (Ho m' _ Hin Hf). rewrite Hc in Hc'. pose proof (newest_ge c m' mem Hin Hc'). lia. Qed.

(** A pass that moves without a message. *)
Lemma evict_moves fresh r s j pc v pc' (v' : view) :
  lease_inv fresh r s → l_evs s !! j = Some (pc, v) → owner_mark pc' = owner_mark pc → (∀ c, v c ≤ v' c) →
  (∀ n a, pc' = EEvicted n a → (∃ m, m ∈ l_mem s ∧ ms_cell m = InFlight ∧ ms_at m = a ∧ ms_val m = 0) ∧ (fresh = true → count leased (l_reqs s) = 0)) →
  lease_inv fresh r (LState (l_mem s) (l_now s) (l_reqs s) (<[j := (pc', v')]> (l_evs s))).
Proof.
  intros [H1 H2 H3 H4 H5 H6 H7] Hj Hpc Hv Hev. split; simpl; try done.
  - by apply (closing_keep _ _ _ _ _ _ _ Hj).
  - intros k w n a [(-> & [= -> <-] & _)|[_ Hk]]%list_lookup_insert_Some; [by apply (Hev n a)|by eapply H6].
  - intros k w n a Hf [(-> & [= -> <-] & _)|[_ Hk]]%list_lookup_insert_Some; [by apply (Hev n a)|by eapply H7].
Qed.

(** A pass that takes the flag or clears it. *)
Lemma evict_writes fresh r s j pc v pc' (v' : view) x :
  lease_inv fresh r s → l_evs s !! j = Some (pc, v) → ms_cell x = Closing → (∀ f, ms_from x = Some f → f < ms_at x) →
  closing_inv (l_mem s ++ [x]) (<[j := (pc', v')]> (l_evs s)) → (∀ n a, pc' ≠ EEvicted n a) →
  lease_inv fresh r (LState (l_mem s ++ [x]) (l_now s) (l_reqs s) (<[j := (pc', v')]> (l_evs s))).
Proof.
  intros [H1 H2 H3 H4 H5 H6 H7] Hj Hx Hf Hcl Hev. split; simpl; try done.
  - by apply ordered_app.
  - apply flight_app; [by rewrite Hx|done].
  - intros i q u n a Hi Hn. destruct (H5 i q u n a Hi Hn) as (m & ? & ?). exists m. split; [apply in_snoc; by left|done].
  - intros k w n a [(-> & [= -> <-] & _)|[_ Hk]]%list_lookup_insert_Some; [by destruct (Hev n a)|].
    destruct (H6 k w n a Hk) as (m & ? & ?). exists m. split; [apply in_snoc; by left|done].
  - intros k w n a Hfr [(-> & [= -> <-] & _)|[_ Hk]]%list_lookup_insert_Some; [by destruct (Hev n a)|by eapply H7].
Qed.

Lemma evict_inv fresh r s j at_ t pc v pc' v' mem :
  lease_inv fresh r s → l_evs s !! j = Some (pc, v) → evict_step fresh (l_now s) at_ t pc v (l_mem s) = Some (pc', v', mem) →
  lease_inv fresh r (LState mem (l_now s) (l_reqs s) (<[j := (pc', v')]> (l_evs s))).
Proof.
  intros H Hj Hs. destruct pc as [|now| |n|n| |]; simpl in Hs; try done.
  - injection Hs as <- <- <-. by apply (evict_moves _ _ _ j EStart v).
  - destruct (load _ _ _ _ _) as [[x u]|] eqn:Hl; [|done]. injection Hs as <- <- <-. apply load_spec in Hl as (_ & _ & _ & _ & _ & Hv & _).
    apply (evict_moves _ _ _ j (ECalled now) v); try done; [by destruct (_ <? _)|]. intros n a. by destruct (_ <? _).
  - destruct (load _ _ _ _ _) as [[x u]|] eqn:Hl; [|done]. simpl in Hs. destruct (x =? 1) eqn:Hx.
    + injection Hs as <- <- <-. apply load_spec in Hl as (_ & _ & _ & _ & _ & Hv & _). by apply (evict_moves _ _ _ j EIdle v).
    + destruct (rmw _ _ _ _ _ _ _) as [[[y w] mem']|] eqn:Hw; [|done]. injection Hs as <- <- <-.
      pose proof Hl as Hl'. unfold load in Hl'. unfold rmw in Hw.
      destruct (pick fresh Closing at_ v (l_mem s)) as [m0|] eqn:Hp; [|done]. injection Hl' as Hval _.
      assert (rmw fresh Closing at_ t (λ _, 1) v (l_mem s) = Some (y, w, mem')) as Hw' by (unfold rmw; by rewrite Hp).
      assert (ms_val m0 = y) as Hy by (revert Hw; simpl; destruct (_ && _); [|done]; by intros [= <- _ _]).
      apply rmw_spec in Hw' as (m & Hm & Hc & Ha & Hv0 & Ho & Ht & -> & Hle & Hvt & _); [|apply H]. subst at_.
      apply (evict_writes _ _ _ j EIdle v); try done; [by intros f [= <-]|].
      apply (closing_take j EIdle v w m t w); try done; [split; [done|]|apply H]. apply Z.eqb_neq in Hx. congruence.
  - destruct (load _ _ _ _ _) as [[x u]|] eqn:Hl; [|done]. injection Hs as <- <- <-.
    apply load_spec in Hl as (m & Hm & Hc & Ha & Hx & Hv & Hnew).
    apply (evict_moves _ _ _ j (EOwn n) v); try done; [by destruct (x =? 0)|]. intros n' a'. destruct (x =? 0) eqn:E; [|done]. intros [= <- <-].
    apply Z.eqb_eq in E. split; [exists m; split_and!; congruence|]. intros Hf. specialize (Hnew Hf).
    destruct (fl_last _ _ (li_flight _ _ _ H) m Hm Hc) as [Hcnt _]; [apply (newest_open InFlight); [apply H|done|congruence]|].
    pose proof (count_le leased counted (l_reqs s)) as Hle. pose proof (count_range leased (l_reqs s)).
    assert (count leased (l_reqs s) ≤ count counted (l_reqs s)); [|lia]. apply Hle. unfold leased, counted. intros [q w]. by destruct q.
  - destruct (store _ _ _ _ _ _) as [[u mem']|] eqn:Hl; [|done]. injection Hs as <- <- <-. apply store_spec in Hl as (-> & Ht & _).
    apply (evict_writes _ _ _ j (EReset n) v); try done. apply (closing_clear j v u n); [done|done|apply H].
Qed.

Lemma lease_move_inv fresh r m s s' : Z.of_nat r < 2 ^ 64 → lease_inv fresh r s → lease_move fresh m s = Some s' → lease_inv fresh r s'.
Proof.
  intros Hr H. destruct m as [i at_ t|j at_ t|t|d]; simpl.
  - destruct (l_reqs s !! i) as [[pc v]|] eqn:Hi; [|done]. simpl. destruct (request_step _ _ _ _ _ _ _) as [[[pc' v'] mem]|] eqn:Hs; [|done].
    intros [= <-]. by eapply request_inv.
  - destruct (l_evs s !! j) as [[pc v]|] eqn:Hj; [|done]. simpl. destruct (evict_step _ _ _ _ _ _ _) as [[[pc' v'] mem]|] eqn:Hs; [|done].
    intros [= <-]. by eapply evict_inv.
  - destruct (store _ _ _ _ _ _) as [[v mem]|] eqn:Hs; [|done]. intros [= <-]. apply store_spec in Hs as (-> & _).
    destruct H as [H1 H2 H3 H4 H5 H6 H7]. split; simpl; try done.
    + by apply ordered_app.
    + by apply flight_app.
    + apply closing_app; [|done]. by intros [].
    + intros i pc w n a Hi Hn. destruct (H5 i pc w n a Hi Hn) as (m & ? & ?). exists m. split; [apply in_snoc; by left|done].
    + intros j w n a Hj. destruct (H6 j w n a Hj) as (m & ? & ?). exists m. split; [apply in_snoc; by left|done].
  - intros [= <-]. destruct H as [H1 H2 H3 H4 H5 H6 H7]. by split.
Qed.

Lemma lease_init_inv fresh r e now : lease_inv fresh r (lease_init r e now).
Proof.
  assert (∀ i th, replicate r (RStart, nothing_seen) !! i = Some th → th = (RStart, nothing_seen)) as Hr by (by intros i th [-> _]%lookup_replicate).
  assert (∀ j th, replicate e (EStart, nothing_seen) !! j = Some th → th = (EStart, nothing_seen)) as He by (by intros j th [-> _]%lookup_replicate).
  split; simpl.
  - intros m f Hm Hf. repeat (apply elem_of_cons in Hm as [->|Hm]; [done|]). by apply elem_of_nil in Hm.
  - by rewrite length_replicate.
  - split; [| |by intros i pc v n [= -> ->]%Hr].
    + intros m Hm Hc _. rewrite count_replicate by done.
      assert (∀ m, m ∈ l_mem (lease_init r e now) → ms_cell m = InFlight → ms_val m = 0 ∧ ms_at m = 0) as Hall.
      { intros m0 H0 Hc0. simpl in H0. repeat (apply elem_of_cons in H0 as [->|H0]; [done|]). by apply elem_of_nil in H0. }
      destruct (Hall m Hm Hc) as [-> ->]. split; [done|]. intros m' Hm' Hc'. by destruct (Hall m' Hm' Hc') as [_ ->].
    + intros m Hm Hc. rewrite count_replicate by done. repeat (apply elem_of_cons in Hm as [->|Hm]; [done|]). by apply elem_of_nil in Hm.
  - split; [rewrite count_replicate by done; lia| |by intros j pc v n [= -> ->]%He].
    intros m Hm Hc. right. rewrite count_replicate by done. split; [done|]. intros m' Hm' Hc'.
    assert (∀ m, m ∈ l_mem (lease_init r e now) → ms_at m = 0) as Hall.
    { intros m0 H0. simpl in H0. repeat (apply elem_of_cons in H0 as [->|H0]; [done|]). by apply elem_of_nil in H0. }
    by rewrite (Hall m Hm), (Hall m' Hm').
  - by intros i pc v n a [= -> ->]%Hr.
  - by intros j v n a [= ]%He.
  - by intros j v n a _ [= ]%He.
Qed.

Lemma run_lease_inv fresh r ms s s' : Z.of_nat r < 2 ^ 64 → lease_inv fresh r s → run_lease fresh ms s = Some s' → lease_inv fresh r s'.
Proof.
  intros Hr. revert s. induction ms as [|m ms IH]; intros s H Hrun; simpl in Hrun; [by injection Hrun as <-|].
  destruct (lease_move fresh m s) as [s1|] eqn:E; [|done]. simpl in Hrun. apply (IH s1); [by eapply lease_move_inv|done].
Qed.

(** C4: a lease and an eviction meet only when neither saw the other.  For any number of
    requests and eviction passes on a fresh actor, in every run on release/acquire memory with
    closings and the passing of time: if a pass has answered [true] and a request still holds
    a lease, then the request read a flag that is older than the closing of the pass, the
    pass read a counter that is older than the increment of the request, and the operations
    are not on the newest messages.  So with [SeqCst], or on a machine whose
    read-modify-writes are full fences, no actor is evicted under a request; with the
    [Acquire]/[Release] of the code it can be, which the witness shows. *)
Theorem lease_and_eviction_miss_each_other fresh r e now ms s i j pc v w n saw mark read :
  Z.of_nat r < 2 ^ 64 → run_lease fresh ms (lease_init r e now) = Some s →
  l_evs s !! j = Some (EEvicted mark read, w) → l_reqs s !! i = Some (pc, v) → lease_of pc = Some (n, saw) →
  fresh = false ∧ saw < mark ∧ read < n.
Proof.
  intros Hr Hrun Hj Hi Hl. pose proof (run_lease_inv _ _ _ _ _ Hr (lease_init_inv fresh r e now) Hrun) as [_ _ H3 H4 H5 H6 H7]. split_and!.
  - destruct fresh; [|done]. specialize (H7 j w mark read eq_refl Hj).
    assert (leased (pc, v) = true) as Hle by (unfold leased; simpl; by rewrite Hl). pose proof (count_some _ _ _ _ Hi Hle). lia.
  - destruct (H5 i pc v n saw Hi Hl) as (m & Hm & Hc & <-). destruct (cl_mark _ _ H4 j _ w mark Hj eq_refl) as (_ & Hold & _). by apply Hold.
  - destruct (H6 j w mark read Hj) as (m & Hm & Hc & <- & H0). pose proof (fl_value _ _ H3 m Hm Hc) as Hv. rewrite H0 in Hv.
    destruct (decide (n ≤ ms_at m)) as [Hle|]; [|lia]. exfalso.
    assert (counted_by (ms_at m) (pc, v) = true) as Hcb.
    { unfold counted_by. simpl. assert (count_time pc = Some n) as -> by (by destruct pc; simplify_eq/=). by apply Z.leb_le. }
    pose proof (count_some _ _ _ _ Hi Hcb). lia.
Qed.

(** The request and the pass each miss what the other has written: the pass closes at 1 and
    reads the counter 0, the request counts itself at 1 and reads the flag 0. *)
Definition missed_run : list move :=
  [MTick 7200; MEvict 0 0 0; MEvict 0 0 0; MRequest 0 0 0; MEvict 0 0 1; MRequest 0 0 1; MEvict 0 0 0; MRequest 0 0 0; MRequest 0 0 1].

Lemma lease_and_eviction_miss_each_other_witness :
  ∃ s v w, run_lease false missed_run (lease_init 1 1 0) = Some s ∧
    l_evs s !! 0%nat = Some (EEvicted 1 0, w) ∧ l_reqs s !! 0%nat = Some (RHeld 1 0, v) ∧ (false = false ∧ 0 < 1 ∧ 0 < 1).
Proof.
  eexists _, _, _. split; [reflexivity|]. split; [reflexivity|]. split; [reflexivity|].
  assert (Z.of_nat 1 < 2 ^ 64) as Hr by reflexivity.
  exact (lease_and_eviction_miss_each_other false 1 1 0 missed_run _ 0 0 _ _ _ 1 0 1 0 Hr eq_refl eq_refl eq_refl eq_refl).
Defined.

(** Closing a show can be undone by an eviction pass, even on the newest messages.  There is a
    run in which [mark_schedule_closed] has set the closing flag and every eviction pass has
    finished, yet the flag is clear and a request that begins afterwards holds a lease on the
    closed show. *)
Theorem close_lost_to_eviction_pass :
  ∃ before s after,
    run_lease true (before ++ [MClose 2]) (lease_init 2 1 0) = Some s ∧
    fst <$> l_reqs s !! 1%nat = Some RStart ∧
    (s' ← run_lease true after s; Some (fst <$> l_reqs s' !! 1%nat, fst <$> l_evs s' !! 0%nat)) = Some (Some (RHeld 2 3), Some EKept).
Proof.
  exists [MRequest 0 0 0; MRequest 0 0 1; MRequest 0 0 0; MRequest 0 0 1; MTick 7200; MEvict 0 0 0; MEvict 0 1 0; MEvict 0 0 1].
  eexists. exists [MEvict 0 1 0; MEvict 0 0 3; MRequest 1 3 0; MRequest 1 1 2; MRequest 1 3 0; MRequest 1 0 2].
  split; [reflexivity|]. split; [reflexivity|]. vm_compute. reflexivity.
Qed.
