(* ===== verification/Events.v ===== *)
(** * Events: the messages of the services and their JSON
    ([PubSubEvent] of [packages/redis-conn/src/adapter.rs]; [QueueEntry] and
    [SeatLockMessage] of the gateway and the lock server)

    The encoders and decoders are those serde derives for the types: an object with a
    field per struct field, an [event] field for the variant of an internally tagged
    enum, unknown fields ignored, a missing or repeated field an error, and a struct also
    readable from an array of its fields. *)

From S2P Require Import Prelude Text RedisMem.

#[local] Open Scope string_scope.

(** ** Decoders *)

Definition de_i32 (j : json) : option Z := match j with JNum n => i32_checked n | _ => None end.
Definition de_i64 (j : json) : option Z :=
  match j with JNum n => if (- 2 ^ 63 <=? n)%Z && (n <? 2 ^ 63)%Z then Some n else None | _ => None end.
Definition de_bool (j : json) : option bool := match j with JBool b => Some b | _ => None end.
Definition de_str (j : json) : option string := match j with JStr s => Some s | _ => None end.
Definition de_vec {A} (de : json → option A) (j : json) : option (list A) :=
  match j with JArr l => mapM de l | _ => None end.

(** The value of a field of an object: exactly one. *)
Definition field (k : string) (l : list (string * json)) : option json :=
  match filter (λ kv, kv.1 = k) l with [(_, v)] => Some v | _ => None end.

(** The fields of a struct, in order, from an object or from an array. *)
Definition struct_fields (names : list string) (j : json) : option (list json) :=
  match j with
  | JObj l => mapM (λ k, field k l) names
  | JArr l => if bool_decide (length l = length names) then Some l else None
  | _ => None
  end.

(** ** The delayed-queue entry *)

Record queue_item := QueueEntry { q_seat_id : Z; q_schedule_id : Z; q_user_id : Z }.

Definition de_queue_entry (j : json) : option queue_item :=
  fs ← struct_fields ["seat_id"; "schedule_id"; "user_id"] j;
  match fs with
  | [a; b; c] => a ← de_i32 a; b ← de_i32 b; c ← de_i32 c; Some (QueueEntry a b c)
  | _ => None
  end.

(** ** The message of the locking queue *)

Record seat_lock_message := SeatLockMessage {
  m_action : string; m_user_id : Z; m_showtime_id : Z; m_seat_ids : list Z; m_timestamp : Z
}.

Definition default_action : string := "lock".

Definition seat_lock_message_json (m : seat_lock_message) : json :=
  JObj [("action", JStr (m_action m)); ("user_id", JNum (m_user_id m)); ("showtime_id", JNum (m_showtime_id m));
        ("seat_ids", JArr (map JNum (m_seat_ids m))); ("timestamp", JNum (m_timestamp m))].

(** [#[serde(default = "default_action")]] on the first field: in an object it may be
    missing. *)
Definition de_seat_lock_message (j : json) : option seat_lock_message :=
  let read (action : string) (fs : list json) :=
    match fs with
    | [u; s; l; t] =>
        u ← de_i32 u; s ← de_i32 s; l ← de_vec de_i32 l; t ← de_i64 t; Some (SeatLockMessage action u s l t)
    | _ => None
    end in
  match j with
  | JObj l =>
      action ← (match filter (λ kv, kv.1 = "action") l with
                | [] => Some default_action
                | [(_, v)] => de_str v
                | _ => None
                end);
      fs ← mapM (λ k, field k l) ["user_id"; "showtime_id"; "seat_ids"; "timestamp"];
      read action fs
  | JArr (a :: fs) => action ← de_str a; read action fs
  | _ => None
  end.

(** ** Pub/Sub events *)

Inductive pubsub_event :=
  | Register (user_id : Z) (socket_id : string)
  | Disconnect (user_id : Z) (socket_id : string)
  | SeatLocked (user_id showtime_id seat_id : Z)
  | SeatUnlocked (user_id showtime_id seat_id : Z)
  | LockSlotsResponse (user_id showtime_id : Z) (success : bool) (locked_seat_ids failed_seat_ids : list Z)
  | PaymentConfirmed (user_id showtime_id : Z) (seat_ids : list Z)
  | PaymentTimeout (showtime_id : Z) (seat_ids : list Z)
  | ScheduleOpened (schedule_id : Z)
  | ScheduleClosed (schedule_id : Z).

(** The tag of a variant, and its fields. *)
Definition event_tag (e : pubsub_event) : string :=
  match e with
  | Register _ _ => "Register" | Disconnect _ _ => "Disconnect"
  | SeatLocked _ _ _ => "SeatLocked" | SeatUnlocked _ _ _ => "SeatUnlocked"
  | LockSlotsResponse _ _ _ _ _ => "LockSlotsResponse" | PaymentConfirmed _ _ _ => "PaymentConfirmed"
  | PaymentTimeout _ _ => "PaymentTimeout" | ScheduleOpened _ => "ScheduleOpened" | ScheduleClosed _ => "ScheduleClosed"
  end.

Definition event_fields (e : pubsub_event) : list (string * json) :=
  match e with
  | Register u s | Disconnect u s => [("user_id", JNum u); ("socket_id", JStr s)]
  | SeatLocked u s t | SeatUnlocked u s t => [("user_id", JNum u); ("showtime_id", JNum s); ("seat_id", JNum t)]
  | LockSlotsResponse u s ok l f =>
      [("user_id", JNum u); ("showtime_id", JNum s); ("success", JBool ok);
       ("locked_seat_ids", JArr (map JNum l)); ("failed_seat_ids", JArr (map JNum f))]
  | PaymentConfirmed u s l => [("user_id", JNum u); ("showtime_id", JNum s); ("seat_ids", JArr (map JNum l))]
  | PaymentTimeout s l => [("showtime_id", JNum s); ("seat_ids", JArr (map JNum l))]
  | ScheduleOpened s | ScheduleClosed s => [("schedule_id", JNum s)]
  end.

Definition event_json (e : pubsub_event) : json := JObj (("event", JStr (event_tag e)) :: event_fields e).

(** The field names of a variant. *)
Definition tag_fields (tag : string) : option (list string) :=
  if bool_decide (tag ∈ ["Register"; "Disconnect"]) then Some ["user_id"; "socket_id"]
  else if bool_decide (tag ∈ ["SeatLocked"; "SeatUnlocked"]) then Some ["user_id"; "showtime_id"; "seat_id"]
  else if bool_decide (tag = "LockSlotsResponse")
    then Some ["user_id"; "showtime_id"; "success"; "locked_seat_ids"; "failed_seat_ids"]
  else if bool_decide (tag = "PaymentConfirmed") then Some ["user_id"; "showtime_id"; "seat_ids"]
  else if bool_decide (tag = "PaymentTimeout") then Some ["showtime_id"; "seat_ids"]
  else if bool_decide (tag ∈ ["ScheduleOpened"; "ScheduleClosed"]) then Some ["schedule_id"]
  else None.

Definition de_variant (tag : string) (fs : list json) : option pubsub_event :=
  match fs with
  | [a; b] =>
      if bool_decide (tag = "PaymentTimeout") then s ← de_i32 a; l ← de_vec de_i32 b; Some (PaymentTimeout s l)
      else u ← de_i32 a; s ← de_str b;
           Some (if bool_decide (tag = "Register") then Register u s else Disconnect u s)
  | [a; b; c] =>
      u ← de_i32 a; s ← de_i32 b;
      if bool_decide (tag = "PaymentConfirmed") then l ← de_vec de_i32 c; Some (PaymentConfirmed u s l)
      else t ← de_i32 c; Some (if bool_decide (tag = "SeatLocked") then SeatLocked u s t else SeatUnlocked u s t)
  | [a; b; c; d; e] =>
      u ← de_i32 a; s ← de_i32 b; ok ← de_bool c; l ← de_vec de_i32 d; f ← de_vec de_i32 e;
      Some (LockSlotsResponse u s ok l f)
  | [a] => s ← de_i32 a; Some (if bool_decide (tag = "ScheduleOpened") then ScheduleOpened s else ScheduleClosed s)
  | _ => None
  end.

(** The tag and the rest: an object has one [event] field, an array starts with the
    tag. *)
Definition de_event (j : json) : option pubsub_event :=
  match j with
  | JObj l =>
      tag ← field "event" l; tag ← de_str tag; names ← tag_fields tag;
      fs ← mapM (λ k, field k l) names; de_variant tag fs
  | JArr (t :: l) =>
      tag ← de_str t; names ← tag_fields tag;
      if bool_decide (length l = length names) then de_variant tag l else None
  | _ => None
  end.

(** ** Round trips *)

Definition event_ok (e : pubsub_event) : bool :=
  match e with
  | Register u _ | Disconnect u _ => in_i32 u
  | SeatLocked u s t | SeatUnlocked u s t => in_i32 u && in_i32 s && in_i32 t
  | LockSlotsResponse u s _ l f => in_i32 u && in_i32 s && forallb in_i32 l && forallb in_i32 f
  | PaymentConfirmed u s l => in_i32 u && in_i32 s && forallb in_i32 l
  | PaymentTimeout s l => in_i32 s && forallb in_i32 l
  | ScheduleOpened s | ScheduleClosed s => in_i32 s
  end.

Lemma de_i32_num z : in_i32 z = true → de_i32 (JNum z) = Some z.
Proof. intros H. unfold de_i32, i32_checked. by rewrite H. Qed.

Lemma de_vec_nums l : forallb in_i32 l = true → de_vec de_i32 (JArr (map JNum l)) = Some l.
Proof.
  intros H. cbn [de_vec]. induction l as [|z l IH]; [done|].
  apply andb_true_iff in H as [Hz Hl]. cbn [map mapM]. rewrite de_i32_num, IH by done. done.
Qed.

Lemma json_ok_i64 d z : (- 2 ^ 63 <=? z)%Z && (z <? 2 ^ 63)%Z = true → json_ok_at d (JNum z) = true.
Proof.
  intros [H1%Z.leb_le H2%Z.ltb_lt]%andb_true_iff. destruct d; cbn [json_ok_at];
    by rewrite (proj2 (Z.leb_le _ _)), (proj2 (Z.ltb_lt _ _)) by lia.
Qed.

Lemma json_ok_num d z : in_i32 z = true → json_ok_at d (JNum z) = true.
Proof.
  rewrite in_i32_true. unfold i32_min, i32_max. intros Hz. apply json_ok_i64.
  by rewrite (proj2 (Z.leb_le _ _)), (proj2 (Z.ltb_lt _ _)) by lia.
Qed.

Lemma json_ok_nums d l : forallb in_i32 l = true → json_ok_at (S d) (JArr (map JNum l)) = true.
Proof.
  intros H. cbn [json_ok_at]. induction l as [|z l IH]; [done|]. apply andb_true_iff in H as [Hz Hl].
  cbn [map forallb]. by rewrite IH, json_ok_num by done.
Qed.

(** An object of distinct keys, one level deep in what [json_ok_at] has left. *)
Lemma json_ok_obj d l :
  bool_decide (NoDup (map fst l)) = true → Forall (λ kv, json_ok_at d kv.2 = true) l →
  json_ok_at (S d) (JObj l) = true.
Proof.
  intros Hn Hl. cbn [json_ok_at]. rewrite Hn. cbn [andb]. rewrite forallb_forall. intros x Hx.
  rewrite Forall_forall in Hl. apply Hl. by apply list_elem_of_In.
Qed.

Ltac json_ok_leaves :=
  apply json_ok_obj;
  [vm_compute; reflexivity
  |repeat first [apply List.Forall_nil | apply List.Forall_cons];
   cbn [snd]; solve [reflexivity | by apply json_ok_num | by apply json_ok_nums | by apply json_ok_i64]].

Ltac split_ok H := rewrite ?andb_true_iff in H; destruct_and? H.

Lemma de_event_json e : event_ok e = true → de_event (event_json e) = Some e.
Proof.
  intros H. destruct e; cbn [event_ok] in H; split_ok H; cbv -[de_i32 de_vec map];
    rewrite ?de_i32_num, ?de_vec_nums by done; reflexivity.
Qed.

Lemma event_json_ok e : event_ok e = true → json_ok (event_json e) = true.
Proof.
  intros H. unfold json_ok.
  destruct e; cbn [event_ok] in H; split_ok H; unfold event_json; cbn [event_tag event_fields]; json_ok_leaves.
Qed.

Section json_text.
Context {HJ : JsonText}.

(** [serde_json::to_string(&event)] and [from_str]. *)
Definition event_text (e : pubsub_event) : string := json_print (event_json e).
Definition parse_event (s : string) : option pubsub_event := json_parse s ≫= de_event.
Definition parse_queue_entry (s : string) : option queue_item := json_parse s ≫= de_queue_entry.
Definition parse_seat_lock_message (s : string) : option seat_lock_message := json_parse s ≫= de_seat_lock_message.

Lemma parse_event_text e : event_ok e = true → parse_event (event_text e) = Some e.
Proof.
  intros H. unfold parse_event, event_text. rewrite json_parse_print by by apply event_json_ok.
  by apply de_event_json.
Qed.

Definition message_ok (m : seat_lock_message) : bool :=
  in_i32 (m_user_id m) && in_i32 (m_showtime_id m) && forallb in_i32 (m_seat_ids m) &&
  ((- 2 ^ 63 <=? m_timestamp m) && (m_timestamp m <? 2 ^ 63))%Z.

Lemma parse_message_text m :
  message_ok m = true → parse_seat_lock_message (json_print (seat_lock_message_json m)) = Some m.
Proof.
  unfold message_ok. intros H. split_ok H. destruct m as [a u s l t]; cbn [m_user_id m_showtime_id m_seat_ids m_timestamp] in *.
  unfold parse_seat_lock_message. rewrite json_parse_print.
  - cbv -[de_i32 de_vec map de_i64]. rewrite ?de_i32_num, ?de_vec_nums by done.
    unfold de_i64. by repeat match goal with H : _ = true |- _ => rewrite H; clear H end.
  - unfold json_ok, seat_lock_message_json. cbn [m_action m_user_id m_showtime_id m_seat_ids m_timestamp].
    assert ((- 2 ^ 63 <=? t)%Z && (t <? 2 ^ 63)%Z = true) by (by apply andb_true_iff). json_ok_leaves.
Qed.

(** C39: what the services send is what they read.  Every Pub/Sub event and every
    message of the locking queue whose ids are [i32] values decodes, from its JSON
    text, to itself. *)
Theorem messages_round_trip e m :
  event_ok e = true → message_ok m = true →
  parse_event (event_text e) = Some e ∧
  parse_seat_lock_message (json_print (seat_lock_message_json m)) = Some m.
Proof. intros He Hm. split; [by apply parse_event_text|by apply parse_message_text]. Qed.
End json_text.

Lemma messages_round_trip_witness :
  let e := LockSlotsResponse 7 3 false [4; -5] [6] in
  let m := SeatLockMessage "unlock" 7 3 [4; 5] 1700000000 in
  parse_event (HJ := mem_json) (event_text e) = Some e ∧
  parse_seat_lock_message (HJ := mem_json) (json_print (seat_lock_message_json m)) = Some m.
Proof. refine (messages_round_trip (HJ := mem_json) _ _ _ _); vm_compute; reflexivity. Defined.
