(* ===== verification/SocketAdapter.v ===== *)
(** * SocketAdapter: rooms, users and sockets of one WebSocket server
    ([packages/redis-conn/src/adapter.rs])

    The adapter keeps four concurrent maps and relays Pub/Sub messages to sockets.  A
    sender ([UnboundedSender]) is the number of its channel, and [sent] is the log of what
    was sent, in order; the receivers are in [WsServer].  The iteration order of a set of
    sockets is not specified: theorems speak of the messages of each channel. *)

From stdpp Require Import gmap sets.
From S2P Require Import Prelude Text Keys Events RedisMem.

#[local] Open Scope string_scope.

Record adapter := RedisSocketAdapter {
  sockets : gmap string nat;
  user_sockets : gmap Z (gset string);
  show_sockets : gmap Z (gset string);
  socket_shows : gmap string (gset Z);
  sent : list (nat * string)
}.

Definition adapter_new : adapter := RedisSocketAdapter ∅ ∅ ∅ ∅ [].

(** ** The maps *)

(** [entry(k).or_default().insert(x)], and [if let Some(set) = get(k) { set.remove(x) }]. *)
Definition insert_in {K A} `{Countable K, Countable A} (k : K) (x : A) (m : gmap K (gset A)) : gmap K (gset A) :=
  <[k := {[x]} ∪ default ∅ (m !! k)]> m.
Definition remove_in {K A} `{Countable K, Countable A} (k : K) (x : A) (m : gmap K (gset A)) : gmap K (gset A) :=
  alter (λ X, X ∖ {[x]}) k m.

Definition add_local_connection (socket_id : string) (user_id : Z) (tx : nat) (a : adapter) : adapter :=
  RedisSocketAdapter (<[socket_id := tx]> (sockets a)) (insert_in user_id socket_id (user_sockets a))
    (show_sockets a) (<[socket_id := ∅]> (socket_shows a)) (sent a).

Definition remove_local_connection (socket_id : string) (user_id : Z) (a : adapter) : adapter :=
  RedisSocketAdapter (delete socket_id (sockets a)) (remove_in user_id socket_id (user_sockets a))
    (match socket_shows a !! socket_id with
     | Some shows => set_fold (λ t m, remove_in t socket_id m) (show_sockets a) shows
     | None => show_sockets a
     end)
    (delete socket_id (socket_shows a)) (sent a).

Definition subscribe_local (socket_id : string) (showtime_id : Z) (a : adapter) : adapter :=
  RedisSocketAdapter (sockets a) (user_sockets a) (insert_in showtime_id socket_id (show_sockets a))
    (alter (λ X, {[showtime_id]} ∪ X) socket_id (socket_shows a)) (sent a).

Definition unsubscribe_local (socket_id : string) (showtime_id : Z) (a : adapter) : adapter :=
  RedisSocketAdapter (sockets a) (user_sockets a) (remove_in showtime_id socket_id (show_sockets a))
    (remove_in socket_id showtime_id (socket_shows a)) (sent a).

(** ** Sending *)

(** The loop over a set of socket ids: a socket that is gone is passed over. *)
Definition send_all (socket_ids : gset string) (message : string) (a : adapter) : adapter :=
  RedisSocketAdapter (sockets a) (user_sockets a) (show_sockets a) (socket_shows a)
    (sent a ++ omap (λ s, (λ tx, (tx, message)) <$> sockets a !! s) (elements socket_ids)).

Definition broadcast_to_room_local (showtime_id : Z) (message : string) (a : adapter) : adapter :=
  match show_sockets a !! showtime_id with
  | Some ids => send_all ids message a
  | None => a
  end.

Definition broadcast_to_room_excluding_user (showtime_id excluded_user_id : Z) (message : string) (a : adapter) : adapter :=
  let excluded_sockets := default ∅ (user_sockets a !! excluded_user_id) in
  match show_sockets a !! showtime_id with
  | Some ids => send_all (ids ∖ excluded_sockets) message a
  | None => a
  end.

Definition send_to_user_local (user_id : Z) (message : string) (a : adapter) : adapter :=
  match user_sockets a !! user_id with
  | Some ids => send_all ids message a
  | None => a
  end.

(** [tx.send] on one channel. *)
Definition send_on (tx : nat) (message : string) (a : adapter) : adapter :=
  RedisSocketAdapter (sockets a) (user_sockets a) (show_sockets a) (socket_shows a) (sent a ++ [(tx, message)]).

(** ** Pub/Sub *)

Definition seat_locked_note (seat_id showtime_id user_id : Z) : json :=
  JObj [("event", JStr "seat_locked"); ("seat_id", JNum seat_id); ("showtime_id", JNum showtime_id); ("user_id", JNum user_id)].
Definition seat_unlocked_note (seat_id showtime_id : Z) : json :=
  JObj [("event", JStr "seat_unlocked"); ("seat_id", JNum seat_id); ("showtime_id", JNum showtime_id)].
Definition lock_slots_note (showtime_id : Z) (success : bool) (locked failed : list Z) : json :=
  JObj [("event", JStr "lock_slots_response"); ("showtime_id", JNum showtime_id); ("success", JBool success);
        ("locked_seat_ids", JArr (map JNum locked)); ("failed_seat_ids", JArr (map JNum failed))].

Section subscriber.
Context {HJ : JsonText}.

(** The body of the loop of [run_subscriber], for one message. *)
Definition on_message (channel_name payload : string) (a : adapter) : adapter :=
  match strip_prefix "room:" channel_name with
  | Some id_str =>
      match parse_i32 id_str with
      | None => a
      | Some showtime_id =>
          match parse_event payload with
          | Some (SeatLocked user_id _ seat_id) =>
              broadcast_to_room_local showtime_id (json_print (seat_locked_note seat_id showtime_id user_id)) a
          | Some (SeatUnlocked _ _ seat_id) =>
              broadcast_to_room_local showtime_id (json_print (seat_unlocked_note seat_id showtime_id)) a
          | _ => broadcast_to_room_local showtime_id payload a
          end
      end
  | None =>
      if bool_decide (channel_name = global_events_channel) then
        match parse_event payload with
        | Some (LockSlotsResponse user_id showtime_id success locked failed) =>
            send_to_user_local user_id (json_print (lock_slots_note showtime_id success locked failed)) a
        | _ => a
        end
      else a
  end.
End subscriber.
