(* ===== verification/SocketRooms.v ===== *)
(** * SocketRooms: the adapter routes as a table of connections

    The abstract state of a WebSocket server is one table: the sockets connected, each
    with its user, its channel and its rooms.  [adapter_routes_as_table] is the
    refinement: whatever the order of connections, subscriptions and messages, the
    adapter of [SocketAdapter] sends on each channel what the table prescribes. *)

From stdpp Require Import gmap sets.
From S2P Require Import Prelude Text Keys Events RedisMem SocketAdapter.

#[local] Open Scope string_scope.
#[local] Open Scope list_scope.

Record conn := Conn { c_user : Z; c_tx : nat; c_rooms : gset Z }.

Definition with_rooms (f : gset Z → gset Z) (c : conn) : conn := Conn (c_user c) (c_tx c) (f (c_rooms c)).

(** The connections, and every socket id there has been. *)
Record table := Table { t_conns : gmap string conn; t_used : gset string }.
Definition table_new : table := Table ∅ ∅.

(** What happens to an adapter.  Events arrive on the channel of a room or on the global
    channel, as the services publish them. *)
Inductive socket_op :=
  | OpConnect (socket_id : string) (user_id : Z) (tx : nat)
  | OpDisconnect (socket_id : string) (user_id : Z)
  | OpSubscribe (socket_id : string) (showtime_id : Z)
  | OpUnsubscribe (socket_id : string) (showtime_id : Z)
  | OpToUser (user_id : Z) (message : string)
  | OpToOthers (showtime_id excluded_user_id : Z) (message : string)
  | OpRoomEvent (showtime_id : Z) (e : pubsub_event)
  | OpGlobalEvent (e : pubsub_event).

Section table.
Context {HJ : JsonText}.

Definition adapter_step (o : socket_op) (a : adapter) : adapter :=
  match o with
  | OpConnect s u tx => add_local_connection s u tx a
  | OpDisconnect s u => remove_local_connection s u a
  | OpSubscribe s t => subscribe_local s t a
  | OpUnsubscribe s t => unsubscribe_local s t a
  | OpToUser u m => send_to_user_local u m a
  | OpToOthers t u m => broadcast_to_room_excluding_user t u m a
  | OpRoomEvent t e => on_message (room_channel t) (event_text e) a
  | OpGlobalEvent e => on_message global_events_channel (event_text e) a
  end.

Definition adapter_run (os : list socket_op) (a : adapter) : adapter := foldl (λ a o, adapter_step o a) a os.

(** *** The specification *)

(** A message to the connections that satisfy [Q]. *)
Definition to_conns (Q : conn → Prop) `{∀ c, Decision (Q c)} (m : string) (p : table) : list (nat * string) :=
  (λ sc : string * conn, (c_tx sc.2, m)) <$> map_to_list (filter (λ sc, Q sc.2) (t_conns p)).

(** The text a room gets for an event. *)
Definition room_text (t : Z) (e : pubsub_event) : string :=
  match e with
  | SeatLocked u _ x => json_print (seat_locked_note x t u)
  | SeatUnlocked _ _ x => json_print (seat_unlocked_note x t)
  | _ => event_text e
  end.

Definition table_sends (o : socket_op) (p : table) : list (nat * string) :=
  match o with
  | OpToUser u m => to_conns (λ c, c_user c = u) m p
  | OpToOthers t u m => to_conns (λ c, t ∈ c_rooms c ∧ c_user c ≠ u) m p
  | OpRoomEvent t e => to_conns (λ c, t ∈ c_rooms c) (room_text t e) p
  | OpGlobalEvent (LockSlotsResponse u t ok l f) => to_conns (λ c, c_user c = u) (json_print (lock_slots_note t ok l f)) p
  | _ => []
  end.

Definition table_step (o : socket_op) (p : table) : table :=
  match o with
  | OpConnect s u tx => Table (<[s := Conn u tx ∅]> (t_conns p)) ({[s]} ∪ t_used p)
  | OpDisconnect s _ => Table (delete s (t_conns p)) (t_used p)
  | OpSubscribe s t => Table (alter (with_rooms (λ X, {[t]} ∪ X)) s (t_conns p)) (t_used p)
  | OpUnsubscribe s t => Table (alter (with_rooms (λ X, X ∖ {[t]})) s (t_conns p)) (t_used p)
  | _ => p
  end.

Fixpoint table_run (os : list socket_op) (p : table) : list (nat * string) :=
  match os with
  | [] => []
  | o :: os => table_sends o p ++ table_run os (table_step o p)
  end.

(** What the server guarantees: a socket id is a fresh UUID and disconnects with the user
    it connected with.  A subscription may come after the disconnection: the receiving
    task of a socket is aborted, not awaited. *)
Definition op_fits (o : socket_op) (p : table) : bool :=
  match o with
  | OpConnect s _ _ => bool_decide (s ∉ t_used p)
  | OpDisconnect s u => match t_conns p !! s with Some c => (c_user c =? u)%Z | None => true end
  | OpSubscribe s _ => bool_decide (s ∈ t_used p)
  | OpRoomEvent t e => in_i32 t && event_ok e
  | OpGlobalEvent e => event_ok e
  | _ => true
  end.

Fixpoint run_fits (os : list socket_op) (p : table) : bool :=
  match os with
  | [] => true
  | o :: os => op_fits o p && run_fits os (table_step o p)
  end.

(** The messages of a channel, in order. *)
Definition received (tx : nat) (l : list (nat * string)) : list string :=
  omap (λ x, if decide (x.1 = tx) then Some x.2 else None) l.

(** *** The maps *)

Lemma lookup_insert_in {K A} `{Countable K, Countable A} (k k' : K) (x y : A) m :
  y ∈ default ∅ (insert_in k x m !! k') ↔ (k' = k ∧ y = x) ∨ y ∈ default (∅ : gset A) (m !! k').
Proof.
  unfold insert_in. destruct (decide (k' = k)) as [->|Hk].
  - rewrite lookup_insert_eq. set_solver.
  - rewrite lookup_insert_ne by done. set_solver.
Qed.

Lemma lookup_remove_in {K A} `{Countable K, Countable A} (k k' : K) (x y : A) m :
  y ∈ default ∅ (remove_in k x m !! k') ↔ ¬ (k' = k ∧ y = x) ∧ y ∈ default (∅ : gset A) (m !! k').
Proof.
  unfold remove_in. destruct (decide (k' = k)) as [->|Hk].
  - rewrite lookup_alter_eq. destruct (m !! k); set_solver.
  - rewrite lookup_alter_ne by done. set_solver.
Qed.

Lemma lookup_remove_all (X : gset Z) s m t s' :
  s' ∈ default ∅ (set_fold (λ t m, remove_in t s m) m X !! t) ↔
  ¬ (t ∈ X ∧ s' = s) ∧ s' ∈ default (∅ : gset string) (m !! t).
Proof.
  revert X. refine (set_fold_ind_L (λ r X, s' ∈ default ∅ (r !! t) ↔ ¬ (t ∈ X ∧ s' = s) ∧ s' ∈ default (∅ : gset string) (m !! t)) _ _ _ _).
  - set_solver.
  - intros x X r _ IH. rewrite lookup_remove_in, IH. set_solver.
Qed.

(** *** The relation *)

Definition implements (a : adapter) (p : table) : Prop :=
  sockets a = c_tx <$> t_conns p ∧
  (∀ u s c, t_conns p !! s = Some c → s ∈ default ∅ (user_sockets a !! u) ↔ c_user c = u) ∧
  (∀ t s c, t_conns p !! s = Some c → s ∈ default ∅ (show_sockets a !! t) ↔ t ∈ c_rooms c) ∧
  socket_shows a = c_rooms <$> t_conns p ∧
  dom (t_conns p) ⊆ t_used p ∧
  (∀ u s, s ∈ default ∅ (user_sockets a !! u) → s ∈ t_used p) ∧
  (∀ t s, s ∈ default ∅ (show_sockets a !! t) → s ∈ t_used p).

Lemma implements_new : implements adapter_new table_new.
Proof. split_and!; simpl; try set_solver; by rewrite fmap_empty. Qed.

(** Sending changes no map. *)
Lemma implements_sent a p l : implements a p →
  implements (RedisSocketAdapter (sockets a) (user_sockets a) (show_sockets a) (socket_shows a) l) p.
Proof. done. Qed.

Lemma implements_connect a p s u tx : op_fits (OpConnect s u tx) p = true → implements a p →
  implements (add_local_connection s u tx a) (table_step (OpConnect s u tx) p).
Proof.
  intros Hs (H1 & H2 & H3 & H4 & H5 & H6 & H7). simpl in Hs. apply bool_decide_eq_true in Hs.
  split_and!; simpl.
  - by rewrite H1, fmap_insert.
  - intros u' s' c. rewrite lookup_insert_in, lookup_insert_Some. intros [[<- <-]|[Hne Hc]]; simpl.
    + split; [intros [[-> _]|H]; [done|]|auto]. by apply H6 in H.
    + rewrite (H2 _ _ _ Hc). naive_solver.
  - intros t s' c. rewrite lookup_insert_Some. intros [[<- <-]|[Hne Hc]]; simpl.
    + split; [intros H; by apply H7 in H|set_solver].
    + by apply H3.
  - by rewrite H4, fmap_insert.
  - rewrite dom_insert. set_solver.
  - intros u' s'. rewrite lookup_insert_in. set_solver.
  - set_solver.
Qed.

Lemma implements_disconnect a p s u : op_fits (OpDisconnect s u) p = true → implements a p →
  implements (remove_local_connection s u a) (table_step (OpDisconnect s u) p).
Proof.
  intros Hs (H1 & H2 & H3 & H4 & H5 & H6 & H7). split_and!; simpl.
  - by rewrite H1, fmap_delete.
  - intros u' s' c. rewrite lookup_delete_Some, lookup_remove_in. intros [Hne Hc].
    rewrite (H2 _ _ _ Hc). naive_solver.
  - intros t s' c. rewrite lookup_delete_Some. intros [Hne Hc].
    destruct (socket_shows a !! s); [rewrite lookup_remove_all|]; rewrite (H3 _ _ _ Hc); naive_solver.
  - by rewrite H4, fmap_delete.
  - rewrite dom_delete. set_solver.
  - intros u' s'. rewrite lookup_remove_in. intros [_ H]. by eapply H6.
  - intros t s'. destruct (socket_shows a !! s); [rewrite lookup_remove_all; intros [_ H]|intros H]; by eapply H7.
Qed.

Lemma lookup_alter_with_rooms f s (m : gmap string conn) s' c :
  alter (with_rooms f) s m !! s' = Some c →
  ∃ c0, m !! s' = Some c0 ∧ c = if decide (s = s') then with_rooms f c0 else c0.
Proof.
  rewrite lookup_alter_Some. intros [(<- & c0 & H & ->)|[Hne H]].
  - exists c0. by rewrite decide_True.
  - exists c. by rewrite decide_False.
Qed.

Lemma fmap_with_rooms {B} (g : conn → B) f s (m : gmap string conn) :
  (∀ c, g (with_rooms f c) = g c) → g <$> alter (with_rooms f) s m = g <$> m.
Proof.
  intros Hg. apply map_eq. intros i. rewrite !lookup_fmap. destruct (decide (s = i)) as [->|].
  - rewrite lookup_alter_eq. destruct (m !! i); simpl; by rewrite ?Hg.
  - by rewrite lookup_alter_ne.
Qed.

Lemma rooms_with_rooms f s (m : gmap string conn) : c_rooms <$> alter (with_rooms f) s m = alter f s (c_rooms <$> m).
Proof.
  apply map_eq. intros i. rewrite lookup_fmap. destruct (decide (s = i)) as [->|].
  - rewrite !lookup_alter_eq, lookup_fmap. by destruct (m !! i).
  - by rewrite !lookup_alter_ne, lookup_fmap.
Qed.

(** [f] changes the rooms of [s] in the table as [X] does in the sets of the rooms. *)
Lemma implements_rooms a p s f (X : gmap Z (gset string)) :
  implements a p →
  (∀ t s', s' ∈ default ∅ (X !! t) → s' ∈ t_used p) →
  (∀ t s', s' ≠ s → s' ∈ default ∅ (X !! t) ↔ s' ∈ default ∅ (show_sockets a !! t)) →
  (∀ t c, t_conns p !! s = Some c → s ∈ default ∅ (X !! t) ↔ t ∈ f (c_rooms c)) →
  implements (RedisSocketAdapter (sockets a) (user_sockets a) X (alter f s (socket_shows a)) (sent a))
    (Table (alter (with_rooms f) s (t_conns p)) (t_used p)).
Proof.
  intros (H1 & H2 & H3 & H4 & H5 & H6 & H7) HX Hne Hs. split_and!; simpl; try done.
  - by rewrite fmap_with_rooms.
  - intros u s' c Hc. apply lookup_alter_with_rooms in Hc as (c0 & Hc & ->).
    rewrite (H2 _ _ _ Hc). by case_decide.
  - intros t s' c Hc. apply lookup_alter_with_rooms in Hc as (c0 & Hc & ->).
    case_decide as Hd; [subst s'; by apply Hs|]. rewrite Hne by done. by apply H3.
  - by rewrite H4, rooms_with_rooms.
  - by rewrite dom_alter_L.
Qed.

Lemma implements_step o a p : op_fits o p = true → implements a p → implements (adapter_step o a) (table_step o p).
Proof.
  intros Ho Ha. destruct o as [s u tx|s u|s t|s t|u m|t u m|t e|e].
  - by apply implements_connect.
  - by apply implements_disconnect.
  - simpl in *. apply bool_decide_eq_true in Ho. pose proof Ha as (_ & _ & H3 & _ & _ & _ & H7).
    apply implements_rooms; [done|..].
    + intros t' s'. rewrite lookup_insert_in. intros [[_ ->]|H]; [done|by eapply H7].
    + intros t' s' Hne. rewrite lookup_insert_in. naive_solver.
    + intros t' c Hc. rewrite lookup_insert_in, (H3 _ _ _ Hc). set_solver.
  - pose proof Ha as (_ & _ & H3 & _ & _ & _ & H7). simpl. unfold unsubscribe_local, remove_in at 2.
    apply implements_rooms; [done|..].
    + intros t' s'. rewrite lookup_remove_in. intros [_ H]. by eapply H7.
    + intros t' s' Hne. rewrite lookup_remove_in. naive_solver.
    + intros t' c Hc. rewrite lookup_remove_in, (H3 _ _ _ Hc). set_solver.
  - simpl. unfold send_to_user_local. by destruct (_ !! u).
  - simpl. unfold broadcast_to_room_excluding_user. by destruct (_ !! t).
  - simpl. unfold on_message, broadcast_to_room_local. repeat case_match; done.
  - simpl. unfold on_message, send_to_user_local, broadcast_to_room_local. repeat case_match; done.
Qed.

(** *** The messages *)

Lemma omap_elements_perm {B} (p : gmap string conn) (X : gset string) (Q : conn → Prop) `{∀ c, Decision (Q c)} (f : conn → B) :
  (∀ s c, p !! s = Some c → s ∈ X ↔ Q c) →
  omap (λ s, f <$> p !! s) (elements X) ≡ₚ (λ sc : string * conn, f sc.2) <$> map_to_list (filter (λ sc, Q sc.2) p).
Proof.
  intros HX.
  assert (∀ l, omap (λ s, f <$> p !! s) l = (λ sc : string * conn, f sc.2) <$> omap (λ s, (s,.) <$> p !! s) l) as ->.
  { induction l as [|s l IH]; [done|]. simpl. destruct (p !! s); simpl; [by f_equal|done]. }
  f_equiv. apply NoDup_Permutation.
  - pose proof (NoDup_elements X) as Hnd. induction Hnd as [|s l Hs Hnd IH]; simpl; [constructor|].
    destruct (p !! s) as [c|]; simpl; [|done]. constructor; [|done].
    rewrite list_elem_of_omap. intros (s' & Hs' & E). destruct (p !! s'); simplify_eq/=. done.
  - apply NoDup_map_to_list.
  - intros [s c]. rewrite list_elem_of_omap, elem_of_map_to_list, map_lookup_filter_Some. simpl. split.
    + intros (s' & Hs' & E). destruct (p !! s') as [c'|] eqn:Hc; simplify_eq/=. split; [done|].
      apply elem_of_elements in Hs'. by apply (HX _ _ Hc).
    + intros [Hc HQ]. exists s. rewrite elem_of_elements, Hc. split; [by apply (HX _ _ Hc)|done].
Qed.

Lemma received_app tx l k : received tx (l ++ k) = received tx l ++ received tx k.
Proof. apply omap_app. Qed.

(** Two orders of the same message to several channels give each channel the same. *)
Lemma received_perm tx m (l k : list (nat * string)) :
  l ≡ₚ k → (∀ x, x ∈ k → x.2 = m) → received tx l = received tx k.
Proof.
  intros Hp Hm.
  assert (∀ l : list (nat * string), (∀ x, x ∈ l → x.2 = m) → received tx l = replicate (length (received tx l)) m) as Hr.
  { clear. induction l as [|[n x] l IH]; intros H; [done|].
    assert (x = m) as -> by (apply (H (n, x)); left). unfold received in *. simpl.
    assert (∀ y, y ∈ l → y.2 = m) as H' by (intros y Hy; apply H; by right).
    case_decide; simpl; [f_equal|]; by apply IH. }
  rewrite (Hr k) by done. rewrite (Hr l) by (intros x Hx; apply Hm; by rewrite <-Hp).
  assert (received tx l ≡ₚ received tx k) as E by (unfold received; by rewrite Hp). by rewrite E.
Qed.

Lemma received_to_conns a p X Q `{∀ c, Decision (Q c)} m tx :
  implements a p → (∀ s c, t_conns p !! s = Some c → s ∈ X ↔ Q c) →
  received tx (sent (send_all X m a)) = received tx (sent a ++ to_conns Q m p).
Proof.
  intros Ha HX. unfold send_all. simpl. rewrite !received_app. f_equal. apply (received_perm tx m).
  - destruct Ha as [-> _]. rewrite <-(omap_elements_perm (t_conns p) X Q (λ c, (c_tx c, m)) HX : _ ≡ₚ to_conns Q m p).
    assert (∀ l, omap (λ s, (λ tx, (tx, m)) <$> (c_tx <$> t_conns p) !! s) l = omap (λ s, (λ c, (c_tx c, m)) <$> t_conns p !! s) l) as ->.
    { induction l as [|s l IH]; [done|]. simpl. rewrite lookup_fmap. destruct (t_conns p !! s); simpl; [by f_equal|done]. }
    done.
  - intros x. unfold to_conns. rewrite list_elem_of_fmap. by intros (sc & -> & _).
Qed.

Lemma send_missing m a p X Q `{∀ c, Decision (Q c)} tx (o : option (gset string)) :
  implements a p → X = default ∅ o → (∀ s c, t_conns p !! s = Some c → s ∈ X ↔ Q c) →
  received tx (sent (match o with Some ids => send_all ids m a | None => a end)) = received tx (sent a ++ to_conns Q m p).
Proof.
  intros Ha HX HQ. rewrite <-(received_to_conns a p X Q m tx Ha HQ). subst X. destruct o as [ids|]; [done|].
  simpl. by rewrite elements_empty, app_nil_r.
Qed.

Lemma step_sends o a p tx : op_fits o p = true → implements a p →
  received tx (sent (adapter_step o a)) = received tx (sent a ++ table_sends o p).
Proof.
  intros Ho Ha. pose proof Ha as (_ & H2 & H3 & _).
  destruct o as [s u x|s u|s t|s t|u m|t u m|t e|e]; cbn [adapter_step table_sends].
  - by rewrite app_nil_r.
  - by rewrite app_nil_r.
  - by rewrite app_nil_r.
  - by rewrite app_nil_r.
  - by apply (send_missing m a p _ _ tx _ Ha eq_refl), H2.
  - unfold broadcast_to_room_excluding_user.
    rewrite <-(received_to_conns a p (default ∅ (show_sockets a !! t) ∖ default ∅ (user_sockets a !! u)) _ m tx Ha).
    + destruct (show_sockets a !! t); [done|]. simpl.
      assert (∅ ∖ default ∅ (user_sockets a !! u) =@{gset string} ∅) as -> by set_solver.
      by rewrite elements_empty, app_nil_r.
    + intros s c Hc. rewrite elem_of_difference, (H3 _ _ _ Hc), (H2 _ _ _ Hc). done.
  - simpl in Ho. apply andb_true_iff in Ho as [Ht He]. unfold on_message, room_channel.
    rewrite strip_prefix_app, parse_show_i32 by done. rewrite parse_event_text by done.
    unfold broadcast_to_room_local. destruct e; by apply (send_missing _ a p _ _ tx _ Ha eq_refl), H3.
  - simpl in Ho. unfold on_message. change (strip_prefix "room:" global_events_channel) with (@None string). cbv iota.
    rewrite bool_decide_true by done. rewrite parse_event_text by done.
    destruct e; try (by rewrite app_nil_r). by apply (send_missing _ a p _ _ tx _ Ha eq_refl), H2.
Qed.

Lemma run_sends os a p tx : implements a p → run_fits os p = true →
  received tx (sent (adapter_run os a)) = received tx (sent a ++ table_run os p).
Proof.
  revert a p. induction os as [|o os IH]; intros a p Ha Ho; simpl; [by rewrite app_nil_r|].
  simpl in Ho. apply andb_true_iff in Ho as [Ho Hos].
  rewrite (IH _ _ (implements_step _ _ _ Ho Ha) Hos).
  rewrite !received_app, (step_sends o a p) by done. by rewrite received_app, app_assoc.
Qed.

(** C15: the adapter routes as the table of connections.  After any history of
    connections, disconnections, subscriptions (late ones included), direct messages and
    Pub/Sub events, each channel has received exactly the messages, in order, that the
    table of connected sockets with their users and rooms prescribes. *)
Theorem adapter_routes_as_table os :
  run_fits os table_new = true →
  ∀ tx, received tx (sent (adapter_run os adapter_new)) = received tx (table_run os table_new).
Proof. intros Ho tx. by apply (run_sends os _ _ tx implements_new). Qed.
End table.

(** *** A concrete history: two tabs of one user and another user in a room *)

Definition busy_room : list socket_op :=
  [OpConnect "a" 1 0; OpConnect "b" 1 1; OpConnect "c" 2 2; OpSubscribe "a" 7; OpSubscribe "b" 7; OpSubscribe "c" 7;
   OpRoomEvent 7 (SeatLocked 2 7 31); OpToOthers 7 1 "others"; OpDisconnect "b" 1; OpSubscribe "b" 7;
   OpRoomEvent 7 (SeatUnlocked 2 7 31); OpToUser 1 "private"; OpUnsubscribe "c" 7;
   OpGlobalEvent (LockSlotsResponse 2 7 true [31] []); OpRoomEvent 7 (PaymentTimeout 7 [31])].

Lemma adapter_routes_as_table_witness :
  run_fits busy_room table_new = true ∧
  map (λ tx, length (received tx (sent (adapter_run (HJ := mem_json) busy_room adapter_new)))) [0; 1; 2]%nat = [4; 1; 4]%nat ∧
  (∀ tx, received tx (sent (adapter_run (HJ := mem_json) busy_room adapter_new)) =
    received tx (table_run (HJ := mem_json) busy_room table_new)).
Proof.
  split; [vm_compute; reflexivity|]. split; [vm_compute; reflexivity|].
  assert (run_fits busy_room table_new = true) as Ho by (vm_compute; reflexivity).
  pose proof (adapter_routes_as_table (HJ := mem_json) busy_room Ho) as H. exact H.
Defined.
