(* ===== verification/Gateway.v ===== *)
(** * Gateway: the seat-locking gateway
    ([apps/gateway-keeper/src/state_active.rs], [main.rs], [grpc_service.rs])

    [gateway] is the state of one [GatewayState]: the show actors in a heap (an [Arc] is
    an index), the map from schedules to cells, the channels of the actors, the closed
    schedules, the broker, the replies of the one-shot channels and the Redis world.

    A request is cut at its waiting points: [lock_begin] runs up to the successful
    [try_send], [actor_task] is one task of an actor (its whole handling, at the moment
    it is received), and [lock_end] what follows the reply.  [gw_step] interleaves
    these steps of any number of requests with every other worker of the gateway.  The
    one-shot sender of a task is used by its handler, so a reply is never dropped:
    panics and the restarts of the supervisor are not modelled. *)

From Stdlib Require Import Ascii.
From S2P Require Import Prelude Text Keys Redis SeatLock RateLimit ShowActor Events.

Record lock_result := LockResult { locked_seat_ids : list Z; failed_seat_ids : list Z }.

(** [response] names the one-shot channel of a task. *)
Inductive gateway_task :=
  | TLock (user_id : Z) (seat_ids : list Z) (response : nat)
  | TCancel (user_id : Z) (seat_ids : list Z) (response : nat).

Inductive reply := RLock (r : lock_result) | RCancel (unlocked : list Z).

(** The error strings of [lock] and [cancel]. *)
Inductive gw_error :=
  | LengthsDiffer | ScheduleIsClosed | BadTotalSeatCount | SeatCountMismatch | ActorClosing
  | BadSeat (e : seat_error) | CheckoutInProgress.

(** An actor with the receiver half its supervisor holds. *)
Record show := Show { sh_key : Z; sh_actor : show_actor; sh_queue : list gateway_task }.

Record gateway (D : Type) := Gateway {
  g_heap : list show;
  g_actors : gmap Z (option nat);         (* show_actors: a cell may still be empty *)
  g_closed : gset Z;                      (* closed_shows *)
  g_rmq : bool;                           (* rmq_channel *)
  g_amqp : list seat_lock_message;        (* published to locking_queue, oldest first *)
  g_replies : gmap nat reply;
  g_next : nat;                           (* one-shot channels created so far *)
  g_world : world D
}.
Arguments Gateway {D}. Arguments g_heap {D}. Arguments g_actors {D}. Arguments g_closed {D}.
Arguments g_rmq {D}. Arguments g_amqp {D}. Arguments g_replies {D}. Arguments g_next {D}. Arguments g_world {D}.

(** The end of a lease: [Drop for ActorRequestLease]; and the two atomics methods run
    without interference. *)
Definition drop_lease (now : Z) (a : show_actor) : show_actor :=
  Actor (a_seats a) (a_indices a) now (a_in_flight a - 1) (a_closing a).

Definition begin_request (now : Z) (a : show_actor) : bool * show_actor :=
  if a_closing a then (false, a)
  else (true, Actor (a_seats a) (a_indices a) now (a_in_flight a + 1) (a_closing a)).

Definition try_begin_idle_eviction (now : Z) (a : show_actor) : bool * show_actor :=
  let idle_for := Z.max 0 (now - a_last_access a) in
  if (idle_for <? ACTOR_IDLE_TTL) || a_closing a then (false, a)
  else if a_in_flight a =? 0 then (true, set_closing true a)
  else (false, set_closing false a).

Section gateway.
Context {D : Type} `{!RedisServer D} {HS : SeatLock D} {HJ : JsonText}.
Abbreviation G := (St (gateway D)).
Abbreviation W := (St (world D)).

Definition set_heap (f : list show → list show) (g : gateway D) : gateway D :=
  Gateway (f (g_heap g)) (g_actors g) (g_closed g) (g_rmq g) (g_amqp g) (g_replies g) (g_next g) (g_world g).
Definition set_actors (f : gmap Z (option nat) → gmap Z (option nat)) (g : gateway D) : gateway D :=
  Gateway (g_heap g) (f (g_actors g)) (g_closed g) (g_rmq g) (g_amqp g) (g_replies g) (g_next g) (g_world g).
Definition set_closed (f : gset Z → gset Z) (g : gateway D) : gateway D :=
  Gateway (g_heap g) (g_actors g) (f (g_closed g)) (g_rmq g) (g_amqp g) (g_replies g) (g_next g) (g_world g).
Definition set_world (w : world D) (g : gateway D) : gateway D :=
  Gateway (g_heap g) (g_actors g) (g_closed g) (g_rmq g) (g_amqp g) (g_replies g) (g_next g) w.
Definition push_amqp (m : seat_lock_message) (g : gateway D) : gateway D :=
  Gateway (g_heap g) (g_actors g) (g_closed g) (g_rmq g) (g_amqp g ++ [m]) (g_replies g) (g_next g) (g_world g).
Definition set_reply (k : nat) (r : reply) (g : gateway D) : gateway D :=
  Gateway (g_heap g) (g_actors g) (g_closed g) (g_rmq g) (g_amqp g) (<[k := r]> (g_replies g)) (g_next g) (g_world g).

(** A Redis computation run by the gateway. *)
Definition redis {A} (m : W A) : G A := zoom g_world (λ w g, set_world w g) m.

(** A method of the actor at [p]. *)
Definition set_actor (f : show_actor → show_actor) (sh : show) : show :=
  Show (sh_key sh) (f (sh_actor sh)) (sh_queue sh).
Definition on_actor {A} (p : nat) (d : A) (f : show_actor → A * show_actor) : G A := λ g,
  match g_heap g !! p with
  | Some sh => let '(x, a) := f (sh_actor sh) in (x, set_heap <[p := set_actor (λ _, a) sh]> g)
  | None => (d, g)
  end.

(** [oneshot::channel()]. *)
Definition oneshot : G nat := λ g,
  (g_next g,
   Gateway (g_heap g) (g_actors g) (g_closed g) (g_rmq g) (g_amqp g) (g_replies g) (S (g_next g)) (g_world g)).

(** [sender.try_send(task).is_ok()]: the supervisor keeps the receiver, so the channel
    refuses a task only when it is full. *)
Definition try_send (p : nat) (task : gateway_task) : G bool := λ g,
  match g_heap g !! p with
  | Some sh =>
      if bool_decide (length (sh_queue sh) < SHOW_QUEUE_CAPACITY)%nat
      then (true, set_heap <[p := Show (sh_key sh) (sh_actor sh) (sh_queue sh ++ [task])]> g)
      else (false, g)
  | None => (false, g)
  end.

(** ** Actors *)

(** [EXISTS key] on the main pool; an error reads as [false]. *)
Definition exists_key (key : string) : W bool :=
  r ← node_cmd 0 (cmd_exists key); mret (default false r).

(** The [EXISTS] that precedes the creation of an actor. *)
Definition closed_in_redis (key : Z) : G bool :=
  g ← (st_get : G (gateway D));
  match g_actors g !! key with
  | Some _ => mret false
  | None =>
      cli ← redis (pool_get 0);
      if (cli : bool) then redis (exists_key (schedule_closed_key key)) else mret false
  end.

(** The cell of the schedule, and the initialisation of an empty one. *)
Definition get_or_try_init (key : Z) (seat_count : nat) : G (nat + gw_error) :=
  g ← (st_get : G (gateway D));
  match g_actors g !! key with
  | Some (Some p) => mret (inl p)
  | _ =>
      if bool_decide (key ∈ g_closed g) then
        st_put (set_actors <[key := None]> g) ;; mret (inr ScheduleIsClosed)
      else
        let p := length (g_heap g) in
        now ← redis now_secs;
        st_modify (λ g, set_actors <[key := Some p]>
          (set_heap (λ l, l ++ [Show key (new_actor seat_count now) []]) g)) ;;
        mret (inl p)
  end.

(** [CachePaddedShowActor::closing.store(true)]. *)
Definition store_closing (p : nat) : G unit := on_actor p tt (λ a, (tt, set_closing true a)).

Definition get_or_create_show_actor (key total_seat_count : Z) : G (nat + gw_error) :=
  g ← (st_get : G (gateway D));
  if bool_decide (key ∈ g_closed g) then mret (inr ScheduleIsClosed)
  else
    closed ← closed_in_redis key;
    if (closed : bool) then st_modify (set_closed (λ c, {[key]} ∪ c)) ;; mret (inr ScheduleIsClosed)
    else if negb ((1 <=? total_seat_count) && (total_seat_count <=? MAX_SEATS_PER_SHOW))
    then mret (inr BadTotalSeatCount)
    else
      let seat_count := Z.to_nat total_seat_count in
      actor ← get_or_try_init key seat_count;
      match actor with
      | inr e => mret (inr e)
      | inl p =>
          g ← (st_get : G (gateway D));
          if bool_decide (key ∈ g_closed g) then store_closing p ;; mret (inr ScheduleIsClosed)
          else
            ok ← on_actor p false (λ a, (validate_seat_count seat_count a, a));
            mret (if (ok : bool) then inl p else inr SeatCountMismatch)
      end.

Definition clear_admission (key : Z) (seat_ids : list Z) : G unit := λ g,
  match g_actors g !! key with
  | Some (Some p) => for_each seat_ids (λ t, on_actor p tt (λ a, (tt, clear_seat t a))) g
  | _ => (tt, g)
  end.

(** [begin_request()?] and the drop of the lease. *)
Definition lease_begin (p : nat) : G bool :=
  now ← redis now_secs; on_actor p false (begin_request now).
Definition lease_drop (p : nat) : G unit :=
  now ← redis now_secs; on_actor p tt (λ a, (tt, drop_lease now a)).

(** The registration of the seats of a request: [collect] stops at the first error. *)
Fixpoint register_all (p : nat) (seats : list (Z * Z)) : G (list (Z * nat) + seat_error) :=
  match seats with
  | [] => mret (inl [])
  | (seat_id, seat_index) :: seats =>
      r ← on_actor p (inr OutsideCount) (register_seat seat_id seat_index);
      match r with
      | inr e => mret (inr e)
      | inl index =>
          rest ← register_all p seats;
          mret (match rest with inl l => inl ((seat_id, index) :: l) | inr e => inr e end)
      end
  end.

(** The admitted and the refused seats. *)
Fixpoint admit_all (p : nat) (seats : list (Z * nat)) : G (list Z * list Z) :=
  match seats with
  | [] => mret ([], [])
  | (seat_id, index) :: seats =>
      ok ← on_actor p false (try_admit index);
      '(admitted, failed) ← admit_all p seats;
      mret (if (ok : bool) then (seat_id :: admitted, failed) else (admitted, seat_id :: failed))
  end.

(** ** [lock] *)

(** A request between [try_send] and its reply; it holds its lease. *)
Record pending := Pending {
  pn_actor : nat; pn_showtime : Z; pn_response : nat; pn_admitted : list Z; pn_failed : list Z
}.

(** What [lock] does up to [reply.await]. *)
Definition lock_begin (user_id showtime_id : Z) (seat_ids seat_indices : list Z) (total_seat_count : Z) :
    G (pending + (lock_result + gw_error)) :=
  if bool_decide (length seat_ids ≠ length seat_indices) then mret (inr (inr LengthsDiffer))
  else
    actor ← get_or_create_show_actor showtime_id total_seat_count;
    match actor with
    | inr e => mret (inr (inr e))
    | inl p =>
        lease ← lease_begin p;
        if negb lease then mret (inr (inr ActorClosing))
        else
          seats ← register_all p (zip seat_ids seat_indices);
          match seats with
          | inr e => lease_drop p ;; mret (inr (inr (BadSeat e)))
          | inl seats =>
              '(admitted, failed) ← admit_all p seats;
              if bool_decide (admitted = []) then
                lease_drop p ;; mret (inr (inl (LockResult [] failed)))
              else
                response ← oneshot;
                sent ← try_send p (TLock user_id admitted response);
                if negb sent then
                  clear_admission showtime_id admitted ;;
                  lease_drop p ;;
                  mret (inr (inl (LockResult [] (failed ++ admitted))))
                else mret (inl (Pending p showtime_id response admitted failed))
          end
    end.

(** From the reply on; [None]: not yet there. *)
Definition lock_end (pn : pending) : G (option lock_result) :=
  g ← (st_get : G (gateway D));
  match g_replies g !! pn_response pn with
  | None => mret None
  | Some r =>
      let result := match r with RLock r => r | RCancel _ => LockResult [] (pn_admitted pn) end in
      clear_admission (pn_showtime pn) (failed_seat_ids result) ;;
      lease_drop (pn_actor pn) ;;
      mret (Some (LockResult (locked_seat_ids result) (failed_seat_ids result ++ pn_failed pn)))
  end.

(** ** The actor *)

(** One [basic_publish] is one interaction with a server. *)
Definition publish_to_locking_queue (action : string) (user_id showtime_id : Z) (seat_ids : list Z) : G bool :=
  g ← (st_get : G (gateway D));
  if negb (g_rmq g) then mret false
  else
    now ← redis now_ms;
    let message := SeatLockMessage action user_id showtime_id seat_ids now in
    fl ← redis draw;
    when (bool_decide (fl ≠ FDown)) (st_modify (push_amqp message)) ;;
    mret (bool_decide (fl = FOk)).

Fixpoint acquire_all (user_id showtime_id : Z) (seat_ids : list Z) : W (list Z * list Z) :=
  match seat_ids with
  | [] => mret ([], [])
  | seat_id :: seat_ids =>
      ok ← acquire_distributed_lock showtime_id seat_id user_id 300;
      '(locked, failed) ← acquire_all user_id showtime_id seat_ids;
      mret (if (ok : bool) then (seat_id :: locked, failed) else (locked, seat_id :: failed))
  end.

Definition acquire_and_publish (user_id showtime_id : Z) (seat_ids : list Z) : G lock_result :=
  '(locked, failed) ← redis (acquire_all user_id showtime_id seat_ids);
  when (negb (bool_decide (locked = [])))
    (publish_to_locking_queue "lock" user_id showtime_id locked ;; mret tt) ;;
  mret (LockResult locked failed).

Definition cancel_committed (user_id showtime_id : Z) (seat_ids : list Z) : G (list Z) :=
  ok ← publish_to_locking_queue "unlock" user_id showtime_id seat_ids;
  mret (if (ok : bool) then seat_ids else []).

(** One turn of the loop of [run_show_actor]: nothing without a task. *)
Definition run_task (key : Z) (task : gateway_task) : G unit :=
  match task with
  | TLock user_id seat_ids response =>
      r ← acquire_and_publish user_id key seat_ids; st_modify (set_reply response (RLock r))
  | TCancel user_id seat_ids response =>
      r ← cancel_committed user_id key seat_ids; st_modify (set_reply response (RCancel r))
  end.

Definition actor_task (p : nat) : G unit := λ g,
  match g_heap g !! p with
  | Some (Show key a (task :: tasks)) => run_task key task (set_heap <[p := Show key a tasks]> g)
  | _ => (tt, g)
  end.

(** ** [cancel] *)

(** A cancellation before it is queued, and its seats. *)
Record cancelling := Cancelling { cn_actor : nat; cn_user : Z; cn_seats : list Z; cn_response : nat }.

(** The loop over the seats: [true] when a checkout is in progress. *)
Fixpoint any_checkout (showtime_id : Z) (seat_ids : list Z) : W bool :=
  match seat_ids with
  | [] => mret false
  | seat_id :: seat_ids =>
      exists_ ← exists_key (seat_checkout_key showtime_id seat_id);
      if (exists_ : bool) then mret true else any_checkout showtime_id seat_ids
  end.

Definition cancel_begin (user_id showtime_id : Z) (seat_ids seat_indices : list Z) (total_seat_count : Z) :
    G (cancelling + gw_error) :=
  if bool_decide (length seat_ids ≠ length seat_indices) then mret (inr LengthsDiffer)
  else
    actor ← get_or_create_show_actor showtime_id total_seat_count;
    match actor with
    | inr e => mret (inr e)
    | inl p =>
        lease ← lease_begin p;
        if negb lease then mret (inr ActorClosing)
        else
          seats ← register_all p (zip seat_ids seat_indices);
          match seats with
          | inr e => lease_drop p ;; mret (inr (BadSeat e))
          | inl _ =>
              conn ← redis (pool_get 0);
              busy ← (if (conn : bool) then redis (any_checkout showtime_id seat_ids) else mret false);
              if (busy : bool) then lease_drop p ;; mret (inr CheckoutInProgress)
              else
                clear_admission showtime_id seat_ids ;;
                response ← oneshot;
                mret (inl (Cancelling p user_id seat_ids response))
          end
    end.

(** [send(..).await] returns once there is room. *)
Definition cancel_send (c : cancelling) : G bool :=
  try_send (cn_actor c) (TCancel (cn_user c) (cn_seats c) (cn_response c)).

Definition cancel_end (c : cancelling) : G (option (list Z)) :=
  g ← (st_get : G (gateway D));
  match g_replies g !! cn_response c with
  | None => mret None
  | Some r =>
      lease_drop (cn_actor c) ;;
      mret (Some (match r with RCancel l => l | RLock _ => [] end))
  end.

(** ** The workers *)

Definition mark_schedule_closed (schedule_id : Z) : G unit := λ g,
  let g := set_closed (λ c, {[schedule_id]} ∪ c) g in
  let cell := g_actors g !! schedule_id in
  let g := set_actors (delete schedule_id) g in
  match cell with
  | Some (Some p) => store_closing p g
  | _ => (tt, g)
  end.

Definition handle_schedule_lifecycle_message (payload : string) : G unit :=
  match parse_event payload with
  | Some (ScheduleClosed schedule_id) => mark_schedule_closed schedule_id
  | Some (ScheduleOpened schedule_id) => st_modify (set_closed (λ c, c ∖ {[schedule_id]}))
  | _ => mret tt
  end.

(** [v.as_i64().map(|id| id as i32)]. *)
Definition message_seats (values : list json) : list Z := omap (λ v, i32 <$> as_i64 v) values.

Definition handle_pubsub_message (payload channel : string) : G unit :=
  match json_parse payload with
  | Some (JObj value) =>
      match assoc "event" value ≫= as_str with
      | Some event =>
          if bool_decide (event ≠ "seat_unlocked") && bool_decide (event ≠ "seat_booked") then mret tt
          else
            match split_on ":"%char channel !! 1%nat ≫= parse_i32 with
            | Some showtime_id =>
                match assoc "seat_ids" value ≫= as_array with
                | Some values => clear_admission showtime_id (message_seats values)
                | None => mret tt
                end
            | None => mret tt
            end
      | None => mret tt
      end
  | _ => mret tt
  end%string.

(** A message of [subscribe_and_listen], by its channel. *)
Definition on_message (channel payload : string) : G unit :=
  if bool_decide (channel = schedule_lifecycle_channel)
  then handle_schedule_lifecycle_message payload
  else handle_pubsub_message payload channel.

(** The pipeline of [EXISTS] is one interaction with the server. *)
Definition cmd_exists_all (keys : list string) (d : D) (t : Z) : D * option (list bool) :=
  (d, Some (map (λ k, match r_get d t k with Some _ => true | None => false end) keys)).

Definition reconcile_closed_actors : G unit :=
  g ← (st_get : G (gateway D));
  let schedule_ids := (map_to_list (g_actors g)).*1 in
  if bool_decide (schedule_ids = []) then mret tt
  else
    cli ← redis (pool_get 0);
    if negb cli then mret tt
    else
      closed ← redis (node_cmd 0 (cmd_exists_all (map schedule_closed_key schedule_ids)));
      match closed with
      | None => mret tt
      | Some closed =>
          for_each (zip schedule_ids closed)
            (λ '(schedule_id, closed), when closed (mark_schedule_closed schedule_id))
      end.

(** [remove_if(ptr_eq)]: only while the map still holds this cell. *)
Definition evict_one (now : Z) (entry : Z * option nat) : G unit :=
  let '(key, cell) := entry in
  match cell with
  | None => mret tt
  | Some p =>
      ok ← on_actor p false (try_begin_idle_eviction now);
      when ok (st_modify (set_actors (λ m,
        if decide (m !! key = Some (Some p)) then delete key m else m)))
  end.

Definition evict_idle_actors (now : Z) : G unit :=
  g ← (st_get : G (gateway D)); for_each (map_to_list (g_actors g)) (evict_one now).

Definition publish_room (event : pubsub_event) : W unit :=
  match event with
  | SeatLocked _ showtime_id _ | SeatUnlocked _ showtime_id _ =>
      cli ← pool_get 0; when cli (publish (room_channel showtime_id) (event_json event))
  | _ => mret tt
  end.

(** One entry of the delayed queue, [now] being the time of the sweep. *)
Definition release_expired_entry (now : Z) (encoded : string) : G unit :=
  let queue := seat_processing_queue_key in
  match parse_queue_entry encoded with
  | None => redis (zrem_cluster queue encoded)
  | Some entry =>
      let '(t, s, u) := (q_seat_id entry, q_schedule_id entry, q_user_id entry) in
      owner ← redis (get_lock_owner s t);
      let finish : G unit :=
        clear_admission s [t] ;;
        redis (zrem_cluster queue encoded ;;
               set_schedule_seat_bitmap_state_cluster (schedule_seat_bitmap s) t 0 ;;
               publish_room (SeatUnlocked u s t)) in
      match owner with
      | None => finish
      | Some o =>
          if bool_decide (o ≠ u) then redis (zrem_cluster queue encoded)
          else
            active ← redis (exists_key (seat_checkout_key s t));
            if (active : bool) then redis (zadd_cluster queue encoded (now + 300))
            else redis (release_lock s t u) ;; finish
      end
  end.

Definition release_expired_locks : G unit :=
  now ← redis now_secs;
  cli ← redis (pool_get 0);
  if negb cli then mret tt
  else
    entries ← redis (node_cmd 0 (cmd_zrange seat_processing_queue_key None (Some now)));
    for_each (default [] entries) (release_expired_entry now).

(** ** Whole requests

    Without interference: the actor serves its channel as soon as there is a task. *)

Fixpoint serve (p : nat) (n : nat) : G unit :=
  match n with O => mret tt | S n => actor_task p ;; serve p n end.

Definition lock (user_id showtime_id : Z) (seat_ids seat_indices : list Z) (total_seat_count : Z) :
    G (option (lock_result + gw_error)) :=
  r ← lock_begin user_id showtime_id seat_ids seat_indices total_seat_count;
  match r with
  | inr r => mret (Some r)
  | inl pn =>
      serve (pn_actor pn) SHOW_QUEUE_CAPACITY ;;
      r ← lock_end pn;
      mret (inl <$> r)
  end.

Definition cancel (user_id showtime_id : Z) (seat_ids seat_indices : list Z) (total_seat_count : Z) :
    G (option (list Z + gw_error)) :=
  r ← cancel_begin user_id showtime_id seat_ids seat_indices total_seat_count;
  match r with
  | inr e => mret (Some (inr e))
  | inl c =>
      serve (cn_actor c) SHOW_QUEUE_CAPACITY ;;
      cancel_send c ;;
      serve (cn_actor c) SHOW_QUEUE_CAPACITY ;;
      r ← cancel_end c;
      mret (inl <$> r)
  end.

(** ** Any interleaving

    [y_locks] holds the requests between [lock_begin] and their result, with the seats
    they asked for ([None] once answered), [y_cancels] the cancellations with whether
    their task is queued, and [y_done] the answers of the lock requests. *)
Record system := System {
  y_gateway : gateway D;
  y_locks : list (list Z * option pending);
  y_cancels : list (option (cancelling * bool));   (* with: queued *)
  y_done : list (list Z * lock_result)
}.

Inductive gw_op :=
  | GLock (user_id showtime_id : Z) (seat_ids seat_indices : list Z) (total_seat_count : Z)
  | GLockEnd (i : nat)
  | GCancel (user_id showtime_id : Z) (seat_ids seat_indices : list Z) (total_seat_count : Z)
  | GCancelSend (i : nat)
  | GCancelEnd (i : nat)
  | GActor (p : nat)
  | GMessage (channel payload : string)
  | GSweep
  | GReconcile
  | GEvict (now : Z)
  | GElsewhere (o : lock_op).     (* another process, or time *)

Definition on_gateway {A} (m : G A) (y : system) : A * system :=
  let '(a, g) := m (y_gateway y) in (a, System g (y_locks y) (y_cancels y) (y_done y)).

Definition gw_step (o : gw_op) (y : system) : system :=
  match o with
  | GLock u s ids idxs total =>
      let '(r, y) := on_gateway (lock_begin u s ids idxs total) y in
      match r with
      | inl pn => System (y_gateway y) (y_locks y ++ [(ids, Some pn)]) (y_cancels y) (y_done y)
      | inr (inl r) => System (y_gateway y) (y_locks y) (y_cancels y) (y_done y ++ [(ids, r)])
      | inr (inr _) => y
      end
  | GLockEnd i =>
      match y_locks y !! i with
      | Some (ids, Some pn) =>
          let '(r, y) := on_gateway (lock_end pn) y in
          match r with
          | Some r => System (y_gateway y) (<[i := (ids, None)]> (y_locks y)) (y_cancels y) (y_done y ++ [(ids, r)])
          | None => y
          end
      | _ => y
      end
  | GCancel u s ids idxs total =>
      let '(r, y) := on_gateway (cancel_begin u s ids idxs total) y in
      match r with
      | inl c => System (y_gateway y) (y_locks y) (y_cancels y ++ [Some (c, false)]) (y_done y)
      | inr _ => y
      end
  | GCancelSend i =>
      match y_cancels y !! i with
      | Some (Some (c, false)) =>
          let '(sent, y) := on_gateway (cancel_send c) y in
          System (y_gateway y) (y_locks y) (<[i := Some (c, sent)]> (y_cancels y)) (y_done y)
      | _ => y
      end
  | GCancelEnd i =>
      match y_cancels y !! i with
      | Some (Some (c, true)) =>
          let '(r, y) := on_gateway (cancel_end c) y in
          match r with
          | Some _ => System (y_gateway y) (y_locks y) (<[i := None]> (y_cancels y)) (y_done y)
          | None => y
          end
      | _ => y
      end
  | GActor p => (on_gateway (actor_task p) y).2
  | GMessage ch m => (on_gateway (on_message ch m) y).2
  | GSweep => (on_gateway release_expired_locks y).2
  | GReconcile => (on_gateway reconcile_closed_actors y).2
  | GEvict now => (on_gateway (evict_idle_actors now) y).2
  | GElsewhere o => (on_gateway (redis (run_op o)) y).2
  end.

Definition gw_run (os : list gw_op) (y : system) : system := fold_left (λ y o, gw_step o y) os y.
End gateway.
