(* ===== verification/GatewayRequests.v ===== *)
(** * GatewayRequests: what the requests of the gateway are answered
    (lemmas over the steps of [Gateway.v]) *)

From S2P Require Import Prelude Text Keys Redis RedisMem SeatLock SingleNodeLock ShowActor Events Gateway.

Section channels.
Context {D : Type} `{!RedisServer D} {HS : SeatLock D} {HJ : JsonText}.
Implicit Types (g : gateway D) (Q : gateway_task → Prop) (R : nat → reply → Prop).

(** *** The channels of a gateway

    Every queued task satisfies [Q], every reply satisfies [R] with its one-shot
    channel, and [n] channels exist. *)
Definition channels Q R (n : nat) g : Prop :=
  (∀ p sh, g_heap g !! p = Some sh → Forall Q (sh_queue sh)) ∧
  map_Forall R (g_replies g) ∧ g_next g = n.

Lemma channels_same Q R n g g' :
  (∀ p sh', g_heap g' !! p = Some sh' → sh_queue sh' = [] ∨
    ∃ sh, g_heap g !! p = Some sh ∧ sh_queue sh' = sh_queue sh) →
  g_replies g' = g_replies g → g_next g' = g_next g → channels Q R n g → channels Q R n g'.
Proof.
  intros Hh Hr Hn (H1 & H2 & H3). split_and!; [|by rewrite Hr|congruence].
  intros p sh' Hp. destruct (Hh p sh' Hp) as [->|(sh & Hs & ->)]; [constructor|by eapply H1].
Qed.

Lemma channels_weaken Q Q' R R' n g :
  (∀ x, Q x → Q' x) → (∀ k r, R k r → R' k r) → channels Q R n g → channels Q' R' n g.
Proof.
  intros HQ HR (H1 & H2 & H3). split_and!; [|by eapply map_Forall_impl|done].
  intros p sh Hp. eapply Forall_impl; [by eapply H1|done].
Qed.

Ltac same_tac := intros ? Hg; eapply channels_same; [| | |exact Hg]; simpl; [eauto|done|done].

Lemma keeps_redis {A} Q R n (m : St (world D) A) : keeps (channels Q R n) (redis m).
Proof. intros g Hg. unfold redis, zoom. destruct (m (g_world g)) as [a w]. revert g Hg. same_tac. Qed.

Lemma keeps_on_actor {A} Q R n p (d : A) f : keeps (channels Q R n) (on_actor p d f).
Proof.
  intros g Hg. unfold on_actor. destruct (g_heap g !! p) as [sh|] eqn:E; [|done].
  destruct (f (sh_actor sh)) as [x a]. eapply channels_same; [| | |exact Hg]; simpl; [|done|done].
  intros p' sh' H. right. destruct (decide (p' = p)) as [->|].
  - rewrite list_lookup_insert_eq in H by by eapply lookup_lt_Some. simplify_eq/=. eauto.
  - rewrite list_lookup_insert_ne in H by done. eauto.
Qed.

Lemma keeps_set_actors Q R n f : keeps (channels Q R n) (st_modify (set_actors f)).
Proof. same_tac. Qed.
Lemma keeps_set_closed Q R n f : keeps (channels Q R n) (st_modify (set_closed f)).
Proof. same_tac. Qed.
Lemma keeps_push Q R n m : keeps (channels Q R n) (st_modify (push_amqp m)).
Proof. same_tac. Qed.
Lemma keeps_st_get {S} (P : S → Prop) : keeps P st_get.
Proof. by intros s. Qed.

Hint Resolve keeps_redis keeps_on_actor keeps_set_actors keeps_set_closed keeps_push keeps_st_get : keeps.

Lemma keeps_clear_admission Q R n key seats : keeps (channels Q R n) (clear_admission key seats).
Proof.
  intros g Hg. unfold clear_admission. destruct (g_actors g !! key) as [[p|]|]; [|done..].
  revert g Hg. apply keeps_for_each. auto with keeps.
Qed.
Hint Resolve keeps_clear_admission : keeps.

Lemma keeps_leases Q R n p : keeps (channels Q R n) (lease_begin p) ∧ keeps (channels Q R n) (lease_drop p).
Proof. split; unfold lease_begin, lease_drop; keeps_tac. Qed.
Lemma keeps_lease_begin Q R n p : keeps (channels Q R n) (lease_begin p).
Proof. apply keeps_leases. Qed.
Lemma keeps_lease_drop Q R n p : keeps (channels Q R n) (lease_drop p).
Proof. apply keeps_leases. Qed.

Lemma keeps_register_all Q R n p l : keeps (channels Q R n) (register_all p l).
Proof. induction l as [|[t i] l IH]; simpl; keeps_tac. Qed.

Lemma keeps_init Q R n key c : keeps (channels Q R n) (get_or_try_init key c).
Proof.
  unfold get_or_try_init. intros g Hg. unfold mbind, St_bind at 1, st_get.
  assert (∀ p, keeps (channels Q R n)
    (now ← redis now_secs;
     st_modify (λ g, set_actors <[key := Some p]> (set_heap (λ l, l ++ [Show key (new_actor c now) []]) g)) ;;
     mret (inl p : nat + gw_error))) as Hnew.
  { intros p. keeps_tac. intros g' Hg'. eapply channels_same; [| | |exact Hg']; simpl; [|done|done].
    intros p' sh' H. apply lookup_app_Some in H as [H|[_ H]]; [right; eauto|].
    apply list_lookup_singleton_Some in H as [_ <-]. by left. }
  assert (channels Q R n (set_actors <[key := None]> g)) as Hput by by apply (keeps_set_actors Q R n _ g Hg).
  destruct (g_actors g !! key) as [[p|]|]; [done| |]; (case_bool_decide; [exact Hput|by apply Hnew]).
Qed.
Hint Resolve keeps_lease_begin keeps_lease_drop keeps_register_all keeps_init : keeps.

Lemma keeps_get_or_create Q R n key total : keeps (channels Q R n) (get_or_create_show_actor key total).
Proof.
  unfold get_or_create_show_actor, closed_in_redis, store_closing. keeps_tac.
Qed.

Lemma keeps_publish_queue Q R n a u s l : keeps (channels Q R n) (publish_to_locking_queue a u s l).
Proof. unfold publish_to_locking_queue. keeps_tac. Qed.
Hint Resolve keeps_get_or_create keeps_publish_queue : keeps.
End channels.

#[export] Hint Resolve keeps_redis keeps_on_actor keeps_set_actors keeps_set_closed keeps_push keeps_st_get
  keeps_clear_admission keeps_lease_begin keeps_lease_drop keeps_register_all keeps_init
  keeps_get_or_create keeps_publish_queue : keeps.

Section partition.
Context {D : Type} `{!RedisServer D} {HS : SeatLock D} {HJ : JsonText}.
Implicit Types (g : gateway D) (Q : gateway_task → Prop) (R : nat → reply → Prop).

(** A result answers for the seats [l] when it lists each of them once. *)
Definition answers_for (l : list Z) (r : lock_result) : Prop :=
  locked_seat_ids r ++ failed_seat_ids r ≡ₚ l.

Lemma hoare_register_all Q R n p l :
  hoare (channels Q R n) (register_all (D:=D) p l)
    (λ r g, (∀ m, r = inl m → m.*1 = l.*1) ∧ channels Q R n g).
Proof.
  induction l as [|[t i] l IH]; simpl.
  { apply hoare_ret. intros g Hg. split; [|done]. by intros m [= <-]. }
  eapply hoare_bind; [apply keeps_on_actor|]. intros [index|e].
  - eapply hoare_bind; [exact IH|]. intros r. apply hoare_pure. intros Hr. apply hoare_ret.
    intros g Hg. split; [|done]. intros m. destruct r as [m'|]; [|done]. intros [= <-]. simpl. by rewrite Hr.
  - apply hoare_ret. by intros g Hg.
Qed.

Lemma hoare_admit_all Q R n p l :
  hoare (channels Q R n) (admit_all (D:=D) p l) (λ r g, r.1 ++ r.2 ≡ₚ l.*1 ∧ channels Q R n g).
Proof.
  induction l as [|[t i] l IH]; simpl; [by apply hoare_ret|].
  eapply hoare_bind; [apply keeps_on_actor|]. intros ok.
  eapply hoare_bind; [exact IH|]. intros [a f]. apply hoare_pure. simpl. intros Hr. apply hoare_ret.
  intros g Hg. split; [|done]. destruct ok; simpl; [by rewrite Hr|].
  rewrite <-Hr. symmetry. apply Permutation_middle.
Qed.

Lemma hoare_oneshot Q R n :
  hoare (channels Q R n) (oneshot (D:=D)) (λ k g, k = n ∧ channels Q R (S n) g).
Proof. intros g (H1 & H2 & <-). split; [done|]. by split_and!. Qed.

Lemma hoare_try_send Q R n p task :
  hoare (channels Q R n) (try_send (D:=D) p task)
    (λ ok g, channels (λ x, Q x ∨ if ok then x = task else False) R n g).
Proof.
  intros g Hg. unfold try_send.
  assert (∀ Q', channels (λ x, Q x ∨ Q' x) R n g) as Hw.
  { intros Q'. eapply channels_weaken; [| |exact Hg]; [intros x Hx; by left|done]. }
  destruct (g_heap g !! p) as [sh|] eqn:E; [|apply Hw]. case_bool_decide; [|apply Hw].
  destruct (Hw (λ x, x = task)) as (H1 & H2 & H3). split_and!; [|done..]. simpl.
  intros p' sh' Hp. destruct (decide (p' = p)) as [->|].
  - rewrite list_lookup_insert_eq in Hp by by eapply lookup_lt_Some. simplify_eq/=.
    apply Forall_app. split; [by eapply H1|]. constructor; [by right|constructor].
  - rewrite list_lookup_insert_ne in Hp by done. by eapply H1.
Qed.

(** The outcome of the first half of [lock]: an answer, or a request that waits on a
    fresh channel for which its task is queued. *)
Lemma hoare_lock_begin Q R n u s ids idxs total :
  hoare (channels Q R n) (lock_begin (D:=D) u s ids idxs total)
    (λ r g, match r with
     | inl pn =>
         pn_response pn = n ∧ pn_admitted pn ++ pn_failed pn ≡ₚ ids ∧
         channels (λ x, Q x ∨ x = TLock u (pn_admitted pn) n) R (S n) g
     | inr (inl r) => answers_for ids r ∧ ∃ m, (n ≤ m)%nat ∧ channels Q R m g
     | inr (inr _) => ∃ m, (n ≤ m)%nat ∧ channels Q R m g
     end).
Proof.
  assert (∀ e, hoare (channels Q R n) (mret (inr (inr e)) : St (gateway D) (pending + (lock_result + gw_error)))
    (λ r g, match r with
     | inl pn =>
         pn_response pn = n ∧ pn_admitted pn ++ pn_failed pn ≡ₚ ids ∧
         channels (λ x, Q x ∨ x = TLock u (pn_admitted pn) n) R (S n) g
     | inr (inl r) => answers_for ids r ∧ ∃ m, (n ≤ m)%nat ∧ channels Q R m g
     | inr (inr _) => ∃ m, (n ≤ m)%nat ∧ channels Q R m g
     end)) as Herr.
  { intros e. apply hoare_ret. intros g Hg. by exists n. }
  unfold lock_begin. case_bool_decide as Hl; [apply Herr|].
  eapply hoare_bind; [apply keeps_get_or_create|]. intros [p|e]; [|apply Herr].
  eapply hoare_bind; [apply keeps_lease_begin|]. intros [|]; simpl; [|apply Herr].
  eapply hoare_bind; [apply hoare_register_all|]. intros r. apply hoare_pure. intros Hr.
  destruct r as [seats|e].
  2:{ eapply hoare_bind; [apply keeps_lease_drop|]. intros []. apply Herr. }
  specialize (Hr _ eq_refl). rewrite fst_zip in Hr by lia.
  eapply hoare_bind; [apply hoare_admit_all|]. intros [a f]. apply hoare_pure. simpl. intros Ha. rewrite Hr in Ha.
  case_bool_decide as He.
  { eapply hoare_bind; [apply keeps_lease_drop|]. intros []. apply hoare_ret. intros g Hg. subst a.
    split; [exact Ha|]. by exists n. }
  eapply hoare_bind; [apply hoare_oneshot|]. intros k. apply hoare_pure. intros ->.
  eapply hoare_bind; [apply hoare_try_send|]. intros [|]; simpl.
  - apply hoare_ret. intros g Hg. simpl. done.
  - eapply hoare_bind; [apply keeps_clear_admission|]. intros [].
    eapply hoare_bind; [apply keeps_lease_drop|]. intros []. apply hoare_ret. intros g Hg. split.
    + unfold answers_for. simpl. rewrite <-Ha. apply Permutation_app_comm.
    + exists (S n). split; [lia|]. eapply channels_weaken; [| |exact Hg]; [by intros x [?|[]]|done].
Qed.

(** *** Tasks *)

(** [R] accepts what the handler of a task with [Q] may answer. *)
Definition handled Q R : Prop :=
  (∀ u l k r, Q (TLock u l k) → answers_for l r → R k (RLock r)) ∧
  (∀ u l k r, Q (TCancel u l k) → R k (RCancel r)).

Lemma acquire_all_answers u s l (w : world D) :
  answers_for l (LockResult (acquire_all u s l w).1.1 (acquire_all u s l w).1.2).
Proof.
  revert w. induction l as [|t l IH]; intros w; [by unfold answers_for|]. simpl. unfold mbind, St_bind.
  destruct (acquire_distributed_lock s t u 300 w) as [ok w1]. specialize (IH w1).
  destruct (acquire_all u s l w1) as [[a f] w2]. unfold answers_for in *. simpl in *.
  destruct ok; simpl; [by constructor|]. rewrite <-IH. symmetry. apply Permutation_middle.
Qed.

Lemma hoare_acquire_and_publish Q R n u s l :
  hoare (channels Q R n) (acquire_and_publish (D:=D) u s l) (λ r g, answers_for l r ∧ channels Q R n g).
Proof.
  unfold acquire_and_publish. apply (hoare_bind _ (λ af g, answers_for l (LockResult af.1 af.2) ∧ channels Q R n g)).
  - intros g Hg. pose proof (keeps_redis Q R n (acquire_all u s l) g Hg) as Hk.
    unfold redis, zoom in *. pose proof (acquire_all_answers u s l (g_world g)) as Ha.
    destruct (acquire_all u s l (g_world g)) as [af w]. by split.
  - intros [a f]. apply hoare_pure. simpl. intros Ha.
    eapply hoare_bind; [apply keeps_when, keeps_bind; [apply keeps_publish_queue|intros ?; apply keeps_ret]|]. intros [].
    by apply hoare_ret.
Qed.

Lemma channels_set_reply Q R n k r :
  R k r → keeps (channels Q R n) (st_modify (set_reply (D:=D) k r)).
Proof. intros Hr g (H1 & H2 & H3). split_and!; [done| |done]. by apply map_Forall_insert_2. Qed.

Lemma keeps_run_task Q R n key task :
  Q task → handled Q R → keeps (channels Q R n) (run_task (D:=D) key task).
Proof.
  intros HQ [Hl Hc]. destruct task as [u l k|u l k]; simpl.
  - eapply hoare_bind; [apply hoare_acquire_and_publish|]. intros r. apply hoare_pure. intros Hr.
    apply channels_set_reply. by eapply Hl.
  - apply keeps_bind; [unfold cancel_committed; keeps_tac|]. intros r. apply channels_set_reply. by eapply Hc.
Qed.

Lemma keeps_actor_task Q R n p : handled Q R → keeps (channels Q R n) (actor_task (D:=D) p).
Proof.
  intros HR g Hg. unfold actor_task. destruct (g_heap g !! p) as [[key a [|task tasks]]|] eqn:E; [done| |done].
  destruct (Hg) as (H1 & H2 & H3). pose proof (H1 p _ E) as Hq. apply Forall_cons in Hq as [Ht Hts].
  apply (keeps_run_task Q R n key task Ht HR). split_and!; [|done..]. simpl. intros p' sh Hp.
  destruct (decide (p' = p)) as [->|].
  - rewrite list_lookup_insert_eq in Hp by by eapply lookup_lt_Some. by simplify_eq/=.
  - rewrite list_lookup_insert_ne in Hp by done. by eapply H1.
Qed.

Lemma hoare_lock_end Q R n pn :
  hoare (channels Q R n) (lock_end (D:=D) pn)
    (λ r g, (∀ x, r = Some x → ∃ y, R (pn_response pn) y ∧
       x = let z := match y with RLock z => z | RCancel _ => LockResult [] (pn_admitted pn) end in
           LockResult (locked_seat_ids z) (failed_seat_ids z ++ pn_failed pn)) ∧ channels Q R n g).
Proof.
  unfold lock_end. apply hoare_st_get. intros g Hg.
  destruct (g_replies g !! pn_response pn) as [y|] eqn:E; [|by apply hoare_ret].
  pose proof (proj1 (proj2 Hg) _ _ E) as Hy. clear g Hg E.
  eapply hoare_bind; [apply keeps_clear_admission|]. intros [].
  eapply hoare_bind; [apply keeps_lease_drop|]. intros []. apply hoare_ret.
  intros g Hg. split; [|done]. intros x [= <-]. by exists y.
Qed.

(** *** Cancellations and workers *)

Lemma hoare_cancel_begin Q R n u s ids idxs total :
  hoare (channels Q R n) (cancel_begin (D:=D) u s ids idxs total)
    (λ r g, (∀ c, r = inl c → cn_response c = n) ∧
       channels Q R (match r with inl _ => S n | inr _ => n end) g).
Proof.
  assert (∀ e, hoare (channels Q R n) (mret (inr e) : St (gateway D) (cancelling + gw_error))
    (λ r g, (∀ c, r = inl c → cn_response c = n) ∧
       channels Q R (match r with inl _ => S n | inr _ => n end) g)) as Herr.
  { intros e. by apply hoare_ret. }
  unfold cancel_begin. case_bool_decide; [apply Herr|].
  eapply hoare_bind; [apply keeps_get_or_create|]. intros [p|e]; [|apply Herr].
  eapply hoare_bind; [apply keeps_lease_begin|]. intros [|]; simpl; [|apply Herr].
  eapply hoare_bind; [apply keeps_register_all|]. intros [seats|e].
  2:{ eapply hoare_bind; [apply keeps_lease_drop|]. intros []. apply Herr. }
  eapply hoare_bind; [apply keeps_redis|]. intros conn.
  eapply hoare_bind; [apply keeps_if; [apply keeps_redis|apply keeps_ret]|]. intros [|].
  { eapply hoare_bind; [apply keeps_lease_drop|]. intros []. apply Herr. }
  eapply hoare_bind; [apply keeps_clear_admission|]. intros [].
  eapply hoare_bind; [apply hoare_oneshot|]. intros k. apply hoare_pure. intros ->.
  apply hoare_ret. intros g Hg. split; [by intros c [= <-]|done].
Qed.

Lemma keeps_cancel_send Q R n c :
  Q (TCancel (cn_user c) (cn_seats c) (cn_response c)) → keeps (channels Q R n) (cancel_send (D:=D) c).
Proof.
  intros HQ. eapply hoare_conseq; [| |apply hoare_try_send]; [by intros g|].
  intros ok g Hg. simpl in Hg. eapply channels_weaken; [| |exact Hg]; [|done].
  intros x [?|Hx]; [done|]. destruct ok; [by subst|done].
Qed.

Lemma keeps_cancel_end Q R n c : keeps (channels Q R n) (cancel_end (D:=D) c).
Proof.
  apply hoare_st_get. intros g _. destruct (g_replies g !! cn_response c); [|apply keeps_ret].
  apply keeps_bind; [apply keeps_lease_drop|]. intros ?. apply keeps_ret.
Qed.

Lemma keeps_mark_closed Q R n s : keeps (channels Q R n) (mark_schedule_closed (D:=D) s).
Proof.
  intros g Hg. unfold mark_schedule_closed.
  assert (channels Q R n (set_actors (delete s) (set_closed (λ c, {[s]} ∪ c) g))) as H.
  { apply (keeps_set_actors Q R n (delete s) _). by apply (keeps_set_closed Q R n _ g). }
  simpl. destruct (g_actors g !! s) as [[p|]|]; [|exact H..]. by apply (keeps_on_actor Q R n p tt).
Qed.
Hint Resolve keeps_mark_closed : keeps.

Lemma keeps_message Q R n ch m : keeps (channels Q R n) (on_message (D:=D) ch m).
Proof.
  unfold on_message, handle_schedule_lifecycle_message, handle_pubsub_message. keeps_tac.
Qed.

Lemma keeps_reconcile Q R n : keeps (channels Q R n) (reconcile_closed_actors (D:=D)).
Proof. unfold reconcile_closed_actors. keeps_tac. Qed.

Lemma keeps_evict Q R n now : keeps (channels Q R n) (evict_idle_actors (D:=D) now).
Proof. unfold evict_idle_actors, evict_one. keeps_tac. Qed.

Lemma keeps_sweep Q R n : keeps (channels Q R n) (release_expired_locks (D:=D)).
Proof. unfold release_expired_locks, release_expired_entry. keeps_tac. Qed.
End partition.

(** ** Every lock request is answered for its seats *)

Section system.
Context {D : Type} `{!RedisServer D} {HS : SeatLock D} {HJ : JsonText}.
Implicit Types (y : system (D:=D)) (L : list (list Z * option pending)).

(** A request waits on channel [k] for the seats [l]. *)
Definition waits L (k : nat) (l : list Z) : Prop :=
  ∃ i ids pn, L !! i = Some (ids, Some pn) ∧ pn_response pn = k ∧ pn_admitted pn = l.

Definition task_for L (n : nat) (x : gateway_task) : Prop :=
  match x with
  | TLock _ l k => (k < n)%nat ∧ ∀ l', waits L k l' → l = l'
  | TCancel _ _ k => (k < n)%nat
  end.
Definition reply_for L (n k : nat) (r : reply) : Prop :=
  (k < n)%nat ∧ match r with RLock r => ∀ l, waits L k l → answers_for l r | RCancel _ => True end.
Definition lock_for (n : nat) (x : list Z * option pending) : Prop :=
  match x.2 with
  | Some pn => (pn_response pn < n)%nat ∧ pn_admitted pn ++ pn_failed pn ≡ₚ x.1
  | None => True
  end.

Record system_inv y : Prop := {
  inv_channels : channels (task_for (y_locks y) (g_next (y_gateway y)))
    (reply_for (y_locks y) (g_next (y_gateway y))) (g_next (y_gateway y)) (y_gateway y);
  inv_locks : Forall (lock_for (g_next (y_gateway y))) (y_locks y);
  inv_cancels : ∀ i c b, y_cancels y !! i = Some (Some (c, b)) → (cn_response c < g_next (y_gateway y))%nat;
  inv_done : Forall (λ x, answers_for x.1 x.2) (y_done y)
}.

Lemma handled_for L n : handled (task_for L n) (reply_for L n).
Proof.
  split.
  - intros u l k r [Hk Hl] Hr. split; [done|]. intros l' Hw. by rewrite <-(Hl l' Hw).
  - by intros u l k r Hk.
Qed.

Lemma task_for_mono L L' n m x :
  (∀ k l, waits L' k l → (k < n)%nat → waits L k l) → (n ≤ m)%nat → task_for L n x → task_for L' m x.
Proof.
  intros HL Hm. destruct x; simpl; [|lia]. intros [Hk Hl]. split; [lia|]. auto.
Qed.

Lemma reply_for_mono L L' n m k r :
  (∀ k l, waits L' k l → (k < n)%nat → waits L k l) → (n ≤ m)%nat → reply_for L n k r → reply_for L' m k r.
Proof. intros HL Hm [Hk Hr]. split; [lia|]. destruct r; [|done]. auto. Qed.

(** A step that leaves the requests alone keeps the invariant when the gateway's channels
    are kept for a number of channels that may have grown. *)
Lemma inv_gateway y g cs :
  system_inv y →
  (∃ m, (g_next (y_gateway y) ≤ m)%nat ∧
    channels (task_for (y_locks y) (g_next (y_gateway y))) (reply_for (y_locks y) (g_next (y_gateway y))) m g) →
  (∀ i c b, cs !! i = Some (Some (c, b)) → (cn_response c < g_next g)%nat) →
  system_inv (System g (y_locks y) cs (y_done y)).
Proof.
  intros [Hc Hl _ Hd] (m & Hm & Hg) Hcs. assert (g_next g = m) as Hn by apply Hg.
  split; simpl; rewrite ?Hn; [| |by rewrite <-Hn|done].
  - eapply channels_weaken; [| |exact Hg]; [intros x; by apply task_for_mono|intros k r; by apply reply_for_mono].
  - eapply Forall_impl; [exact Hl|]. intros [ids [pn|]]; unfold lock_for; simpl; [|done]. intros []; split; [lia|done].
Qed.

Lemma inv_keeps {A} y (m : St (gateway D) A) :
  system_inv y → keeps (channels (task_for (y_locks y) (g_next (y_gateway y)))
    (reply_for (y_locks y) (g_next (y_gateway y))) (g_next (y_gateway y))) m →
  system_inv (on_gateway m y).2.
Proof.
  intros Hy Hm. destruct (Hy) as [Hc Hl Hcs Hd]. specialize (Hm _ Hc). unfold on_gateway.
  destruct (m (y_gateway y)) as [a g]. simpl in *. apply inv_gateway; [done| |].
  - by exists (g_next (y_gateway y)).
  - destruct Hm as (_ & _ & ->). done.
Qed.

Lemma inv_lock y u s ids idxs total : system_inv y → system_inv (gw_step (GLock u s ids idxs total) y).
Proof.
  intros Hy. destruct (Hy) as [Hc Hl Hcs Hd]. simpl. unfold on_gateway.
  pose proof (hoare_lock_begin _ _ _ u s ids idxs total _ Hc) as Hb.
  destruct (lock_begin u s ids idxs total (y_gateway y)) as [[pn|[r|e]] g]; simpl in *.
  - destruct Hb as (Hk & Hp & Hg). assert (g_next g = S (g_next (y_gateway y))) as Hn by apply Hg.
    set (n := g_next (y_gateway y)) in *.
    assert (∀ k l, waits (y_locks y ++ [(ids, Some pn)]) k l → (k < n)%nat → waits (y_locks y) k l) as Hw.
    { intros k l (i & ids' & pn' & Hi & <- & <-) Hlt. apply lookup_app_Some in Hi as [Hi|[_ Hi]]; [by exists i, ids', pn'|].
      apply list_lookup_singleton_Some in Hi as [_ [= <- <-]]. lia. }
    split; simpl; rewrite ?Hn; [| | |done].
    + eapply channels_weaken; [| |exact Hg]; [|intros k r; apply reply_for_mono; [exact Hw|lia]].
      intros x [Hx| ->]; [by apply (task_for_mono (y_locks y) _ n); [exact Hw|lia|]|].
      split; [lia|]. intros l' (i & ids' & pn' & Hi & Hk' & <-).
      apply lookup_app_Some in Hi as [Hi|[_ Hi]].
      * rewrite Forall_lookup in Hl. apply Hl in Hi as [Hlt _]. simpl in Hlt. lia.
      * by apply list_lookup_singleton_Some in Hi as [_ [= <- <-]].
    + apply Forall_app. split.
      * eapply Forall_impl; [exact Hl|]. intros [i [p|]]; unfold lock_for; simpl; [|done]. intros []; split; [lia|done].
      * constructor; [|constructor]. split; simpl; [lia|done].
    + intros i c b Hi. apply Hcs in Hi. lia.
  - destruct Hb as (Hr & m & Hm & Hg).
    assert (system_inv (System g (y_locks y) (y_cancels y) (y_done y))) as [H1 H2 H3 H4].
    { apply inv_gateway; [done|by exists m|]. intros i c b Hi. apply Hcs in Hi. destruct Hg as (_ & _ & ->). lia. }
    split; simpl in *; [done..|]. apply Forall_app. split; [done|]. by constructor.
  - destruct Hb as (m & Hm & Hg). apply inv_gateway; [done|by exists m|].
    intros i c b Hi. apply Hcs in Hi. destruct Hg as (_ & _ & ->). lia.
Qed.

Lemma inv_lock_end y i : system_inv y → system_inv (gw_step (GLockEnd i) y).
Proof.
  intros Hy. destruct (Hy) as [Hc Hl Hcs Hd]. simpl.
  destruct (y_locks y !! i) as [[ids [pn|]]|] eqn:Hi; [|done..]. unfold on_gateway.
  destruct (hoare_lock_end _ _ _ pn _ Hc) as [Hr Hg].
  destruct (lock_end pn (y_gateway y)) as [[r|] g]; simpl in *.
  2:{ apply inv_gateway; [done| |]; [by exists (g_next (y_gateway y))|]. by destruct Hg as (_ & _ & ->). }
  destruct (Hr r eq_refl) as (z & [Hk Hz] & ->). clear Hr.
  assert (g_next g = g_next (y_gateway y)) as Hn by apply Hg. set (n := g_next (y_gateway y)) in *.
  assert (∀ k l, waits (<[i:=(ids, None)]> (y_locks y)) k l → (k < n)%nat → waits (y_locks y) k l) as Hw.
  { intros k l (j & ids' & pn' & Hj & <- & <-) _. exists j, ids', pn'. split; [|done].
    destruct (decide (j = i)) as [->|]; [|by rewrite list_lookup_insert_ne in Hj].
    rewrite list_lookup_insert_eq in Hj by by eapply lookup_lt_Some. done. }
  rewrite Forall_lookup in Hl. pose proof (Hl _ _ Hi) as [_ Hp]. simpl in Hp.
  split; simpl; rewrite ?Hn; [| |done|].
  - eapply channels_weaken; [| |exact Hg]; [intros x; by apply task_for_mono|intros k r; by apply reply_for_mono].
  - apply Forall_insert; [by apply Forall_lookup|]. done.
  - apply Forall_app. split; [done|]. constructor; [|constructor]. unfold answers_for. simpl.
    rewrite <-Hp, app_assoc. f_equiv. destruct z as [r|l]; [|done]. apply Hz. by exists i, ids, pn.
Qed.

Lemma inv_cancel y u s ids idxs total : system_inv y → system_inv (gw_step (GCancel u s ids idxs total) y).
Proof.
  intros Hy. destruct (Hy) as [Hc Hl Hcs Hd]. simpl. unfold on_gateway.
  destruct (hoare_cancel_begin _ _ _ u s ids idxs total _ Hc) as [Hr Hg].
  destruct (cancel_begin u s ids idxs total (y_gateway y)) as [[c|e] g]; simpl in *;
    assert (Hn := proj2 (proj2 Hg)); apply inv_gateway; try done; [by exists (S (g_next (y_gateway y))); auto| |by eexists|].
  - specialize (Hr c eq_refl). intros i c' b Hi. rewrite Hn.
    apply lookup_app_Some in Hi as [Hi|[_ Hi]]; [apply Hcs in Hi; lia|].
    apply list_lookup_singleton_Some in Hi as [_ [= <- <-]]. lia.
  - intros i c b Hi. apply Hcs in Hi. lia.
Qed.

Lemma inv_cancel_send y i : system_inv y → system_inv (gw_step (GCancelSend i) y).
Proof.
  intros Hy. destruct (Hy) as [Hc Hl Hcs Hd]. simpl.
  destruct (y_cancels y !! i) as [[[c [|]]|]|] eqn:Hi; [done| |done..]. pose proof (Hcs _ _ _ Hi) as Hk.
  pose proof (keeps_cancel_send (task_for (y_locks y) (g_next (y_gateway y)))
    (reply_for (y_locks y) (g_next (y_gateway y))) _ c Hk _ Hc) as Hg.
  unfold on_gateway. destruct (cancel_send c (y_gateway y)) as [b g]. simpl in *.
  apply inv_gateway; [done|by eexists|]. assert (Hn := proj2 (proj2 Hg)). rewrite Hn. intros j c' b' Hj.
  destruct (decide (j = i)) as [->|]; [|by rewrite list_lookup_insert_ne in Hj; eauto].
  rewrite list_lookup_insert_eq in Hj by by eapply lookup_lt_Some. by simplify_eq.
Qed.

Lemma inv_cancel_end y i : system_inv y → system_inv (gw_step (GCancelEnd i) y).
Proof.
  intros Hy. destruct (Hy) as [Hc Hl Hcs Hd]. simpl.
  destruct (y_cancels y !! i) as [[[c [|]]|]|] eqn:Hi; [|done..].
  pose proof (keeps_cancel_end _ _ _ c _ Hc) as Hg.
  unfold on_gateway. destruct (cancel_end c (y_gateway y)) as [r g]. simpl in *.
  assert (Hn := proj2 (proj2 Hg)).
  destruct r as [r|]; (apply inv_gateway; [done|by eexists|]); rewrite Hn; [|done]. intros j c' b' Hj.
  destruct (decide (j = i)) as [->|]; [|by rewrite list_lookup_insert_ne in Hj; eauto].
  by rewrite list_lookup_insert_eq in Hj by by eapply lookup_lt_Some.
Qed.

Lemma inv_step o y : system_inv y → system_inv (gw_step o y).
Proof.
  intros Hy. destruct o.
  - by apply inv_lock.
  - by apply inv_lock_end.
  - by apply inv_cancel.
  - by apply inv_cancel_send.
  - by apply inv_cancel_end.
  - apply inv_keeps; [done|]. apply keeps_actor_task, handled_for.
  - apply inv_keeps; [done|]. apply keeps_message.
  - apply inv_keeps; [done|]. apply keeps_sweep.
  - apply inv_keeps; [done|]. apply keeps_reconcile.
  - apply inv_keeps; [done|]. apply keeps_evict.
  - apply inv_keeps; [done|]. apply keeps_redis.
Qed.

Lemma inv_run os y : system_inv y → system_inv (gw_run os y).
Proof. revert y. induction os as [|o os IH]; intros y Hy; simpl; [done|]. by apply IH, inv_step. Qed.

(** [GatewayState::new], in a world of Redis servers. *)
Definition gateway_new (rmq : bool) (w : world D) : gateway D := Gateway [] ∅ ∅ rmq [] ∅ 0 w.

Lemma inv_new rmq w : system_inv (System (gateway_new rmq w) [] [] []).
Proof. split; simpl; [|constructor|done|constructor]. split_and!; [done|apply map_Forall_empty|done]. Qed.

(** C34: every answer accounts for its request.  Whatever requests, cancellations,
    sweeps, evictions, closings and messages a gateway handles, in any interleaving and
    with any pattern of lost connections, the answer to a lock request lists each seat
    asked for exactly once, as locked or as failed. *)
Theorem lock_answers_partition rmq (w : world D) os ids r :
  (ids, r) ∈ y_done (gw_run os (System (gateway_new rmq w) [] [] [])) →
  locked_seat_ids r ++ failed_seat_ids r ≡ₚ ids.
Proof.
  intros Hr. destruct (inv_run os _ (inv_new rmq w)) as [_ _ _ Hd]. rewrite Forall_forall in Hd. by apply (Hd (ids, r)).
Qed.
End system.

#[local] Existing Instance single_node_lock.

(** Two users ask for overlapping seats while a third holds one of them. *)
Definition rush : list gw_op :=
  [ GElsewhere (OpAcquire 7 12 3 300); GLock 1 7 [11; 12] [1; 2] 10; GLock 2 7 [12; 13] [2; 3] 10;
    GActor 0; GLockEnd 0; GActor 0; GMessage "room:7" "x"; GLockEnd 1 ].
Definition rush_answers : list (list Z * lock_result) :=
  y_done (gw_run rush (System (gateway_new true (mem_world 2 1000)) [] [] [])).

Lemma lock_answers_partition_witness :
  rush_answers = [([11; 12], LockResult [11] [12]); ([12; 13], LockResult [13] [12])] ∧
  [13] ++ [12] ≡ₚ [12; 13].
Proof.
  split; [vm_compute; reflexivity|].
  refine (lock_answers_partition true (mem_world 2 1000) rush [12; 13] (LockResult [13] [12]) _).
  apply (list_elem_of_lookup_2 _ 1%nat). vm_compute. reflexivity.
Defined.
