(* ===== verification/GatewayWorkers.v ===== *)
(** * GatewayWorkers: the messages a gateway listens to
    ([handle_pubsub_message] and [handle_schedule_lifecycle_message]) *)

From Stdlib Require Import Ascii.
From S2P Require Import Prelude Text Keys Redis RedisMem SeatLock SingleNodeLock LeaseTable ShowActor Events Gateway GatewayRequests.

Section messages.
Context {D : Type} `{!RedisServer D} {HS : SeatLock D} {HJ : JsonText}.
Implicit Types (g : gateway D) (y : system (D:=D)).

(** *** Room channels *)

Lemma split_no_colon x : all_chars int_char x = true → split_on ":"%char x = [x].
Proof.
  induction x as [|a x IH]; simpl; [done|]. intros [Ha Hx]%andb_true_iff.
  destruct (Ascii.eqb a ":"%char) eqn:E; [|by rewrite IH].
  apply Ascii.eqb_eq in E as ->. discriminate.
Qed.

Lemma room_channel_id s : in_i32 s = true → split_on ":"%char (room_channel s) !! 1%nat ≫= parse_i32 = Some s.
Proof.
  intros Hs. unfold room_channel. simpl. rewrite split_no_colon by apply show_Z_chars. simpl.
  by apply parse_show_i32.
Qed.

Lemma room_not_lifecycle s : room_channel s ≠ schedule_lifecycle_channel.
Proof. by intros [=]. Qed.

Lemma message_seats_nums ids : forallb in_i32 ids = true → message_seats (map JNum ids) = ids.
Proof.
  induction ids as [|t ids IH]; [done|]. cbn [forallb]. intros [Ht Hids]%andb_true_iff.
  transitivity (match i32 <$> as_i64 (JNum t) with
    Some z => z :: message_seats (map JNum ids) | None => message_seats (map JNum ids) end); [reflexivity|].
  rewrite (as_i64_i32 t Ht), IH by done. simpl. f_equal.
  apply wrap_s_small; [lia|]. apply in_i32_true in Ht. unfold i32_min, i32_max, in_s in *. lia.
Qed.

(** The messages with a list of seats that the payment processor sends. *)
Definition seats_message (event : string) (ids : list Z) : json :=
  JObj [("event", JStr event); ("seat_ids", JArr (map JNum ids))]%string.

Lemma seats_message_ok event ids : forallb in_i32 ids = true → json_ok (seats_message event ids) = true.
Proof. intros H. unfold json_ok, seats_message. json_ok_leaves. Qed.

(** No event of the shared Pub/Sub type reaches the admission state.  On the
    channel of a room the gateway ignores every serialised [PubSubEvent], the
    [SeatUnlocked] of the lock server and of the other gateways included; it clears
    admissions exactly for the [seat_ids] of messages tagged [seat_unlocked] or
    [seat_booked]. *)
Theorem room_events_never_clear_admission s e event ids g :
  event_ok e = true → in_i32 s = true → forallb in_i32 ids = true → event ∈ ["seat_unlocked"; "seat_booked"]%string →
  on_message (room_channel s) (event_text e) g = (tt, g) ∧
  on_message (room_channel s) (json_print (seats_message event ids)) g = clear_admission s ids g.
Proof.
  intros He Hs Hids Hev. unfold on_message. rewrite bool_decide_eq_false_2 by apply room_not_lifecycle.
  unfold handle_pubsub_message, event_text. rewrite !json_parse_print by eauto using event_json_ok, seats_message_ok.
  split; [by destruct e|]. unfold seats_message. cbn [assoc].
  rewrite room_channel_id by done. simpl. rewrite message_seats_nums by done.
  apply elem_of_cons in Hev as [->|Hev%list_elem_of_singleton]; [reflexivity|]. by subst.
Qed.
End messages.

(** *** Closed schedules *)

Section closed.
Context {D : Type} `{!RedisServer D} {HS : SeatLock D} {HJ : JsonText}.
Implicit Types (g : gateway D) (y : system (D:=D)) (s : Z).

Definition closed_for s g : Prop := s ∈ g_closed g.

Lemma closed_redis {A} s (m : St (world D) A) : keeps (closed_for s) (redis m).
Proof. intros g Hg. unfold redis, zoom. by destruct (m (g_world g)). Qed.
Lemma closed_on_actor {A} s p (d : A) f : keeps (closed_for s) (on_actor p d f).
Proof.
  intros g Hg. unfold on_actor. destruct (g_heap g !! p) as [sh|]; [|done]. by destruct (f (sh_actor sh)).
Qed.
Lemma closed_modify s f : (∀ g, g_closed (f g) = g_closed g) → keeps (closed_for s) (st_modify f).
Proof. intros Hf g Hg. unfold closed_for. simpl. by rewrite Hf. Qed.
Lemma closed_mark s s' : keeps (closed_for s) (st_modify (set_closed (λ c, {[s']} ∪ c))).
Proof. intros g Hg. unfold closed_for. simpl. set_solver. Qed.
Lemma closed_try_send s p t : keeps (closed_for s) (try_send p t).
Proof. intros g Hg. unfold try_send. destruct (g_heap g !! p); [|done]. by case_bool_decide. Qed.
Lemma closed_oneshot s : keeps (closed_for s) oneshot.
Proof. by intros g. Qed.
Hint Resolve closed_redis closed_on_actor closed_mark closed_try_send closed_oneshot : keeps.
Hint Extern 2 (keeps (closed_for _) (st_modify _)) => apply closed_modify; intros ?; reflexivity : keeps.

Lemma closed_clear s key l : keeps (closed_for s) (clear_admission key l).
Proof.
  intros g Hg. unfold clear_admission. destruct (g_actors g !! key) as [[p|]|]; [|done..].
  revert g Hg. apply keeps_for_each. auto with keeps.
Qed.
Lemma closed_register s p l : keeps (closed_for s) (register_all p l).
Proof. induction l as [|[t i] l IH]; simpl; keeps_tac. Qed.
Lemma closed_admit s p l : keeps (closed_for s) (admit_all p l).
Proof. induction l as [|[t i] l IH]; simpl; keeps_tac. Qed.
Lemma closed_init s key c : keeps (closed_for s) (get_or_try_init key c).
Proof.
  unfold get_or_try_init. apply hoare_st_get. intros g Hg.
  assert (keeps (closed_for s) (st_put (set_actors <[key := None]> g))) as Hput by (by intros ? _).
  destruct (g_actors g !! key) as [[p|]|]; [apply keeps_ret| |];
    (case_bool_decide; [apply keeps_bind; [exact Hput|intros ?; apply keeps_ret]|keeps_tac]).
Qed.
Lemma closed_lease s p : keeps (closed_for s) (lease_begin p) ∧ keeps (closed_for s) (lease_drop p).
Proof. split; unfold lease_begin, lease_drop; keeps_tac. Qed.
Lemma closed_lease_begin s p : keeps (closed_for s) (lease_begin p).
Proof. apply closed_lease. Qed.
Lemma closed_lease_drop s p : keeps (closed_for s) (lease_drop p).
Proof. apply closed_lease. Qed.
Hint Resolve closed_clear closed_register closed_admit closed_init closed_lease_begin closed_lease_drop keeps_st_get : keeps.

Lemma closed_get_or_create s key total : keeps (closed_for s) (get_or_create_show_actor key total).
Proof. unfold get_or_create_show_actor, closed_in_redis, store_closing. keeps_tac. Qed.
Lemma closed_publish s a u k l : keeps (closed_for s) (publish_to_locking_queue a u k l).
Proof. unfold publish_to_locking_queue. keeps_tac. Qed.
Hint Resolve closed_get_or_create closed_publish : keeps.

Lemma closed_lock_begin s u k ids idxs total : keeps (closed_for s) (lock_begin u k ids idxs total).
Proof. unfold lock_begin. keeps_tac. Qed.
Lemma closed_cancel_begin s u k ids idxs total : keeps (closed_for s) (cancel_begin u k ids idxs total).
Proof. unfold cancel_begin. keeps_tac. Qed.
Lemma closed_ends s pn c : keeps (closed_for s) (lock_end pn) ∧ keeps (closed_for s) (cancel_end c).
Proof. split; unfold lock_end, cancel_end; keeps_tac. Qed.
Lemma closed_actor_task s p : keeps (closed_for s) (actor_task p).
Proof.
  intros g Hg. unfold actor_task. destruct (g_heap g !! p) as [[key a [|task tasks]]|]; [done| |done].
  assert (keeps (closed_for s) (run_task key task)) as Hk; [|by apply Hk].
  destruct task; simpl; unfold acquire_and_publish, cancel_committed; keeps_tac.
Qed.
Lemma closed_mark_schedule s k : keeps (closed_for s) (mark_schedule_closed k).
Proof.
  intros g Hg. unfold mark_schedule_closed, store_closing. simpl.
  assert (closed_for s (set_actors (delete k) (set_closed (λ c, {[k]} ∪ c) g))) as H by (unfold closed_for in *; simpl; set_solver).
  destruct (g_actors g !! k) as [[p|]|]; [by apply closed_on_actor|done..].
Qed.
Hint Resolve closed_mark_schedule : keeps.
Lemma closed_workers s now :
  keeps (closed_for s) release_expired_locks ∧ keeps (closed_for s) reconcile_closed_actors ∧
  keeps (closed_for s) (evict_idle_actors now).
Proof.
  unfold release_expired_locks, release_expired_entry, reconcile_closed_actors, evict_idle_actors, evict_one.
  split_and!; keeps_tac.
Qed.

(** The step does not handle the opening of [s]. *)
Definition no_opening s (o : gw_op) : Prop :=
  match o with GMessage _ m => parse_event m ≠ Some (ScheduleOpened s) | _ => True end.

Lemma closed_message s ch m : parse_event m ≠ Some (ScheduleOpened s) → keeps (closed_for s) (on_message ch m).
Proof.
  intros Hm. unfold on_message. apply keeps_if; [|unfold handle_pubsub_message; keeps_tac].
  unfold handle_schedule_lifecycle_message. destruct (parse_event m) as [[]|]; keeps_tac.
  intros g Hg. unfold closed_for in *. simpl. assert (s ≠ schedule_id) by congruence. set_solver.
Qed.

Lemma closed_step s o y : no_opening s o → closed_for s (y_gateway y) → closed_for s (y_gateway (gw_step o y)).
Proof.
  assert (∀ A (m : St (gateway D) A) y, keeps (closed_for s) m → closed_for s (y_gateway y) →
    closed_for s (y_gateway (on_gateway m y).2)) as Hk.
  { intros A m y' Hm Hy. specialize (Hm _ Hy). unfold on_gateway. by destruct (m (y_gateway y')). }
  intros Ho Hy. destruct o; simpl in Ho; simpl.
  - pose proof (Hk _ _ y (closed_lock_begin s user_id showtime_id seat_ids seat_indices total_seat_count) Hy) as H.
    by destruct (on_gateway _ y) as [[|[]] ?].
  - destruct (y_locks y !! i) as [[? [pn|]]|]; [|done..].
    pose proof (Hk _ _ y (proj1 (closed_ends s pn (Cancelling 0 0 [] 0))) Hy) as H. by destruct (on_gateway _ y) as [[] ?].
  - pose proof (Hk _ _ y (closed_cancel_begin s user_id showtime_id seat_ids seat_indices total_seat_count) Hy) as H.
    by destruct (on_gateway _ y) as [[] ?].
  - destruct (y_cancels y !! i) as [[[c []]|]|]; [done| |done..].
    pose proof (Hk _ _ y (closed_try_send s (cn_actor c) (TCancel (cn_user c) (cn_seats c) (cn_response c)) : keeps _ (cancel_send c)) Hy) as H. by destruct (on_gateway _ y).
  - destruct (y_cancels y !! i) as [[[c []]|]|]; [|done..].
    pose proof (Hk _ _ y (proj2 (closed_ends s (Pending 0 0 0 [] []) c)) Hy) as H. by destruct (on_gateway _ y) as [[] ?].
  - by apply Hk; [apply closed_actor_task|].
  - by apply Hk; [apply closed_message|].
  - by apply Hk; [apply closed_workers|].
  - by apply Hk; [apply closed_workers|].
  - by apply Hk; [apply closed_workers|].
  - by apply Hk; [apply closed_redis|].
Qed.

(** A closed schedule takes no request.  Once a gateway has handled the
    [ScheduleClosed] event of a schedule, and until it handles its [ScheduleOpened],
    whatever it does in between, each lock request and each cancellation for the
    schedule is an error and changes nothing. *)
Theorem closed_schedule_takes_no_request s y os u ids idxs total :
  in_i32 s = true → Forall (no_opening s) os →
  let y' := gw_run os (gw_step (GMessage schedule_lifecycle_channel (event_text (ScheduleClosed s))) y) in
  let g := y_gateway y' in
  (∃ e, lock_begin u s ids idxs total g = (inr (inr e), g)) ∧ (∃ e, cancel_begin u s ids idxs total g = (inr e, g)).
Proof.
  intros Hs Hos y' g.
  assert (closed_for s g) as Hg.
  { subst g y'. assert (closed_for s (y_gateway
      (gw_step (GMessage schedule_lifecycle_channel (event_text (ScheduleClosed s))) y))) as H.
    { simpl. unfold on_gateway, on_message, handle_schedule_lifecycle_message.
      rewrite bool_decide_eq_true_2, parse_event_text by done. unfold mark_schedule_closed, store_closing.
      destruct (g_actors _ !! s) as [[p|]|]; unfold on_actor; simpl; try (destruct (g_heap _ !! p) as [sh|]);
        unfold closed_for; simpl; set_solver. }
    revert H. generalize (gw_step (GMessage schedule_lifecycle_channel (event_text (ScheduleClosed s))) y).
    induction Hos as [|o os Ho _ IH]; intros y' Hy'; simpl; [done|]. by apply IH, closed_step. }
  clearbody g. unfold lock_begin, cancel_begin.
  assert (get_or_create_show_actor s total g = (inr ScheduleIsClosed, g)) as Hc.
  { unfold get_or_create_show_actor, mbind, St_bind, st_get. by rewrite bool_decide_eq_true_2. }
  split; (case_bool_decide; [by eexists|]); unfold mbind, St_bind; rewrite Hc; by eexists.
Qed.
End closed.

#[local] Existing Instance single_node_lock.
#[local] Existing Instance mem_json.

(** Seat 11 of show 7 is admitted, the lock server sweeps, then the show closes. *)
Definition open_show : system (D:=mem_redis) :=
  gw_run [GLock 1 7 [11; 12] [1; 2] 10; GActor 0] (System (gateway_new true (mem_world 2 1000)) [] [] []).

Lemma room_events_never_clear_admission_witness :
  on_message (room_channel 7) (event_text (SeatUnlocked 1 7 11)) (y_gateway open_show) = (tt, y_gateway open_show) ∧
  (sh_actor <$> g_heap (on_message (room_channel 7) (json_print (seats_message "seat_unlocked" [11])) (y_gateway open_show)).2)
    = (λ sh, clear_seat 11 (sh_actor sh)) <$> g_heap (y_gateway open_show).
Proof.
  destruct (room_events_never_clear_admission 7 (SeatUnlocked 1 7 11) "seat_unlocked" [11] (y_gateway open_show)
    eq_refl eq_refl eq_refl (list_elem_of_here _ _)) as [H1 H2].
  split; [exact H1|rewrite H2]. vm_compute. reflexivity.
Defined.

Lemma closed_schedule_takes_no_request_witness :
  let y := gw_run [GEvict 5; GLockEnd 0; GSweep]
    (gw_step (GMessage schedule_lifecycle_channel (event_text (ScheduleClosed 7))) open_show) in
  ∃ e, lock_begin 2 7 [13] [3] 10 (y_gateway y) = (inr (inr e), y_gateway y).
Proof.
  refine (proj1 (closed_schedule_takes_no_request 7 open_show [GEvict 5; GLockEnd 0; GSweep] 2 [13] [3] 10 eq_refl _)).
  repeat (apply List.Forall_cons; [exact I|]). apply List.Forall_nil.
Defined.

(** * Locks of free seats *)

Section locks.
Context {D : Type} `{!RedisServer D} `{!RedisLaws D} {HJ : JsonText}.
#[local] Existing Instance single_node_lock.
Implicit Types (σ : gmap seat lease) (g : gateway D).

(** The table after user [u] has been given, for [ttl] milliseconds, every seat of [l]
    that is free or already the user's. *)
Definition grant_all σ (s now u ttl : Z) (l : list Z) : gmap seat lease :=
  fold_left (λ σ t, (grant σ (s, t) now u ttl).2) l σ.

Definition takes σ (s now u : Z) (t : Z) : bool := can_take σ (s, t) now u.

Lemma can_take_grant σ s t t' now u ttl :
  0 < ttl → takes (grant σ (s, t) now u ttl).2 s now u t' = takes σ s now u t'.
Proof.
  intros Httl. unfold takes, grant. simpl. destruct (can_take σ (s, t) now u) eqn:E; [|done].
  unfold can_take, live. destruct (decide (t' = t)) as [->|]; [|by rewrite lookup_insert_ne by congruence].
  rewrite lookup_insert_eq. rewrite (proj2 (Z.ltb_lt _ _)) by lia. rewrite bool_decide_eq_true_2 by done.
  exact (eq_sym E).
Qed.

Lemma live_grant_kept σ s t t' now u ttl τ :
  0 < ttl → now ≤ τ < now + ttl → live σ (s, t) τ = Some u → live (grant σ (s, t') now u ttl).2 (s, t) τ = Some u.
Proof.
  intros Httl Hτ H. unfold grant. simpl. destruct (can_take σ (s, t') now u); [|done].
  unfold live in *. destruct (decide (t = t')) as [->|]; [|by rewrite lookup_insert_ne by congruence].
  rewrite lookup_insert_eq. by rewrite (proj2 (Z.ltb_lt _ _)) by lia.
Qed.

Lemma live_grant_all_kept σ s now u ttl l t τ :
  0 < ttl → now ≤ τ < now + ttl → live σ (s, t) τ = Some u → live (grant_all σ s now u ttl l) (s, t) τ = Some u.
Proof.
  intros Httl Hτ. revert σ. induction l as [|t' l IH]; intros σ H; simpl; [done|]. by apply IH, live_grant_kept.
Qed.

(** Each seat that could be taken is leased until [now + ttl]. *)
Lemma live_grant_all σ s now u ttl l t τ :
  0 < ttl → t ∈ l → takes σ s now u t = true → now ≤ τ < now + ttl →
  live (grant_all σ s now u ttl l) (s, t) τ = Some u.
Proof.
  intros Httl Hin Ht Hτ. revert σ Ht. induction l as [|t' l IH]; intros σ Ht; [by apply not_elem_of_nil in Hin|].
  change (live (grant_all (grant σ (s, t') now u ttl).2 s now u ttl l) (s, t) τ = Some u).
  apply elem_of_cons in Hin as [->|Hin].
  - apply live_grant_all_kept; [done..|]. unfold grant, takes in *. simpl. rewrite Ht. unfold live.
    rewrite lookup_insert_eq. by rewrite (proj2 (Z.ltb_lt _ _)) by lia.
  - apply IH; [done|]. by rewrite can_take_grant.
Qed.

Lemma hoare_acquire_all n σ now s u l :
  n ≠ 0%nat → in_i32 u = true →
  hoare (sees n (view σ) now) (acquire_all (D:=D) u s l)
    (answers n now (List.filter (takes σ s now u) l, List.filter (λ t, negb (takes σ s now u t)) l)
       (grant_all σ s now u 300000 l)).
Proof.
  intros Hn Hu. revert σ. induction l as [|t l IH]; intros σ; simpl; [by apply hoare_ret|].
  eapply hoare_bind.
  { unfold sn_acquire_distributed_lock. replace (ttl_ms_of 300) with 300000 by reflexivity.
    apply hoare_acquire; [done..|]. apply px_ok_range. lia. }
  intros ok. apply hoare_pure. intros ->. eapply hoare_bind; [apply IH|]. intros r. apply hoare_pure. intros ->.
  apply hoare_ret. intros w Hw. split; [|done].
  assert (∀ l, List.filter (takes (grant σ (s, t) now u 300000).2 s now u) l = List.filter (takes σ s now u) l ∧
    List.filter (λ t', negb (takes (grant σ (s, t) now u 300000).2 s now u t')) l =
      List.filter (λ t', negb (takes σ s now u t')) l) as Hf.
  { intros l'. split; apply filter_ext; intros t'; by rewrite can_take_grant by lia. }
  destruct (Hf l) as [-> ->]. change (can_take σ (s, t) now u) with (takes σ s now u t). by destruct (takes σ s now u t).
Qed.

Lemma live_grant_other σ s t now u ttl k o τ :
  live σ k now = Some o → o ≠ u → live (grant σ (s, t) now u ttl).2 k τ = live σ k τ.
Proof.
  intros Hk Ho. unfold grant. simpl. destruct (can_take σ (s, t) now u) eqn:E; [|done].
  unfold live. destruct (decide (k = (s, t))) as [->|]; [|by rewrite lookup_insert_ne].
  unfold can_take in E. rewrite Hk in E. by apply bool_decide_eq_true in E.
Qed.

(** The leases of the other users are left alone. *)
Lemma live_grant_all_other σ s now u ttl l k o τ :
  live σ k now = Some o → o ≠ u → live (grant_all σ s now u ttl l) k τ = live σ k τ.
Proof.
  intros Hk Ho. revert σ Hk. induction l as [|t l IH]; intros σ Hk; [done|].
  change (live (grant_all (grant σ (s, t) now u ttl).2 s now u ttl l) k τ = live σ k τ).
  rewrite IH; [by eapply live_grant_other|]. by rewrite (live_grant_other _ _ _ _ _ _ _ o).
Qed.

Lemma publish_queue_ok a u s l g :
  w_faults (g_world g) = [] →
  publish_to_locking_queue a u s l g =
    (g_rmq g, if g_rmq g then push_amqp (SeatLockMessage a u s l (w_now (g_world g))) g else g).
Proof.
  destruct g as [hp ac cl rmq am rp nx [ns t fl lg]]. simpl. intros ->.
  unfold publish_to_locking_queue, mbind, St_bind, st_get. simpl. by destruct rmq.
Qed.

Lemma acquire_and_publish_eq u s l g locked failed w :
  acquire_all u s l (g_world g) = ((locked, failed), w) → w_faults w = [] →
  acquire_and_publish u s l g =
    (LockResult locked failed,
     if g_rmq g && negb (bool_decide (locked = []))
     then push_amqp (SeatLockMessage "lock" u s locked (w_now w)) (set_world w g) else set_world w g).
Proof.
  intros H Hf. unfold acquire_and_publish. unfold mbind at 1, St_bind at 1, redis, zoom. rewrite H.
  unfold mbind at 1, St_bind at 1. destruct (bool_decide (locked = [])); simpl; [by destruct (g_rmq g)|].
  unfold mbind, St_bind. rewrite publish_queue_ok by done. simpl. by destruct (g_rmq g).
Qed.

(** A lock task takes exactly the seats that are free or already its user's.
    Without network faults the seats of the task are split by the lease table: those
    the user can take are answered as locked, are the user's alone for the next 300
    seconds, and make up the one message the lock server gets; the others are answered
    as failed; nobody else's lease changes. *)
Theorem lock_task_takes_free_seats n σ now s u l g :
  sees n (view σ) now (g_world g) → in_i32 u = true →
  let locked := List.filter (takes σ s now u) l in
  let failed := List.filter (λ t, negb (takes σ s now u t)) l in
  let g' := (acquire_and_publish u s l g).2 in
  (acquire_and_publish u s l g).1 = LockResult locked failed ∧
  g_amqp g' = g_amqp g ++
    (if g_rmq g && negb (bool_decide (locked = [])) then [SeatLockMessage "lock" u s locked now] else []) ∧
  ∃ σ', sees n (view σ') now (g_world g') ∧
    (∀ t τ, t ∈ locked → now ≤ τ < now + 300000 → live σ' (s, t) τ = Some u) ∧
    (∀ k o τ, live σ k now = Some o → o ≠ u → live σ' k τ = live σ k τ).
Proof.
  intros Hw Hu locked failed g'. destruct (Hw) as (_ & _ & Hn & _).
  destruct (hoare_acquire_all n σ now s u l Hn Hu (g_world g) Hw) as [Hr Hs].
  destruct (acquire_all u s l (g_world g)) as [r w] eqn:E. simpl in Hr, Hs. subst r.
  destruct (Hs) as (Hf & _ & _ & Ht & _). subst g'. rewrite (acquire_and_publish_eq _ _ _ _ _ _ _ E Hf), Ht.
  fold locked failed. split; [done|]. split.
  { destruct (g_rmq g && _); [done|]. by rewrite app_nil_r. }
  exists (grant_all σ s now u 300000 l). split; [by destruct (g_rmq g && _)|]. split.
  - intros t τ Hin Hτ. apply list_elem_of_In, filter_In in Hin as [Hin Htk].
    apply live_grant_all; [lia|by apply list_elem_of_In|done|done].
  - intros k o τ. apply live_grant_all_other.
Qed.
End locks.

(** User 2 holds seat 3; user 1 asks for seats 3 and 4. *)
Definition contested : gateway mem_redis := Gateway [] ∅ ∅ true [] ∅ 0 taken_over.

#[local] Existing Instance single_node_lock.

Lemma lock_task_takes_free_seats_witness :
  (acquire_and_publish 1 7 [3; 4] contested).1 = LockResult [4] [3] ∧
  g_amqp (acquire_and_publish 1 7 [3; 4] contested).2 = [SeatLockMessage "lock" 1 7 [4] 66000].
Proof.
  destruct (lock_task_takes_free_seats 2 _ 66000 7 1 [3; 4] contested taken_over_sees eq_refl) as (H1 & H2 & _).
  split; [rewrite H1|rewrite H2]; vm_compute; reflexivity.
Defined.
