(* ===== verification/GatewayApi.v ===== *)
(** * GatewayApi: the HTTP and gRPC front of the gateway
    ([lock_seats], [cancel_seats], [authenticated_user], [validate_seats] and
    [rate_limit_middleware] of [apps/gateway-keeper/src/main.rs]; [lock_slot] and
    [unlock_slot] of [grpc_service.rs])

    The token decoder ([jsonwebtoken]) is a parameter.  A handler is run without
    interference: [Gateway.lock] lets the actor serve its channel at once. *)

From S2P Require Import Prelude Text Keys Redis RedisMem SeatLock SingleNodeLock RateLimit ShowActor Events Gateway GatewayRequests.

(** Status codes with the message of an [ApiError] or of a gRPC [Status]. *)
Record api_error := ApiError { status : Z; message : string }.

Record seat_request := SeatRequest { rq_seat_ids : list Z; rq_seat_indices : list Z; rq_total_seat_count : Z }.
Record lock_response := LockResponse { lr_success : bool; lr_locked : list Z; lr_failed : list Z }.
Record cancel_response := CancelResponse { cr_success : bool; cr_unlocked : list Z }.

Definition validate_seats (seat_ids seat_indices : list Z) (total_seat_count : Z) : option api_error :=
  if bool_decide (seat_ids = []) || existsb (λ t, t <=? 0) seat_ids
     || bool_decide (length seat_ids ≠ length seat_indices) || (total_seat_count <=? 0)
     || existsb (λ i, (i <=? 0) || (total_seat_count <? i)) seat_indices
  then Some (ApiError 400 "seat_ids, seat_indices and total_seat_count are invalid")
  else None.

(** The checks of [lock_slot] and of [unlock_slot]. *)
Definition slot_request_invalid (showtime_id total_seat_count : Z) (seat_ids seat_indices : list Z) : bool :=
  (showtime_id <? 0) || (total_seat_count <=? 0) || bool_decide (seat_ids = [])
  || existsb (λ t, t <=? 0) seat_ids || bool_decide (length seat_ids ≠ length seat_indices).

(** The texts of the gateway's errors. *)
Definition seat_error_text (e : seat_error) : string :=
  match e with
  | NotPositive => "seat ids must be positive"
  | OutsideCount => "seat index is outside the show seat count"
  | OtherIndex => "seat id maps to a different seat index"
  | OtherSeat => "seat index maps to a different seat id"
  end.
Definition gw_error_text (e : gw_error) : string :=
  match e with
  | LengthsDiffer => "seat_ids and seat_indices must have the same length"
  | ScheduleIsClosed => "schedule is closed"
  | BadTotalSeatCount => "total_seat_count must be between 1 and 200000"
  | SeatCountMismatch => "total seat count does not match the initialized show"
  | ActorClosing => "show actor is closing"
  | BadSeat e => seat_error_text e
  | CheckoutInProgress => "Cannot cancel seats while checkout is in progress"
  end.

Section api.
Context {D : Type} `{!RedisServer D} {HS : SeatLock D} {HJ : JsonText} {HT : TokenDecoder}.
Abbreviation G := (St (gateway D)).

(** [authorization] is the header as text, when it is text. *)
Definition authenticated_user (authorization : option string) (jwt_secret : string) : Z + api_error :=
  match authorization ≫= strip_prefix "Bearer " with
  | None => inr (ApiError 401 "missing bearer token")
  | Some token =>
      if bool_decide (token = "mock_token") then inl 1
      else
        match decode_sub jwt_secret token with
        | None => inr (ApiError 401 "invalid bearer token")
        | Some sub =>
            match parse_i32 sub with
            | Some user_id => inl user_id
            | None => inr (ApiError 401 "invalid user identity")
            end
        end
  end%string.

(** The outer option: [None] while the reply is missing. *)
Definition lock_seats (authorization : option string) (jwt_secret : string) (showtime_id : Z) (rq : seat_request) :
    G (option (lock_response + api_error)) :=
  match authenticated_user authorization jwt_secret with
  | inr e => mret (Some (inr e))
  | inl user_id =>
      match validate_seats (rq_seat_ids rq) (rq_seat_indices rq) (rq_total_seat_count rq) with
      | Some e => mret (Some (inr e))
      | None =>
          result ← lock user_id showtime_id (rq_seat_ids rq) (rq_seat_indices rq) (rq_total_seat_count rq);
          mret (match result with
            | None => None
            | Some (inr _) => Some (inr (ApiError 400 "Invalid show seat metadata"))
            | Some (inl r) =>
                Some (inl (LockResponse (negb (bool_decide (locked_seat_ids r = []))) (locked_seat_ids r) (failed_seat_ids r)))
            end)
      end
  end.

Definition cancel_seats (authorization : option string) (jwt_secret : string) (showtime_id : Z) (rq : seat_request) :
    G (option (cancel_response + api_error)) :=
  match authenticated_user authorization jwt_secret with
  | inr e => mret (Some (inr e))
  | inl user_id =>
      match validate_seats (rq_seat_ids rq) (rq_seat_indices rq) (rq_total_seat_count rq) with
      | Some e => mret (Some (inr e))
      | None =>
          result ← cancel user_id showtime_id (rq_seat_ids rq) (rq_seat_indices rq) (rq_total_seat_count rq);
          mret (match result with
            | None => None
            | Some (inr _) => Some (inr (ApiError 400 "Cannot cancel seats while checkout is in progress"))
            | Some (inl ids) => Some (inl (CancelResponse (negb (bool_decide (ids = []))) ids))
            end)
      end
  end.

(** gRPC: status 3 is [INVALID_ARGUMENT]. *)
Definition lock_slot (user_id showtime_id : Z) (rq : seat_request) : G (option (lock_response + api_error)) :=
  if slot_request_invalid showtime_id (rq_total_seat_count rq) (rq_seat_ids rq) (rq_seat_indices rq)
  then mret (Some (inr (ApiError 3 "showtime_id, total_seat_count, seat_ids and seat_indices are required")))
  else
    result ← lock user_id showtime_id (rq_seat_ids rq) (rq_seat_indices rq) (rq_total_seat_count rq);
    mret (match result with
      | None => None
      | Some (inr e) => Some (inr (ApiError 3 (gw_error_text e)))
      | Some (inl r) =>
          Some (inl (LockResponse (negb (bool_decide (locked_seat_ids r = []))) (locked_seat_ids r) (failed_seat_ids r)))
      end).

Definition unlock_slot (user_id showtime_id : Z) (rq : seat_request) : G (option (cancel_response + api_error)) :=
  if slot_request_invalid showtime_id (rq_total_seat_count rq) (rq_seat_ids rq) (rq_seat_indices rq)
  then mret (Some (inr (ApiError 3 "showtime_id, total_seat_count, seat_ids and seat_indices are required")))
  else
    result ← cancel user_id showtime_id (rq_seat_ids rq) (rq_seat_indices rq) (rq_total_seat_count rq);
    mret (match result with
      | None => None
      | Some (inr e) => Some (inr (ApiError 3 (gw_error_text e)))
      | Some (inl ids) => Some (inl (CancelResponse (negb (bool_decide (ids = []))) ids))
      end).

(** [random] is the number the limiter draws; [next] is the inner service. *)
Definition rate_limit_middleware {A} (authorization : option string) (jwt_secret : string) (random : Z) (next : G A) :
    G (A + api_error) :=
  let identifier := match authenticated_user authorization jwt_secret with
    | inl user_id => ("user:" +:+ show_Z user_id)%string
    | inr _ => "anonymous"%string
    end in
  let key := ("rl:" +:+ identifier)%string in
  conn ← redis (pool_get 0);
  if negb conn then mret (inr (ApiError 500 "Redis connection failed"))
  else
    '(allowed, _, _) ← redis (check_sliding_window key 100 60000 random);
    if negb allowed then mret (inr (ApiError 429 "Rate limit exceeded"))
    else a ← next; mret (inl a).
End api.

(** ** Answers *)

Section answered.
Context {D : Type} `{!RedisServer D} {HS : SeatLock D} {HJ : JsonText}.
Implicit Types (g : gateway D).

(** A computation that leaves the channels and the replies alone. *)
Definition frame (h : list show) (rs : gmap nat reply) g : Prop := g_heap g = h ∧ g_replies g = rs.

Lemma frame_redis {A} h rs (m : St (world D) A) : keeps (frame h rs) (redis m).
Proof. intros g Hg. unfold redis, zoom. by destruct (m (g_world g)). Qed.
Lemma frame_push h rs m : keeps (frame h rs) (st_modify (push_amqp m)).
Proof. by intros g Hg. Qed.
Hint Resolve frame_redis frame_push keeps_st_get : keeps.
Lemma frame_publish h rs a u s l : keeps (frame h rs) (publish_to_locking_queue a u s l).
Proof. unfold publish_to_locking_queue. keeps_tac. Qed.
Hint Resolve frame_publish : keeps.

Definition task_response (x : gateway_task) : nat := match x with TLock _ _ k | TCancel _ _ k => k end.

(** A task of an actor: its reply is there, the older replies stay, the channels are as
    they were. *)
Lemma run_task_replies key x g :
  g_heap (run_task key x g).2 = g_heap g ∧
  is_Some (g_replies (run_task key x g).2 !! task_response x) ∧
  (∀ k, is_Some (g_replies g !! k) → is_Some (g_replies (run_task key x g).2 !! k)).
Proof.
  assert (∀ A (m : St (gateway D) A) k (r : A → reply), keeps (frame (g_heap g) (g_replies g)) m →
    let g' := ((a ← m; st_modify (set_reply k (r a))) g).2 in
    g_heap g' = g_heap g ∧ is_Some (g_replies g' !! k) ∧ (∀ k', is_Some (g_replies g !! k') → is_Some (g_replies g' !! k'))) as H.
  { intros A m k r Hm. destruct (Hm g (conj eq_refl eq_refl)) as [Hh Hr]. unfold mbind, St_bind.
    destruct (m g) as [a g1]. simpl in *. rewrite Hh, Hr. split_and!; [done|by rewrite lookup_insert_eq|].
    intros k' Hk'. destruct (decide (k' = k)) as [->|]; [by rewrite lookup_insert_eq|by rewrite lookup_insert_ne]. }
  destruct x as [u l k|u l k]; simpl; apply H; unfold acquire_and_publish, cancel_committed; keeps_tac.
Qed.

Lemma actor_task_cons p key a x xs g :
  g_heap g !! p = Some (Show key a (x :: xs)) →
  let g' := (actor_task p g).2 in
  g_heap g' !! p = Some (Show key a xs) ∧ is_Some (g_replies g' !! task_response x) ∧
  (∀ k, is_Some (g_replies g !! k) → is_Some (g_replies g' !! k)).
Proof.
  intros Hp g'. subst g'. unfold actor_task. rewrite Hp.
  destruct (run_task_replies key x (set_heap <[p:=Show key a xs]> g)) as (-> & H & H'). split_and!; [|done|exact H'].
  simpl. apply list_lookup_insert_eq. by eapply lookup_lt_Some.
Qed.

Lemma serve_replies p n g k : is_Some (g_replies g !! k) → is_Some (g_replies (serve p n g).2 !! k).
Proof.
  revert g. induction n as [|n IH]; intros g Hk; [done|]. simpl. unfold mbind, St_bind.
  assert (is_Some (g_replies (actor_task p g).2 !! k)) as H.
  { destruct (g_heap g !! p) as [[key a [|x xs]]|] eqn:E; [|by apply (proj2 (proj2 (actor_task_cons p key a x xs g E)))|];
      unfold actor_task; by rewrite E. }
  destruct (actor_task p g) as [[] g']. by apply IH.
Qed.

(** A queued task is answered after as many turns of its actor as there are tasks up to
    it. *)
Lemma serve_answers p n g key a q i x :
  g_heap g !! p = Some (Show key a q) → q !! i = Some x → (i < n)%nat →
  is_Some (g_replies (serve p n g).2 !! task_response x).
Proof.
  revert g q i. induction n as [|n IH]; intros g q i Hp Hi Hn; [lia|]. simpl. unfold mbind, St_bind.
  destruct q as [|y q]; [done|]. destruct (actor_task_cons p key a y q g Hp) as (H1 & H2 & H3).
  destruct (actor_task p g) as [[] g']. simpl in *. destruct i as [|i]; simplify_eq/=.
  - by apply serve_replies.
  - apply (IH g' q i); [done..|lia].
Qed.

Lemma try_send_true p x g g' :
  try_send p x g = (true, g') →
  ∃ key a q, g_heap g' !! p = Some (Show key a (q ++ [x])) ∧ (length q < SHOW_QUEUE_CAPACITY)%nat.
Proof.
  unfold try_send. destruct (g_heap g !! p) as [[key a q]|] eqn:Hp; [|done]. case_bool_decide; [|done].
  intros [= <-]. exists key, a, q. split; [|done]. apply list_lookup_insert_eq. by eapply lookup_lt_Some.
Qed.

(** The task of a request that waits is in the channel of its actor. *)
Lemma lock_begin_queued u s ids idxs total g pn g' :
  lock_begin u s ids idxs total g = (inl pn, g') →
  ∃ key a q i, g_heap g' !! pn_actor pn = Some (Show key a q) ∧ (i < SHOW_QUEUE_CAPACITY)%nat ∧
    q !! i = Some (TLock u (pn_admitted pn) (pn_response pn)).
Proof.
  unfold lock_begin. unfold mbind, St_bind. case_bool_decide; [done|].
  destruct (get_or_create_show_actor s total g) as [[p|e] g1]; [|done].
  destruct (lease_begin p g1) as [[|] g2]; [|done]. cbn [negb].
  destruct (register_all p (zip ids idxs) g2) as [[seats|e] g3].
  2:{ by destruct (lease_drop p g3). }
  destruct (admit_all p seats g3) as [[adm fl] g4]. case_bool_decide.
  { by destruct (lease_drop p g4). }
  destruct (oneshot g4) as [k g5]. destruct (try_send p (TLock u adm k) g5) as [[|] g6] eqn:Hs; cbn [negb].
  - apply try_send_true in Hs as (key & a & q & Hp & Hq). unfold mret, St_ret. intros [= <- <-]. simpl.
    exists key, a, (q ++ [TLock u adm k]), (length q). split_and!; [done..|]. by rewrite list_lookup_middle.
  - destruct (clear_admission s adm g6) as [? g7]. by destruct (lease_drop p g7).
Qed.
End answered.

(** ** The handlers *)

Section handlers.
Context {D : Type} `{!RedisServer D} {HS : SeatLock D} {HJ : JsonText} {HT : TokenDecoder}.
Implicit Types (g : gateway D).

(** The one-shot channels in use have been created. *)
Definition channels_created g : Prop :=
  channels (λ x, task_response x < g_next g)%nat (λ k _, k < g_next g)%nat (g_next g) g.

(** What a request alone gets. *)
Lemma lock_answer u s ids idxs total g :
  channels_created g →
  ∃ r, (lock u s ids idxs total g).1 = Some r ∧ match r with inl r => answers_for ids r | inr _ => True end.
Proof.
  intros Hg. unfold lock. unfold mbind at 1, St_bind at 1.
  pose proof (hoare_lock_begin _ _ _ u s ids idxs total g Hg) as Hb.
  destruct (lock_begin u s ids idxs total g) as [[pn|r] g1] eqn:E; simpl in Hb.
  2:{ exists r. split; [done|]. destruct r as [r|]; [by destruct Hb|done]. }
  destruct Hb as (Hk & Hp & Hc). apply lock_begin_queued in E as (key & a & q & i & Hq & Hi & Hx).
  set (n := g_next g) in *.
  set (Q := λ x, match x with TLock _ l k => k = n → l = pn_admitted pn | TCancel _ _ _ => True end).
  set (R := λ k r, match r with RLock r => k = n → answers_for (pn_admitted pn) r | RCancel _ => True end).
  assert (channels Q R (S n) g1) as Hc1.
  { eapply channels_weaken; [| |exact Hc].
    - intros x [Hx'| ->]; [|done]. destruct x; simpl in *; [|done]. lia.
    - intros k [] Hk'; simpl; [lia|done]. }
  assert (handled Q R) as Hh by (split; simpl; [intros u' l k r HQ Hr ->; by rewrite <-HQ|done]).
  assert (keeps (channels Q R (S n)) (serve (D:=D) (pn_actor pn) SHOW_QUEUE_CAPACITY)) as Hs.
  { generalize SHOW_QUEUE_CAPACITY. intros m. induction m as [|m IH]; simpl; [apply keeps_ret|].
    apply keeps_bind; [by apply keeps_actor_task|]. by intros []. }
  specialize (Hs g1 Hc1). pose proof (serve_answers _ _ _ _ _ _ _ _ Hq Hx Hi) as [y Hy]. cbn [task_response] in Hy.
  unfold mbind, St_bind. destruct (serve (pn_actor pn) SHOW_QUEUE_CAPACITY g1) as [[] g2]. cbn [fst snd] in Hs, Hy.
  destruct (hoare_lock_end Q R (S n) pn g2 Hs) as [Hr _].
  assert (is_Some (lock_end pn g2).1) as [r Hr'].
  { unfold lock_end, mbind, St_bind, st_get. rewrite Hy.
    destruct (clear_admission _ _ g2) as [[] g3]. by destruct (lease_drop _ g3) as [[] g4]. }
  destruct (lock_end pn g2) as [r' g3]. simpl in *. subst r'. exists (inl r). split; [done|].
  destruct (Hr r eq_refl) as (z & Hz & ->). unfold answers_for. simpl. rewrite <-Hp, app_assoc. f_equiv.
  destruct z as [z|]; [|done]. by apply Hz.
Qed.

(** Every lock request over HTTP gets an answer, and the answer accounts for it.
    With a gateway in any state, over any network, the handler answers with an error or
    with each requested seat listed once, and reports success exactly when a seat was
    locked. *)
Theorem lock_seats_answers auth secret s rq g :
  channels_created g →
  match (lock_seats auth secret s rq g).1 with
  | None => False
  | Some (inr e) => status e ∈ [400; 401]
  | Some (inl r) => lr_locked r ++ lr_failed r ≡ₚ rq_seat_ids rq ∧ (lr_success r = true ↔ lr_locked r ≠ [])
  end.
Proof.
  intros Hg. unfold lock_seats. destruct (authenticated_user auth secret) as [u|e] eqn:Ha.
  2:{ simpl. unfold authenticated_user in Ha. repeat case_match; simplify_eq/=; set_solver. }
  destruct (validate_seats _ _ _) as [e|] eqn:Hv.
  { simpl. unfold validate_seats in Hv. case_match; simplify_eq/=. set_solver. }
  destruct (lock_answer u s (rq_seat_ids rq) (rq_seat_indices rq) (rq_total_seat_count rq) g Hg) as (r & Hr & Hp).
  unfold mbind, St_bind. destruct (lock u s _ _ _ g) as [r' g']. simpl in Hr. subst r'. simpl.
  destruct r as [r|e]; simpl; [|set_solver]. split; [exact Hp|].
  case_bool_decide; simpl; split; done || intros; congruence.
Qed.

(** The bearer token [mock_token] is a valid session.  Whatever the secret and
    even when the decoder accepts no token at all, a request with it is served as a
    request of user 1. *)
Theorem mock_token_is_user_one secret s rq g :
  lock_seats (Some "Bearer mock_token"%string) secret s rq g =
    match validate_seats (rq_seat_ids rq) (rq_seat_indices rq) (rq_total_seat_count rq) with
    | Some e => (Some (inr e), g)
    | None =>
        let '(r, g') := lock 1 s (rq_seat_ids rq) (rq_seat_indices rq) (rq_total_seat_count rq) g in
        (match r with
         | None => None
         | Some (inr _) => Some (inr (ApiError 400 "Invalid show seat metadata"))
         | Some (inl r) =>
             Some (inl (LockResponse (negb (bool_decide (locked_seat_ids r = []))) (locked_seat_ids r) (failed_seat_ids r)))
         end, g')
    end.
Proof.
  unfold lock_seats, authenticated_user. simpl.
  destruct (validate_seats _ _ _); [done|]. unfold mbind, St_bind. by destruct (lock 1 s _ _ _ g).
Qed.
End handlers.

#[local] Existing Instance single_node_lock.
#[local] Instance no_tokens : TokenDecoder := {| decode_sub _ _ := None |}.

Definition two_seats : seat_request := SeatRequest [11; 12] [1; 2] 10.
Definition idle_gateway : gateway mem_redis := gateway_new true (mem_world 2 1000).

Lemma lock_seats_answers_witness :
  (lock_seats (Some "Bearer mock_token"%string) "secret" 7 two_seats idle_gateway).1 =
    Some (inl (LockResponse true [11; 12] [])) ∧
  match (lock_seats (Some "Bearer mock_token"%string) "secret" 7 two_seats idle_gateway).1 with
  | None => False
  | Some (inr e) => status e ∈ [400; 401]
  | Some (inl r) => lr_locked r ++ lr_failed r ≡ₚ rq_seat_ids two_seats ∧ (lr_success r = true ↔ lr_locked r ≠ [])
  end.
Proof.
  split; [vm_compute; reflexivity|].
  assert (channels_created idle_gateway) as Hg.
  { split; [|split]; [by intros p sh|apply map_Forall_empty|reflexivity]. }
  pose proof (lock_seats_answers (Some "Bearer mock_token"%string) "secret" 7 two_seats idle_gateway Hg) as H.
  exact H.
Defined.
