(* ===== verification/Db.v ===== *)
(** * Db: the PostgreSQL tables the services share, and their transactions
    ([packages/db/src/schema.rs] and the migrations)

    A table is the list of its rows with the columns the services read or write; the
    constraints a statement can violate (primary keys, unique indices, foreign keys) are
    checked by the inserting functions, whose [None] is the error of the statement.  A
    transaction is a function [db → option (A * db)]: [None] rolls everything back.

    A [site] is what a worker process sees: the database, the Redis world, and the
    stream of its random UUIDs.  Each use of a database connection draws a fault as each
    Redis command does ([Redis.v]). *)

From stdpp Require Import gmap.
From S2P Require Import Prelude Redis.

Inductive seat_status := Available | Locked | Booked.
#[global] Instance seat_status_eq_dec : EqDecision seat_status.
Proof. solve_decision. Defined.

Inductive seat_source := Base | Extra.
Inductive seat_class := Standard | Premium | Vip | Ga.

(** The columns of a seat that never change; [booking_id] is never written. *)
Record seat_place := SeatPlace {
  sp_seat_index : Z; sp_layout_seat_id : option Z; sp_source : seat_source; sp_row_letter : string;
  sp_seat_number : Z; sp_seat_class : seat_class
}.
Record seat_row := SeatRow {
  ss_id : Z; ss_schedule_id : Z; ss_status : seat_status; ss_price : string; ss_place : seat_place
}.

Record layout_seat_row := LayoutSeatRow {
  ls_id : Z; ls_layout_id : Z; ls_row_letter : string; ls_seat_number : Z; ls_seat_class : seat_class;
  ls_x_pos : option Z; ls_y_pos : option Z; ls_block_name : option string
}.

Inductive lifecycle_state := Scheduled | Open | Closed.
#[global] Instance lifecycle_state_eq_dec : EqDecision lifecycle_state.
Proof. solve_decision. Defined.
Inductive show_type := Movie | Concert | Event | GameEvent.
#[global] Instance show_type_eq_dec : EqDecision show_type.
Proof. solve_decision. Defined.
Inductive time_slot := Morning | Afternoon | Evening | Night.

Record layout_row := SeatLayout {
  ly_id : Z; ly_name : string; ly_show_type : show_type; ly_description : option string; ly_created_at : Z; ly_deleted_at : option Z;
  ly_layout_shape : string
}.

Inductive user_role := RoleUser | RoleAdmin.
#[global] Instance user_role_eq_dec : EqDecision user_role.
Proof. solve_decision. Defined.
Record user_row := User { u_id : Z; u_email : string; u_password_hash : string; u_role : user_role }.

(** Dates are numbers of days. *)
Record schedule_row := Schedule {
  sc_id : Z; sc_mongo_show_id : string; sc_show_type : show_type; sc_layout_id : option Z; sc_start_time : Z;
  sc_booking_open_at : Z; sc_lifecycle_state : lifecycle_state; sc_created_at : Z; sc_deleted_at : option Z;
  sc_venue_name : option string; sc_venue_address : option string; sc_venue_city : option string;
  sc_venue_state : option string; sc_date : Z; sc_slot : time_slot; sc_end_time : Z
}.

(** [amount] and [price] columns hold what [BigDecimal] makes of a text: here the text. *)
Record order_row := OrderRow {
  od_id : Z; od_payment_request_id : Z; od_user_id : Z; od_schedule_id : Z; od_seat_ids : list Z;
  od_total_amount : string; od_razorpay_order_id : string; od_razorpay_payment_id : option string;
  od_status : string
}.
Record ticket_row := TicketRow {
  tk_id : Z; tk_order_id : Z; tk_user_id : Z; tk_schedule_id : Z; tk_seat_ids : list Z; tk_pdf_url : string; tk_status : string
}.

Inductive payment_status := PsPending | PsProcessing | PsSucceeded | PsFailed.
#[global] Instance payment_status_eq_dec : EqDecision payment_status.
Proof. solve_decision. Defined.
Record payment_row := PaymentRow {
  pr_id : Z; pr_idempotency_key : string; pr_user_id : Z; pr_schedule_id : Z; pr_seat_ids : list Z;
  pr_status : payment_status; pr_failure_reason : option string
}.

Record audit_row := AuditRow { ua_id : Z; ua_user_id : Z; ua_action : string; ua_order_id : Z; ua_amount : string; ua_details : json }.

(** Times are milliseconds. *)
Record outbox_row := OutboxRow {
  oe_id : Z; oe_aggregate_id : Z; oe_event_type : string; oe_payload : json; oe_created_at : Z;
  oe_published_at : option Z; oe_attempts : Z; oe_processing_at : option Z; oe_next_attempt_at : Z;
  oe_last_error : option string; oe_dead_lettered_at : option Z
}.

(** Tables with serial keys are keyed by [id] or hold them in their rows; the [_seq] fields
    are the sequences of these keys. *)
Record db := Db {
  d_seats : list seat_row;
  d_orders : list order_row;
  d_tickets : list ticket_row;
  d_payments : list payment_row;
  d_audits : list audit_row;
  d_outbox : list outbox_row;
  d_users : gmap Z user_row;
  d_schedules : gmap Z schedule_row;
  d_layout_seats : list layout_seat_row;
  d_schedule_seq : Z;
  d_seat_seq : Z;
  d_layouts : gmap Z layout_row;
  d_user_seq : Z;
  d_layout_seq : Z;
  d_layout_seat_seq : Z
}.

Definition with_seats (f : list seat_row → list seat_row) (d : db) : db :=
  Db (f (d_seats d)) (d_orders d) (d_tickets d) (d_payments d) (d_audits d) (d_outbox d)
    (d_users d) (d_schedules d) (d_layout_seats d) (d_schedule_seq d) (d_seat_seq d)
    (d_layouts d) (d_user_seq d) (d_layout_seq d) (d_layout_seat_seq d).
Definition with_orders (f : list order_row → list order_row) (d : db) : db :=
  Db (d_seats d) (f (d_orders d)) (d_tickets d) (d_payments d) (d_audits d) (d_outbox d)
    (d_users d) (d_schedules d) (d_layout_seats d) (d_schedule_seq d) (d_seat_seq d)
    (d_layouts d) (d_user_seq d) (d_layout_seq d) (d_layout_seat_seq d).
Definition with_tickets (f : list ticket_row → list ticket_row) (d : db) : db :=
  Db (d_seats d) (d_orders d) (f (d_tickets d)) (d_payments d) (d_audits d) (d_outbox d)
    (d_users d) (d_schedules d) (d_layout_seats d) (d_schedule_seq d) (d_seat_seq d)
    (d_layouts d) (d_user_seq d) (d_layout_seq d) (d_layout_seat_seq d).
Definition with_payments (f : list payment_row → list payment_row) (d : db) : db :=
  Db (d_seats d) (d_orders d) (d_tickets d) (f (d_payments d)) (d_audits d) (d_outbox d)
    (d_users d) (d_schedules d) (d_layout_seats d) (d_schedule_seq d) (d_seat_seq d)
    (d_layouts d) (d_user_seq d) (d_layout_seq d) (d_layout_seat_seq d).
Definition with_audits (f : list audit_row → list audit_row) (d : db) : db :=
  Db (d_seats d) (d_orders d) (d_tickets d) (d_payments d) (f (d_audits d)) (d_outbox d)
    (d_users d) (d_schedules d) (d_layout_seats d) (d_schedule_seq d) (d_seat_seq d)
    (d_layouts d) (d_user_seq d) (d_layout_seq d) (d_layout_seat_seq d).
Definition with_outbox (f : list outbox_row → list outbox_row) (d : db) : db :=
  Db (d_seats d) (d_orders d) (d_tickets d) (d_payments d) (d_audits d) (f (d_outbox d))
    (d_users d) (d_schedules d) (d_layout_seats d) (d_schedule_seq d) (d_seat_seq d)
    (d_layouts d) (d_user_seq d) (d_layout_seq d) (d_layout_seat_seq d).
Definition with_users (f : gmap Z user_row → gmap Z user_row) (d : db) : db :=
  Db (d_seats d) (d_orders d) (d_tickets d) (d_payments d) (d_audits d) (d_outbox d)
    (f (d_users d)) (d_schedules d) (d_layout_seats d) (d_schedule_seq d) (d_seat_seq d)
    (d_layouts d) (d_user_seq d) (d_layout_seq d) (d_layout_seat_seq d).
Definition with_schedules (f : gmap Z schedule_row → gmap Z schedule_row) (d : db) : db :=
  Db (d_seats d) (d_orders d) (d_tickets d) (d_payments d) (d_audits d) (d_outbox d)
    (d_users d) (f (d_schedules d)) (d_layout_seats d) (d_schedule_seq d) (d_seat_seq d)
    (d_layouts d) (d_user_seq d) (d_layout_seq d) (d_layout_seat_seq d).
Definition with_layout_seats (f : list layout_seat_row → list layout_seat_row) (d : db) : db :=
  Db (d_seats d) (d_orders d) (d_tickets d) (d_payments d) (d_audits d) (d_outbox d)
    (d_users d) (d_schedules d) (f (d_layout_seats d)) (d_schedule_seq d) (d_seat_seq d)
    (d_layouts d) (d_user_seq d) (d_layout_seq d) (d_layout_seat_seq d).
Definition with_layouts (f : gmap Z layout_row → gmap Z layout_row) (d : db) : db :=
  Db (d_seats d) (d_orders d) (d_tickets d) (d_payments d) (d_audits d) (d_outbox d)
    (d_users d) (d_schedules d) (d_layout_seats d) (d_schedule_seq d) (d_seat_seq d)
    (f (d_layouts d)) (d_user_seq d) (d_layout_seq d) (d_layout_seat_seq d).

(** [nextval] of the sequences. *)
Definition next_schedule_id (d : db) : Z * db :=
  (d_schedule_seq d,
   Db (d_seats d) (d_orders d) (d_tickets d) (d_payments d) (d_audits d) (d_outbox d)
    (d_users d) (d_schedules d) (d_layout_seats d) (d_schedule_seq d + 1) (d_seat_seq d)
    (d_layouts d) (d_user_seq d) (d_layout_seq d) (d_layout_seat_seq d)).
Definition next_seat_id (d : db) : Z * db :=
  (d_seat_seq d,
   Db (d_seats d) (d_orders d) (d_tickets d) (d_payments d) (d_audits d) (d_outbox d)
    (d_users d) (d_schedules d) (d_layout_seats d) (d_schedule_seq d) (d_seat_seq d + 1)
    (d_layouts d) (d_user_seq d) (d_layout_seq d) (d_layout_seat_seq d)).
Definition next_user_id (d : db) : Z * db :=
  (d_user_seq d,
   Db (d_seats d) (d_orders d) (d_tickets d) (d_payments d) (d_audits d) (d_outbox d)
    (d_users d) (d_schedules d) (d_layout_seats d) (d_schedule_seq d) (d_seat_seq d)
    (d_layouts d) (d_user_seq d + 1) (d_layout_seq d) (d_layout_seat_seq d)).
Definition next_layout_id (d : db) : Z * db :=
  (d_layout_seq d,
   Db (d_seats d) (d_orders d) (d_tickets d) (d_payments d) (d_audits d) (d_outbox d)
    (d_users d) (d_schedules d) (d_layout_seats d) (d_schedule_seq d) (d_seat_seq d)
    (d_layouts d) (d_user_seq d) (d_layout_seq d + 1) (d_layout_seat_seq d)).
Definition next_layout_seat_id (d : db) : Z * db :=
  (d_layout_seat_seq d,
   Db (d_seats d) (d_orders d) (d_tickets d) (d_payments d) (d_audits d) (d_outbox d)
    (d_users d) (d_schedules d) (d_layout_seats d) (d_schedule_seq d) (d_seat_seq d)
    (d_layouts d) (d_user_seq d) (d_layout_seq d) (d_layout_seat_seq d + 1)).

(** ** Statements *)

(** The characters of a text; [VARCHAR(n)]. *)
Definition char_count (s : string) : nat :=
  length (filter (λ a, ¬ (128 ≤ Z.of_N (Ascii.N_of_ascii a) < 192)) (String.list_ascii_of_string s)).
Definition varchar (n : nat) (s : string) : bool := bool_decide (char_count s ≤ n)%nat.
Definition opt_varchar (n : nat) (s : option string) : bool := match s with Some s => varchar n s | None => true end.

(** [UPDATE t SET .. WHERE p]. *)
Definition update_where {R} (p : R → bool) (f : R → R) (l : list R) : list R :=
  map (λ r, if p r then f r else r) l.

Definition set_seat_status (st : seat_status) (r : seat_row) : seat_row := SeatRow (ss_id r) (ss_schedule_id r) st (ss_price r) (ss_place r).
Definition set_order_status (st : string) (r : order_row) : order_row :=
  OrderRow (od_id r) (od_payment_request_id r) (od_user_id r) (od_schedule_id r) (od_seat_ids r)
    (od_total_amount r) (od_razorpay_order_id r) (od_razorpay_payment_id r) st.
Definition set_ticket_status (st : string) (r : ticket_row) : ticket_row :=
  TicketRow (tk_id r) (tk_order_id r) (tk_user_id r) (tk_schedule_id r) (tk_seat_ids r) (tk_pdf_url r) st.
Definition set_payment (st : payment_status) (reason : option string) (r : payment_row) : payment_row :=
  PaymentRow (pr_id r) (pr_idempotency_key r) (pr_user_id r) (pr_schedule_id r) (pr_seat_ids r) st reason.

(** [INSERT INTO payment_requests .. ON CONFLICT (user_id,idempotency_key) DO NOTHING]:
    whether the row was inserted. *)
Definition insert_payment (r : payment_row) (d : db) : option (bool * db) :=
  if existsb (λ p, (pr_user_id p =? pr_user_id r) && bool_decide (pr_idempotency_key p = pr_idempotency_key r)) (d_payments d)
  then Some (false, d)
  else if existsb (λ p, pr_id p =? pr_id r) (d_payments d)
       || negb (bool_decide (pr_user_id r ∈ dom (d_users d))) || negb (bool_decide (pr_schedule_id r ∈ dom (d_schedules d)))
  then None else Some (true, with_payments (λ l, l ++ [r]) d).

(** [INSERT INTO orders]: the keys, the unique index of the payment request, the references,
    and the lengths of the identifiers of Razorpay. *)
Definition insert_order (r : order_row) (d : db) : option db :=
  if existsb (λ o, (od_id o =? od_id r) || (od_payment_request_id o =? od_payment_request_id r)) (d_orders d)
     || negb (existsb (λ p, pr_id p =? od_payment_request_id r) (d_payments d))
     || negb (bool_decide (od_user_id r ∈ dom (d_users d))) || negb (bool_decide (od_schedule_id r ∈ dom (d_schedules d)))
     || negb (varchar 128 (od_razorpay_order_id r)) || negb (opt_varchar 128 (od_razorpay_payment_id r))
  then None else Some (with_orders (λ l, l ++ [r]) d).

Definition insert_audit (r : audit_row) (d : db) : option db :=
  if existsb (λ a, ua_id a =? ua_id r) (d_audits d)
     || negb (existsb (λ o, od_id o =? ua_order_id r) (d_orders d)) || negb (bool_decide (ua_user_id r ∈ dom (d_users d)))
  then None else Some (with_audits (λ l, l ++ [r]) d).

Definition insert_outbox (r : outbox_row) (d : db) : option db :=
  if existsb (λ e, oe_id e =? oe_id r) (d_outbox d) then None else Some (with_outbox (λ l, l ++ [r]) d).

(** ** Sites *)

Record site (D : Type) := Site { s_db : db; s_world : world D; s_uuids : nat → Z; s_drawn : nat }.
Arguments Site {D}. Arguments s_db {D}. Arguments s_world {D}. Arguments s_uuids {D}. Arguments s_drawn {D}.

Section site.
Context {D : Type}.
Abbreviation S := (St (site D)).

Definition redis_of {A} (m : St (world D) A) : S A :=
  zoom s_world (λ w s, Site (s_db s) w (s_uuids s) (s_drawn s)) m.

(** [Uuid::new_v4()]. *)
Definition new_v4 : S Z := λ s,
  (s_uuids s (s_drawn s), Site (s_db s) (s_world s) (s_uuids s) (Datatypes.S (s_drawn s))).

(** [pool.get()], and a statement or a transaction on the connection. *)
Definition db_get : S bool := fl ← redis_of draw; mret (bool_decide (fl ≠ FDown)).

Definition db_run {A} (tx : db → option (A * db)) : S (option A) :=
  λ s0, let '(fl, s) := redis_of draw s0 in
  match fl, tx (s_db s) with
  | FDown, _ | _, None => (None, s)
  | FOk, Some (a, d) => (Some a, Site d (s_world s) (s_uuids s) (s_drawn s))
  | FReplyLost, Some (_, d) => (None, Site d (s_world s) (s_uuids s) (s_drawn s))
  end.

(** A query: nothing changes. *)
Definition db_query {A} (q : db → A) : S (option A) := db_run (λ d, Some (q d, d)).

(** *** Without faults *)

Lemma db_query_ok {A} (q : db → A) (st : site D) : w_faults (s_world st) = [] → db_query q st = (Some (q (s_db st)), st).
Proof. destruct st as [d [ns t fl lg] us k]. simpl. by intros ->. Qed.

Lemma db_get_ok (st : site D) : w_faults (s_world st) = [] → db_get st = (true, st).
Proof. destruct st as [d [ns t fl lg] us k]. simpl. by intros ->. Qed.

Lemma db_run_ok {A} (tx : db → option (A * db)) (st : site D) : w_faults (s_world st) = [] →
  db_run tx st =
    match tx (s_db st) with
    | Some (a, d) => (Some a, Site d (s_world st) (s_uuids st) (s_drawn st))
    | None => (None, st)
    end.
Proof. destruct st as [d [ns t fl lg] us k]. simpl. intros ->. unfold db_run. simpl. by destruct (tx d) as [[]|]. Qed.

(** *** Reasoning rules: an assertion about the database alone *)

Definition on_db (P : db → Prop) (s : site D) : Prop := P (s_db s).

Lemma keeps_redis_of {A} P (m : St (world D) A) : keeps (on_db P) (redis_of m).
Proof. intros s Hs. unfold redis_of, zoom. by destruct (m (s_world s)). Qed.

Lemma keeps_new_v4 P : keeps (on_db P) new_v4.
Proof. by intros s. Qed.

Lemma keeps_db_get P : keeps (on_db P) db_get.
Proof.
  intros s Hs. unfold db_get, mbind, St_bind. pose proof (keeps_redis_of P draw s Hs) as H.
  by destruct (redis_of draw s).
Qed.

Lemma keeps_db_run {A} (P : db → Prop) (tx : db → option (A * db)) :
  (∀ d a d', P d → tx d = Some (a, d') → P d') → keeps (on_db P) (db_run tx).
Proof.
  intros Htx s Hs. unfold db_run. pose proof (keeps_redis_of P draw s Hs) as H.
  destruct (redis_of draw s) as [fl s1]. unfold on_db in *. simpl in H.
  destruct (tx (s_db s1)) as [[a d]|] eqn:E; destruct fl; simpl; eauto.
Qed.

Lemma keeps_db_query {A} P (q : db → A) : keeps (on_db P) (db_query q).
Proof. apply keeps_db_run. by intros d a d' Hd [= _ <-]. Qed.
End site.

#[export] Hint Resolve keeps_redis_of keeps_new_v4 keeps_db_get keeps_db_query : keeps.

(** *** Rows for the concrete runs *)

Definition some_place : seat_place := SeatPlace 1 None Base "A" 1 Standard.
Definition some_schedule (s : Z) : schedule_row :=
  Schedule s "64b000000000000000000001" Movie (Some 1) 2000000 0 Open 0 None None None (Some "Pune"%string) None 20000 Evening 3000000.

Definition some_user (u : Z) : user_row := User u ("user" +:+ show_Z u +:+ "@bookit.in") "hash" RoleUser.
Definition some_users : gmap Z user_row := {[1 := some_user 1; 2 := some_user 2]}.
Definition some_layout : layout_row := SeatLayout 1 "Hall" Movie None 0 None "rectangular".
