(* ===== verification/LockServer.v ===== *)
(** * LockServer: the consumer of the locking queue and the sweeper of expired locks
    ([apps/lock-server/src/handlers_active.rs], [consumer_active.rs], [types.rs])

    The handlers are written against the [SeatLock] class, as the code is against the
    trait object.  The consumer's actors are queues of deliveries, one per show; an
    actor's turn handles one delivery at once.  Panics are not modelled. *)

From S2P Require Import Prelude Text Keys Redis SeatLock Events Db.

Definition LOCK_TTL_SECS : Z := 300.

Section handlers.
Context {D : Type} `{!RedisServer D} {HS : SeatLock D} {HJ : JsonText}.
Abbreviation W := (St (world D)).
Abbreviation S := (St (site D)).

(** *** Events *)

Definition publish_ev (channel : string) (event : pubsub_event) : W unit :=
  cli ← pool_get 0; when cli (publish channel (event_json event)).

Definition publish_room_event (event : pubsub_event) : W unit :=
  match event with
  | SeatLocked _ showtime_id _ | SeatUnlocked _ showtime_id _ => publish_ev (room_channel showtime_id) event
  | _ => mret tt
  end.

Definition publish_global_event (event : pubsub_event) : W unit := publish_ev global_events_channel event.

(** *** Requests *)

(** The loop of at most three attempts; each failure is followed by its sleep. *)
Fixpoint update_attempts (m : seat_lock_message) (sleeps : list N) : W bool :=
  match sleeps with
  | [] => mret false
  | ms :: sleeps =>
      ok ← update_seat_metadata_lua (m_showtime_id m) (m_seat_ids m) (m_user_id m) LOCK_TTL_SECS;
      if (ok : bool) then mret true else advance ms ;; update_attempts m sleeps
  end.

Definition retry_sleeps : list N := [200; 400; 800]%N.

Definition process_unlock (m : seat_lock_message) : W unit :=
  for_each (m_seat_ids m) (λ seat_id,
    ok ← release_lock (m_showtime_id m) seat_id (m_user_id m);
    when ok (publish_room_event (SeatUnlocked (m_user_id m) (m_showtime_id m) seat_id))).

Definition process_lock_request (m : seat_lock_message) : W unit :=
  if bool_decide (m_action m = "unlock"%string) then process_unlock m
  else
    updated ← update_attempts m retry_sleeps;
    when updated (for_each (m_seat_ids m) (λ seat_id,
      publish_room_event (SeatLocked (m_user_id m) (m_showtime_id m) seat_id))) ;;
    publish_global_event (LockSlotsResponse (m_user_id m) (m_showtime_id m) updated
      (if (updated : bool) then m_seat_ids m else []) (if (updated : bool) then [] else m_seat_ids m)).

(** *** The sweeper *)

Definition leader_key : string := "lock_server:layout_updater_leader".

Definition acquire_updater_leader_lock (instance_id : string) : W bool :=
  cli ← pool_get 0;
  if negb cli then mret false
  else
    created ← node_cmd 0 (cmd_set_nx_px leader_key instance_id 2000);
    if bool_decide (created = Some true) then mret true
    else
      owner ← node_cmd 0 (cmd_get leader_key);
      if bool_decide (default None owner ≠ Some instance_id) then mret false
      else node_cmd 0 (cmd_pexpire leader_key 2000) ;; mret true.

(** The two counting queries; their errors count nothing. *)
Definition booked_seats (schedule_id seat_id : Z) (d : db) : Z :=
  Z.of_nat (length (List.filter (λ r, (ss_schedule_id r =? schedule_id) && (ss_id r =? seat_id)
    && bool_decide (ss_status r = Booked)) (d_seats d))).
Definition active_tickets (schedule_id : Z) (d : db) : Z :=
  Z.of_nat (length (List.filter (λ r, (tk_schedule_id r =? schedule_id) && bool_decide (tk_status r = "active"%string))
    (d_tickets d))).

Definition is_seat_booked_in_db (schedule_id seat_id : Z) : S bool :=
  conn ← db_get;
  if negb conn then mret false
  else
    booked ← db_query (booked_seats schedule_id seat_id);
    if 0 <? default 0 booked then mret true
    else
      tickets ← db_query (active_tickets schedule_id);
      mret (0 <? default 0 tickets).

Definition sweep_entry (encoded : string) : S unit :=
  match parse_queue_entry encoded with
  | None => redis_of (zrem_cluster seat_processing_queue_key encoded)
  | Some e =>
      booked ← is_seat_booked_in_db (q_schedule_id e) (q_seat_id e);
      if (booked : bool)
      then redis_of (force_book_seat_lua (q_schedule_id e) (q_seat_id e) (q_user_id e) encoded)
      else
        redis_of (release_expired_lock_lua (q_schedule_id e) (q_seat_id e) (q_user_id e) encoded ;;
                  publish_room_event (SeatUnlocked (q_user_id e) (q_schedule_id e) (q_seat_id e)))
  end.

(** One turn of [run_seat_layout_updater]. *)
Definition updater_tick (instance_id : string) : S unit :=
  leader ← redis_of (acquire_updater_leader_lock instance_id);
  if negb leader then mret tt
  else
    now ← redis_of now_secs;
    cli ← redis_of (pool_get 0);
    if negb cli then mret tt
    else
      due ← redis_of (node_cmd 0 (cmd_zrange seat_processing_queue_key None (Some now)));
      for_each (default [] due) sweep_entry.

(** ** The consumer

    A delivery is its tag with its payload.  [lc_seats] is the map of processing flags,
    [lc_acks] the answers given to the broker, oldest first. *)

Inductive broker_answer := Ack (tag : nat) | Nack (tag : nat) (requeue : bool).

Record consumer := Consumer {
  lc_actors : gmap Z (list (nat * seat_lock_message));
  lc_seats : gmap Z (gmap Z Z);
  lc_acks : list broker_answer;
  lc_handled : list (nat * seat_lock_message);     (* by [process_lock_request], oldest first *)
  lc_world : world D
}.

Definition mark_seats (state : Z) (seats : list Z) (m : gmap Z Z) : gmap Z Z :=
  fold_left (λ m t, <[t := state]> m) seats m.

Definition mark_processing (showtime_id : Z) (seat_ids : list Z) (m : gmap Z (gmap Z Z)) : gmap Z (gmap Z Z) :=
  <[showtime_id := mark_seats 1 seat_ids (default ∅ (m !! showtime_id))]> m.

(** Only the seats that are there are cleared. *)
Definition clear_processing (showtime_id : Z) (seat_ids : list Z) (m : gmap Z (gmap Z Z)) : gmap Z (gmap Z Z) :=
  alter (λ seats, fold_left (λ seats t, alter (λ _, 0) t seats) seat_ids seats) showtime_id m.

Inductive consumer_op :=
  | CDeliver (tag : nat) (data : string)
  | CActor (showtime_id : Z)
  | CElsewhere (o : lock_op).

(** [send(..).await] on a full channel: the dispatcher waits, and the step does nothing
    ([None]). *)
Definition deliver (capacity : nat) (tag : nat) (data : string) (c : consumer) : option consumer :=
  match parse_seat_lock_message data with
  | None => Some (Consumer (lc_actors c) (lc_seats c) (lc_acks c ++ [Nack tag false]) (lc_handled c) (lc_world c))
  | Some m =>
      let q := default [] (lc_actors c !! m_showtime_id m) in
      if bool_decide (length q < capacity)%nat
      then Some (Consumer (<[m_showtime_id m := q ++ [(tag, m)]]> (lc_actors c)) (lc_seats c) (lc_acks c) (lc_handled c) (lc_world c))
      else None
  end.

Definition run_actor (showtime_id : Z) (c : consumer) : option consumer :=
  match lc_actors c !! showtime_id with
  | Some ((tag, m) :: q) =>
      let seats := mark_processing showtime_id (m_seat_ids m) (lc_seats c) in
      let '(_, w) := process_lock_request m (lc_world c) in
      Some (Consumer (<[showtime_id := q]> (lc_actors c)) (clear_processing showtime_id (m_seat_ids m) seats)
              (lc_acks c ++ [Ack tag]) (lc_handled c ++ [(tag, m)]) w)
  | _ => None
  end.

Definition consumer_step (capacity : nat) (o : consumer_op) (c : consumer) : option consumer :=
  match o with
  | CDeliver tag data => deliver capacity tag data c
  | CActor showtime_id => run_actor showtime_id c
  | CElsewhere o =>
      Some (Consumer (lc_actors c) (lc_seats c) (lc_acks c) (lc_handled c) (run_op o (lc_world c)).2)
  end.

(** The run, with the deliveries the broker has handed over so far. *)
Fixpoint consumer_run (capacity : nat) (os : list consumer_op) (c : consumer) : consumer * list (nat * string) :=
  match os with
  | [] => (c, [])
  | o :: os =>
      match consumer_step capacity o c with
      | None => consumer_run capacity os c
      | Some c' =>
          let '(c'', taken) := consumer_run capacity os c' in
          (c'', match o with CDeliver tag data => (tag, data) :: taken | _ => taken end)
      end
  end.
End handlers.
