(* ===== verification/WsServer.v ===== *)
(** * WsServer: the WebSocket server
    ([hooks.rs], [locking.rs], [handlers.rs], [grpc_client.rs] and [ws_handler] of
    [apps/ws-server/src])

    [ws_server] holds the adapter, the cells of [schedule_metadata] that are initialised,
    the database, and the gateway behind gRPC with the Redis world both share.  The
    receiving task of a socket handles one text at a time; a handler is one computation.
    [error_text] is the text of a library's error. *)

From stdpp Require Import gmap.
From S2P Require Import Prelude Text Keys Redis SeatLock SingleNodeLock Events Gateway GatewayApi Db SeatBitmap SocketAdapter.

#[local] Open Scope string_scope.
#[local] Open Scope list_scope.
#[local] Open Scope Z_scope.

Record schedule_metadata := ScheduleSeatMetadata { total_seat_count : Z; seat_indices : gmap Z Z }.

Record ws_server (D : Type) := WsServer {
  ws_adapter : adapter;
  ws_metadata : gmap Z schedule_metadata;
  ws_db : db;
  ws_gateway : gateway D;
  ws_channels : nat           (* channels created so far *)
}.
Arguments WsServer {D}. Arguments ws_adapter {D}. Arguments ws_metadata {D}. Arguments ws_db {D}.
Arguments ws_gateway {D}. Arguments ws_channels {D}.

(** ** Requests of a browser *)

Inductive ws_request :=
  | WsSubscribe (room_id : Z)
  | WsUnsubscribe (room_id : Z)
  | WsLockSeats (room_id : Z) (seat_ids seat_indices : list Z) (total_seat_count : Z)
  | WsUnlockSeats (room_id : Z) (seat_ids seat_indices : list Z) (total_seat_count : Z)
  | WsSyncLocks (room_id : Z).

(** [#[serde(alias = "showtime_id")]]: one of the two names, once. *)
Definition room_field (l : list (string * json)) : option json :=
  match filter (λ kv, kv.1 = "room_id" ∨ kv.1 = "showtime_id") l with [(_, v)] => Some v | _ => None end.

(** The field [type] is the tag of an object; an array starts with the tag. *)
Definition de_ws_variant (tag : string) (room : option json) (rest : option (list json)) : option ws_request :=
  room ← room; room ← de_i32 room;
  if bool_decide (tag ∈ ["LockSeats"; "UnlockSeats"]) then
    rest ← rest;
    match rest with
    | [ids; indices; total] =>
        ids ← de_vec de_i32 ids; indices ← de_vec de_i32 indices; total ← de_i32 total;
        Some (if bool_decide (tag = "LockSeats") then WsLockSeats room ids indices total
              else WsUnlockSeats room ids indices total)
    | _ => None
    end
  else if bool_decide (tag = "Subscribe") then Some (WsSubscribe room)
  else if bool_decide (tag = "Unsubscribe") then Some (WsUnsubscribe room)
  else if bool_decide (tag = "SyncLocks") then Some (WsSyncLocks room)
  else None.

Definition de_ws_request (j : json) : option ws_request :=
  match j with
  | JObj l =>
      tag ← field "type" l; tag ← de_str tag;
      de_ws_variant tag (room_field l) (mapM (λ k, field k l) ["seat_ids"; "seat_indices"; "total_seat_count"])
  | JArr (t :: room :: rest) =>
      tag ← de_str t;
      if bool_decide (length rest = if bool_decide (tag ∈ ["LockSeats"; "UnlockSeats"]) then 3%nat else 0%nat)
      then de_ws_variant tag (Some room) (Some rest) else None
  | _ => None
  end.

(** What axum hands over: an error ends the stream. *)
Inductive ws_frame := FrameText (text : string) | FrameBinary | FramePing | FramePong | FrameClose | FrameError.

(** ** Answers *)

Definition lock_failed_note (showtime_id : Z) (message : option string) (seat_ids : list Z) : json :=
  JObj ([("event", JStr "lock_slots_response"); ("showtime_id", JNum showtime_id); ("success", JBool false)]
        ++ match message with Some m => [("message", JStr m)] | None => [] end
        ++ [("locked_seat_ids", JArr []); ("failed_seat_ids", JArr (map JNum seat_ids))]).
Definition unlock_note (showtime_id : Z) (success : bool) (message : option string) (unlocked : list Z) : json :=
  JObj ([("event", JStr "unlock_slots_response"); ("showtime_id", JNum showtime_id); ("success", JBool success)]
        ++ match message with Some m => [("message", JStr m)] | None => [] end
        ++ [("unlocked_seat_ids", JArr (map JNum unlocked))]).

Record seat_status_payload := SeatStatusPayload { sp_seat_id : Z; sp_show_id : Z; sp_state : string }.
Record room_seat_snapshot := RoomSeatSnapshot { rs_seat_id : Z; rs_status : string; rs_user_id : option Z }.

Definition status_payload_json (p : seat_status_payload) : json :=
  JObj [("seatId", JNum (sp_seat_id p)); ("showId", JNum (sp_show_id p)); ("state", JStr (sp_state p))].
Definition snapshot_json (r : room_seat_snapshot) : json :=
  JObj [("seat_id", JNum (rs_seat_id r)); ("status", JStr (rs_status r));
        ("user_id", match rs_user_id r with Some u => JNum u | None => JNull end)].

Definition sync_locks_note (locked : list seat_status_payload) : json :=
  JObj [("event", JStr "sync_locks_response"); ("success", JBool true);
        ("locked_seat_ids", JArr (map status_payload_json locked))].
Definition room_state_note (showtime_id : Z) (seats : list room_seat_snapshot) (locked : list seat_status_payload) : json :=
  JObj [("event", JStr "room_state_snapshot"); ("showtime_id", JNum showtime_id);
        ("seats", JArr (map snapshot_json seats)); ("locked_seat_ids", JArr (map status_payload_json locked))].
Definition auth_ack (user_id : Z) : json := JObj [("event", JStr "auth_ack"); ("user_id", JNum user_id)].

Section server.
Context {D : Type} `{!RedisServer D} {HS : SeatLock D} {HJ : JsonText} {HT : TokenDecoder}.
Variable error_text : string.
Abbreviation W := (St (ws_server D)).

Definition set_adapter (f : adapter → adapter) : W unit :=
  st_modify (λ s, WsServer (f (ws_adapter s)) (ws_metadata s) (ws_db s) (ws_gateway s) (ws_channels s)).
Definition on_gateway {A} (m : St (gateway D) A) : W A :=
  zoom ws_gateway (λ g s, WsServer (ws_adapter s) (ws_metadata s) (ws_db s) g (ws_channels s)) m.
Definition ws_redis {A} (m : St (world D) A) : W A := on_gateway (redis m).

Definition reply_user (user_id : Z) (j : json) : W unit := set_adapter (send_to_user_local user_id (json_print j)).

(** A query on a connection of the pool. *)
Definition ws_query {A} (q : db → A) : W (option A) :=
  fl ← ws_redis draw; s ← st_get; mret (if decide (fl = FOk) then Some (q (ws_db s)) else None).

(** *** The gRPC client: a call is one interaction with the network *)

Definition grpc {A} (m : St (gateway D) (option (A + api_error))) : W (option A) :=
  fl ← ws_redis draw;
  if decide (fl = FDown) then mret None
  else
    r ← on_gateway m;
    mret (match fl, r with FOk, Some (inl a) => Some a | _, _ => None end).

Definition grpc_lock_slot (showtime_id : Z) (seat_ids seat_indices : list Z) (total user_id : Z) : W (option lock_response) :=
  grpc (lock_slot user_id showtime_id (SeatRequest seat_ids seat_indices total)).
Definition grpc_unlock_slot (showtime_id : Z) (seat_ids seat_indices : list Z) (total user_id : Z) : W (option cancel_response) :=
  grpc (unlock_slot user_id showtime_id (SeatRequest seat_ids seat_indices total)).

(** *** The seats of a schedule *)

Definition set_metadata (schedule_id : Z) (m : schedule_metadata) : W unit :=
  st_modify (λ s, WsServer (ws_adapter s) (<[schedule_id := m]> (ws_metadata s)) (ws_db s) (ws_gateway s) (ws_channels s)).

Definition open_schedule (schedule_id : Z) (d : db) : option schedule_row :=
  s ← d_schedules d !! schedule_id; if decide (sc_deleted_at s = None) then Some s else None.

Definition seats_of_schedule (schedule_id : Z) (d : db) : list (Z * Z) :=
  map (λ r, (ss_id r, sp_seat_index (ss_place r))) (filter (λ r, ss_schedule_id r = schedule_id) (d_seats d)).

(** [collect] into a [HashMap]. *)
Definition collect_indices (rows : list (Z * Z)) : gmap Z Z := foldl (λ m r, <[r.1 := r.2]> m) ∅ rows.

(** The initialisation of a cell. *)
Definition load_metadata (schedule_id : Z) : W (schedule_metadata + string) :=
  conn ← ws_redis draw;
  if decide (conn = FDown) then mret (inr ("database pool unavailable: " +:+ error_text))
  else
    schedule ← ws_query (open_schedule schedule_id);
    match schedule with
    | None | Some None => mret (inr "schedule not found")
    | Some (Some schedule) =>
        if bool_decide (sc_lifecycle_state schedule ≠ Open) then mret (inr "schedule is not open for booking")
        else
          rows ← ws_query (seats_of_schedule schedule_id);
          match rows with
          | None => mret (inr ("unable to load schedule seats: " +:+ error_text))
          | Some rows =>
              match i32_checked (Z.of_nat (length rows)) with
              | None => mret (inr "schedule contains too many seats")
              | Some total =>
                  if total =? 0 then mret (inr "schedule has no seats")
                  else mret (inl (ScheduleSeatMetadata total (collect_indices rows)))
              end
          end
    end.

Definition get_or_try_init (schedule_id : Z) : W (schedule_metadata + string) :=
  s ← st_get;
  match ws_metadata s !! schedule_id with
  | Some m => mret (inl m)
  | None =>
      r ← load_metadata schedule_id;
      match r with
      | inl m => set_metadata schedule_id m ;; mret (inl m)
      | inr e => mret (inr e)
      end
  end.

(** The first seat whose index is not that of the schedule. *)
Fixpoint wrong_index (m : schedule_metadata) (seats : list (Z * Z)) : option Z :=
  match seats with
  | [] => None
  | (id, index) :: seats =>
      if bool_decide (seat_indices m !! id ≠ Some index) then Some id else wrong_index m seats
  end.

Definition verified_seat_metadata (schedule_id : Z) (seat_ids indices : list Z) (total : Z) : W (list Z * Z + string) :=
  if bool_decide (seat_ids = []) || bool_decide (length seat_ids ≠ length indices)
  then mret (inr "seat ids and indices must be non-empty and aligned")
  else
    metadata ← get_or_try_init schedule_id;
    mret (match metadata with
      | inr e => inr e
      | inl m =>
          if bool_decide (total ≠ total_seat_count m) then inr "total seat count does not match the schedule"
          else
            match wrong_index m (zip seat_ids indices) with
            | Some id => inr ("seat " +:+ show_Z id +:+ " has an invalid schedule seat index")
            | None => inl (indices, total_seat_count m)
            end
      end).

(** *** The hooks *)

Definition on_lock_request (user_id showtime_id : Z) (seat_ids indices : list Z) (total : Z) : W unit :=
  verified ← verified_seat_metadata showtime_id seat_ids indices total;
  match verified with
  | inr error => reply_user user_id (lock_failed_note showtime_id (Some error) seat_ids)
  | inl (indices, total) =>
      r ← grpc_lock_slot showtime_id seat_ids indices total user_id;
      match r with
      | None => reply_user user_id (lock_failed_note showtime_id None seat_ids)
      | Some _ => mret tt
      end
  end.

Definition on_unlock_request (user_id showtime_id : Z) (seat_ids indices : list Z) (total : Z) : W unit :=
  verified ← verified_seat_metadata showtime_id seat_ids indices total;
  match verified with
  | inr error => reply_user user_id (unlock_note showtime_id false (Some error) [])
  | inl (indices, total) =>
      r ← grpc_unlock_slot showtime_id seat_ids indices total user_id;
      reply_user user_id
        (match r with
         | Some r => unlock_note showtime_id (cr_success r) None (cr_unlocked r)
         | None => unlock_note showtime_id false None []
         end)
  end.

Definition publish_global (event : pubsub_event) : W unit :=
  ws_redis (cli ← pool_get 0; when cli (publish global_events_channel (event_json event))).
Definition publish_to_room (showtime_id : Z) (event : pubsub_event) : W unit :=
  ws_redis (cli ← pool_get 0; when cli (publish (room_channel showtime_id) (event_json event))).

Definition on_register (user_id : Z) (socket_id : string) : W unit := publish_global (Register user_id socket_id).
Definition on_disconnect (user_id : Z) (socket_id : string) : W unit := publish_global (Disconnect user_id socket_id).

(** *** Reading the locks ([locking.rs]) *)

(** [as i32]. *)
Definition parse_member_seat_id (member : string) : option Z :=
  match (j ← json_parse member; seat ← jget "seat_id" j; n ← as_i64 seat; Some (i32 n)) with
  | Some n => Some n
  | None => parse_i32 member
  end.

Definition locked_payloads (showtime_id : Z) (members : list string) : list seat_status_payload :=
  omap (λ m, (λ t, SeatStatusPayload t showtime_id "locked") <$> parse_member_seat_id m) members.

Definition sync_locks_from_zset (user_id showtime_id : Z) : St (world D) (list seat_status_payload) :=
  cli ← pool_get 0;
  if negb cli then mret []
  else
    now ← now_secs;
    node_cmd 0 (λ d t, (r_zremrange d (user_zset_key showtime_id user_id) None (Some now), Some tt)) ;;
    locked_seats ← node_cmd 0 (cmd_zrange (user_zset_key showtime_id user_id) None None);
    mret (locked_payloads showtime_id (default [] locked_seats)).

(** The owner of a seat that is locked, seat by seat. *)
Fixpoint seat_snapshots (showtime_id : Z) (states : list (Z * seat_state)) : St (world D) (list room_seat_snapshot) :=
  match states with
  | [] => mret []
  | (seat_id, state) :: states =>
      owner_id ← (if bool_decide (state = LOCKED)
                  then o ← node_cmd 0 (cmd_get_i32 (seat_lock_key showtime_id seat_id)); mret (default None o)
                  else mret None);
      rest ← seat_snapshots showtime_id states;
      mret (RoomSeatSnapshot seat_id (state_status state) owner_id :: rest)
  end.

Definition sync_room_state_snapshot (user_id showtime_id : Z) :
    St (world D) (list room_seat_snapshot * list seat_status_payload) :=
  cli ← pool_get 0;
  if negb cli then mret ([], [])
  else
    now ← now_secs;
    node_cmd 0 (λ d t, (r_zremrange d (user_zset_key showtime_id user_id) None (Some now), Some tt)) ;;
    bitmap ← node_cmd 0 (cmd_get (schedule_seat_bitmap showtime_id));
    members ← node_cmd 0 (cmd_zrange (user_zset_key showtime_id user_id) None None);
    seats ← seat_snapshots showtime_id (bitmap_snapshots (bytes_of (default EmptyString (default None bitmap))));
    mret (seats, locked_payloads showtime_id (default [] members)).

Definition set_seat_state (schedule_id seat_id : Z) (state : seat_state) : St (world D) unit :=
  match seat_bit_offset seat_id with
  | None => mret tt
  | Some offset =>
      node_cmd 0 (λ d t, (cmd_bitfield (schedule_seat_bitmap schedule_id) offset (state_bits state) d t, Some tt)) ;; mret tt
  end.

Definition confirm_payment (user_id showtime_id : Z) (seat_ids : list Z) : St (world D) bool :=
  cli ← pool_get 0;
  if negb cli then mret false
  else
    for_fold seat_ids true (λ success seat_id,
      deleted_and_booked ← book_seat_lua showtime_id seat_id user_id;
      if (deleted_and_booked : bool) then set_seat_state showtime_id seat_id BOOKED ;; mret success else mret false).

(** *** More hooks *)

Definition send_room_state_snapshot (user_id showtime_id : Z) : W unit :=
  r ← ws_redis (sync_room_state_snapshot user_id showtime_id);
  reply_user user_id (room_state_note showtime_id r.1 r.2).

Definition on_subscribe (user_id : Z) (socket_id : string) (showtime_id : Z) : W unit :=
  set_adapter (subscribe_local socket_id showtime_id) ;; send_room_state_snapshot user_id showtime_id.
Definition on_unsubscribe (socket_id : string) (showtime_id : Z) : W unit :=
  set_adapter (unsubscribe_local socket_id showtime_id).
Definition on_sync_locks_request (user_id showtime_id : Z) : W unit :=
  locked ← ws_redis (sync_locks_from_zset user_id showtime_id); reply_user user_id (sync_locks_note locked).

Definition on_payment_confirm (user_id showtime_id : Z) (seat_ids : list Z) : W unit :=
  success ← ws_redis (confirm_payment user_id showtime_id seat_ids);
  when success (publish_to_room showtime_id (PaymentConfirmed user_id showtime_id seat_ids)).
Definition on_payment_timeout (user_id showtime_id : Z) (seat_ids : list Z) : W unit :=
  publish_to_room showtime_id (PaymentTimeout showtime_id seat_ids).

(** *** Connections ([ws_handler], [handle_socket]) *)

(** The user of a token, or 401. *)
Definition ws_user (token jwt_secret : string) : option Z :=
  if bool_decide (token = "mock_token") then Some 1
  else sub ← decode_sub jwt_secret token; Some (default 0 (parse_i32 sub)).

(** From the upgrade to the acknowledgement. *)
Definition socket_open (socket_id : string) (user_id : Z) : W unit :=
  s ← st_get;
  let tx := ws_channels s in
  st_modify (λ s, WsServer (ws_adapter s) (ws_metadata s) (ws_db s) (ws_gateway s) (S tx)) ;;
  set_adapter (add_local_connection socket_id user_id tx) ;;
  on_register user_id socket_id ;;
  set_adapter (send_on tx (json_print (auth_ack user_id))).

Definition socket_close (socket_id : string) (user_id : Z) : W unit :=
  set_adapter (remove_local_connection socket_id user_id) ;; on_disconnect user_id socket_id.

Definition handle_request (socket_id : string) (user_id : Z) (req : ws_request) : W unit :=
  match req with
  | WsSubscribe room_id => on_subscribe user_id socket_id room_id
  | WsUnsubscribe room_id => on_unsubscribe socket_id room_id
  | WsLockSeats room_id ids indices total => on_lock_request user_id room_id ids indices total
  | WsUnlockSeats room_id ids indices total => on_unlock_request user_id room_id ids indices total
  | WsSyncLocks room_id => on_sync_locks_request user_id room_id
  end.

(** One text of a browser; what does not parse is passed over. *)
Definition handle_text (socket_id : string) (user_id : Z) (text : string) : W unit :=
  match json_parse text ≫= de_ws_request with
  | Some req => handle_request socket_id user_id req
  | None => mret tt
  end.

(** The frames a socket receives; the loop takes texts and ends at any other frame. *)
Fixpoint recv_task (socket_id : string) (user_id : Z) (frames : list ws_frame) : W unit :=
  match frames with
  | FrameText text :: frames => handle_text socket_id user_id text ;; recv_task socket_id user_id frames
  | _ => mret tt
  end.

Definition handle_socket (socket_id : string) (user_id : Z) (frames : list ws_frame) : W unit :=
  socket_open socket_id user_id ;; recv_task socket_id user_id frames ;; socket_close socket_id user_id.

(** One message of the subscriber. *)
Definition on_pubsub (channel payload : string) : W unit := set_adapter (on_message channel payload).
End server.
