(* ===== verification/WsRooms.v ===== *)
(** * WsRooms: what the browsers in a room see

    The lock server, Pub/Sub and the adapter of a WebSocket server composed, and what a
    socket leaves behind. *)

From stdpp Require Import gmap sets.
From S2P Require Import Prelude Text Keys Redis RedisMem SeatLock SingleNodeLock ShowActor Events Db Gateway GatewayRequests GatewayApi.
From S2P Require Import LockServer SeatBitmap SocketAdapter SocketRooms WsServer.

#[local] Open Scope string_scope.
#[local] Open Scope list_scope.
#[local] Open Scope Z_scope.

(** ** From the lock server to the rooms *)

Section notes.
Context {D : Type} `{!RedisServer D} {HS : SeatLock D} {HJ : JsonText}.
Implicit Types (w : world D).

(** The subscriber handles the messages of Pub/Sub in the order of publication. *)
Definition relay (messages : list (string * json)) (a : adapter) : adapter :=
  foldl (λ a m, on_message m.1 (json_print m.2) a) a messages.

Definition room_op (t : Z) (e : pubsub_event) : socket_op := OpRoomEvent t e.

Lemma publish_ev_ok c e ns t lg :
  publish_ev c e (World (D:=D) ns t [] lg) = (tt, World ns t [] (lg ++ [(c, event_json e)])).
Proof. done. Qed.

(** A loop of publications in a room. *)
Lemma publish_loop_ok s (f : Z → pubsub_event) ids ns t lg :
  (∀ x, publish_room_event (D:=D) (f x) = publish_ev (room_channel s) (f x)) →
  for_each ids (λ x, publish_room_event (f x)) (World (D:=D) ns t [] lg) =
    (tt, World ns t [] (lg ++ map (λ x, (room_channel s, event_json (f x))) ids)).
Proof.
  intros Hf. revert lg. induction ids as [|x ids IH]; intros lg; simpl; [by rewrite app_nil_r|].
  unfold mbind, St_bind. rewrite Hf, publish_ev_ok, IH. by rewrite <-app_assoc.
Qed.

(** What a lock message makes the room and the user see. *)
Definition lock_ops (m : seat_lock_message) (updated : bool) : list socket_op :=
  (if updated then map (λ x, OpRoomEvent (m_showtime_id m) (SeatLocked (m_user_id m) (m_showtime_id m) x)) (m_seat_ids m) else [])
  ++ [OpGlobalEvent (LockSlotsResponse (m_user_id m) (m_showtime_id m) updated
        (if updated then m_seat_ids m else []) (if updated then [] else m_seat_ids m))].

Definition op_message (o : socket_op) : option (string * json) :=
  match o with
  | OpRoomEvent t e => Some (room_channel t, event_json e)
  | OpGlobalEvent e => Some (global_events_channel, event_json e)
  | _ => None
  end.

Lemma relay_ops os a : forallb (λ o, bool_decide (is_Some (op_message o))) os = true →
  relay (omap op_message os) a = adapter_run os a.
Proof.
  revert a. induction os as [|o os IH]; intros a; [done|]. simpl. rewrite andb_true_iff, bool_decide_eq_true.
  intros [[x Hx] H]. destruct o; simplify_eq/=; by apply IH.
Qed.

Lemma process_lock_log m w w1 updated :
  m_action m ≠ "unlock" → update_attempts m retry_sleeps w = (updated, w1) → w_faults w1 = [] →
  w_log (process_lock_request m w).2 = w_log w1 ++ omap op_message (lock_ops m updated).
Proof.
  intros Ha Hu Hf. unfold process_lock_request. rewrite bool_decide_eq_false_2 by done.
  unfold mbind at 1, St_bind at 1. rewrite Hu. destruct w1 as [ns t fl lg]. simpl in Hf. subst fl.
  unfold lock_ops. rewrite omap_app. destruct updated; [|done]. unfold when, mbind, St_bind.
  rewrite (publish_loop_ok (m_showtime_id m)) by done. unfold publish_global_event. rewrite publish_ev_ok.
  simpl. rewrite <-app_assoc. do 2 f_equal. induction (m_seat_ids m) as [|x l IH]; simpl; [done|by f_equal].
Qed.

(** The messages of a table for a sequence of events. *)
Lemma table_run_events os p :
  forallb (λ o, bool_decide (is_Some (op_message o))) os = true →
  table_run os p = concat (map (λ o, table_sends o p) os).
Proof.
  induction os as [|o os IH]; [done|]. simpl. rewrite andb_true_iff, bool_decide_eq_true.
  intros [[x Hx] H]. destruct o; simplify_eq/=; by rewrite IH.
Qed.

Lemma lock_ops_fit m updated p : message_ok m = true → run_fits (lock_ops m updated) p = true.
Proof.
  unfold message_ok. rewrite !andb_true_iff. intros [[[Hu Hs] Hl] _].
  assert (∀ b, event_ok (LockSlotsResponse (m_user_id m) (m_showtime_id m) b
    (if updated then m_seat_ids m else []) (if updated then [] else m_seat_ids m)) = true) as He.
  { intros b. simpl. rewrite Hu, Hs. destruct updated; by rewrite Hl. }
  unfold lock_ops. destruct updated; [|cbn [app run_fits op_fits]; by rewrite He].
  revert Hl. generalize (LockSlotsResponse (m_user_id m) (m_showtime_id m) true (m_seat_ids m) []), (He true).
  clear He. intros e Hok. induction (m_seat_ids m) as [|x l IH]; simpl; [by rewrite Hok|].
  rewrite andb_true_iff. intros [Hx Hl]. rewrite Hs, Hu, Hx. simpl. by apply IH.
Qed.

(** What the connections of [p] get for a lock message. *)
Definition lock_notes (m : seat_lock_message) (updated : bool) (p : table) : list (nat * string) :=
  let s := m_showtime_id m in
  (if updated
   then concat (map (λ x, to_conns (λ c, s ∈ c_rooms c) (json_print (seat_locked_note x s (m_user_id m))) p) (m_seat_ids m))
   else [])
  ++ to_conns (λ c, c_user c = m_user_id m)
       (json_print (lock_slots_note s updated (if updated then m_seat_ids m else []) (if updated then [] else m_seat_ids m))) p.

(** C18: the outcome of a lock message reaches the browsers it concerns, and no others.
    When the lock server has handled a lock message and its events could be published,
    the subscriber of a WebSocket server that implements a table of connections sends:
    if the seats were updated, a [seat_locked] note per seat, in order, to each socket in
    the room of the show; then the outcome to each socket of the user. *)
Theorem lock_outcome_reaches_browsers m w w1 updated a p tx :
  m_action m ≠ "unlock" → message_ok m = true →
  update_attempts m retry_sleeps w = (updated, w1) → w_faults w1 = [] →
  implements a p →
  ∃ messages, w_log (process_lock_request m w).2 = w_log w1 ++ messages ∧
    received tx (sent (relay messages a)) = received tx (sent a ++ lock_notes m updated p).
Proof.
  intros Ha Hm Hu Hf Hi. exists (omap op_message (lock_ops m updated)). split; [by apply process_lock_log|].
  assert (forallb (λ o, bool_decide (is_Some (op_message o))) (lock_ops m updated) = true) as Ho.
  { unfold lock_ops. rewrite forallb_app. apply andb_true_iff. split; [|done].
    destruct updated; [|done]. induction (m_seat_ids m) as [|x l IH]; [done|]. simpl. by rewrite IH. }
  rewrite relay_ops by done. rewrite (run_sends _ a p tx Hi); [|by apply lock_ops_fit].
  rewrite table_run_events by done. unfold lock_ops, lock_notes. rewrite map_app, concat_app. simpl. rewrite app_nil_r.
  destruct updated; [|done]. by rewrite map_map.
Qed.
End notes.

(** *** A concrete run: user 1 locks seats 3 and 4 of show 7, watched by user 2 *)

#[local] Existing Instance single_node_lock.

Definition watched_room : list socket_op :=
  [OpConnect "a" 1 0; OpConnect "b" 2 1; OpConnect "c" 3 2; OpSubscribe "a" 7; OpSubscribe "b" 7; OpSubscribe "c" 8].
Definition watched_adapter : adapter := adapter_run (HJ := mem_json) watched_room adapter_new.
Definition watched_table : table := foldl (λ p o, table_step o p) table_new watched_room.
Definition lock_of_two : seat_lock_message := SeatLockMessage "lock" 1 7 [3; 4] 0.
Definition updated_world : world mem_redis := (update_attempts (HS := single_node_lock) lock_of_two retry_sleeps (mem_world 1 1000)).2.

Lemma watched_implements : implements watched_adapter watched_table.
Proof.
  assert (∀ os a p, implements a p → run_fits os p = true →
    implements (adapter_run (HJ := mem_json) os a) (foldl (λ p o, table_step o p) p os)) as H.
  { intros os. induction os as [|o os IH]; intros a p Ha Ho; [done|]. simpl in Ho.
    apply andb_true_iff in Ho as [Ho Hos]. apply IH; [by apply implements_step|done]. }
  apply H; [apply implements_new|vm_compute; reflexivity].
Qed.

Lemma lock_outcome_reaches_browsers_witness :
  map (λ tx, length (received tx (lock_notes (HJ := mem_json) lock_of_two true watched_table))) [0; 1; 2]%nat = [3; 2; 0]%nat ∧
  ∃ messages, w_log (process_lock_request lock_of_two (mem_world 1 1000)).2 = w_log updated_world ++ messages ∧
    received 0 (sent (relay (HJ := mem_json) messages watched_adapter)) =
    received 0 (sent watched_adapter ++ lock_notes (HJ := mem_json) lock_of_two true watched_table).
Proof.
  split; [vm_compute; reflexivity|].
  assert (m_action lock_of_two ≠ "unlock") as Ha by discriminate.
  assert (message_ok lock_of_two = true) as Hm by (vm_compute; reflexivity).
  assert (update_attempts (HS := single_node_lock) lock_of_two retry_sleeps (mem_world 1 1000) = (true, updated_world)) as Hu.
  { unfold updated_world. apply injective_projections; [vm_compute; reflexivity|reflexivity]. }
  assert (w_faults updated_world = []) as Hf by (vm_compute; reflexivity).
  pose proof (lock_outcome_reaches_browsers lock_of_two (mem_world 1 1000) updated_world true watched_adapter watched_table 0
    Ha Hm Hu Hf watched_implements) as H.
  exact H.
Defined.

(** * Requests without seats *)

Section quiet.
Context {D : Type} `{!RedisServer D} {HS : SeatLock D} {HJ : JsonText}.
Implicit Types (g : gateway D) (q : list seat_lock_message).

(** No task waits for an actor, and [q] has been published to the locking queue. *)
Definition quiet q g : Prop := (∀ p sh, g_heap g !! p = Some sh → sh_queue sh = []) ∧ g_amqp g = q.

Lemma quiet_same q g g' :
  (∀ p sh', g_heap g' !! p = Some sh' → sh_queue sh' = [] ∨ ∃ sh, g_heap g !! p = Some sh ∧ sh_queue sh' = sh_queue sh) →
  g_amqp g' = g_amqp g → quiet q g → quiet q g'.
Proof.
  intros Hh Ha (H1 & H2). split; [|congruence].
  intros p sh' Hp. destruct (Hh p sh' Hp) as [|(sh & Hs & ->)]; [done|by eapply H1].
Qed.

Lemma quiet_redis {A} q (m : St (world D) A) : keeps (quiet q) (redis m).
Proof. intros g Hg. unfold redis, zoom. by destruct (m (g_world g)). Qed.

Lemma quiet_on_actor {A} q p (d : A) f : keeps (quiet q) (on_actor p d f).
Proof.
  intros g Hg. unfold on_actor. destruct (g_heap g !! p) as [sh|] eqn:E; [|done].
  destruct (f (sh_actor sh)) as [x a]. eapply quiet_same; [| |exact Hg]; simpl; [|done].
  intros p' sh' H. right. destruct (decide (p' = p)) as [->|].
  - rewrite list_lookup_insert_eq in H by by eapply lookup_lt_Some. simplify_eq/=. eauto.
  - rewrite list_lookup_insert_ne in H by done. eauto.
Qed.

Lemma quiet_set_closed q f : keeps (quiet q) (st_modify (set_closed (D:=D) f)).
Proof. by intros g Hg. Qed.
Lemma quiet_oneshot q : keeps (quiet q) (oneshot (D:=D)).
Proof. by intros g Hg. Qed.
Hint Resolve quiet_redis quiet_on_actor quiet_set_closed quiet_oneshot : keeps.

Lemma quiet_clear_admission q key seats : keeps (quiet q) (clear_admission (D:=D) key seats).
Proof.
  intros g Hg. unfold clear_admission. destruct (g_actors g !! key) as [[p|]|]; [|done..].
  revert g Hg. apply keeps_for_each. auto with keeps.
Qed.
Lemma quiet_lease_begin q p : keeps (quiet q) (lease_begin (D:=D) p).
Proof. unfold lease_begin. keeps_tac. Qed.
Lemma quiet_lease_drop q p : keeps (quiet q) (lease_drop (D:=D) p).
Proof. unfold lease_drop. keeps_tac. Qed.
Lemma quiet_register_all q p l : keeps (quiet q) (register_all (D:=D) p l).
Proof. induction l as [|[t i] l IH]; simpl; keeps_tac. Qed.
Lemma quiet_admit_all q p l : keeps (quiet q) (admit_all (D:=D) p l).
Proof. induction l as [|[t i] l IH]; simpl; keeps_tac. Qed.

Lemma quiet_init q key c : keeps (quiet q) (Gateway.get_or_try_init (D:=D) key c).
Proof.
  unfold Gateway.get_or_try_init. apply hoare_st_get. intros g Hg.
  assert (∀ p, keeps (quiet q)
    (now ← redis now_secs;
     st_modify (λ g : gateway D, set_actors <[key := Some p]> (set_heap (λ l, l ++ [Show key (new_actor c now) []]) g)) ;;
     mret (inl p : nat + gw_error))) as Hnew.
  { intros p. keeps_tac. intros g' Hg'. eapply quiet_same; [| |exact Hg']; simpl; [|done].
    intros p' sh' H. apply lookup_app_Some in H as [H|[_ H]]; [right; eauto|].
    apply list_lookup_singleton_Some in H as [_ <-]. by left. }
  destruct (g_actors g !! key) as [[p|]|]; [apply keeps_ret| |]; (case_bool_decide; [|by apply Hnew]);
    apply keeps_bind; [|intros ?; apply keeps_ret| |intros ?; apply keeps_ret]; by intros g' _.
Qed.
Hint Resolve quiet_clear_admission quiet_lease_begin quiet_lease_drop quiet_register_all quiet_admit_all quiet_init keeps_st_get : keeps.

Lemma quiet_get_or_create q key total : keeps (quiet q) (get_or_create_show_actor (D:=D) key total).
Proof. unfold get_or_create_show_actor, closed_in_redis, store_closing. keeps_tac. Qed.
Hint Resolve quiet_get_or_create : keeps.

(** One task waits for actor [p] of a gateway otherwise quiet. *)
Definition queued q p (x : gateway_task) g : Prop :=
  ∃ g0 key a, quiet q g0 ∧ g_heap g0 !! p = Some (Show key a []) ∧ g = set_heap <[p := Show key a [x]]> g0.

(** The task of a request is the only one, or there is none. *)
Lemma quiet_lock_begin q u s ids idxs total :
  hoare (quiet q) (lock_begin (D:=D) u s ids idxs total)
    (λ r g, match r with
     | inl pn => queued q (pn_actor pn) (TLock u (pn_admitted pn) (pn_response pn)) g
     | inr _ => quiet q g
     end).
Proof.
  assert (∀ e, hoare (quiet q) (mret (inr e) : St (gateway D) (pending + (lock_result + gw_error)))
    (λ r g, match r with
     | inl pn => queued q (pn_actor pn) (TLock u (pn_admitted pn) (pn_response pn)) g
     | inr _ => quiet q g
     end)) as Hinr by (intros e; by apply hoare_ret).
  unfold lock_begin. case_bool_decide; [apply Hinr|].
  eapply hoare_bind; [apply quiet_get_or_create|]. intros [p|e]; [|apply Hinr].
  eapply hoare_bind; [apply quiet_lease_begin|]. intros [|]; cbn [negb]; [|apply Hinr].
  eapply hoare_bind; [apply quiet_register_all|]. intros [seats|e].
  2:{ eapply hoare_bind; [apply quiet_lease_drop|]. intros []. apply Hinr. }
  eapply hoare_bind; [apply quiet_admit_all|]. intros [a f]. case_bool_decide.
  { eapply hoare_bind; [apply quiet_lease_drop|]. intros []. apply Hinr. }
  eapply hoare_bind; [apply quiet_oneshot|]. intros k.
  apply (hoare_bind _ (λ ok g, if ok : bool then queued q p (TLock u a k) g else quiet q g)).
  { intros g Hg. unfold try_send. destruct (g_heap g !! p) as [[key x l]|] eqn:E; [|done]. case_bool_decide; [|done].
    exists g, key, x. pose proof (proj1 Hg _ _ E) as Hl. simpl in *. by subst l. }
  intros [|]; cbn [negb]; [by apply hoare_ret|].
  eapply hoare_bind; [apply quiet_clear_admission|]. intros [].
  eapply hoare_bind; [apply quiet_lease_drop|]. intros []. apply Hinr.
Qed.

Lemma serve_nil p n g key a : g_heap g !! p = Some (Show key a []) → serve p n g = (tt, g).
Proof.
  intros Hp. induction n as [|n IH]; [done|]. simpl. unfold mbind, St_bind, actor_task. by rewrite Hp.
Qed.

Lemma queued_turn q p x g :
  queued q p x g → ∃ g0 key a, quiet q g0 ∧ g_heap g0 !! p = Some (Show key a []) ∧ actor_task p g = run_task key x g0.
Proof.
  intros (g0 & key & a & Hq & Hp & ->). exists g0, key, a. split_and!; [done..|]. unfold actor_task. cbn [set_heap g_heap].
  rewrite list_lookup_insert_eq by by eapply lookup_lt_Some. f_equal. destruct g0 as [h ? ? ? ? ? ? ?]. unfold set_heap. simpl in *.
  by rewrite list_insert_insert_eq, list_insert_id.
Qed.

Lemma quiet_acquire q u s l :
  hoare (quiet q) (acquire_and_publish (D:=D) u s l) (λ r g, locked_seat_ids r = [] → quiet q g).
Proof.
  unfold acquire_and_publish. eapply hoare_bind; [apply quiet_redis|]. intros [locked failed]. case_bool_decide as Hl; cbn [negb when].
  - eapply hoare_bind; [apply keeps_ret|]. intros []. by apply hoare_ret.
  - apply (hoare_bind _ (λ _ _, True)); [by intros g|]. intros []. apply hoare_ret. intros g _ Hl'. by destruct Hl.
Qed.

Lemma quiet_set_reply q k r : keeps (quiet q) (st_modify (set_reply (D:=D) k r)).
Proof. by intros g Hg. Qed.

Lemma quiet_lock_end q pn : keeps (quiet q) (lock_end (D:=D) pn).
Proof. unfold lock_end. keeps_tac. Qed.

(** A request served alone publishes when it locks a seat, and only then. *)
Lemma lock_alone_publishes q u s ids idxs total g r g' :
  quiet q g → lock u s ids idxs total g = (Some (inl r), g') → locked_seat_ids r = [] → quiet q g'.
Proof.
  intros Hg. unfold lock. unfold mbind at 1, St_bind at 1.
  pose proof (quiet_lock_begin q u s ids idxs total g Hg) as Hb.
  destruct (lock_begin u s ids idxs total g) as [[pn|r0] g1]; cbn [fst snd] in Hb; [|by intros [= -> <-] _].
  destruct (queued_turn _ _ _ _ Hb) as (g0 & key & a & Hq & Hp & Ht). unfold mbind at 1, St_bind at 1.
  change SHOW_QUEUE_CAPACITY with (S (pred SHOW_QUEUE_CAPACITY)). cbn [serve]. unfold mbind at 1, St_bind at 1.
  rewrite Ht. cbn [run_task]. unfold mbind at 1, St_bind at 1.
  pose proof (quiet_acquire q u key (pn_admitted pn) g0 Hq) as Hacq.
  pose proof (run_task_replies key (TLock u (pn_admitted pn) (pn_response pn)) g0) as (Hh & _ & _).
  cbn [run_task] in Hh. unfold mbind, St_bind in Hh.
  destruct (acquire_and_publish u key (pn_admitted pn) g0) as [r1 g3]. cbn [fst snd st_modify] in *.
  rewrite (serve_nil _ _ _ key a) by (by rewrite Hh).
  assert (∀ m, locked_seat_ids r1 = [] → quiet q (lock_end pn (set_reply m (RLock r1) g3)).2) as Hend.
  { intros m H. by apply quiet_lock_end, quiet_set_reply, Hacq. }
  specialize (Hend (pn_response pn)).
  unfold mbind at 1, St_bind at 1. destruct (lock_end pn _) as [r2 g4] eqn:E. cbn [fst snd] in Hend.
  unfold mret, St_ret. intros H Hr. destruct r2 as [r2|]; [|done]. simpl in H. injection H as <- <-. apply Hend.
  unfold lock_end in E. unfold mbind at 1, St_bind at 1, st_get in E. cbn [set_reply g_replies] in E.
  rewrite lookup_insert_eq in E. unfold mbind at 1, St_bind at 1 in E. destruct (clear_admission _ _ _) as [[] g5] in E.
  unfold mbind, St_bind in E. destruct (lease_drop _ g5) as [[] g6] in E. injection E as <- _. exact Hr.
Qed.
End quiet.

Section silence.
Context {D : Type} `{!RedisServer D} {HS : SeatLock D} {HJ : JsonText}.
Variable error_text : string.
Implicit Types (st : ws_server D).

(** The adapter [a] and a quiet gateway. *)
Definition calm (a : adapter) q st : Prop := ws_adapter st = a ∧ quiet q (ws_gateway st).

Lemma calm_redis {A} a q (m : St (world D) A) : keeps (calm a q) (ws_redis m).
Proof.
  intros st [Ha Hq]. unfold ws_redis, on_gateway, zoom. pose proof (quiet_redis q m _ Hq) as H.
  destruct (redis m (ws_gateway st)). by split.
Qed.
Lemma calm_query {A} a q (f : db → A) : keeps (calm a q) (ws_query f).
Proof. unfold ws_query. apply keeps_bind; [apply calm_redis|]. intros fl. by intros st Hst. Qed.
Lemma calm_set_metadata a q s m : keeps (calm a q) (set_metadata (D:=D) s m).
Proof. by intros st Hst. Qed.
Hint Resolve calm_redis calm_query calm_set_metadata : keeps.

Lemma calm_load a q s : keeps (calm a q) (load_metadata (D:=D) error_text s).
Proof. unfold load_metadata. keeps_tac. Qed.
Hint Resolve calm_load keeps_st_get : keeps.

Lemma calm_verified a q s ids idxs total : keeps (calm a q) (verified_seat_metadata (D:=D) error_text s ids idxs total).
Proof. unfold verified_seat_metadata, get_or_try_init. keeps_tac. Qed.

(** A lock request for seats that cannot be locked is never answered.  When the seats
    of a request have been verified and the gateway accepts the call but locks none of
    them, the WebSocket server sends nothing to any socket and the gateway publishes
    nothing to the locking queue, so that the lock server, whose outcome the browser waits
    for, never hears of the request. *)
Theorem lock_without_seats_is_silent u s ids idxs total q st verified st1 r st2 :
  quiet q (ws_gateway st) →
  verified_seat_metadata error_text s ids idxs total st = (inl verified, st1) →
  grpc_lock_slot s ids verified.1 verified.2 u st1 = (Some r, st2) → lr_locked r = [] →
  let st' := (on_lock_request error_text u s ids idxs total st).2 in
  ws_adapter st' = ws_adapter st ∧ g_amqp (ws_gateway st') = q.
Proof.
  intros Hq Hv Hc Hr. pose proof (calm_verified (ws_adapter st) q s ids idxs total st (conj eq_refl Hq)) as Hk.
  rewrite Hv in Hk. simpl in Hk.
  assert ((on_lock_request error_text u s ids idxs total st).2 = st2) as ->.
  { unfold on_lock_request. unfold mbind at 1, St_bind at 1. rewrite Hv. destruct verified as [idx tot].
    unfold mbind, St_bind. cbn [fst snd] in Hc. by rewrite Hc. }
  simpl. revert Hc. unfold grpc_lock_slot, grpc. unfold mbind at 1, St_bind at 1.
  pose proof (calm_redis (ws_adapter st) q draw st1 Hk) as Hk2.
  destruct (ws_redis draw st1) as [fl st3]. cbn [snd] in Hk2. case_decide; [done|].
  unfold mbind at 1, St_bind at 1. unfold on_gateway, zoom. destruct Hk2 as [Ha Hq2].
  unfold lock_slot. destruct (slot_request_invalid _ _ _ _); [by destruct fl|].
  unfold mbind at 1, St_bind at 1. destruct (lock u s _ _ _ (ws_gateway st3)) as [lr g] eqn:Hl.
  destruct lr as [[lr|e]|]; cbn [mret St_ret]; [|by destruct fl..].
  intros Hx. destruct fl; try done. injection Hx as <- <-. cbn [ws_adapter ws_gateway]. split; [done|].
  by destruct (lock_alone_publishes q u s _ _ _ _ _ _ Hq2 Hl Hr).
Qed.
End silence.

(** *** A concrete run: seat 3 of show 7 is locked by user 2 when user 1 asks for it *)

#[local] Existing Instance single_node_lock.

Definition one_seat_db : db :=
  Db [SeatRow 3 7 Available "100" some_place] [] [] [] [] [] some_users {[7 := some_schedule 7]} [] 1 1 ∅ 1 1 1.
Definition taken_server : ws_server mem_redis :=
  WsServer (add_local_connection "a" 1 0 adapter_new) ∅ one_seat_db
    (gateway_new true (acquire_distributed_lock 7 3 2 300 (mem_world 1 1000)).2) 1.
Definition verified_server : ws_server mem_redis := (verified_seat_metadata "" 7 [3] [1] 1 taken_server).2.
Definition called_server : ws_server mem_redis := (grpc_lock_slot 7 [3] [1] 1 1 verified_server).2.

Lemma lock_without_seats_is_silent_witness :
  ws_adapter (on_lock_request (HJ := mem_json) "" 1 7 [3] [1] 1 taken_server).2 = ws_adapter taken_server ∧
  g_amqp (ws_gateway (on_lock_request (HJ := mem_json) "" 1 7 [3] [1] 1 taken_server).2) = [].
Proof.
  assert (quiet [] (ws_gateway taken_server)) as Hq by (split; [by intros p sh|reflexivity]).
  assert (verified_seat_metadata "" 7 [3] [1] 1 taken_server = (inl ([1], 1), verified_server)) as Hv.
  { apply injective_projections; [vm_compute; reflexivity|reflexivity]. }
  assert (grpc_lock_slot 7 [3] [1] 1 1 verified_server = (Some (LockResponse false [] [3]), called_server)) as Hc.
  { transitivity ((grpc_lock_slot 7 [3] [1] 1 1 verified_server).1, called_server); [apply surjective_pairing|].
    assert ((grpc_lock_slot 7 [3] [1] 1 1 verified_server).1 = Some (LockResponse false [] [3])) as -> by (vm_compute; reflexivity).
    reflexivity. }
  pose proof (lock_without_seats_is_silent (HJ := mem_json) "" 1 7 [3] [1] 1 [] taken_server ([1], 1) verified_server
    (LockResponse false [] [3]) called_server Hq Hv Hc eq_refl) as H.
  exact H.
Defined.
