(* ===== verification/LockServerProps.v ===== *)
(** * LockServerProps: the lock server handles each message once and in order, and what
    its handlers do to the seats *)

From S2P Require Import Prelude Text Keys Redis RedisMem SeatLock SingleNodeLock LeaseTable Events Db LockServer.

(** ** Deliveries *)

Section deliveries.
Context {D : Type} `{!RedisServer D} {HS : SeatLock D} {HJ : JsonText}.
Implicit Types (c : consumer (D:=D)) (s : Z).

(** The valid messages for show [s] among the deliveries. *)
Definition for_show s (tm : nat * seat_lock_message) : bool := m_showtime_id tm.2 =? s.
Definition valid_delivery (d : nat * string) : option (nat * seat_lock_message) :=
  m ← parse_seat_lock_message d.2; Some (d.1, m).
Definition sent_to s (taken : list (nat * string)) : list (nat * seat_lock_message) :=
  List.filter (for_show s) (omap valid_delivery taken).

Definition waiting s c : list (nat * seat_lock_message) := default [] (lc_actors c !! s).
Definition handled_of s c : list (nat * seat_lock_message) := List.filter (for_show s) (lc_handled c).

Definition acked (a : broker_answer) : option nat := match a with Ack tag => Some tag | Nack _ _ => None end.

(** The queue of a show holds messages of that show, and what was handled was
    acknowledged. *)
Definition sorted_queues c : Prop :=
  (∀ s, Forall (λ tm, for_show s tm = true) (waiting s c)) ∧ omap acked (lc_acks c) = (lc_handled c).*1.

Definition taken_by (o : consumer_op) : list (nat * string) :=
  match o with CDeliver tag data => [(tag, data)] | _ => [] end.

Lemma filter_none {A} (f : A → bool) l : Forall (λ x, f x = false) l → List.filter f l = [].
Proof. induction 1 as [|x l Hx _ IH]; simpl; [done|]. by rewrite Hx. Qed.

Lemma step_order capacity o c c' s :
  sorted_queues c → consumer_step capacity o c = Some c' →
  sorted_queues c' ∧ handled_of s c' ++ waiting s c' = (handled_of s c ++ waiting s c) ++ sent_to s (taken_by o).
Proof.
  intros [Hq Ha] Ho. destruct o as [tag data|k|o]; simpl in Ho.
  - unfold deliver in Ho. unfold sent_to, taken_by. cbn [omap list_omap]. unfold valid_delivery. simpl.
    destruct (parse_seat_lock_message data) as [m|]; simpl in *.
    2:{ injection Ho as <-. rewrite app_nil_r. split; [|done]. split; [done|]. simpl. rewrite omap_app. simpl.
        by rewrite app_nil_r. }
    case_bool_decide; [|done]. injection Ho as <-. unfold handled_of, waiting, sorted_queues. simpl.
    rewrite <-app_assoc. split.
    + split; [|done]. intros s'. unfold waiting. simpl. destruct (decide (s' = m_showtime_id m)) as [->|].
      * rewrite lookup_insert_eq. simpl. apply Forall_app. split; [apply Hq|].
        constructor; [|constructor]. apply Z.eqb_refl.
      * rewrite lookup_insert_ne by done. apply Hq.
    + f_equal. unfold for_show at 1. simpl. destruct (m_showtime_id m =? s) eqn:E.
      * apply Z.eqb_eq in E as <-. by rewrite lookup_insert_eq.
      * apply Z.eqb_neq in E. rewrite lookup_insert_ne by done. by rewrite app_nil_r.
  - unfold run_actor in Ho. destruct (lc_actors c !! k) as [[|[tag m] q]|] eqn:Hk; [done| |done].
    destruct (process_lock_request m (lc_world c)) as [[] w]. injection Ho as <-.
    pose proof (Hq k) as Hk'. unfold waiting in Hk'. rewrite Hk in Hk'. apply Forall_cons in Hk' as [Hm Hq'].
    split; [split|]; unfold handled_of, waiting; simpl.
    + intros s'. unfold waiting. simpl. destruct (decide (s' = k)) as [->|].
      * by rewrite lookup_insert_eq.
      * rewrite lookup_insert_ne by done. apply Hq.
    + rewrite omap_app, fmap_app, Ha. done.
    + rewrite app_nil_r, List.filter_app. simpl. destruct (decide (s = k)) as [->|Hne].
      * rewrite Hm, lookup_insert_eq, Hk. simpl. by rewrite <-app_assoc.
      * rewrite lookup_insert_ne by done. unfold for_show in Hm |- *. apply Z.eqb_eq in Hm.
        rewrite (proj2 (Z.eqb_neq _ _)) by (simpl in *; lia). by rewrite app_nil_r.
  - injection Ho as <-. rewrite app_nil_r. split; [split|]; done.
Qed.

Lemma sent_to_app s l1 l2 : sent_to s (l1 ++ l2) = sent_to s l1 ++ sent_to s l2.
Proof. unfold sent_to. by rewrite omap_app, List.filter_app. Qed.

Lemma run_order capacity os c s :
  sorted_queues c →
  let '(c', taken) := consumer_run capacity os c in
  sorted_queues c' ∧ handled_of s c' ++ waiting s c' = (handled_of s c ++ waiting s c) ++ sent_to s taken.
Proof.
  revert c. induction os as [|o os IH]; intros c Hc; simpl; [by rewrite app_nil_r|].
  destruct (consumer_step capacity o c) as [c1|] eqn:Ho; [|by apply IH].
  destruct (step_order capacity o c c1 s Hc Ho) as [Hc1 H1]. specialize (IH c1 Hc1).
  destruct (consumer_run capacity os c1) as [c' taken]. destruct IH as [Hc' H2]. split; [done|].
  rewrite H2, H1, <-app_assoc, <-sent_to_app. by destruct o.
Qed.

Definition consumer_new (w : world D) : consumer := Consumer ∅ ∅ [] [] w.

(** C35: the requests of a show are handled in the order the broker delivered them.
    For any channel capacity, whenever the actors get their turns and whatever else
    happens to Redis, the messages handled for a show, followed by those waiting in
    its channel, are exactly the valid messages delivered for it so far; and the
    acknowledged deliveries are exactly the handled ones, in that order. *)
Theorem show_requests_handled_in_order capacity os (w : world D) s :
  let '(c, taken) := consumer_run capacity os (consumer_new w) in
  handled_of s c ++ waiting s c = sent_to s taken ∧ omap acked (lc_acks c) = (lc_handled c).*1.
Proof.
  pose proof (run_order capacity os (consumer_new w) s) as H.
  destruct (consumer_run capacity os (consumer_new w)) as [c taken].
  destruct H as [[_ Ha] H]; [|split; [exact H|exact Ha]].
  split; [|done]. intros s'. unfold waiting. simpl. by rewrite lookup_empty.
Qed.
End deliveries.

(** ** The locks of the other users

    Against the interface of the lock: any implementation that keeps its promise. *)

Section holders.
Context {D : Type} `{!RedisServer D} `{HS : SeatLock D} {HE : ExclusiveLock D} {HJ : JsonText}.
Implicit Types (s t u dl : Z).

Lemma held_pool_get s t u dl i : keeps (lock_held s t u dl) (pool_get i).
Proof. intros w Hw. destruct (pool_get_cases i w) as (b & l & -> & _). by eapply held_world, Hw. Qed.

Lemma held_publish s t u dl c j : keeps (lock_held s t u dl) (publish c j).
Proof.
  intros w Hw. unfold publish. destruct (draw_eq w) as (fl & l & -> & _).
  destruct fl; by eapply held_world, Hw.
Qed.

Lemma held_publish_ev s t u dl c e : keeps (lock_held s t u dl) (publish_ev c e).
Proof. unfold publish_ev. apply keeps_bind; [apply held_pool_get|]. intros b. apply keeps_when, held_publish. Qed.

Lemma held_room_event s t u dl e : keeps (lock_held s t u dl) (publish_room_event e).
Proof. destruct e; simpl; try apply keeps_ret; apply held_publish_ev. Qed.

Lemma held_unforced s t u dl o : unforced o → op_foreign s t u o → keeps (lock_held s t u dl) (run_op o).
Proof. intros Ho. by apply held_stable, safe_unforced. Qed.

Lemma held_attempts s t u dl m l : keeps (lock_held s t u dl) (update_attempts m l).
Proof.
  induction l as [|ms l IH]; simpl; [apply keeps_ret|]. apply keeps_bind.
  - by apply (held_unforced s t u dl (OpMetadata (m_showtime_id m) (m_seat_ids m) (m_user_id m) LOCK_TTL_SECS)).
  - intros b. apply keeps_if; [apply keeps_ret|]. apply keeps_bind; [|by intros ?].
    intros w Hw. pose proof (held_unforced s t u dl (OpTick ms) I I w Hw) as H. exact H.
Qed.

Lemma held_request s t u dl m :
  (∀ t', t' ∈ m_seat_ids m → foreign s t u (m_showtime_id m) t' (m_user_id m)) →
  keeps (lock_held s t u dl) (process_lock_request m).
Proof.
  intros Hf. unfold process_lock_request. apply keeps_if.
  - apply keeps_for_each. intros t' Ht'. apply keeps_bind.
    + apply (held_unforced s t u dl (OpRelease (m_showtime_id m) t' (m_user_id m))); [done|]. by apply Hf.
    + intros b. apply keeps_when, held_room_event.
  - apply keeps_bind; [apply held_attempts|]. intros b. apply keeps_bind; [|intros ?; apply held_publish_ev].
    apply keeps_when, keeps_for_each. intros t' _. apply held_room_event.
Qed.

Definition site_holds s t u dl (st : site D) : Prop := lock_held s t u dl (s_world st).

Lemma held_redis_of {A} s t u dl (m : St (world D) A) :
  keeps (lock_held s t u dl) m → keeps (site_holds s t u dl) (redis_of m).
Proof. intros Hm st Hst. specialize (Hm _ Hst). unfold redis_of, zoom. by destruct (m (s_world st)). Qed.

Lemma held_draw s t u dl : keeps (lock_held s t u dl) draw.
Proof. intros w Hw. destruct (draw_eq w) as (fl & l & -> & _). by eapply held_world, Hw. Qed.

Lemma held_db_query {A} s t u dl (q : db → A) : keeps (site_holds s t u dl) (db_query q).
Proof.
  intros st Hst. pose proof (held_redis_of s t u dl draw (held_draw s t u dl) st Hst) as H.
  unfold db_query, db_run. destruct (redis_of draw st) as [[] st']; exact H.
Qed.

Lemma held_is_booked s t u dl k i : keeps (site_holds s t u dl) (is_seat_booked_in_db k i).
Proof.
  unfold is_seat_booked_in_db, db_get. apply keeps_bind.
  - apply keeps_bind; [apply held_redis_of, held_draw|]. intros ?. apply keeps_ret.
  - intros b. apply keeps_if; [apply keeps_ret|]. apply keeps_bind; [apply held_db_query|]. intros x.
    apply keeps_if; [apply keeps_ret|]. apply keeps_bind; [apply held_db_query|]. intros ?. apply keeps_ret.
Qed.

(** The lock server never takes a seat from its holder.  Neither a message of
    the locking queue nor a due entry of the delayed queue, unless it names the
    holder and the seat itself, ends the hold of user [u] on a seat, whatever the
    database says and whatever connections fail. *)
Theorem lock_server_spares_holders s t u dl m encoded :
  (∀ o, safe o) →
  (∀ t', t' ∈ m_seat_ids m → foreign s t u (m_showtime_id m) t' (m_user_id m)) →
  (∀ e, parse_queue_entry encoded = Some e → foreign s t u (q_schedule_id e) (q_seat_id e) (q_user_id e)) →
  keeps (lock_held s t u dl) (process_lock_request m) ∧
  keeps (site_holds s t u dl) (sweep_entry encoded).
Proof.
  intros Hsafe Hm He. split; [by apply held_request|]. unfold sweep_entry.
  destruct (parse_queue_entry encoded) as [e|].
  2:{ apply held_redis_of. intros w Hw.
      pose proof (held_unforced s t u dl (OpZrem seat_processing_queue_key encoded) I I w Hw) as H.
      simpl in H. unfold mbind, St_bind in H. by destruct (zrem_cluster _ _ w). }
  specialize (He e eq_refl). apply keeps_bind; [apply held_is_booked|]. intros b. apply keeps_if; apply held_redis_of.
  - intros w Hw. pose proof (held_stable (OpForceBook (q_schedule_id e) (q_seat_id e) (q_user_id e) encoded)
      s t u dl (Hsafe _) He w Hw) as H. simpl in H. unfold mbind, St_bind in H. by destruct (force_book_seat_lua _ _ _ _ w).
  - apply keeps_bind; [|intros ?; apply held_room_event].
    by apply (held_unforced s t u dl (OpReleaseExpired (q_schedule_id e) (q_seat_id e) (q_user_id e) encoded)).
Qed.
End holders.

#[local] Existing Instance single_node_lock.

(** User 2 asks to unlock seats 3 and 4, and an entry of user 2 for seat 3 is due, while
    user 1 holds seat 3. *)
Lemma lock_server_spares_holders_witness :
  keeps (lock_held (ExclusiveLock := single_node_exclusive (D:=mem_redis)) 7 3 1 65000)
    (process_lock_request (SeatLockMessage "unlock" 2 7 [3; 4] 0)) ∧
  keeps (site_holds (HE := single_node_exclusive (D:=mem_redis)) 7 3 1 65000) (sweep_entry (queue_member 3 7 2)).
Proof.
  pose proof (lock_server_spares_holders (HE := single_node_exclusive (D:=mem_redis)) 7 3 1 65000
    (SeatLockMessage "unlock" 2 7 [3; 4] 0) (queue_member 3 7 2)) as H.
  apply H; clear H.
  - intros o. exact I.
  - intros t' _. right. discriminate.
  - intros e He. assert (e = QueueEntry 3 7 2) as ->.
    { enough (parse_queue_entry (queue_member 3 7 2) = Some (QueueEntry 3 7 2)) by congruence. vm_compute. reflexivity. }
    right. discriminate.
Defined.
