(* ===== verification/LockServerSeats.v ===== *)
(** * LockServerSeats: what the lock server makes the seat map show
    (the handlers of [LockServer.v] over [SingleNodeLock], against the lease table) *)

From S2P Require Import Prelude Text Keys Redis RedisMem SeatLock SingleNodeLock LeaseTable Events Db LockServer.

#[local] Existing Instance single_node_lock.

(** ** The log of published messages *)

Section log.
Context {D : Type} `{!RedisServer D}.

Definition logged (lg : list (string * json)) (w : world D) : Prop := w_log w = lg.

Lemma logged_node_cmd {R} lg i (f : D → Z → D * option R) : keeps (logged lg) (node_cmd i f).
Proof.
  intros w Hw. unfold node_cmd. destruct (draw_eq w) as (fl & l & -> & _). simpl.
  destruct (w_nodes w !! i); [|exact Hw]. by destruct fl.
Qed.
Lemma logged_pool_get lg i : keeps (logged lg) (pool_get i).
Proof. intros w Hw. by destruct (pool_get_cases i w) as (b & l & -> & _). Qed.
Lemma logged_pool_for_seat lg s t : keeps (logged lg) (pool_for_seat s t).
Proof. by intros w. Qed.
Hint Resolve logged_node_cmd logged_pool_get logged_pool_for_seat : keeps.

Lemma logged_all_nodes lg (f : D → Z → D) : keeps (logged lg) (all_nodes f).
Proof.
  intros w Hw. unfold all_nodes. generalize (seq 0 (length (w_nodes w))). intros l. revert w Hw.
  change (keeps (logged lg) (for_each l
    (λ i, ok ← pool_get i; when ok (node_cmd i (λ d t, (f d t, Some tt)) ;; mret tt)))).
  keeps_tac.
Qed.
Hint Resolve logged_all_nodes : keeps.

Context {HJ : JsonText}.

Lemma logged_release_expired lg s t u m : keeps (logged lg) (sn_release_expired_lock_lua s t u m).
Proof.
  unfold sn_release_expired_lock_lua, clear_cluster, sn_zrem_cluster, sn_set_schedule_seat_bitmap_state_cluster.
  keeps_tac.
Qed.
End log.

Section seats.
Context {D : Type} `{!RedisServer D} `{!RedisLaws D} {HJ : JsonText}.
Implicit Types (σ : gmap seat lease) (st : site D).

Lemma sees_faultless n V now (w : world D) : sees n V now w →
  w = World (w_nodes w) now [] (w_log w).
Proof. intros (Hf & _ & _ & Ht & _). destruct w; simpl in *. congruence. Qed.

(** The answer of the database check when nothing fails. *)
Lemma is_booked_ok s t st :
  w_faults (s_world st) = [] →
  is_seat_booked_in_db s t st = ((0 <? booked_seats s t (s_db st)) || (0 <? active_tickets s (s_db st)), st).
Proof.
  intros Hf. unfold is_seat_booked_in_db, mbind, St_bind. rewrite db_get_ok by done. simpl.
  rewrite db_query_ok by done. simpl. destruct (0 <? booked_seats s t (s_db st)); [done|].
  by rewrite db_query_ok.
Qed.

Lemma sweep_entry_ok encoded e st :
  w_faults (s_world st) = [] → parse_queue_entry encoded = Some e →
  sweep_entry encoded st =
    redis_of
      (if (0 <? booked_seats (q_schedule_id e) (q_seat_id e) (s_db st)) || (0 <? active_tickets (q_schedule_id e) (s_db st))
       then sn_force_book_seat_lua (q_schedule_id e) (q_seat_id e) (q_user_id e) encoded
       else (sn_release_expired_lock_lua (q_schedule_id e) (q_seat_id e) (q_user_id e) encoded ;;
             publish_room_event (SeatUnlocked (q_user_id e) (q_schedule_id e) (q_seat_id e)))) st.
Proof.
  intros Hf He. unfold sweep_entry. rewrite He. unfold mbind at 1, St_bind at 1. rewrite is_booked_ok by done.
  by destruct (_ || _).
Qed.

(** A sweep that announces the seat, in a world without faults. *)
Lemma release_and_announce n V now s t u m (w : world D) :
  sees n V now (sn_release_expired_lock_lua s t u m w).2 →
  let w1 := (sn_release_expired_lock_lua s t u m w).2 in
  ((sn_release_expired_lock_lua s t u m ;; publish_room_event (SeatUnlocked u s t)) w).2 =
    World (w_nodes w1) now [] (w_log w ++ [(room_channel s, event_json (SeatUnlocked u s t))]).
Proof.
  intros Hs w1. subst w1. unfold mbind, St_bind.
  pose proof (logged_release_expired (w_log w) s t u m w eq_refl) as Hlog.
  destruct (sn_release_expired_lock_lua s t u m w) as [r [ns t1 fl lg]].
  destruct Hs as (Hf & _ & _ & Ht & _). unfold logged in Hlog. simpl in *. subst. done.
Qed.

(** One active ticket books every seat of its schedule.  The second query of
    [is_seat_booked_in_db] does not ask for the seat: when any ticket of the schedule is
    active, a seat whose hold merely expired is marked as booked on every server,
    although the database has it available, and no [SeatUnlocked] is published. *)
Theorem any_ticket_books_expired_seat n σ now st s t u encoded :
  sees n (view σ) now (s_world st) → seat_arg t = true →
  parse_queue_entry encoded = Some (QueueEntry t s u) →
  booked_seats s t (s_db st) = 0 → 0 < active_tickets s (s_db st) →
  Forall (λ d, seat_bits d now s t = 2) (w_nodes (s_world (sweep_entry encoded st).2)).
Proof.
  intros Hw Ht He Hb Ha. destruct (Hw) as (Hf & _). rewrite (sweep_entry_ok _ _ _ Hf He). simpl.
  rewrite (proj2 (Z.ltb_lt _ _) Ha), orb_true_r. unfold redis_of, zoom.
  pose proof (force_book_bits n σ now s t u encoded (s_world st) Hw Ht) as Hbits. simpl.
  by destruct (sn_force_book_seat_lua s t u encoded (s_world st)).
Qed.

(** The sweep of a stale entry gives away a locked seat in name.  When the hold of
    user [u] has expired and user [o] has locked the seat since, the sweep of the old
    entry leaves the lock of [o] in place, and yet every server's bitmap shows the seat
    as available and the room is told that it is unlocked. *)
Theorem stale_sweep_announces_locked_seat n σ now st s t u o encoded :
  sees n (view σ) now (s_world st) → seat_arg t = true →
  parse_queue_entry encoded = Some (QueueEntry t s u) →
  booked_seats s t (s_db st) = 0 → active_tickets s (s_db st) = 0 →
  live σ (s, t) now = Some o → o ≠ u →
  let w' := s_world (sweep_entry encoded st).2 in
  sees n (view σ) now w' ∧ Forall (λ d, seat_bits d now s t = 0) (w_nodes w') ∧
  w_log w' = w_log (s_world st) ++ [(room_channel s, event_json (SeatUnlocked u s t))].
Proof.
  intros Hw Ht He Hb Ha Ho Hne w'. subst w'. destruct (Hw) as (Hf & _). rewrite (sweep_entry_ok _ _ _ Hf He).
  cbn [q_schedule_id q_seat_id q_user_id]. rewrite Hb, Ha. cbn [orb Z.ltb Z.compare].
  destruct (stale_release_refused n σ now (s_world st) s t u o encoded Hw Ht Ho Hne) as [_ Hs].
  pose proof (release_expired_bits n σ now s t u encoded (s_world st) Hw Ht) as Hbits.
  pose proof (release_and_announce n _ now s t u encoded (s_world st) Hs) as Hr.
  unfold redis_of, zoom. cbv zeta in Hr.
  destruct ((sn_release_expired_lock_lua s t u encoded ;; publish_room_event (SeatUnlocked u s t)) (s_world st)) as [r w1]. cbn [snd s_world] in *. subst w1. simpl.
  split_and!; [|exact Hbits|done]. destruct Hs as (_ & Hl & Hn & _ & Hv). by split_and!.
Qed.

(** *** The server the readers ask *)

Definition first_node (x : option D) (n : nat) (w : world D) : Prop :=
  w_nodes w !! 0%nat = x ∧ length (w_nodes w) = n.

Lemma first_same x n (w w' : world D) : w_nodes w' = w_nodes w → first_node x n w → first_node x n w'.
Proof. intros Hn [H1 H2]. unfold first_node. by rewrite Hn. Qed.

Lemma first_publish_ev x n c e : keeps (first_node x n) (publish_ev (D:=D) c e).
Proof.
  unfold publish_ev. apply keeps_bind.
  - intros w Hw. destruct (pool_get_cases 0 w) as (b & l & -> & _). by eapply first_same, Hw.
  - intros b. apply keeps_when. intros w Hw. unfold publish. destruct (draw_eq w) as (fl & l & -> & _).
    destruct fl; by eapply first_same, Hw.
Qed.

Lemma first_metadata x n s ts u e :
  (∀ t, t ∈ ts → pool_index n s t ≠ Some 0%nat) → keeps (first_node x n) (sn_update_seat_metadata_lua s ts u e).
Proof.
  intros Hts. unfold sn_update_seat_metadata_lua. apply keeps_bind; [by intros w|]. intros now.
  apply keeps_for_fold. intros ok t Ht. specialize (Hts t Ht).
  intros w Hw. unfold mbind, St_bind, pool_for_seat. rewrite (proj2 Hw).
  destruct (pool_index n s t) as [i|]; [|exact Hw].
  destruct (pool_get_cases i w) as (b & l & -> & _). destruct b; [|by eapply first_same, Hw].
  set (w1 := World _ _ l _). assert (first_node x n w1) as Hw1 by (by eapply first_same, Hw). clearbody w1.
  unfold node_cmd. destruct (draw_eq w1) as (fl & l1 & -> & _). simpl.
  assert (∀ d lg fl' now', first_node x n (World (<[i:=d]> (w_nodes w1)) now' fl' lg)) as Hi.
  { intros d lg fl' now'. destruct Hw1 as [H1 H2]. split; simpl; [|by rewrite length_insert].
    rewrite list_lookup_insert_ne by congruence. done. }
  destruct (w_nodes w1 !! i) as [d|]; [|by eapply first_same, Hw1].
  destruct fl; simpl; try (destruct (metadata_pipe _ _ _ _ _ d _) as [? [[]|]]); simpl; try apply Hi; by eapply first_same, Hw1.
Qed.

(** A lock taken through the queue does not show.  The metadata of a seat goes to
    the one server that keeps its lock; the bitmap and the delayed queue are read from
    the first server.  When the seats of a lock message are kept elsewhere, the handler
    leaves the first server as it was, on any network: the seats do not appear as locked
    to the readers of the bitmap, and no sweeper will find their entries. *)
Theorem lock_message_leaves_first_node m (w : world D) :
  m_action m ≠ "unlock"%string →
  (∀ t, t ∈ m_seat_ids m → pool_index (length (w_nodes w)) (m_showtime_id m) t ≠ Some 0%nat) →
  w_nodes (process_lock_request m w).2 !! 0%nat = w_nodes w !! 0%nat.
Proof.
  intros Ha Hts. set (n := length (w_nodes w)) in *. set (x := w_nodes w !! 0%nat).
  assert (keeps (first_node x n) (process_lock_request m)) as Hk; [|by apply Hk].
  unfold process_lock_request. rewrite bool_decide_eq_false_2 by done.
  apply keeps_bind.
  - generalize retry_sleeps. intros l. induction l as [|ms l IH]; simpl; [apply keeps_ret|].
    apply keeps_bind; [by apply first_metadata|]. intros b. apply keeps_if; [apply keeps_ret|].
    apply keeps_bind; [by intros w'|]. by intros ?.
  - intros b. apply keeps_bind; [|intros ?; apply first_publish_ev].
    apply keeps_when, keeps_for_each. intros t _. apply first_publish_ev.
Qed.
End seats.

(** ** The leader of the sweepers *)

Section leader.
Context {D : Type} `{!RedisServer D} `{!RedisLaws D}.

(** The leader lock as a function of the first server. *)
Lemma leader_lock_ok id ns now lg d :
  ns !! 0%nat = Some d →
  acquire_updater_leader_lock id (World ns now [] lg) =
    match r_get d now leader_key with
    | None => (true, World (<[0%nat:=r_set_px d now leader_key id 2000]> ns) now [] lg)
    | Some owner =>
        if bool_decide (owner = id)
        then (true, World (<[0%nat:=r_pexpire d now leader_key 2000]> ns) now [] lg)
        else (false, World ns now [] lg)
    end.
Proof.
  intros Hd. assert (r_px_ok 2000 = true) as Hpx by (apply px_ok_range; lia).
  unfold acquire_updater_leader_lock, mbind, St_bind. rewrite pool_get_ok. simpl.
  rewrite (node_cmd_ok _ _ _ _ _ d Hd). unfold cmd_set_nx_px. rewrite Hpx.
  destruct (r_get d now leader_key) as [owner|] eqn:Hg; simpl; [|done].
  rewrite (list_insert_id ns 0 d) by done. rewrite (node_cmd_ok _ _ _ _ _ d Hd). unfold cmd_get. simpl. rewrite Hg.
  rewrite (list_insert_id ns 0 d) by done. simpl. destruct (decide (owner = id)) as [->|Hne].
  - rewrite bool_decide_eq_false_2 by (intros H; by apply H). rewrite bool_decide_eq_true_2 by done.
    unfold mbind, St_bind. rewrite (node_cmd_ok _ _ _ _ _ d Hd). unfold cmd_pexpire. by rewrite Hpx.
  - rewrite bool_decide_eq_true_2 by congruence. by rewrite bool_decide_eq_false_2.
Qed.

(** One leader at a time.  On a faultless network, when an instance has been told
    that it leads, every other instance that asks during the next two seconds is told
    that it does not. *)
Theorem one_updater_leader a b ms (w : world D) :
  w_faults w = [] → is_Some (w_nodes w !! 0%nat) →
  (acquire_updater_leader_lock a w).1 = true → b ≠ a → Z.of_N ms < 2000 →
  (acquire_updater_leader_lock b (advance ms (acquire_updater_leader_lock a w).2).2).1 = false.
Proof.
  destruct w as [ns now fl lg]. simpl. intros -> [d Hd] Ha Hb Hms.
  assert (∀ d' lg', (∀ τ, now ≤ τ → τ < now + 2000 → r_get d' τ leader_key = Some a) →
    (acquire_updater_leader_lock b (advance ms (World (<[0%nat:=d']> ns) now [] lg')).2).1 = false) as Hlead.
  { intros d' lg' H. unfold advance. simpl. rewrite (leader_lock_ok b _ _ _ d').
    - rewrite H by lia. by rewrite bool_decide_eq_false_2 by congruence.
    - apply list_lookup_insert_eq. by eapply lookup_lt_Some. }
  revert Ha. rewrite (leader_lock_ok a ns now lg d Hd). destruct (r_get d now leader_key) as [owner|] eqn:Hg.
  - case_bool_decide as Ho; [|done]. intros _. apply Hlead. intros τ H1 H2.
    rewrite get_pexpire, decide_True by done. rewrite (proj2 (Z.ltb_lt _ _)) by lia. congruence.
  - intros _. apply Hlead. intros τ H1 H2. rewrite get_set_px, decide_True by done. by rewrite (proj2 (Z.ltb_lt _ _)) by lia.
Qed.
End leader.

(** ** Concrete runs *)

(** Schedule 7 has a ticket for seat 9; seat 3 is available. *)
Definition ticketed (tickets : list ticket_row) : db :=
  Db [SeatRow 3 7 Available "100" some_place; SeatRow 9 7 Booked "100" some_place] [] tickets [] [] [] ∅ ∅ [] 1 1 ∅ 1 1 1.
Definition swept_site (tickets : list ticket_row) : site mem_redis := Site (ticketed tickets) taken_over (λ k, Z.of_nat k) 0.

Lemma any_ticket_books_expired_seat_witness :
  booked_seats 7 3 (ticketed [TicketRow 1 1 1 7 [9] "t.pdf" "active"]) = 0 ∧
  Forall (λ d, seat_bits d 66000 7 3 = 2)
    (w_nodes (s_world (sweep_entry (queue_member 3 7 1) (swept_site [TicketRow 1 1 1 7 [9] "t.pdf" "active"])).2)).
Proof.
  split; [reflexivity|].
  assert (parse_queue_entry (queue_member 3 7 1) = Some (QueueEntry 3 7 1)) as He by (vm_compute; reflexivity).
  assert (0 < active_tickets 7 (ticketed [TicketRow 1 1 1 7 [9] "t.pdf" "active"])) as Ha by (vm_compute; reflexivity).
  pose proof (any_ticket_books_expired_seat 2 _ 66000 (swept_site [TicketRow 1 1 1 7 [9] "t.pdf" "active"]) 7 3 1
    (queue_member 3 7 1) taken_over_sees eq_refl He eq_refl Ha) as H.
  exact H.
Defined.

Lemma stale_sweep_announces_locked_seat_witness :
  let w' := s_world (sweep_entry (queue_member 3 7 1) (swept_site [])).2 in
  Forall (λ d, seat_bits d 66000 7 3 = 0) (w_nodes w') ∧
  w_log w' = [(room_channel 7, event_json (SeatUnlocked 1 7 3))].
Proof.
  assert (parse_queue_entry (queue_member 3 7 1) = Some (QueueEntry 3 7 1)) as He by (vm_compute; reflexivity).
  assert (live (<[(7, 3):=(2, 126000)]> ∅) (7, 3) 66000 = Some 2) as Ho by (vm_compute; reflexivity).
  destruct (stale_sweep_announces_locked_seat 2 _ 66000 (swept_site []) 7 3 1 2 (queue_member 3 7 1)
    taken_over_sees eq_refl He eq_refl eq_refl Ho) as (_ & H1 & H2); [congruence|].
  split; [exact H1|exact H2].
Defined.

(** With two servers the lock of seat 1 of show 7 is kept by the second. *)
Lemma lock_message_leaves_first_node_witness :
  pool_index 2 7 1 = Some 1%nat ∧
  w_nodes (process_lock_request (SeatLockMessage "lock" 5 7 [1] 0) (mem_world 2 1000)).2 !! 0%nat = Some mem_empty.
Proof.
  split; [vm_compute; reflexivity|].
  refine (lock_message_leaves_first_node (SeatLockMessage "lock" 5 7 [1] 0) (mem_world 2 1000) _ _).
  - discriminate.
  - intros t [->|[]%not_elem_of_nil]%elem_of_cons. vm_compute. discriminate.
Defined.

Lemma one_updater_leader_witness :
  (acquire_updater_leader_lock "b" (advance 1999 (acquire_updater_leader_lock "a" (mem_world 1 1000)).2).2).1 = false.
Proof.
  apply (one_updater_leader "a" "b" 1999 (mem_world 1 1000)); [reflexivity|by eexists|vm_compute; reflexivity|discriminate|reflexivity].
Defined.
