(* ===== verification/Payments.v ===== *)
(** * Payments: the worker that commits bookings and cancellations
    ([apps/payment-processor/src/consumer.rs], [repository.rs], [payment.rs])

    [process_message] is the handling of one delivery; its result is the answer to the
    broker.  UUID texts, the conversion of an amount to paise and the trace carrier are
    library code: the fields of [PaymentLibs]. *)

From S2P Require Import Prelude Text Keys Redis SeatLock Events Db.

Class PaymentLibs := {
  uuid_parse : string → option Z;           (* Uuid::from_str *)
  uuid_text : Z → string;                   (* Uuid::to_string *)
  paise_of : string → Z;                    (* BigDecimal and f64 *)
  trace_carrier : json                      (* bookit_telemetry::current_carrier() *)
}.

Record checkout_commit := CheckoutCommit {
  cc_order_id : Z; cc_payment_request_id : Z; cc_user_id : Z; cc_schedule_id : Z; cc_seat_ids : list Z;
  cc_total_amount : string; cc_razorpay_order_id : string; cc_razorpay_payment_id : option string
}.
Record cancellation_commit := CancellationCommit {
  ca_order_id : Z; ca_user_id : Z; ca_schedule_id : Z; ca_seat_ids : list Z; ca_amount : string
}.

Definition seat_list (l : list Z) : json := JArr (map JNum l).

Section repository.
Context {HP : PaymentLibs}.

(** *** Transactions *)

Definition order_payload (order_id user_id schedule_id : Z) (seat_ids : list Z) (amount : string) : json :=
  JObj [("_trace_context", trace_carrier); ("order_id", JStr (uuid_text order_id)); ("user_id", JNum user_id);
        ("schedule_id", JNum schedule_id); ("seat_ids", seat_list seat_ids); ("amount", JStr amount)]%string.

(** A fresh row of the outbox. *)
Definition new_outbox_event (id aggregate_id : Z) (event_type : string) (payload : json) (now : Z) : outbox_row :=
  OutboxRow id aggregate_id event_type payload now None 0 None now None None.

Definition update_seats (seat_ids : list Z) (st : seat_status) : db → db :=
  with_seats (update_where (λ r, bool_decide (ss_id r ∈ seat_ids)) (set_seat_status st)).

Definition checkout_tx (c : checkout_commit) (audit_id event_id now : Z) (d : db) : option db :=
  let d := update_seats (cc_seat_ids c) Booked d in
  d ← insert_order (OrderRow (cc_order_id c) (cc_payment_request_id c) (cc_user_id c) (cc_schedule_id c)
         (cc_seat_ids c) (cc_total_amount c) (cc_razorpay_order_id c) (cc_razorpay_payment_id c) "completed") d;
  let d := with_payments (update_where (λ p, pr_id p =? cc_payment_request_id c) (set_payment PsSucceeded None)) d in
  d ← insert_audit (AuditRow audit_id (cc_user_id c) "order_completed" (cc_order_id c) (cc_total_amount c) (JObj [("seat_ids", seat_list (cc_seat_ids c))]%string)) d;
  insert_outbox (new_outbox_event event_id (cc_order_id c) "OrderCompleted"
    (order_payload (cc_order_id c) (cc_user_id c) (cc_schedule_id c) (cc_seat_ids c) (cc_total_amount c)) now) d.

Definition cancellation_tx (c : cancellation_commit) (audit_id event_id now : Z) (d : db) : option db :=
  let d := update_seats (ca_seat_ids c) Available d in
  let d := with_orders (update_where (λ o, od_id o =? ca_order_id c) (set_order_status "refunded")) d in
  let d := with_tickets (update_where (λ k, tk_order_id k =? ca_order_id c) (set_ticket_status "cancelled")) d in
  d ← insert_audit (AuditRow audit_id (ca_user_id c) "ticket_cancelled" (ca_order_id c) (ca_amount c) (JObj [("seat_ids", seat_list (ca_seat_ids c))]%string)) d;
  insert_outbox (new_outbox_event event_id (ca_order_id c) "TicketCancelled"
    (order_payload (ca_order_id c) (ca_user_id c) (ca_schedule_id c) (ca_seat_ids c) (ca_amount c)) now) d.
End repository.

(** ** The consumer *)

Inductive answer := AckMessage | NackMessage.      (* a nack does not requeue: the message goes to the dead letters *)

(** [pp_refunds]: the refunds asked of Razorpay, oldest first. *)
Record processor (D : Type) := Processor { pp_site : site D; pp_refunds : list (string * Z) }.
Arguments Processor {D}. Arguments pp_site {D}. Arguments pp_refunds {D}.

Definition parse_seat_ids (payload : json) : list Z :=
  match as_array (jindex "seat_ids" payload) with
  | Some arr => omap (λ v, i32 <$> as_i64 v) arr
  | None =>
      match as_i64 (jindex "seat_id" payload) with
      | Some id => [i32 id]
      | None => []
      end
  end.

Section consumer.
Context {D : Type} `{!RedisServer D} {HS : SeatLock D} {HJ : JsonText} {HP : PaymentLibs}.
Abbreviation S := (St (site D)).
Abbreviation P := (St (processor D)).

Definition at_site {A} (m : S A) : P A := zoom pp_site (λ s p, Processor s (pp_refunds p)) m.
Definition redis_op {A} (m : St (world D) A) : P A := at_site (redis_of m).

(** *** Repository *)

Definition order_exists (payment_request_id : Z) : S bool :=
  conn ← db_get;
  if negb conn then mret false
  else
    found ← db_query (λ d, existsb (λ o, od_payment_request_id o =? payment_request_id) (d_orders d));
    mret (default false found).

(** [QueryResult<()>]: whether the caller sees [Ok].  The two identifiers and the time the
    transaction writes are drawn here, before its first statement. *)
Definition commit (tx : Z → Z → Z → db → option db) : S bool :=
  conn ← db_get;
  if negb conn then mret false
  else
    audit_id ← new_v4;
    event_id ← new_v4;
    now ← redis_of now_ms;
    r ← db_run (λ d, d' ← tx audit_id event_id now d; Some (tt, d'));
    mret (bool_decide (r = Some tt)).

Definition commit_checkout (c : checkout_commit) : S bool := commit (checkout_tx c).
Definition commit_cancellation (c : cancellation_commit) : S bool := commit (cancellation_tx c).

(** *** Redis *)

Definition adjust_script (key : string) (delta : Z) (d : D) (t : Z) : D * option (option Z) :=
  match r_get d t key with
  | None => (d, Some None)
  | Some _ => let '(d', r) := r_incrby d t key delta in (d', Some <$> r)
  end.

Definition adjust_cached_available_seats (schedule_id delta : Z) : P unit :=
  cli ← redis_op (pool_get 0);
  when cli (redis_op (node_cmd 0 (adjust_script (cache_schedule_available_seats_key schedule_id) delta)) ;; mret tt).

Definition broadcast (schedule_id : Z) (event : string) (seat_ids : list Z) (user_id : Z) : P unit :=
  cli ← redis_op (pool_get 0);
  when cli (redis_op (publish (room_channel schedule_id)
    (JObj [("event", JStr event); ("seat_ids", seat_list seat_ids); ("user_id", JNum user_id)]%string))).

Definition clear_checkout_keys (schedule_id : Z) (seat_ids : list Z) : P unit :=
  cli ← redis_op (pool_get 0);
  when cli (for_each seat_ids (λ t, redis_op (node_cmd 0 (cmd_del (seat_checkout_key schedule_id t))) ;; mret tt)).

(** *** Razorpay

    [mock]: the test mode of the environment, which refunds nothing and succeeds. *)
Definition process_razorpay_refund (mock : bool) (payment_id : string) (amount_paise : Z) : P bool :=
  if mock then mret true
  else
    fl ← redis_op draw;
    when (bool_decide (fl ≠ FDown))
      (st_modify (λ p, Processor (pp_site p) (pp_refunds p ++ [(payment_id, amount_paise)]))) ;;
    mret (bool_decide (fl = FOk)).

(** *** Cancellations *)

Definition process_cancellation (mock : bool) (payload : json) : P answer :=
  let order_id_str := default EmptyString (as_str (jindex "order_id" payload)) in
  let user_id := i32 (default 0 (as_i64 (jindex "user_id" payload))) in
  let schedule_id := i32 (default 0 (as_i64 (jindex "schedule_id" payload))) in
  let seat_ids := parse_seat_ids payload in
  let razorpay_payment_id := as_str (jindex "razorpay_payment_id" payload) in
  let amount := default "0"%string (as_str (jindex "amount" payload)) in
  match uuid_parse order_id_str with
  | None => mret NackMessage
  | Some order_id =>
      refunded ← (match razorpay_payment_id with
                  | Some payment_id => process_razorpay_refund mock payment_id (paise_of amount)
                  | None => mret true
                  end);
      if negb refunded then mret NackMessage
      else
        ok ← at_site (commit_cancellation (CancellationCommit order_id user_id schedule_id seat_ids amount));
        if (ok : bool) then
          adjust_cached_available_seats schedule_id (Z.of_nat (length seat_ids)) ;;
          broadcast schedule_id "seat_unlocked" seat_ids user_id ;;
          mret AckMessage
        else mret NackMessage
  end.

(** *** Checkouts *)

(** The dual-key check of the seats: the reason of the first failure. *)
Fixpoint lock_failure (schedule_id user_id : Z) (seat_ids : list Z) : P (option string) :=
  match seat_ids with
  | [] => mret None
  | seat_id :: seat_ids =>
      owner ← redis_op (get_lock_owner schedule_id seat_id);
      match owner with
      | None => mret (Some ("seat lock not found for seat " +:+ show_Z seat_id +:+ " (user " +:+ show_Z user_id +:+ ")")%string)
      | Some actual_owner =>
          if bool_decide (actual_owner ≠ user_id)
          then mret (Some ("seat " +:+ show_Z seat_id +:+ " is locked by user " +:+ show_Z actual_owner
                           +:+ " not user " +:+ show_Z user_id)%string)
          else
            ctx_ok ← redis_op (user_holds_lock schedule_id seat_id user_id);
            if negb ctx_ok
            then mret (Some ("user context lock not found for seat " +:+ show_Z seat_id +:+ " (user " +:+ show_Z user_id +:+ ")")%string)
            else lock_failure schedule_id user_id seat_ids
      end
  end.

(** [UPDATE payment_requests .. 'failed' .. WHERE status <> 'succeeded']. *)
Definition fail_payment (payment_request_id : Z) (reason : string) : P unit :=
  conn ← at_site db_get;
  when conn
    (at_site (db_run (λ d, Some (tt, with_payments
       (update_where (λ p, (pr_id p =? payment_request_id) && bool_decide (pr_status p ≠ PsSucceeded))
          (set_payment PsFailed (Some reason))) d))) ;; mret tt).

Definition book_seats (schedule_id user_id : Z) (seat_ids : list Z) : P unit :=
  for_each seat_ids (λ t,
    redis_op (release_lock schedule_id t user_id) ;;
    redis_op (set_schedule_seat_bitmap_state_cluster (schedule_seat_bitmap schedule_id) t 2)).

Definition process_checkout (payload : json) : P answer :=
  let user_id := i32 (default 0 (as_i64 (jindex "user_id" payload))) in
  let schedule_id := i32 (default 0 (match as_i64 (jindex "schedule_id" payload) with
                                     | Some s => Some s
                                     | None => as_i64 (jindex "showtime_id" payload)
                                     end)) in
  let seat_ids := parse_seat_ids payload in
  let total_amount := default "0"%string (as_str (jindex "amount" payload)) in
  let razorpay_order_id := default EmptyString (as_str (jindex "razorpay_order_id" payload)) in
  let razorpay_payment_id := as_str (jindex "razorpay_payment_id" payload) in
  match as_str (jindex "payment_request_id" payload) ≫= uuid_parse with
  | None => mret NackMessage
  | Some payment_request_id =>
      done_ ← at_site (order_exists payment_request_id);
      if (done_ : bool) then mret AckMessage
      else if bool_decide (seat_ids = []) then mret NackMessage
      else
        failure ← lock_failure schedule_id user_id seat_ids;
        match failure with
        | Some reason =>
            fail_payment payment_request_id reason ;;
            clear_checkout_keys schedule_id seat_ids ;;
            mret NackMessage
        | None =>
            order_id ← at_site new_v4;
            ok ← at_site (commit_checkout (CheckoutCommit order_id payment_request_id user_id schedule_id
                   seat_ids total_amount razorpay_order_id razorpay_payment_id));
            answer ← (if (ok : bool) then
                adjust_cached_available_seats schedule_id (- Z.of_nat (length seat_ids)) ;;
                book_seats schedule_id user_id seat_ids ;;
                broadcast schedule_id "seat_booked" seat_ids user_id ;;
                mret AckMessage
              else mret NackMessage);
            clear_checkout_keys schedule_id seat_ids ;;
            mret answer
        end
  end.

Definition process_message (mock : bool) (data : string) : P answer :=
  match json_parse data with
  | None => mret NackMessage
  | Some payload =>
      let request_type := default "checkout"%string (as_str (jindex "request_type" payload)) in
      if bool_decide (request_type = "cancellation"%string) then process_cancellation mock payload
      else process_checkout payload
  end.
End consumer.
