(* ===== verification/PaymentsProps.v ===== *)
(** * PaymentsProps: bookings are made once, and by whom *)

From S2P Require Import Prelude Text Keys Redis RedisMem SeatLock SingleNodeLock LeaseTable HoldCheck Events Db Payments.

(** ** The books *)

Section books.

(** The aggregates of the outbox events of a type, in order. *)
Definition events_of (event_type : string) (d : db) : list Z :=
  omap (λ e, if bool_decide (oe_event_type e = event_type) then Some (oe_aggregate_id e) else None) (d_outbox d).
Definition completed_events (d : db) : list Z := events_of "OrderCompleted" d.
Definition completed_audits (d : db) : list Z :=
  omap (λ a, if bool_decide (ua_action a = "order_completed"%string) then Some (ua_order_id a) else None) (d_audits d).

(** One order per payment, announced once and audited once, and paid. *)
Record books_ok (d : db) : Prop := {
  one_order : NoDup (od_payment_request_id <$> d_orders d);
  announced_once : completed_events d = od_id <$> d_orders d;
  audited_once : completed_audits d = od_id <$> d_orders d;
  paid o p : o ∈ d_orders d → p ∈ d_payments d → pr_id p = od_payment_request_id o → pr_status p = PsSucceeded
}.

Lemma update_where_fmap {R A} (p : R → bool) (f : R → R) (g : R → A) l :
  (∀ r, g (f r) = g r) → g <$> update_where p f l = g <$> l.
Proof.
  intros Hg. unfold update_where. change (g <$> ((λ r, if p r then f r else r) <$> l) = g <$> l).
  rewrite <-list_fmap_compose. apply list_fmap_ext. intros i r _. simpl. by destruct (p r).
Qed.

Lemma elem_of_update_where {R} (p : R → bool) (f : R → R) r l :
  r ∈ update_where p f l → ∃ r0, r0 ∈ l ∧ r = (if p r0 then f r0 else r0).
Proof. unfold update_where. intros (r0 & -> & H)%list_elem_of_fmap. by exists r0. Qed.

(** What changes of the books when seats, order states, tickets or payments do. *)
Lemma books_same d d' :
  od_payment_request_id <$> d_orders d' = od_payment_request_id <$> d_orders d →
  od_id <$> d_orders d' = od_id <$> d_orders d →
  completed_events d' = completed_events d → completed_audits d' = completed_audits d →
  (∀ p, p ∈ d_payments d' → ∃ p0, p0 ∈ d_payments d ∧ pr_id p = pr_id p0 ∧ (pr_status p0 = PsSucceeded → pr_status p = PsSucceeded)) →
  books_ok d → books_ok d'.
Proof.
  intros Hp Hi He Ha Hpay [H1 H2 H3 H4]. split; [congruence..|].
  intros o p Ho Hpp Hid. destruct (Hpay p Hpp) as (p0 & Hp0 & Heq & Hs). apply Hs.
  assert (od_payment_request_id o ∈ od_payment_request_id <$> d_orders d) as Hin.
  { rewrite <-Hp. by apply list_elem_of_fmap_2. }
  apply list_elem_of_fmap in Hin as (o0 & Ho0 & Hin). apply (H4 o0 p0); [done..|congruence].
Qed.

Context {HP : PaymentLibs}.

Lemma books_update_seats l st d : books_ok d → books_ok (update_seats l st d).
Proof. apply books_same; try done. intros p Hp. by exists p. Qed.

Lemma books_fail_payment k reason d :
  books_ok d →
  books_ok (with_payments (update_where (λ p, (pr_id p =? k) && bool_decide (pr_status p ≠ PsSucceeded))
    (set_payment PsFailed (Some reason))) d).
Proof.
  apply books_same; try done. intros p (p0 & Hp0 & ->)%elem_of_update_where. exists p0. split; [done|].
  destruct (pr_id p0 =? k); simpl; [|done]. case_bool_decide; simpl; done.
Qed.

Lemma insert_audit_some r d d' : insert_audit r d = Some d' → d' = with_audits (λ l, l ++ [r]) d.
Proof. unfold insert_audit. destruct (_ || _); congruence. Qed.
Lemma insert_outbox_some r d d' : insert_outbox r d = Some d' → d' = with_outbox (λ l, l ++ [r]) d.
Proof. unfold insert_outbox. destruct (existsb _ _); congruence. Qed.
Lemma insert_order_some r d d' : insert_order r d = Some d' →
  d' = with_orders (λ l, l ++ [r]) d ∧ od_payment_request_id r ∉ od_payment_request_id <$> d_orders d.
Proof.
  unfold insert_order. destruct (existsb _ (d_orders d)) eqn:E; simpl; [done|].
  destruct (_ || _); [done|]. intros [= <-]. split; [done|].
  intros (o & Ho & Hin)%list_elem_of_fmap. apply not_true_iff_false in E. apply E. apply existsb_exists.
  exists o. split; [by apply list_elem_of_In|]. rewrite Ho, Z.eqb_refl. apply orb_true_r.
Qed.

Lemma books_checkout c a e now d d' : books_ok d → checkout_tx c a e now d = Some d' → books_ok d'.
Proof.
  intros [H1 H2 H3 H4]. unfold checkout_tx.
  destruct (insert_order _ _) as [d1|] eqn:E1; [|done]. apply insert_order_some in E1 as [-> Hnew]. simpl.
  destruct (insert_audit _ _) as [d2|] eqn:E2; [|done]. apply insert_audit_some in E2 as ->. simpl.
  intros ->%insert_outbox_some. unfold completed_events, events_of, completed_audits in *. simpl in *.
  split; unfold completed_events, events_of, completed_audits; cbn [d_orders d_outbox d_audits d_payments with_seats with_orders with_payments with_audits with_outbox update_seats];
    rewrite ?fmap_app, ?omap_app, ?H2, ?H3; try reflexivity.
  - apply NoDup_app. split; [done|]. split; [|apply NoDup_singleton].
    intros x Hx Hs%list_elem_of_singleton. by subst x.
  - intros o p Ho (p0 & Hp0 & ->)%elem_of_update_where Hid.
    destruct (pr_id p0 =? cc_payment_request_id c) eqn:E; [done|].
    apply elem_of_app in Ho as [Ho|Ho%list_elem_of_singleton]; [by apply (H4 o)|].
    subst o. apply Z.eqb_neq in E. done.
Qed.

Lemma books_cancellation c a e now d d' : books_ok d → cancellation_tx c a e now d = Some d' → books_ok d'.
Proof.
  intros Hd. unfold cancellation_tx.
  destruct (insert_audit _ _) as [d1|] eqn:E; [|done]. apply insert_audit_some in E as ->. simpl.
  intros ->%insert_outbox_some. revert Hd.
  apply books_same; simpl; try (by apply update_where_fmap); try (intros p Hp; by exists p).
  - unfold completed_events, events_of. simpl. by rewrite omap_app, app_nil_r.
  - unfold completed_audits. simpl. by rewrite omap_app, app_nil_r.
Qed.

Context {D : Type} `{!RedisServer D} {HS : SeatLock D} {HJ : JsonText}.

Lemma keeps_commit (P : db → Prop) tx :
  (∀ a e now d d', P d → tx a e now d = Some d' → P d') → keeps (on_db (D:=D) P) (commit tx).
Proof.
  intros Htx. unfold commit. keeps_tac. apply keeps_db_run. intros d r d' Hd.
  destruct (tx _ _ _ d) as [d1|] eqn:E; [|done]. intros [= _ <-]. by eapply Htx.
Qed.

(** An assertion about the database of a processor. *)
Definition with_books (P : db → Prop) (p : processor D) : Prop := on_db P (pp_site p).

Lemma keeps_at_site {A} P (m : St (site D) A) : keeps (on_db P) m → keeps (with_books P) (at_site m).
Proof.
  intros Hm p Hp. specialize (Hm (pp_site p) Hp). unfold at_site, zoom. by destruct (m (pp_site p)).
Qed.
Lemma keeps_redis_op {A} P (m : St (world D) A) : keeps (with_books P) (redis_op m).
Proof. apply keeps_at_site, keeps_redis_of. Qed.
Hint Resolve keeps_redis_op : keeps.

Lemma keeps_lock_failure P s u l : keeps (with_books P) (lock_failure s u l).
Proof. induction l as [|t l IH]; simpl; keeps_tac. Qed.

Lemma keeps_order_exists P k : keeps (with_books P) (at_site (D:=D) (order_exists k)).
Proof. apply keeps_at_site. unfold order_exists. keeps_tac. Qed.
Hint Resolve keeps_lock_failure keeps_order_exists : keeps.

Lemma keeps_new_order P : keeps (with_books P) (at_site (D:=D) new_v4).
Proof. apply keeps_at_site, keeps_new_v4. Qed.
Lemma keeps_refund P mock k n : keeps (with_books P) (process_razorpay_refund (D:=D) mock k n).
Proof. unfold process_razorpay_refund. keeps_tac. by intros p. Qed.


End books.

#[export] Hint Resolve keeps_redis_op keeps_lock_failure keeps_order_exists keeps_new_order keeps_refund : keeps.

(** ** Concrete runs *)

(** Identifiers written as numbers, whole rupees. *)
#[export] Instance number_libs : PaymentLibs := {
  uuid_parse := parse_Z;
  uuid_text := show_Z;
  paise_of s := default 0 (parse_Z s) * 100;
  trace_carrier := JNull
}.

(** User 1 asks for seat 3 of schedule 7 with payment request 50. *)
Definition checkout_message : json :=
  JObj [("user_id", JNum 1); ("schedule_id", JNum 7); ("seat_ids", seat_list [3]); ("amount", JStr "200");
        ("razorpay_order_id", JStr "order_9"); ("razorpay_payment_id", JStr "pay_9");
        ("payment_request_id", JStr "50")]%string.

Definition shop_db : db :=
  Db [SeatRow 3 7 Available "100" some_place; SeatRow 9 7 Available "100" some_place] [] [] [PaymentRow 50 "k" 1 7 [3] PsPending None] [] [] some_users {[7 := some_schedule 7]} [] 1 1 ∅ 1 1 1.

Definition shop_processor (w : world mem_redis) : processor mem_redis :=
  Processor (Site shop_db w (λ n, 1000 + Z.of_nat n) 0) [].

Definition locked_by_script : world mem_redis :=
  (run_ops (HS:=single_node_lock) [OpAcquireLua 7 3 1 300] (mem_world 2 5000)).2.

#[local] Existing Instance single_node_lock.

(** * When the payment worker books, and what it answers *)

Section answers.
Context {D : Type} `{!RedisServer D} {HS : SeatLock D} {HJ : JsonText} {HP : PaymentLibs}.
Implicit Types (p : processor D).

Definition request_type (j : json) : string := default "checkout"%string (as_str (jindex "request_type" j)).
Definition payment_of (j : json) : option Z := as_str (jindex "payment_request_id" j) ≫= uuid_parse.

(** The payment request has an order. *)
Definition ordered (k : Z) (d : db) : Prop := k ∈ od_payment_request_id <$> d_orders d.
Definition no_faults (p : processor D) : Prop := w_faults (s_world (pp_site p)) = [].

Lemma existsb_ordered k d : existsb (λ o, od_payment_request_id o =? k) (d_orders d) = true ↔ ordered k d.
Proof.
  unfold ordered. rewrite existsb_exists, list_elem_of_fmap. split.
  - intros (o & Ho & He%Z.eqb_eq). exists o. split; [done|by apply list_elem_of_In].
  - intros (o & -> & Ho). exists o. split; [by apply list_elem_of_In|apply Z.eqb_refl].
Qed.

Lemma hoare_at_site {A} (P : site D → Prop) (Q : A → site D → Prop) m :
  hoare P m Q → hoare (λ p, P (pp_site p)) (at_site m) (λ a p, Q a (pp_site p)).
Proof.
  intros Hm p Hp. specialize (Hm (pp_site p) Hp). unfold at_site, zoom. by destruct (m (pp_site p)).
Qed.

Lemma hoare_db_get : hoare (λ _ : site D, True) db_get (λ _ _, True).
Proof. by intros s _. Qed.

Lemma hoare_order_exists k :
  hoare (λ _ : site D, True) (order_exists k) (λ b s, b = true → on_db (ordered k) s).
Proof.
  unfold order_exists. eapply hoare_bind; [apply hoare_db_get|]. intros [].
  - simpl. eapply (hoare_bind _ (λ b s, b = Some true → on_db (ordered k) s)).
    + intros s _. unfold db_query, db_run. destruct (redis_of draw s) as [fl s1]. simpl.
      destruct fl; simpl; try done. intros [= He]. by apply existsb_ordered.
    + intros b s Hs. simpl. intros Hb. apply Hs. destruct b; simpl in *; congruence.
  - intros s _. done.
Qed.

Lemma checkout_tx_ordered c a e now d d' :
  checkout_tx c a e now d = Some d' → ordered (cc_payment_request_id c) d'.
Proof.
  unfold checkout_tx. destruct (insert_order _ _) as [d1|] eqn:E1; [|done].
  apply insert_order_some in E1 as [-> _]. simpl.
  destruct (insert_audit _ _) as [d2|] eqn:E2; [|done]. apply insert_audit_some in E2 as ->. simpl.
  intros ->%insert_outbox_some. unfold ordered. simpl. rewrite fmap_app. apply elem_of_app. right. by left.
Qed.

Lemma hoare_commit tx (Q : db → Prop) :
  (∀ a e now d d', tx a e now d = Some d' → Q d') →
  hoare (λ _ : site D, True) (commit tx) (λ b s, b = true → on_db Q s).
Proof.
  intros Htx. unfold commit. eapply hoare_bind; [apply hoare_db_get|]. intros [].
  - simpl. eapply (hoare_bind _ (λ _ _, True)); [by intros s _|]. intros a.
    eapply (hoare_bind _ (λ _ _, True)); [by intros s _|]. intros e.
    eapply (hoare_bind _ (λ _ _, True)); [by intros s _|]. intros now.
    eapply (hoare_bind _ (λ r s, r = Some tt → on_db Q s)).
    + intros s _. unfold db_run. destruct (redis_of draw s) as [fl s1].
      destruct (tx a e now (s_db s1)) as [d'|] eqn:E; simpl; destruct fl; simpl; try done.
      intros _. unfold on_db. simpl. by eapply Htx.
    + intros r. apply hoare_ret. intros s Hs Hb. apply Hs. by apply bool_decide_eq_true in Hb.
  - by intros s _.
Qed.

(** Orders are never withdrawn. *)
Lemma ordered_checkout k c a e now d d' : ordered k d → checkout_tx c a e now d = Some d' → ordered k d'.
Proof.
  unfold checkout_tx. intros Hk. destruct (insert_order _ _) as [d1|] eqn:E1; [|done].
  apply insert_order_some in E1 as [-> _]. simpl.
  destruct (insert_audit _ _) as [d2|] eqn:E2; [|done]. apply insert_audit_some in E2 as ->. simpl.
  intros ->%insert_outbox_some. unfold ordered in *. simpl. rewrite fmap_app. apply elem_of_app. by left.
Qed.

Lemma keeps_adjust P s n : keeps (with_books P) (adjust_cached_available_seats (D:=D) s n).
Proof. unfold adjust_cached_available_seats. keeps_tac. Qed.
Lemma keeps_broadcast P s e l u : keeps (with_books P) (broadcast (D:=D) s e l u).
Proof. unfold broadcast. keeps_tac. Qed.
Lemma keeps_clear P s l : keeps (with_books P) (clear_checkout_keys (D:=D) s l).
Proof. unfold clear_checkout_keys. keeps_tac. Qed.
Lemma keeps_book_seats P s u l : keeps (with_books P) (book_seats (D:=D) s u l).
Proof. unfold book_seats. keeps_tac. Qed.
#[local] Hint Resolve keeps_adjust keeps_broadcast keeps_clear keeps_book_seats : keeps.

(** An acknowledged checkout has its order. *)
Lemma hoare_checkout_ack j :
  hoare (λ _ : processor D, True) (process_checkout j)
    (λ a p, a = AckMessage → ∃ k, payment_of j = Some k ∧ with_books (ordered k) p).
Proof.
  unfold process_checkout. change (as_str (jindex "payment_request_id" j) ≫= uuid_parse) with (payment_of j).
  destruct (payment_of j) as [k|]; [|by intros p _].
  eapply (hoare_bind _ (λ b p, b = true → with_books (ordered k) p)).
  { eapply hoare_conseq; [| |apply hoare_at_site, (hoare_order_exists k)]; by simpl. }
  intros [].
  { apply hoare_ret. intros p Hp _. exists k. auto. }
  case_bool_decide; [by intros p _|].
  eapply (hoare_bind _ (λ _ _, True)); [by intros p _|]. intros [reason|].
  { eapply (hoare_bind _ (λ _ _, True)); [by intros p _|]. intros ?.
    eapply (hoare_bind _ (λ _ _, True)); [by intros p _|]. by intros ? p _. }
  eapply (hoare_bind _ (λ _ _, True)); [by intros p _|]. intros o.
  eapply (hoare_bind _ (λ b p, b = true → with_books (ordered k) p)).
  { eapply hoare_conseq; [| |apply hoare_at_site, (hoare_commit _ (ordered k))]; try by simpl.
    intros ????? Htx. by apply checkout_tx_ordered in Htx. }
  intros b. eapply (hoare_bind _ (λ a p, a = AckMessage → with_books (ordered k) p)).
  - destruct b; [|by intros p _]. eapply hoare_conseq; [| |apply (keeps_bind (with_books (ordered k)))].
    + intros p Hp. by apply Hp.
    + intros a p Hp _. exact Hp.
    + apply keeps_adjust.
    + intros _. keeps_tac.
  - intros a p Hp. unfold mbind, St_bind, mret, St_ret.
    destruct a; [|by destruct (clear_checkout_keys _ _ p)].
    pose proof (keeps_clear (ordered k) (i32 (default 0 match as_i64 (jindex "schedule_id" j) with
      | Some s => Some s | None => as_i64 (jindex "showtime_id" j) end)) (parse_seat_ids j) p (Hp eq_refl)) as Hc.
    destruct (clear_checkout_keys _ _ p) as [? p1]. simpl in *. intros _. exists k. auto.
Qed.

Lemma order_exists_ok k (st : site D) : w_faults (s_world st) = [] → on_db (ordered k) st →
  order_exists k st = (true, st).
Proof.
  intros Hf Hk%existsb_ordered. unfold order_exists, mbind, St_bind. rewrite db_get_ok by done. simpl.
  rewrite db_query_ok by done. simpl. by rewrite Hk.
Qed.

(** A checkout is acknowledged only when it has its order, and once.  Whatever fails
    on the way, an acknowledged checkout names a payment request that has an order
    afterwards; and when nothing fails any more, its redelivery is acknowledged and
    changes nothing: no seat, no order, no event, no refund. *)
Theorem acknowledged_checkout_has_order mock data j p :
  json_parse data = Some j → request_type j ≠ "cancellation"%string →
  (process_message mock data p).1 = AckMessage →
  let p' := (process_message mock data p).2 in
  (∃ k, payment_of j = Some k ∧ ordered k (s_db (pp_site p'))) ∧
  (no_faults p' → process_message mock data p' = (AckMessage, p')).
Proof.
  intros Hj Ht. unfold process_message. rewrite Hj.
  change (default "checkout"%string (as_str (jindex "request_type" j))) with (request_type j).
  rewrite bool_decide_eq_false_2 by done. intros Ha. set (p' := (process_checkout j p).2).
  destruct (hoare_checkout_ack j p I Ha) as (k & Hk & Ho). fold p' in Ho.
  split; [by exists k|]. intros Hf. unfold process_checkout.
  change (as_str (jindex "payment_request_id" j) ≫= uuid_parse) with (payment_of j). rewrite Hk.
  unfold mbind at 1, St_bind at 1, at_site, zoom. rewrite order_exists_ok by done. simpl. by destruct p'.
Qed.
End answers.

(** ** A concrete run *)

#[local] Existing Instance single_node_lock.

Lemma acknowledged_checkout_has_order_witness :
  let p := shop_processor locked_by_script in
  let p' := (process_message true (json_print checkout_message) p).2 in
  (process_message true (json_print checkout_message) p).1 = AckMessage ∧
  process_message true (json_print checkout_message) p' = (AckMessage, p').
Proof.
  intros p p'. assert (Ha : (process_message true (json_print checkout_message) p).1 = AckMessage) by (vm_compute; reflexivity).
  split; [exact Ha|].
  assert (Hj : json_parse (json_print checkout_message) = Some checkout_message) by (vm_compute; reflexivity).
  assert (Ht : request_type checkout_message ≠ "cancellation"%string) by (vm_compute; congruence).
  assert (Hf : no_faults p') by (vm_compute; reflexivity).
  pose proof (acknowledged_checkout_has_order true (json_print checkout_message) checkout_message p Hj Ht Ha) as [_ H].
  exact (H Hf).
Defined.
