(* ===== verification/PaymentsSeats.v ===== *)
(** * PaymentsSeats: which seats the payment worker books and frees
    (over [SingleNodeLock]) *)

From S2P Require Import Prelude Text Keys Redis RedisMem SeatLock SingleNodeLock HoldCheck Events Db Payments PaymentsProps.

#[local] Existing Instance single_node_lock.

Section keys.
Context {D : Type} `{!RedisServer D} `{!RedisLaws D} {HJ : JsonText} {HP : PaymentLibs}.
Implicit Types (p : processor D).

(** The server of the seat holds the lock key of [u] and the context key of [u]. *)
Definition both_keys (s u t : Z) (ns : list D) (now : Z) : Prop :=
  ∃ i d, pool_index (length ns) s t = Some i ∧ ns !! i = Some d ∧
    r_get d now (seat_lock_key s t) ≫= parse_i32 = Some u ∧ is_Some (r_get d now (seat_user_context_key s t u)).

Definition world_is (ns : list D) (now : Z) (w : world D) : Prop := w_nodes w = ns ∧ w_now w = now.

Lemma hoare_read {R} i ns now (g : D → Z → option R) :
  hoare (world_is ns now) (node_cmd i (λ d t, (d, g d t)))
    (λ r w, world_is ns now w ∧ (is_Some r → ∃ d, ns !! i = Some d ∧ r = g d now)).
Proof.
  intros w [Hns Hnow]. destruct (w_nodes w !! i) as [d|] eqn:Hd.
  - destruct (node_cmd_cases i (λ d t, (d, g d t)) w d Hd) as (fl & l & _ & ->).
    destruct fl; simpl; rewrite ?(list_insert_id _ _ _ Hd);
      (split; [done|]; intros Hr; first [by destruct Hr|exists d; by subst]).
  - unfold node_cmd. destruct (draw_eq w) as (fl & l & -> & _). simpl. rewrite Hd. split; [done|]. by intros [].
Qed.

Lemma hoare_pool_get i ns now : hoare (world_is ns now) (pool_get (D:=D) i) (λ _, world_is ns now).
Proof. intros w Hw. by destruct (pool_get_cases i w) as (b & l & -> & _). Qed.

(** The owner a reader sees is the one the server of the seat has. *)
Lemma hoare_owner s t ns now :
  hoare (world_is ns now) (sn_get_lock_owner s t)
    (λ r w, world_is ns now w ∧ ∀ u, r = Some u → ∃ i d, pool_index (length ns) s t = Some i ∧ ns !! i = Some d ∧
       r_get d now (seat_lock_key s t) ≫= parse_i32 = Some u).
Proof.
  unfold sn_get_lock_owner.
  eapply (hoare_bind _ (λ r w, r = pool_index (length ns) s t ∧ world_is ns now w)).
  { intros w [Hn Ht]. unfold pool_for_seat. simpl. by rewrite Hn. }
  intros [i|]; apply hoare_pure; intros Hi; [|by apply hoare_ret].
  eapply hoare_bind; [apply hoare_pool_get|]. intros []; [|by apply hoare_ret].
  eapply hoare_bind; [apply hoare_read|]. intros r. apply hoare_ret. intros w [Hw Hr]. split; [done|].
  intros u Hu. destruct r as [o|]; [|done]. simpl in Hu. subst o. destruct Hr as (d & Hd & He); [by eexists|].
  exists i, d. split_and!; try done. revert He. destruct (r_get d now _) as [v|]; simpl; [|congruence].
  destruct (parse_i32 v); congruence.
Qed.

Lemma hoare_holds s t u ns now :
  hoare (world_is ns now) (sn_user_holds_lock s t u)
    (λ r w, world_is ns now w ∧ (r = true → ∃ i d, pool_index (length ns) s t = Some i ∧ ns !! i = Some d ∧
       is_Some (r_get d now (seat_user_context_key s t u)))).
Proof.
  unfold sn_user_holds_lock.
  eapply (hoare_bind _ (λ r w, r = pool_index (length ns) s t ∧ world_is ns now w)).
  { intros w [Hn Ht]. unfold pool_for_seat. simpl. by rewrite Hn. }
  intros [i|]; apply hoare_pure; intros Hi; [|by apply hoare_ret].
  eapply hoare_bind; [apply hoare_pool_get|]. intros []; [|by apply hoare_ret].
  eapply hoare_bind; [apply hoare_read|]. intros r. apply hoare_ret. intros w [Hw Hr]. split; [done|].
  intros Hu. destruct r as [b|]; [|done]. simpl in Hu. subst b. destruct Hr as (d & Hd & He); [by eexists|].
  exists i, d. split_and!; try done. revert He. destruct (r_get d now _); [by eexists|congruence].
Qed.

(** An assertion about the database and one about the servers. *)
Definition stands (B : db → Prop) (W : world D → Prop) (p : processor D) : Prop :=
  with_books B p ∧ W (s_world (pp_site p)).

Lemma hoare_redis_op {A} B (W : world D → Prop) (Q : A → world D → Prop) m :
  hoare W m Q → hoare (stands B W) (redis_op m) (λ a, stands B (Q a)).
Proof.
  intros Hm p [Hb Hw]. specialize (Hm _ Hw). unfold stands, with_books, on_db in *.
  unfold redis_op, at_site, redis_of, zoom. destruct (m (s_world (pp_site p))). by split.
Qed.

(** The check passes only when the server of every seat has both keys. *)
Lemma hoare_lock_failure B s u ns now l :
  hoare (stands B (world_is ns now)) (lock_failure s u l)
    (λ r p, with_books B p ∧ (r = None → ∀ t, t ∈ l → both_keys s u t ns now)).
Proof.
  induction l as [|t l IH]; simpl.
  { apply hoare_ret. intros p [Hb _]. split; [done|]. intros _ t Ht. by apply not_elem_of_nil in Ht. }
  eapply hoare_bind; [apply hoare_redis_op, hoare_owner|]. intros [o|].
  2:{ apply hoare_ret. by intros p [Hb _]. }
  case_bool_decide as Ho; [apply hoare_ret; by intros p [Hb _]|].
  destruct (decide (o = u)) as [->|]; [|by destruct Ho].
  eapply (hoare_conseq (λ p, (∃ i d, pool_index (length ns) s t = Some i ∧ ns !! i = Some d ∧
       r_get d now (seat_lock_key s t) ≫= parse_i32 = Some u) ∧ stands B (world_is ns now) p)).
  { intros p (Hb & Hw & Hk). split; [by apply Hk|]. by split. }
  { intros a p Hp. exact Hp. }
  apply hoare_pure. intros (i & d & Hi & Hd & Hk).
  eapply hoare_bind; [apply hoare_redis_op, hoare_holds|]. intros [].
  2:{ apply hoare_ret. by intros p [Hb _]. }
  eapply (hoare_conseq (λ p, is_Some (r_get d now (seat_user_context_key s t u)) ∧ stands B (world_is ns now) p)).
  { intros p (Hb & Hw & Hc). split; [|by split]. destruct (Hc eq_refl) as (i' & d' & Hi' & Hd' & Hc').
    by simplify_eq. }
  { intros a p Hp. exact Hp. }
  apply hoare_pure. intros Hc. eapply hoare_conseq; [done| |apply IH].
  intros r p [Hb Hr]. split; [done|]. intros Hn x [->|Hx]%elem_of_cons; [|by apply Hr].
  by exists i, d.
Qed.

(** The seats a message can move. *)
Definition books_of (p : processor D) : list seat_row * list order_row :=
  (d_seats (s_db (pp_site p)), d_orders (s_db (pp_site p))).

Definition checkout_schedule (j : json) : Z :=
  i32 (default 0 (match as_i64 (jindex "schedule_id" j) with
                  | Some s => Some s
                  | None => as_i64 (jindex "showtime_id" j)
                  end)).
Definition checkout_user (j : json) : Z := i32 (default 0 (as_i64 (jindex "user_id" j))).

Lemma checkout_needs_keys j p :
  books_of (process_checkout j p).2 = books_of p ∨
  ∀ t, t ∈ parse_seat_ids j →
    both_keys (checkout_schedule j) (checkout_user j) t (w_nodes (s_world (pp_site p))) (w_now (s_world (pp_site p))).
Proof.
  set (ns := w_nodes (s_world (pp_site p))). set (now := w_now (s_world (pp_site p))).
  set (B := λ d, (d_seats d, d_orders d) = books_of p).
  assert (hoare (stands B (world_is ns now)) (process_checkout j)
    (λ _ p', with_books B p' ∨ ∀ t, t ∈ parse_seat_ids j → both_keys (checkout_schedule j) (checkout_user j) t ns now)) as Hh.
  2:{ apply (Hh p). by split. }
  unfold process_checkout. fold (checkout_schedule j) (checkout_user j).
  destruct (_ ≫= _) as [k|]; [|apply hoare_ret; intros p' [Hp' _]; by left].
  eapply (hoare_bind _ (λ _, stands B (world_is ns now))).
  { intros p' [Hb Hw]. pose proof (keeps_order_exists B k p' Hb) as Hk. split; [done|].
    unfold at_site, zoom. unfold order_exists, mbind, St_bind.
    unfold db_get, redis_of, zoom, mbind, St_bind, db_query, db_run, redis_of, zoom.
    destruct (draw_eq (s_world (pp_site p'))) as (fl & l & -> & _). simpl.
    destruct fl; simpl; try done;
    match goal with |- context [draw ?w] => destruct (draw_eq w) as (fl2 & l2 & -> & _) end; simpl; by destruct fl2. }
  intros []; [apply hoare_ret; intros p' [Hp' _]; by left|].
  case_bool_decide; [apply hoare_ret; intros p' [Hp' _]; by left|].
  eapply hoare_bind; [apply hoare_lock_failure|]. intros [reason|].
  - eapply (hoare_conseq (with_books B) _ (λ _, with_books B)); [by intros p' [Hp' _]|by left|].
    change (keeps (with_books B) (fail_payment k reason ;; clear_checkout_keys (checkout_schedule j) (parse_seat_ids j) ;; mret NackMessage)).
    apply keeps_bind.
    + unfold fail_payment. apply keeps_bind; [apply keeps_at_site, keeps_db_get|]. intros c. apply keeps_when.
      apply keeps_bind; [|intros ?; apply keeps_ret]. apply keeps_at_site, keeps_db_run. by intros d a d' Hd [= _ <-].
    + intros ?. apply keeps_bind; [apply keeps_clear|intros ?; apply keeps_ret].
  - intros p' [Hp' Hk]. right. by apply Hk.
Qed.

(** C20: a booking needs both keys of every seat.  On any network, a checkout message
    moves seats or orders only if, for every seat it names, the server of the seat has
    at that moment the lock key with the user of the message and the user's context
    key. *)
Theorem booking_needs_both_keys mock data j p t :
  json_parse data = Some j → request_type j ≠ "cancellation"%string → t ∈ parse_seat_ids j →
  books_of (process_message mock data p).2 ≠ books_of p →
  both_keys (checkout_schedule j) (checkout_user j) t (w_nodes (s_world (pp_site p))) (w_now (s_world (pp_site p))).
Proof.
  intros Hj Ht Hin. unfold process_message. rewrite Hj. fold (request_type j).
  rewrite bool_decide_eq_false_2 by done. intros Hne. destruct (checkout_needs_keys j p) as [|Hk]; [done|by apply Hk].
Qed.

(** What the gateway locks cannot be bought.  The gateway locks with
    [acquire_distributed_lock] and the lock server completes with
    [update_seat_metadata_lua]; neither writes the context key.  So, from a world in
    which user [u] has no context key for seat [t], after any sequence of operations
    that does not run the acquire script for that seat and user, and on any network, no
    checkout message of [u] that names the seat moves a seat or an order. *)
Theorem gateway_seats_cannot_be_bought os mock data j t (p : processor D) (w : world D) :
  json_parse data = Some j → request_type j ≠ "cancellation"%string → t ∈ parse_seat_ids j →
  on_nodes (absent (seat_user_context_key (checkout_schedule j) t (checkout_user j))) w →
  Forall (not_lua (checkout_schedule j) t (checkout_user j)) os →
  s_world (pp_site p) = (run_ops os w).2 →
  books_of (process_message mock data p).2 = books_of p.
Proof.
  intros Hj Ht Hin Hw Hos Hp. unfold process_message. rewrite Hj. fold (request_type j).
  rewrite bool_decide_eq_false_2 by done.
  destruct (checkout_needs_keys j p) as [|Hk]; [done|]. destruct (Hk t Hin) as (i & d & _ & Hd & _ & Hc).
  apply (keeps_absent_ops _ t _ os Hos) in Hw. rewrite Hp in Hd, Hc.
  pose proof (Forall_lookup_1 _ _ _ _ Hw Hd (w_now (run_ops os w).2) (Z.le_refl _)) as Hnone.
  rewrite Hnone in Hc. by destruct Hc.
Qed.
End keys.

Section cancellations.
Context {D : Type} `{!RedisServer D} {HS : SeatLock D} {HJ : JsonText} {HP : PaymentLibs}.
Implicit Types (p : processor D).

Lemma commit_ok tx (st : site D) : w_faults (s_world st) = [] →
  commit tx st =
    match tx (s_uuids st (s_drawn st)) (s_uuids st (S (s_drawn st))) (w_now (s_world st)) (s_db st) with
    | Some d => (true, Site d (s_world st) (s_uuids st) (S (S (s_drawn st))))
    | None => (false, Site (s_db st) (s_world st) (s_uuids st) (S (S (s_drawn st))))
    end.
Proof.
  intros Hf. unfold commit, mbind at 1, St_bind at 1. rewrite db_get_ok by done. simpl.
  unfold mbind, St_bind, new_v4. simpl.
  rewrite db_run_ok by done. simpl. by destruct (tx _ _ _ _).
Qed.

Definition cancellation_of (j : json) (k : Z) : cancellation_commit :=
  CancellationCommit k (i32 (default 0 (as_i64 (jindex "user_id" j)))) (i32 (default 0 (as_i64 (jindex "schedule_id" j))))
    (parse_seat_ids j) (default "0"%string (as_str (jindex "amount" j))).

(** The refund that goes with a cancellation message. *)
Definition refund_of (j : json) : list (string * Z) :=
  match as_str (jindex "razorpay_payment_id" j) with
  | Some payment_id => [(payment_id, paise_of (default "0"%string (as_str (jindex "amount" j))))]
  | None => []
  end.

(** The transaction of a cancellation on a database, with the identifiers and the time
    the site gives it. *)
Definition cancellation_result (j : json) (k : Z) (st : site D) : option db :=
  cancellation_tx (cancellation_of j k) (s_uuids st (s_drawn st)) (s_uuids st (S (s_drawn st))) (w_now (s_world st)) (s_db st).

(** What follows a committed cancellation. *)
Definition after_cancellation (j : json) : St (processor D) answer :=
  adjust_cached_available_seats (i32 (default 0 (as_i64 (jindex "schedule_id" j)))) (Z.of_nat (length (parse_seat_ids j))) ;;
  broadcast (i32 (default 0 (as_i64 (jindex "schedule_id" j)))) "seat_unlocked" (parse_seat_ids j)
    (i32 (default 0 (as_i64 (jindex "user_id" j)))) ;;
  mret AckMessage.

Lemma after_cancellation_keeps j d rf :
  hoare (λ p, s_db (pp_site p) = d ∧ pp_refunds p = rf) (after_cancellation j)
    (λ a p, a = AckMessage ∧ s_db (pp_site p) = d ∧ pp_refunds p = rf).
Proof.
  set (P := λ p, s_db (pp_site p) = d ∧ pp_refunds p = rf).
  assert (∀ A (m : St (world D) A), keeps P (redis_op m)) as Hop.
  { intros A m p' [Hd Hp]. pose proof (keeps_redis_op (λ d', d' = d) m p' Hd) as Hd'. split; [exact Hd'|].
    unfold redis_op, at_site, zoom. by destruct (redis_of m (pp_site p')). }
  unfold after_cancellation, adjust_cached_available_seats, broadcast.
  eapply (hoare_bind _ (λ _, P)); [keeps_tac|]. intros ?.
  eapply (hoare_bind _ (λ _, P)); [keeps_tac|]. intros ?. by apply hoare_ret.
Qed.

Lemma refund_ok mock j p : no_faults p →
  (match as_str (jindex "razorpay_payment_id" j) with
   | Some payment_id => process_razorpay_refund mock payment_id (paise_of (default "0"%string (as_str (jindex "amount" j))))
   | None => mret true
   end) p = (true, Processor (pp_site p) (pp_refunds p ++ (if mock then [] else refund_of j))).
Proof.
  intros Hf. unfold refund_of. destruct p as [[d [ns t fl lg] us n] rf]. unfold no_faults in Hf. simpl in Hf. subst fl.
  assert (∀ (st : site D), (mret true : St (processor D) bool) (Processor st rf) = (true, Processor st (rf ++ []))) as Hnil.
  { intros st. by rewrite app_nil_r. }
  destruct (as_str (jindex "razorpay_payment_id" j)), mock; unfold process_razorpay_refund; first [apply Hnil|done].
Qed.

Lemma cancellation_eq (mock : bool) j k p :
  no_faults p → uuid_parse (default EmptyString (as_str (jindex "order_id" j))) = Some k →
  let rf := pp_refunds p ++ (if mock then [] else refund_of j) in
  let site' d := Site d (s_world (pp_site p)) (s_uuids (pp_site p)) (S (S (s_drawn (pp_site p)))) in
  process_cancellation mock j p =
    match cancellation_result j k (pp_site p) with
    | Some d => after_cancellation j (Processor (site' d) rf)
    | None => (NackMessage, Processor (site' (s_db (pp_site p))) rf)
    end.
Proof.
  intros Hf Hk rf site'. unfold process_cancellation. rewrite Hk.
  unfold mbind at 1, St_bind at 1. rewrite refund_ok by done.
  unfold mbind at 1, St_bind at 1, at_site at 1, zoom at 1. cbn [negb pp_site pp_refunds].
  unfold commit_cancellation. rewrite commit_ok by done.
  fold (cancellation_of j k). fold (cancellation_result j k (pp_site p)).
  by destruct (cancellation_result j k (pp_site p)) as [d|].
Qed.

Lemma cancellation_ok mock j k p :
  no_faults p → uuid_parse (default EmptyString (as_str (jindex "order_id" j))) = Some k →
  let r := process_cancellation mock j p in
  match cancellation_result j k (pp_site p) with
  | Some d => r.1 = AckMessage ∧ s_db (pp_site r.2) = d
  | None => r.1 = NackMessage ∧ s_db (pp_site r.2) = s_db (pp_site p)
  end ∧ pp_refunds r.2 = pp_refunds p ++ (if mock then [] else refund_of j).
Proof.
  intros Hf Hk r. subst r. rewrite (cancellation_eq mock j k p Hf Hk).
  destruct (cancellation_result j k (pp_site p)) as [d|]; [|done].
  destruct (after_cancellation_keeps j d (pp_refunds p ++ (if mock then [] else refund_of j))
    (Processor (Site d (s_world (pp_site p)) (s_uuids (pp_site p)) (S (S (s_drawn (pp_site p)))))
      (pp_refunds p ++ (if mock then [] else refund_of j)))) as (Ha & Hd & Hr); [done|].
  by rewrite Ha, Hd, Hr.
Qed.

Lemma insert_audit_ok r d :
  ua_id r ∉ ua_id <$> d_audits d → ua_order_id r ∈ od_id <$> d_orders d → ua_user_id r ∈ dom (d_users d) →
  insert_audit r d = Some (with_audits (λ l, l ++ [r]) d).
Proof.
  intros Hid Ho Hu. unfold insert_audit. rewrite (bool_decide_eq_true_2 _ Hu).
  apply list_elem_of_fmap in Ho as (o & Ho & Hin).
  destruct (existsb _ (d_audits d)) eqn:E1.
  { apply existsb_exists in E1 as (a & Ha & He%Z.eqb_eq). destruct Hid. rewrite <-He.
    apply list_elem_of_fmap_2. by apply list_elem_of_In. }
  assert (existsb (λ o0, od_id o0 =? ua_order_id r) (d_orders d) = true) as ->; [|done].
  apply existsb_exists. exists o. split; [by apply list_elem_of_In|]. rewrite Ho. apply Z.eqb_refl.
Qed.

Lemma insert_outbox_ok r d : oe_id r ∉ oe_id <$> d_outbox d → insert_outbox r d = Some (with_outbox (λ l, l ++ [r]) d).
Proof.
  intros Hid. unfold insert_outbox. destruct (existsb _ _) eqn:E; [|done].
  apply existsb_exists in E as (a & Ha & He%Z.eqb_eq). destruct Hid. rewrite <-He.
  apply list_elem_of_fmap_2. by apply list_elem_of_In.
Qed.

(** The identifiers the site draws next are new. *)
Definition fresh_ids (st : site D) : Prop :=
  (s_uuids st (s_drawn st) ∉ ua_id <$> d_audits (s_db st)) ∧
  (s_uuids st (S (s_drawn st)) ∉ oe_id <$> d_outbox (s_db st)).

(** A cancellation frees its seats whoever has them.  Nothing in the transaction asks
    whether the order still owns the seats or is refunded already: on a network without
    faults, the cancellation of a known order -- the second delivery of one too -- is
    acknowledged and makes every seat it names available, also one that another order
    [o] has booked; and [o] stays as it was. *)
Theorem cancellation_frees_rebooked_seats mock data j k p t o :
  json_parse data = Some j → request_type j = "cancellation"%string →
  uuid_parse (default EmptyString (as_str (jindex "order_id" j))) = Some k →
  no_faults p → fresh_ids (pp_site p) →
  k ∈ od_id <$> d_orders (s_db (pp_site p)) → ca_user_id (cancellation_of j k) ∈ dom (d_users (s_db (pp_site p))) →
  t ∈ parse_seat_ids j → o ∈ d_orders (s_db (pp_site p)) → od_id o ≠ k → t ∈ od_seat_ids o →
  let r := process_message mock data p in
  r.1 = AckMessage ∧ o ∈ d_orders (s_db (pp_site r.2)) ∧
  (∀ row, row ∈ d_seats (s_db (pp_site r.2)) → ss_id row = t → ss_status row = Available).
Proof.
  intros Hj Ht Hk Hf [Hfa Hfo] Hord Hu Hin Ho Hne Hto r.
  assert (r = process_cancellation mock j p) as ->.
  { subst r. unfold process_message. rewrite Hj. fold (request_type j). by rewrite bool_decide_eq_true_2. }
  pose proof (cancellation_ok mock j k p Hf Hk) as [H _]. revert H. unfold cancellation_result, cancellation_tx.
  rewrite insert_audit_ok; simpl; [|done| |done].
  2:{ by rewrite update_where_fmap. }
  rewrite insert_outbox_ok by done. intros [Ha Hd]. rewrite Hd. split; [done|]. simpl. split.
  - apply list_elem_of_fmap. exists o. apply Z.eqb_neq in Hne. by rewrite Hne.
  - intros row (row0 & _ & ->)%elem_of_update_where. case_bool_decide as Hb; simpl; [done|].
    intros <-. by destruct Hb.
Qed.

(** The money goes back before the cancellation is known to be possible.  In live
    mode a cancellation message with a payment id that names an order the database does
    not have is refunded and then refused: the database is unchanged, and each delivery
    of it asks Razorpay for one more refund. *)
Theorem refund_before_refusal data j k payment_id p :
  json_parse data = Some j → request_type j = "cancellation"%string →
  uuid_parse (default EmptyString (as_str (jindex "order_id" j))) = Some k →
  as_str (jindex "razorpay_payment_id" j) = Some payment_id →
  no_faults p → k ∉ od_id <$> d_orders (s_db (pp_site p)) →
  let r := process_message false data p in
  r.1 = NackMessage ∧ s_db (pp_site r.2) = s_db (pp_site p) ∧
  pp_refunds r.2 = pp_refunds p ++ [(payment_id, paise_of (default "0"%string (as_str (jindex "amount" j))))].
Proof.
  intros Hj Ht Hk Hp Hf Hord r.
  assert (r = process_cancellation false j p) as ->.
  { subst r. unfold process_message. rewrite Hj. fold (request_type j). by rewrite bool_decide_eq_true_2. }
  pose proof (cancellation_ok false j k p Hf Hk) as [H Hr]. unfold refund_of in Hr. rewrite Hp in Hr.
  assert (cancellation_result j k (pp_site p) = None) as Hnone.
  { unfold cancellation_result, cancellation_tx, insert_audit. simpl.
    destruct (existsb _ (d_audits _)); simpl; [done|].
    destruct (existsb _ (update_where _ _ _)) eqn:E; simpl; [|done]. exfalso. apply Hord.
    apply existsb_exists in E as (o & Hin%list_elem_of_In & He%Z.eqb_eq).
    rewrite <-(update_where_fmap (λ o, od_id o =? k) (set_order_status "refunded") od_id) by done.
    apply list_elem_of_fmap. by exists o. }
  rewrite Hnone in H. by destruct H.
Qed.
End cancellations.

(** ** Concrete runs *)

Lemma booking_needs_both_keys_witness :
  both_keys 7 1 3 (w_nodes locked_by_script) (w_now locked_by_script) ∧
  (process_message true (json_print checkout_message) (shop_processor locked_by_script)).1 = AckMessage.
Proof.
  split; [|vm_compute; reflexivity].
  assert (Hj : json_parse (json_print checkout_message) = Some checkout_message) by (vm_compute; reflexivity).
  assert (Ht : request_type checkout_message ≠ "cancellation"%string) by (vm_compute; congruence).
  assert (Hin : 3 ∈ parse_seat_ids checkout_message) by (vm_compute; left).
  assert (Hn : length (books_of (process_message true (json_print checkout_message) (shop_processor locked_by_script)).2).2 = 1%nat)
    by (vm_compute; reflexivity).
  assert (Hne : books_of (process_message true (json_print checkout_message) (shop_processor locked_by_script)).2
     ≠ books_of (shop_processor locked_by_script)).
  { intros He. rewrite He in Hn. vm_compute in Hn. discriminate Hn. }
  pose proof (booking_needs_both_keys true (json_print checkout_message) checkout_message (shop_processor locked_by_script) 3
    Hj Ht Hin Hne) as H.
  exact H.
Defined.

(** The route of the gateway ([gateway_route]) and then the purchase. *)
Definition gateway_world : world mem_redis := (run_ops gateway_route (mem_world 2 5000)).2.

Lemma gateway_seats_cannot_be_bought_witness :
  (sn_get_lock_owner 7 3 gateway_world).1 = Some 1 ∧
  (process_message true (json_print checkout_message) (shop_processor gateway_world)).1 = NackMessage ∧
  books_of (process_message true (json_print checkout_message) (shop_processor gateway_world)).2 = books_of (shop_processor gateway_world).
Proof.
  split; [vm_compute; reflexivity|]. split; [vm_compute; reflexivity|].
  assert (Hj : json_parse (json_print checkout_message) = Some checkout_message) by (vm_compute; reflexivity).
  assert (Ht : request_type checkout_message ≠ "cancellation"%string) by (vm_compute; congruence).
  assert (Hin : 3 ∈ parse_seat_ids checkout_message) by (vm_compute; left).
  refine (gateway_seats_cannot_be_bought gateway_route true (json_print checkout_message) checkout_message 3
    (shop_processor gateway_world) (mem_world 2 5000) Hj Ht Hin _ _ _).
  - repeat (apply List.Forall_cons; [intros t _; reflexivity|]). apply List.Forall_nil.
  - repeat (apply List.Forall_cons; [exact I|]). apply List.Forall_nil.
  - reflexivity.
Defined.

(** Seat 3 was cancelled by order 20 and sold again as order 21. *)
Definition resold_order : order_row := OrderRow 21 51 2 7 [3] "200" "order_8" None "completed".
Definition resold_db : db :=
  Db [SeatRow 3 7 Booked "100" some_place] [OrderRow 20 50 1 7 [3] "200" "order_9" None "refunded"; resold_order] []
     [PaymentRow 50 "k" 1 7 [3] PsSucceeded None; PaymentRow 51 "k" 2 7 [3] PsSucceeded None] [] [] some_users {[7 := some_schedule 7]} [] 1 1 ∅ 1 1 1.
Definition resold_processor : processor mem_redis :=
  Processor (Site resold_db (mem_world 1 5000) (λ n, 1000 + Z.of_nat n) 0) [].
Definition cancellation_message (order_id : string) : json :=
  JObj [("request_type", JStr "cancellation"); ("order_id", JStr order_id); ("user_id", JNum 1); ("schedule_id", JNum 7);
        ("seat_ids", seat_list [3]); ("razorpay_payment_id", JStr "pay_9"); ("amount", JStr "200")]%string.

Lemma cancellation_frees_rebooked_seats_witness :
  (process_message true (json_print (cancellation_message "20")) resold_processor).1 = AckMessage ∧
  resold_order ∈ d_orders (s_db (pp_site (process_message true (json_print (cancellation_message "20")) resold_processor).2)).
Proof.
  assert (Hj : json_parse (json_print (cancellation_message "20")) = Some (cancellation_message "20")) by (vm_compute; reflexivity).
  assert (Ht : request_type (cancellation_message "20") = "cancellation"%string) by (vm_compute; reflexivity).
  assert (Hk : uuid_parse (default EmptyString (as_str (jindex "order_id" (cancellation_message "20")))) = Some 20) by (vm_compute; reflexivity).
  assert (Hf : no_faults resold_processor) by (vm_compute; reflexivity).
  assert (Hid : fresh_ids (pp_site resold_processor)) by (split; apply not_elem_of_nil).
  assert (Ho : 20 ∈ od_id <$> d_orders (s_db (pp_site resold_processor))) by (vm_compute; left).
  assert (Hu : ca_user_id (cancellation_of (cancellation_message "20") 20) ∈ dom (d_users (s_db (pp_site resold_processor))))
    by (apply (bool_decide_unpack _); vm_compute; exact I).
  assert (Hin : 3 ∈ parse_seat_ids (cancellation_message "20")) by (vm_compute; left).
  assert (Hr : resold_order ∈ d_orders (s_db (pp_site resold_processor))) by (right; left).
  assert (Hne : od_id resold_order ≠ 20) by (vm_compute; congruence).
  assert (Hs : 3 ∈ od_seat_ids resold_order) by left.
  pose proof (cancellation_frees_rebooked_seats true _ (cancellation_message "20") 20 resold_processor 3 resold_order
    Hj Ht Hk Hf Hid Ho Hu Hin Hr Hne Hs) as (H1 & H2 & _).
  split; [exact H1|exact H2].
Defined.

Lemma refund_before_refusal_witness :
  (process_message false (json_print (cancellation_message "99")) resold_processor).1 = NackMessage ∧
  pp_refunds (process_message false (json_print (cancellation_message "99")) resold_processor).2 = [("pay_9"%string, 20000)].
Proof.
  assert (Hj : json_parse (json_print (cancellation_message "99")) = Some (cancellation_message "99")) by (vm_compute; reflexivity).
  assert (Ht : request_type (cancellation_message "99") = "cancellation"%string) by (vm_compute; reflexivity).
  assert (Hk : uuid_parse (default EmptyString (as_str (jindex "order_id" (cancellation_message "99")))) = Some 99) by (vm_compute; reflexivity).
  assert (Hp : as_str (jindex "razorpay_payment_id" (cancellation_message "99")) = Some "pay_9"%string) by (vm_compute; reflexivity).
  assert (Hf : no_faults resold_processor) by (vm_compute; reflexivity).
  assert (Ho : 99 ∉ od_id <$> d_orders (s_db (pp_site resold_processor))).
  { vm_compute. intros H. repeat (apply elem_of_cons in H as [H|H]; [discriminate|]). by apply not_elem_of_nil in H. }
  pose proof (refund_before_refusal _ (cancellation_message "99") 99 "pay_9"%string resold_processor Hj Ht Hk Hp Hf Ho) as (H1 & _ & H2).
  split; [exact H1|exact H2].
Defined.
