(* ===== verification/HttpPayments.v ===== *)
(** * HttpPayments: payment requests and cancellations over HTTP
    ([apps/http-server/src/api/user/payments.rs])

    A handler is a function of the header [authorization], the body and the two secrets
    of the environment.  HMAC, the arithmetic of [BigDecimal], the answers of Razorpay
    and the texts of library errors are fields of [CheckoutLibs].  The JSON columns are
    the values written to them. *)

From stdpp Require Import sorting.
From S2P Require Import Prelude Text Keys Redis SeatLock SingleNodeLock Events Db Payments.

Class CheckoutLibs := {
  hmac_hex : string → string → string;              (* HMAC-SHA256 with a key, in hexadecimal *)
  total_text : list string → string;                (* the sum of prices with 18% tax *)
  total_paise : list string → option Z;             (* the same in paise, rounded; None out of i64 *)
  mock_suffix : Z → string;                         (* 14 digits of a UUID *)
  razorpay_order : Z → Z → string + json;           (* amount and receipt to error text or answer *)
  library_error : string                            (* the text of a library's error *)
}.

Record app_error := AppError { ae_status : Z; ae_message : string }.
Definition bad_request (m : string) : app_error := AppError 400 m.
Definition not_found (m : string) : app_error := AppError 404 m.
Definition internal (m : string) : app_error := AppError 500 m.

Record payment_request := PaymentRequest {
  rq_schedule_id : Z; rq_seat_ids : list Z; rq_idempotency_key : string;
  rq_razorpay_order_id : option string; rq_razorpay_payment_id : option string; rq_razorpay_signature : option string
}.

(** The status code and the body of an answer. *)
Record payment_accepted := PaymentAccepted { pa_code : Z; pa_payment_request_id : string; pa_status : string }.

Definition status_text (s : payment_status) : string :=
  match s with
  | PsPending => "pending"
  | PsProcessing => "processing"
  | PsSucceeded => "succeeded"
  | PsFailed => "failed"
  end.

(** [sort_unstable] on integers. *)
Definition same_payment_intent (existing_schedule_id : Z) (existing_seats : list Z)
    (requested_schedule_id : Z) (requested_seats : list Z) : bool :=
  if bool_decide (existing_schedule_id ≠ requested_schedule_id) then false
  else bool_decide (merge_sort Z.le existing_seats = merge_sort Z.le requested_seats).

Definition authenticated_user `{TokenDecoder} (authorization : option string) (secret : string) : Z + app_error :=
  match authorization ≫= strip_prefix "Bearer " with
  | None => inr (bad_request "missing bearer token")
  | Some token =>
      if bool_decide (token = "mock_token") then inl 1
      else
        match decode_sub secret token with
        | None => inr (bad_request "invalid bearer token")
        | Some sub =>
            match parse_i32 sub with
            | Some user_id => inl user_id
            | None => inr (bad_request "invalid user identity")
            end
        end
  end%string.

Definition request_invalid (rq : payment_request) : bool :=
  bool_decide (rq_seat_ids rq = []) || bool_decide (trim (rq_idempotency_key rq) = EmptyString)
  || (128 <? Z.of_nat (String.length (rq_idempotency_key rq))).

(** The proof of payment. *)
Definition check_signature `{CheckoutLibs} (secret : string) (rq : payment_request) : option app_error :=
  match rq_razorpay_order_id rq with
  | Some order_id =>
      if starts_with "order_mock_" order_id then None
      else
        match rq_razorpay_payment_id rq, rq_razorpay_signature rq with
        | None, _ => Some (bad_request "Missing Razorpay payment ID")
        | _, None => Some (bad_request "Missing Razorpay signature")
        | Some payment_id, Some signature =>
            if bool_decide (hmac_hex secret (order_id +:+ "|" +:+ payment_id) ≠ signature)
            then Some (bad_request "Invalid Razorpay signature") else None
        end
  | None => None
  end%string.

Section handlers.
Context {D : Type} `{!RedisServer D} {HJ : JsonText} {HP : PaymentLibs} {HL : CheckoutLibs} {HT : TokenDecoder}.
Abbreviation S := (St (site D)).

(** [state.single_node_lock.user_holds_lock] for each seat, to the first that is not held. *)
Fixpoint holds_all (schedule_id user_id : Z) (seat_ids : list Z) : S bool :=
  match seat_ids with
  | [] => mret true
  | t :: seat_ids =>
      ok ← redis_of (sn_user_holds_lock schedule_id t user_id);
      if (ok : bool) then holds_all schedule_id user_id seat_ids else mret false
  end.

(** *** The checkout keys *)

Definition delete_keys (keys : list string) : S unit :=
  for_each keys (λ k, redis_of (node_cmd 0 (cmd_del k)) ;; mret tt).

(** The keys created, or the answer. *)
Fixpoint take_checkout_keys (schedule_id : Z) (checkout_owner : string) (seat_ids : list Z) (created : list string) :
    S (list string + app_error) :=
  match seat_ids with
  | [] => mret (inl created)
  | t :: seat_ids =>
      let key := seat_checkout_key schedule_id t in
      set ← redis_of (node_cmd 0 (cmd_set_nx_px key checkout_owner 300000));
      match set with
      | None => mret (inr (internal library_error))
      | Some true => take_checkout_keys schedule_id checkout_owner seat_ids (created ++ [key])
      | Some false =>
          current ← redis_of (node_cmd 0 (cmd_get key));
          match current with
          | None => mret (inr (internal library_error))
          | Some current =>
              if bool_decide (current ≠ Some checkout_owner) then
                delete_keys created ;;
                mret (inr (bad_request "one or more seats already have a checkout in progress"))
              else take_checkout_keys schedule_id checkout_owner seat_ids created
          end
      end
  end.

(** *** [request_payment] *)

Definition same_key (user_id : Z) (key : string) (p : payment_row) : bool :=
  bool_decide (pr_idempotency_key p = key) && (pr_user_id p =? user_id).

(** The row of [existing], and the answer it gives. *)
Definition existing_payment (user_id : Z) (key : string) : S (option (option payment_row)) :=
  db_query (λ d, head (filter (λ p, same_key user_id key p = true) (d_payments d))).

Definition same_intent_as (rq : payment_request) (p : payment_row) : bool :=
  same_payment_intent (pr_schedule_id p) (pr_seat_ids p) (rq_schedule_id rq) (rq_seat_ids rq).

Definition reused_key : app_error := bad_request "idempotency_key was already used for a different payment request".

Definition requested_seats (rq : payment_request) (d : db) : list seat_row :=
  filter (λ r, ss_id r ∈ rq_seat_ids rq ∧ ss_schedule_id r = rq_schedule_id rq) (d_seats d).

Definition optional_text (o : option string) : json := match o with Some s => JStr s | None => JNull end.

Definition payment_payload (payment_request_id user_id : Z) (amount : string) (rq : payment_request) : json :=
  JObj [("_trace_context", trace_carrier); ("payment_request_id", JStr (uuid_text payment_request_id));
        ("user_id", JNum user_id); ("schedule_id", JNum (rq_schedule_id rq)); ("seat_ids", seat_list (rq_seat_ids rq));
        ("amount", JStr amount); ("razorpay_order_id", optional_text (rq_razorpay_order_id rq));
        ("razorpay_payment_id", optional_text (rq_razorpay_payment_id rq))]%string.

(** The transaction: whether the payment request was inserted. *)
Definition request_tx (payment_request_id event_id user_id now : Z) (payload : json) (rq : payment_request) (d : db) :
    option (bool * db) :=
  '(inserted, d) ← insert_payment (PaymentRow payment_request_id (rq_idempotency_key rq) user_id (rq_schedule_id rq)
     (rq_seat_ids rq) PsPending None) d;
  if (inserted : bool) then
    d ← insert_outbox (new_outbox_event event_id payment_request_id "payment.requested" payload now) d;
    Some (true, d)
  else Some (false, d).

(** From the checks on: [rq] has been authenticated as [user_id] and validated. *)
Definition submit_payment (user_id : Z) (rq : payment_request) (db_seats : list seat_row) : S (payment_accepted + app_error) :=
  let amount := total_text (map ss_price db_seats) in
  payment_request_id ← new_v4;
  let checkout_owner := (show_Z user_id +:+ ":" +:+ rq_idempotency_key rq)%string in
  cli ← redis_of (pool_get 0);
  if negb cli then mret (inr (internal library_error))
  else
    keys ← take_checkout_keys (rq_schedule_id rq) checkout_owner (rq_seat_ids rq) [];
    match keys with
    | inr e => mret (inr e)
    | inl created =>
        let payload := payment_payload payment_request_id user_id amount rq in
        event_id ← new_v4;
        now ← redis_of now_ms;
        inserted ← db_run (request_tx payment_request_id event_id user_id now payload rq);
        match inserted with
        | None => delete_keys created ;; mret (inr (internal library_error))
        | Some true => mret (inl (PaymentAccepted 202 (uuid_text payment_request_id) "pending"))
        | Some false =>
            existing ← existing_payment user_id (rq_idempotency_key rq);
            match existing with
            | None | Some None => mret (inr (internal library_error))
            | Some (Some p) =>
                if negb (same_intent_as rq p) then mret (inr reused_key)
                else mret (inl (PaymentAccepted 202 (uuid_text (pr_id p)) "pending"))
            end
        end
    end.

Definition request_payment (authorization : option string) (jwt_secret razorpay_secret : string) (rq : payment_request) :
    S (payment_accepted + app_error) :=
  match authenticated_user authorization jwt_secret with
  | inr e => mret (inr e)
  | inl user_id =>
      if request_invalid rq then mret (inr (bad_request "schedule, seats, and idempotency_key are required"))
      else
        match check_signature razorpay_secret rq with
        | Some e => mret (inr e)
        | None =>
            conn ← db_get;
            if negb conn then mret (inr (internal "database unavailable"))
            else
              existing ← existing_payment user_id (rq_idempotency_key rq);
              match existing with
              | None => mret (inr (internal library_error))
              | Some (Some p) =>
                  if negb (same_intent_as rq p) then mret (inr reused_key)
                  else mret (inl (PaymentAccepted 202 (uuid_text (pr_id p)) (status_text (pr_status p))))
              | Some None =>
                  held ← holds_all (rq_schedule_id rq) user_id (rq_seat_ids rq);
                  if negb held then mret (inr (bad_request "one or more seats are not locked by this user"))
                  else
                    rows ← db_query (requested_seats rq);
                    match rows with
                    | None => mret (inr (internal "failed to load seats"))
                    | Some db_seats =>
                        if bool_decide (length db_seats ≠ length (rq_seat_ids rq))
                        then mret (inr (bad_request "one or more seats do not belong to the requested schedule"))
                        else
                          match find (λ r, bool_decide (ss_status r = Booked)) db_seats with
                          | Some r => mret (inr (bad_request ("seat " +:+ show_Z (ss_id r) +:+ " is already booked")))
                          | None => submit_payment user_id rq db_seats
                          end
                    end
              end
        end
  end%string.

(** *** [create_razorpay_order] *)

Record create_razorpay_order_request := CreateRazorpayOrderRequest { cr_schedule_id : Z; cr_seat_ids : list Z; cr_amount_paise : Z }.

(** [key_id] is the key of the environment; the answer is a Razorpay order id. *)
Definition create_razorpay_order (authorization : option string) (jwt_secret key_id : string) (rq : create_razorpay_order_request) :
    S (string + app_error) :=
  match authenticated_user authorization jwt_secret with
  | inr e => mret (inr e)
  | inl user_id =>
      if bool_decide (cr_seat_ids rq = []) then mret (inr (bad_request "at least one seat_id is required"))
      else
        held ← holds_all (cr_schedule_id rq) user_id (cr_seat_ids rq);
        if negb held then mret (inr (bad_request "one or more seats are not locked by this user"))
        else
          conn ← db_get;
          if negb conn then mret (inr (internal "database unavailable"))
          else
            prices ← db_query (λ d, map ss_price (filter (λ r, ss_id r ∈ cr_seat_ids rq) (d_seats d)));
            match prices with
            | None => mret (inr (internal "failed to load seats"))
            | Some prices =>
                match total_paise prices with
                | None => mret (inr (internal "price calculation overflow"))
                | Some backend_amount_paise =>
                    if bool_decide (backend_amount_paise ≠ cr_amount_paise rq)
                    then mret (inr (bad_request "price mismatch between client and server"))
                    else
                      id ← new_v4;
                      if bool_decide (key_id = EmptyString) then mret (inl ("order_mock_" +:+ mock_suffix id))
                      else
                        fl ← redis_of draw;
                        mret (match fl, razorpay_order (cr_amount_paise rq) id with
                          | FOk, inr data => inl (default EmptyString (as_str (jindex "id" data)))
                          | FOk, inl text => inr (internal ("Razorpay API error: " +:+ text))
                          | _, _ => inr (internal ("Razorpay API error: " +:+ library_error))
                          end)
                end
            end
  end%string.

(** *** [cancel_order] *)

Record cancel_order_response := CancelOrderResponse { co_code : Z; co_order_id : string; co_status : string; co_message : string }.

Definition cancel_payload (o : order_row) (user_id : Z) (idempotency_key : string) : json :=
  JObj [("_trace_context", trace_carrier); ("request_type", JStr "cancellation"); ("order_id", JStr (uuid_text (od_id o)));
        ("user_id", JNum user_id); ("schedule_id", JNum (od_schedule_id o)); ("seat_ids", seat_list (od_seat_ids o));
        ("amount", JStr (od_total_amount o)); ("razorpay_payment_id", optional_text (od_razorpay_payment_id o));
        ("idempotency_key", JStr idempotency_key)]%string.

Definition cancel_tx (order_id event_id now : Z) (payload : json) (d : db) : option (unit * db) :=
  let matches o := (od_id o =? order_id) && bool_decide (od_status o = "completed"%string) in
  let updated := length (filter (λ o, matches o = true) (d_orders d)) in
  let d := with_orders (update_where matches (set_order_status "cancelling")) d in
  if (updated =? 1)%nat then
    d ← insert_outbox (new_outbox_event event_id order_id "payment.cancellation_requested" payload now) d;
    Some (tt, d)
  else Some (tt, d).

Definition cancel_order (authorization : option string) (jwt_secret : string) (order_id : Z) (idempotency_key : string) :
    S (cancel_order_response + app_error) :=
  match authenticated_user authorization jwt_secret with
  | inr e => mret (inr e)
  | inl user_id =>
      if bool_decide (trim idempotency_key = EmptyString) then mret (inr (bad_request "idempotency_key is required"))
      else
        conn ← db_get;
        if negb conn then mret (inr (internal "database unavailable"))
        else
          found ← db_query (λ d, head (filter (λ o, od_id o = order_id) (d_orders d)));
          match found with
          | None | Some None => mret (inr (not_found "order not found"))
          | Some (Some order) =>
              if bool_decide (od_user_id order ≠ user_id) then mret (inr (bad_request "order does not belong to this user"))
              else if bool_decide (od_status order ∈ ["cancelling"; "cancelled"; "refunded"])
              then mret (inl (CancelOrderResponse 200 (uuid_text (od_id order)) "cancelling"
                     "Cancellation is already in progress or completed."))
              else if bool_decide (od_status order ≠ "completed") then mret (inr (bad_request "only completed orders can be cancelled"))
              else
                event_id ← new_v4;
                now ← redis_of now_ms;
                done_ ← db_run (cancel_tx (od_id order) event_id now (cancel_payload order user_id idempotency_key));
                mret (match done_ with
                  | Some _ => inl (CancelOrderResponse 202 (uuid_text (od_id order)) "cancelling"
                                     "Cancellation request submitted successfully.")
                  | None => inr (internal ("failed to enqueue cancellation: " +:+ library_error))
                  end)
          end
  end%string.
End handlers.
