(* ===== verification/HttpPaymentsProps.v ===== *)
(** * HttpPaymentsProps: what a payment request needs and what it writes *)

From stdpp Require Import sorting.
From S2P Require Import Prelude Text Keys Redis RedisMem SeatLock SingleNodeLock Events Db Payments PaymentsProps PaymentsSeats HttpPayments.

(** ** Intents *)

Lemma same_intent_iff s1 l1 s2 l2 :
  same_payment_intent s1 l1 s2 l2 = true ↔ s1 = s2 ∧ l1 ≡ₚ l2.
Proof.
  unfold same_payment_intent. destruct (decide (s1 = s2)) as [->|Hs].
  - rewrite bool_decide_eq_false_2 by (intros H; by apply H). rewrite bool_decide_eq_true. split.
    + intros Heq. split; [done|]. by rewrite <-(merge_sort_Permutation Z.le l1), Heq, merge_sort_Permutation.
    + intros [_ Hp]. apply (Sorted_unique Z.le); try (apply Sorted_merge_sort; intros ??; lia).
      by rewrite !merge_sort_Permutation.
  - rewrite bool_decide_eq_true_2 by done. split; [done|]. by intros [? _].
Qed.

Section requests.
Context {D : Type} `{!RedisServer D} {HJ : JsonText} {HP : PaymentLibs} {HL : CheckoutLibs} {HT : TokenDecoder}.
Implicit Types (st : site D).

(** The server of the seat has the context key of the user. *)
Definition context_key (s u t : Z) (ns : list D) (now : Z) : Prop :=
  ∃ i d, pool_index (length ns) s t = Some i ∧ ns !! i = Some d ∧ is_Some (r_get d now (seat_user_context_key s t u)).

(** A new payment request, and the event that announces it. *)
Definition payment_filed (user_id : Z) (rq : payment_request) (d d' : db) : Prop :=
  ∃ payment_request_id event_id amount now,
    d_payments d' = d_payments d ++ [PaymentRow payment_request_id (rq_idempotency_key rq) user_id (rq_schedule_id rq)
      (rq_seat_ids rq) PsPending None] ∧
    d_outbox d' = d_outbox d ++ [new_outbox_event event_id payment_request_id "payment.requested"
      (payment_payload payment_request_id user_id amount rq) now] ∧
    d_seats d' = d_seats d ∧ d_orders d' = d_orders d.

Definition on_site (d : db) (W : world D → Prop) (st : site D) : Prop := s_db st = d ∧ W (s_world st).

Lemma hoare_redis_site {A} d (W : world D → Prop) (Q : A → world D → Prop) m :
  hoare W m Q → hoare (on_site d W) (redis_of m) (λ a, on_site d (Q a)).
Proof.
  intros Hm st [Hd Hw]. specialize (Hm _ Hw). unfold on_site, redis_of, zoom.
  by destruct (m (s_world st)).
Qed.

Lemma draw_site d ns now : hoare (on_site d (world_is ns now)) (redis_of draw) (λ _, on_site d (world_is ns now)).
Proof.
  apply hoare_redis_site. intros w Hw. by destruct (draw_eq w) as (fl & l & -> & _).
Qed.

Lemma hoare_query_site {A} d ns now (q : db → A) :
  hoare (on_site d (world_is ns now)) (db_query q)
    (λ r st, on_site d (world_is ns now) st ∧ (is_Some r → r = Some (q d))).
Proof.
  intros st Hst. unfold db_query, db_run. pose proof (draw_site d ns now st Hst) as H.
  destruct (redis_of draw st) as [fl st1]. simpl in H. destruct H as [Hd Hw]. rewrite Hd.
  destruct fl; simpl; (split; [by split|]); intros Hr; first [done|by destruct Hr].
Qed.

Lemma hoare_get_site d ns now : hoare (on_site d (world_is ns now)) db_get (λ _, on_site d (world_is ns now)).
Proof.
  unfold db_get. eapply hoare_bind; [apply draw_site|]. intros fl. by apply hoare_ret.
Qed.

Lemma hoare_holds_all d s u ns now l :
  hoare (on_site d (world_is ns now)) (holds_all s u l)
    (λ r st, on_site d (world_is ns now) st ∧ (r = true → ∀ t, t ∈ l → context_key s u t ns now)).
Proof.
  induction l as [|t l IH]; simpl.
  { apply hoare_ret. intros st Hst. split; [done|]. intros _ t Ht. by apply not_elem_of_nil in Ht. }
  eapply hoare_bind; [apply hoare_redis_site, hoare_holds|]. intros [].
  - eapply (hoare_conseq (λ st, context_key s u t ns now ∧ on_site d (world_is ns now) st)).
    { intros st (Hd & Hw & Hk). split; [by apply Hk|by split]. }
    { intros a st Hst. exact Hst. }
    apply hoare_pure. intros Hk. eapply hoare_conseq; [done| |apply IH].
    intros r st [Hst Hr]. split; [done|]. intros Ht x [->|Hx]%elem_of_cons; [done|by apply Hr].
  - apply hoare_ret. by intros st (Hd & Hw & _).
Qed.

(** The keys do not touch the database. *)
Lemma keeps_delete_keys P keys : keeps (on_db (D:=D) P) (delete_keys keys).
Proof. unfold delete_keys. keeps_tac. Qed.

Lemma keeps_take_keys P s owner l created : keeps (on_db (D:=D) P) (take_checkout_keys s owner l created).
Proof.
  revert created. induction l as [|t l IH]; intros created; simpl; [apply keeps_ret|].
  pose proof (keeps_delete_keys P created). keeps_tac.
Qed.

Lemma request_tx_filed pid eid u now amount rq d ins d' :
  request_tx pid eid u now (payment_payload pid u amount rq) rq d = Some (ins, d') →
  d' = d ∨ payment_filed u rq d d'.
Proof.
  unfold request_tx, insert_payment. destruct (existsb _ (d_payments d)); simpl; [intros [= _ <-]; by left|].
  destruct (_ || _); simpl; [done|].
  destruct (insert_outbox _ _) as [d1|] eqn:E; [|done]. simpl. intros [= _ <-]. right.
  apply insert_outbox_some in E as ->. by exists pid, eid, amount, now.
Qed.

Definition filed_or_not (u : Z) (rq : payment_request) (d : db) (d' : db) : Prop := d' = d ∨ payment_filed u rq d d'.

Lemma hoare_submit u rq rows d :
  hoare (on_db (D:=D) (λ d', d' = d)) (submit_payment u rq rows) (λ _, on_db (filed_or_not u rq d)).
Proof.
  assert (∀ A (m : St (site D) A), keeps (on_db (λ d', d' = d)) m → hoare (on_db (λ d', d' = d)) m (λ _, on_db (filed_or_not u rq d))) as Hweak.
  { intros A m Hm. eapply hoare_conseq; [done| |exact Hm]. intros a st Hst. by left. }
  unfold submit_payment. eapply hoare_bind; [apply keeps_new_v4|]. intros pid.
  eapply hoare_bind; [apply keeps_redis_of|]. intros []; [|by apply Hweak, keeps_ret].
  eapply hoare_bind; [apply keeps_take_keys|]. intros [created|e]; [|by apply Hweak, keeps_ret].
  eapply hoare_bind; [apply keeps_new_v4|]. intros eid.
  eapply hoare_bind; [apply keeps_redis_of|]. intros now.
  eapply (hoare_bind _ (λ _, on_db (filed_or_not u rq d))).
  - apply (hoare_conseq (on_db (λ d', d' = d)) _ (λ _, on_db (filed_or_not u rq d))); [done|done|].
    intros st Hst. pose proof (keeps_redis_of (λ d', d' = d) draw st Hst) as Hd. unfold db_run.
    destruct (redis_of draw st) as [fl st1]. unfold on_db in *. simpl in Hd. rewrite Hd.
    destruct (request_tx _ _ _ _ _ _ d) as [[ins d']|] eqn:E.
    + apply request_tx_filed in E. destruct fl; simpl; try exact E. by left.
    + destruct fl; by left.
  - intros r. change (keeps (on_db (filed_or_not u rq d))
      (match r with
       | None => delete_keys created ;; mret (inr (internal library_error))
       | Some true => mret (inl (PaymentAccepted 202 (uuid_text pid) "pending"))
       | Some false =>
           existing ← existing_payment u (rq_idempotency_key rq);
           match existing with
           | None | Some None => mret (inr (internal library_error))
           | Some (Some p) =>
               if negb (same_intent_as rq p) then mret (inr reused_key)
               else mret (inl (PaymentAccepted 202 (uuid_text (pr_id p)) "pending"))
           end
       end)). pose proof (keeps_delete_keys (filed_or_not u rq d) created).
    unfold existing_payment. keeps_tac.
Qed.

Lemma find_none_all {A} (f : A → bool) l : find f l = None → ∀ x, x ∈ l → f x = false.
Proof. intros H x Hx. apply (find_none f l H). by apply list_elem_of_In. Qed.

(** The rows found are as many as the seats asked for: the seats are distinct, and each
    has a row. *)
Lemma requested_seats_cover rq d :
  NoDup (ss_id <$> d_seats d) → length (requested_seats rq d) = length (rq_seat_ids rq) →
  NoDup (rq_seat_ids rq) ∧ rq_seat_ids rq ⊆ ss_id <$> requested_seats rq d.
Proof.
  intros Hnd Hlen. set (ids := ss_id <$> requested_seats rq d).
  assert (NoDup ids) as Hids.
  { eapply sublist_NoDup; [exact Hnd|]. apply fmap_sublist, sublist_filter. }
  assert (ids ⊆+ rq_seat_ids rq) as Hsub.
  { apply NoDup_submseteq; [done|]. intros x (r & -> & Hr)%list_elem_of_fmap.
    by apply list_elem_of_filter in Hr as [[? _] _]. }
  assert (rq_seat_ids rq ≡ₚ ids) as Hp.
  { symmetry. apply submseteq_length_Permutation; [done|]. unfold ids. rewrite length_fmap. lia. }
  split; [by rewrite Hp|]. intros x Hx. by rewrite <-Hp.
Qed.

(** What the checks of a request have established when its transaction starts. *)
Definition request_checked (secret : string) (u : Z) (rq : payment_request) (st : site D) : Prop :=
  request_invalid rq = false ∧ check_signature secret rq = None ∧ NoDup (rq_seat_ids rq) ∧
  ∀ t, t ∈ rq_seat_ids rq →
    context_key (rq_schedule_id rq) u t (w_nodes (s_world st)) (w_now (s_world st)) ∧
    ∃ row, row ∈ d_seats (s_db st) ∧ ss_id row = t ∧ ss_schedule_id row = rq_schedule_id rq ∧ ss_status row ≠ Booked.

(** What a payment request needs.  Whatever fails on the way, and whatever the
    answer, a request either leaves the database as it was or files exactly one pending
    payment request and the one outbox event that announces it.  When it does, its user
    is authenticated, its proof of payment has been checked, its seats are distinct
    seats of its schedule, none of them booked, and the server of each has the user's
    context key. *)
Theorem payment_request_files_one_event authorization jwt_secret secret rq st :
  NoDup (ss_id <$> d_seats (s_db st)) →
  let st' := (request_payment authorization jwt_secret secret rq st).2 in
  s_db st' = s_db st ∨
  ∃ u, authenticated_user authorization jwt_secret = inl u ∧ request_checked secret u rq st ∧
    payment_filed u rq (s_db st) (s_db st').
Proof.
  intros Hnd. set (d := s_db st). set (ns := w_nodes (s_world st)). set (now := w_now (s_world st)).
  set (Q := λ d', d' = d ∨ ∃ u, authenticated_user authorization jwt_secret = inl u ∧
    request_checked secret u rq st ∧ payment_filed u rq d d').
  assert (hoare (on_site d (world_is ns now)) (request_payment authorization jwt_secret secret rq)
    (λ _, on_db Q)) as Hh; [|by apply (Hh st)].
  assert (∀ A (a : A), hoare (on_site d (world_is ns now)) (mret a) (λ _, on_db Q)) as Hret.
  { intros A a. apply hoare_ret. intros s [Hs _]. by left. }
  unfold request_payment. destruct (authenticated_user _ _) as [u|e] eqn:Hu; [|apply Hret].
  destruct (request_invalid rq) eqn:Hinv; [apply Hret|].
  destruct (check_signature secret rq) eqn:Hsig; [apply Hret|].
  eapply hoare_bind; [apply hoare_get_site|]. intros []; [|apply Hret].
  eapply hoare_bind; [apply hoare_query_site|]. intros ex.
  apply (hoare_conseq (on_site d (world_is ns now)) _ (λ _, on_db Q)); [by intros s [Hs _]|done|].
  destruct ex as [[p|]|]; try apply Hret; [destruct (negb _); apply Hret|].
  eapply hoare_bind; [apply hoare_holds_all|]. intros []; simpl negb; cbv iota.
  2:{ apply hoare_ret. intros s [[Hs _] _]. by left. }
  eapply (hoare_conseq (λ s, (∀ t, t ∈ rq_seat_ids rq → context_key (rq_schedule_id rq) u t ns now) ∧ on_site d (world_is ns now) s)).
  { intros s [Hs Hk]. split; [by apply Hk|done]. }
  { intros a s Hs. exact Hs. }
  apply hoare_pure. intros Hk.
  eapply hoare_bind; [apply hoare_query_site|]. intros rows.
  eapply (hoare_conseq (λ s, (is_Some rows → rows = Some (requested_seats rq d)) ∧ on_site d (world_is ns now) s)).
  { intros s [Hs Hr]. split; [exact Hr|exact Hs]. }
  { intros a s Hs. exact Hs. }
  apply hoare_pure. intros Hrows. destruct rows as [rows|]; [|apply Hret].
  injection (Hrows ltac:(by eexists)) as ->.
  case_bool_decide as Hlen; [apply Hret|].
  destruct (find _ _) eqn:Hfind; [apply Hret|].
  destruct (requested_seats_cover rq d Hnd Hlen) as [Hdist Hcov].
  eapply hoare_conseq; [| |apply (hoare_submit u rq (requested_seats rq d) d)]; [by intros s [Hs _]|].
  intros _ s [Hs|Hs]; [by left|right]. exists u. split_and!; [done| |done].
  split_and!; [done..|]. intros t Ht. split; [by apply Hk|].
  specialize (Hcov t Ht). apply list_elem_of_fmap in Hcov as (row & -> & Hrow).
  pose proof (find_none_all _ _ Hfind row Hrow) as Hb. apply bool_decide_eq_false in Hb.
  apply list_elem_of_filter in Hrow as [[_ Hsch] Hin]. by exists row.
Qed.

(** A repeated request is answered and changes nothing.  When the user has used the
    idempotency key before and nothing fails, the answer is the payment request of the
    first time with its current status if the schedule and the bag of seats are the
    same, and a refusal otherwise; locks, prices and seats are not looked at and nothing
    is written. *)
Theorem repeated_request_changes_nothing authorization jwt_secret secret rq u p st :
  authenticated_user authorization jwt_secret = inl u → request_invalid rq = false → check_signature secret rq = None →
  w_faults (s_world st) = [] →
  head (filter (λ p, same_key u (rq_idempotency_key rq) p = true) (d_payments (s_db st))) = Some p →
  request_payment authorization jwt_secret secret rq st =
    (if bool_decide (pr_schedule_id p = rq_schedule_id rq ∧ pr_seat_ids p ≡ₚ rq_seat_ids rq)
     then inl (PaymentAccepted 202 (uuid_text (pr_id p)) (status_text (pr_status p)))
     else inr reused_key, st).
Proof.
  intros Hu Hinv Hsig Hf Hp. unfold request_payment. rewrite Hu, Hinv, Hsig.
  unfold mbind, St_bind. rewrite db_get_ok by done. cbn [negb].
  unfold existing_payment. rewrite db_query_ok by done. rewrite Hp.
  assert (same_intent_as rq p = bool_decide (pr_schedule_id p = rq_schedule_id rq ∧ pr_seat_ids p ≡ₚ rq_seat_ids rq)) as <-.
  { apply eq_true_iff_eq. rewrite bool_decide_eq_true. apply same_intent_iff. }
  by destruct (same_intent_as rq p).
Qed.
End requests.

(** ** Concrete runs *)

#[local] Existing Instance single_node_lock.

#[export] Instance plain_checkout : CheckoutLibs := {
  hmac_hex key text := (key +:+ text)%string;
  total_text prices := show_Z (foldr (λ p acc, default 0 (parse_Z p) + acc) 0 prices);
  total_paise prices := Some (100 * foldr (λ p acc, default 0 (parse_Z p) + acc) 0 prices);
  mock_suffix := show_Z;
  razorpay_order _ _ := inl "offline"%string;
  library_error := "error"%string
}.
#[export] Instance no_tokens : TokenDecoder := {| decode_sub _ _ := None |}.

Definition open_shop : processor mem_redis :=
  Processor (Site (Db [SeatRow 3 7 Available "100" some_place; SeatRow 9 7 Available "100" some_place] [] [] [] [] [] some_users {[7 := some_schedule 7]} [] 1 1 ∅ 1 1 1)
    locked_by_script (λ n, 1000 + Z.of_nat n) 0) [].

Definition seat_request (key : string) : payment_request := PaymentRequest 7 [3] key None None None.

(** The request of user 1 for seat 3, whose keys [locked_by_script] holds. *)
Definition first_answer : (payment_accepted + app_error) * site mem_redis :=
  request_payment (Some "Bearer mock_token") "secret" "secret" (seat_request "k") (pp_site open_shop).

Lemma payment_request_files_one_event_witness :
  first_answer.1 = inl (PaymentAccepted 202 "1000" "pending") ∧
  ∃ u, request_checked "secret" u (seat_request "k") (pp_site open_shop) ∧
    payment_filed u (seat_request "k") (s_db (pp_site open_shop)) (s_db first_answer.2).
Proof.
  split; [vm_compute; reflexivity|].
  assert (Hnd : NoDup (ss_id <$> d_seats (s_db (pp_site open_shop)))) by (apply (bool_decide_unpack _); vm_compute; exact I).
  assert (Hn : length (d_payments (s_db first_answer.2)) = 1%nat) by (vm_compute; reflexivity).
  destruct (payment_request_files_one_event (Some "Bearer mock_token") "secret" "secret" (seat_request "k") (pp_site open_shop) Hnd)
    as [He|(u & _ & Hc & Hp)].
  - exfalso. change (s_db first_answer.2 = s_db (pp_site open_shop)) in He. rewrite He in Hn. vm_compute in Hn. discriminate Hn.
  - exists u. split; [exact Hc|exact Hp].
Defined.

Lemma repeated_request_changes_nothing_witness :
  request_payment (Some "Bearer mock_token") "secret" "secret" (seat_request "k") first_answer.2 =
    (inl (PaymentAccepted 202 "1000" "pending"), first_answer.2).
Proof.
  assert (Hu : authenticated_user (Some "Bearer mock_token") "secret" = inl 1) by (vm_compute; reflexivity).
  assert (Hi : request_invalid (seat_request "k") = false) by (vm_compute; reflexivity).
  assert (Hs : check_signature "secret" (seat_request "k") = None) by (vm_compute; reflexivity).
  assert (Hf : w_faults (s_world first_answer.2) = []) by (vm_compute; reflexivity).
  assert (Hp : head (filter (λ p, same_key 1 (rq_idempotency_key (seat_request "k")) p = true) (d_payments (s_db first_answer.2)))
    = Some (PaymentRow 1000 "k" 1 7 [3] PsPending None)) by (vm_compute; reflexivity).
  pose proof (repeated_request_changes_nothing (Some "Bearer mock_token") "secret" "secret" (seat_request "k") 1 _ first_answer.2
    Hu Hi Hs Hf Hp) as H.
  rewrite bool_decide_eq_true_2 in H by (split; reflexivity). exact H.
Defined.
