(* ===== verification/HttpGuards.v ===== *)
(** * HttpGuards: what stands in front of the HTTP handlers
    ([middleware/rate_limit.rs], [middleware/auth.rs], [helpers/jwt.rs] and
    [helpers/errors.rs] of [apps/http-server/src])

    The rate limiter counts the requests of each [x-forwarded-for] header in windows of
    an hour that start with a request.  Times are milliseconds of the monotonic clock.
    Decoding a token is third-party code. *)

From stdpp Require Import gmap.
From S2P Require Import Prelude Text.

#[local] Open Scope string_scope.
#[local] Open Scope list_scope.
#[local] Open Scope Z_scope.

(** ** Errors *)

Inductive guard_error :=
  | BadRequest (m : string) | Unauthorized (m : string) | Forbidden (m : string) | NotFound (m : string)
  | Validation (m : string) | TooManyRequests (m : string) | Database (m : string) | Internal (m : string).

Definition opaque_text : string := "An unexpected internal error occurred. Please try again later.".

(** [into_response]: the status and the text of the body. *)
Definition into_response (e : guard_error) : Z * string :=
  match e with
  | BadRequest m => (400, m) | Unauthorized m => (401, m) | Forbidden m => (403, m) | NotFound m => (404, m)
  | Validation m => (422, m) | TooManyRequests m => (429, m)
  | Database _ | Internal _ => (500, opaque_text)
  end.

(** ** The rate limiter *)

Definition HOUR_MS : Z := 3600 * 1000.

(** [RATE_LIMITER]: the count and the start of the window of each client. *)
Abbreviation limiter := (gmap string (Z * Z)).

Definition rate_limiter (forwarded_for : option string) (now : Z) (m : limiter) : option guard_error * limiter :=
  let ip := default "unknown" forwarded_for in
  let '(count, timestamp) := default (0, now) (m !! ip) in
  let '(count, timestamp) := if HOUR_MS <? now - timestamp then (0, now) else (count, timestamp) in
  let count := u32 (count + 1) in
  (if 500 <? count then Some (TooManyRequests "Rate limit exceeded (500 requests per hour)") else None,
   <[ip := (count, timestamp)]> m).

(** Requests in the order the mutex admits them, and the log of those let through. *)
Definition limiter_step (s : list (string * Z) * limiter) (r : option string * Z) : list (string * Z) * limiter :=
  let '(e, m) := rate_limiter r.1 r.2 s.2 in
  (match e with None => s.1 ++ [(default "unknown" r.1, r.2)] | Some _ => s.1 end, m).
Definition limiter_run (rs : list (option string * Z)) : list (string * Z) * limiter := foldl limiter_step ([], ∅) rs.

(** The requests of client [k] let through from [lo] to [hi]. *)
Definition let_through (k : string) (lo hi : Z) (log : list (string * Z)) : Z :=
  Z.of_nat (length (filter (λ e, e.1 = k ∧ lo ≤ e.2 ≤ hi) log)).

(** ** Tokens *)

Record claims := Claims { cl_sub : string; cl_email : string; cl_role : string; cl_exp : Z }.
Class ClaimsDecoder := { decode_claims : string → string → option claims; decode_error : string }.

Section auth.
Context {HC : ClaimsDecoder}.

Definition decode_token (secret token : string) : claims + guard_error :=
  match decode_claims secret token with
  | Some c => inl c
  | None => inr (Unauthorized ("Invalid token: " +:+ decode_error))
  end.

(** The [authorization] header as text. *)
Definition auth_user (secret : string) (authorization : option string) : claims + guard_error :=
  match authorization with
  | None => inr (Unauthorized "Missing Authorization header")
  | Some h =>
      match strip_prefix "Bearer " h with
      | None => inr (Unauthorized "Authorization must use Bearer scheme")
      | Some token => decode_token secret token
      end
  end.

Definition admin_user (secret : string) (authorization : option string) : claims + guard_error :=
  match auth_user secret authorization with
  | inr e => inr e
  | inl c => if bool_decide (cl_role c ≠ "Admin") then inr (Forbidden "Admin access required") else inl c
  end.

Definition user_id_from_claims (c : claims) : Z + guard_error :=
  match parse_i32 (cl_sub c) with
  | Some u => inl u
  | None => inr (Internal "Malformed token subject")
  end.

(** An administration route runs with the claims of an administrator's token, and
    answers 401 or 403 otherwise. *)
Lemma admin_user_spec secret authorization :
  match admin_user secret authorization with
  | inl c => ∃ token, authorization = Some ("Bearer " +:+ token) ∧ decode_claims secret token = Some c ∧ cl_role c = "Admin"
  | inr e => (into_response e).1 ∈ [401; 403]
  end.
Proof.
  unfold admin_user, auth_user, decode_token.
  destruct authorization as [h|]; [|set_solver]. destruct (strip_prefix "Bearer " h) as [token|] eqn:Hs; [|set_solver].
  destruct (decode_claims secret token) as [c|] eqn:Hd; [|set_solver]. case_bool_decide as Hr; [set_solver|].
  exists token. split_and!; [|done|by destruct (decide (cl_role c = "Admin"))].
  by rewrite (strip_prefix_some _ _ _ Hs).
Qed.
End auth.

(** ** The limit *)

Lemma let_through_app k lo hi l l' : let_through k lo hi (l ++ l') = let_through k lo hi l + let_through k lo hi l'.
Proof. unfold let_through. rewrite filter_app, length_app. lia. Qed.

Lemma let_through_mono k lo hi lo' hi' l : lo' ≤ lo → hi ≤ hi' → let_through k lo hi l ≤ let_through k lo' hi' l.
Proof.
  intros H1 H2. unfold let_through. induction l as [|[k' t] l IH]; [done|]. rewrite !filter_cons.
  repeat case_decide; simpl in *; try lia.
  match goal with H : ¬ _ |- _ => exfalso; apply H; intuition lia end.
Qed.

(** The window of client [k]: its requests let through are those of earlier windows,
    of which at most 500 are from the hour before the window began, and at most 500 of
    this one. *)
Definition window_ok (k : string) (n : Z) (s : list (string * Z) * limiter) (now : Z) : Prop :=
  (∀ t, let_through k t (t + HOUR_MS) s.1 ≤ 1000) ∧ (∀ e, e ∈ s.1 → e.2 ≤ now) ∧
  match s.2 !! k with
  | None => ∀ lo hi, let_through k lo hi s.1 = 0
  | Some (count, ts) =>
      0 ≤ count ≤ n ∧ ts ≤ now ∧
      ∃ old cur, s.1 = old ++ cur ∧ (∀ e, e ∈ cur → ts ≤ e.2) ∧
        (∀ lo hi, let_through k lo hi cur ≤ Z.min 500 count) ∧ (∀ hi, let_through k (ts - HOUR_MS) hi old ≤ 500) ∧
        (∀ e, e ∈ old → e.2 ≤ ts)
  end.

Lemma let_through_one k lo hi key t :
  let_through k lo hi [(key, t)] = if decide (key = k ∧ lo ≤ t ≤ hi) then 1 else 0.
Proof. unfold let_through. rewrite filter_cons, filter_nil. simpl. by case_decide. Qed.

Lemma let_through_past k lo hi l : (∀ e, e ∈ l → e.2 < lo) → let_through k lo hi l = 0.
Proof.
  unfold let_through. induction l as [|e l IH]; [done|]. intros H. rewrite filter_cons.
  pose proof (H e ltac:(left)). rewrite decide_False by lia. apply IH. intros e' He'. apply H. by right.
Qed.

(** A request of another client. *)
Lemma window_ok_other k n A m key ok c now now' :
  key ≠ k → window_ok k n (A, m) now → now ≤ now' →
  window_ok k (n + 1) (if ok : bool then A ++ [(key, now')] else A, <[key := c]> m) now'.
Proof.
  intros Hne (Hmax & Hpast & Hk) Hnow. simpl in *.
  assert (∀ lo hi l, let_through k lo hi (l ++ [(key, now')]) = let_through k lo hi l) as Happ.
  { intros lo hi l. rewrite let_through_app, let_through_one, decide_False by naive_solver. lia. }
  split_and!; simpl.
  - intros t. destruct ok; rewrite ?Happ; apply Hmax.
  - intros e He. assert (e ∈ A ∨ e.2 = now') as [?%Hpast|]; [|lia..].
    destruct ok; [|by left]. apply elem_of_app in He as [|He%list_elem_of_singleton]; [by left|subst; by right].
  - rewrite lookup_insert_ne by done. destruct (m !! k) as [[count ts]|].
    + destruct Hk as (Hc & Hts & old & cur & -> & H1 & H2 & H3 & H4). split_and!; [lia..|].
      exists old, (if ok then cur ++ [(key, now')] else cur). split_and!; [by destruct ok; rewrite ?app_assoc| | |done..].
      * intros e He. destruct ok; [|by apply H1].
        apply elem_of_app in He as [|He%list_elem_of_singleton]; [by apply H1|subst; simpl; lia].
      * intros lo hi. destruct ok; rewrite ?Happ; apply H2.
    + intros lo hi. destruct ok; rewrite ?Happ; apply Hk.
Qed.

(** The first request of a window. *)
Lemma window_ok_fresh k n A m now now' :
  (∀ t, let_through k t (t + HOUR_MS) A ≤ 1000) → (∀ e, e ∈ A → e.2 ≤ now) → now ≤ now' → 0 ≤ n →
  (∀ hi, let_through k (now' - HOUR_MS) hi A ≤ 500) →
  window_ok k (n + 1) (A ++ [(k, now')], <[k := (1, now')]> m) now'.
Proof.
  intros Hmax Hpast Hnow Hn Hold. split_and!; simpl.
  - intros t. rewrite let_through_app, let_through_one. specialize (Hmax t). case_decide as Hd; [|lia].
    pose proof (let_through_mono k t (t + HOUR_MS) (now' - HOUR_MS) (t + HOUR_MS) A ltac:(unfold HOUR_MS in *; lia) ltac:(lia)).
    specialize (Hold (t + HOUR_MS)). lia.
  - intros e [He%Hpast|He%list_elem_of_singleton]%elem_of_app; [lia|by subst].
  - rewrite lookup_insert_eq. split_and!; [lia..|]. exists A, [(k, now')]. split_and!; [done| | |done|].
    + by intros e ->%list_elem_of_singleton.
    + intros lo hi. rewrite let_through_one. case_decide; lia.
    + intros e He%Hpast. lia.
Qed.

(** One more request of the window. *)
Lemma window_ok_next k n A m count ts now now' :
  m !! k = Some (count, ts) → window_ok k n (A, m) now → now ≤ now' → now' - ts ≤ HOUR_MS →
  window_ok k (n + 1) (if 500 <? count + 1 then A else A ++ [(k, now')], <[k := (count + 1, ts)]> m) now'.
Proof.
  intros Hm (Hmax & Hpast & Hk) Hnow Hh. simpl in *. rewrite Hm in Hk.
  destruct Hk as (Hc & Hts & old & cur & -> & H1 & H2 & H3 & H4). destruct (500 <? count + 1) eqn:E.
  - split_and!; simpl; [done|intros e He%Hpast; lia|]. rewrite lookup_insert_eq. split_and!; [lia..|].
    exists old, cur. split_and!; [done..| |done|done]. intros lo hi. specialize (H2 lo hi). lia.
  - apply Z.ltb_ge in E. split_and!; simpl.
    + intros t. rewrite !let_through_app, let_through_one. specialize (Hmax t). rewrite let_through_app in Hmax.
      case_decide as Hd; [|lia]. specialize (H2 t (t + HOUR_MS)). specialize (H3 (t + HOUR_MS)).
      pose proof (let_through_mono k t (t + HOUR_MS) (ts - HOUR_MS) (t + HOUR_MS) old ltac:(lia) ltac:(lia)). lia.
    + intros e [He%Hpast|He%list_elem_of_singleton]%elem_of_app; [lia|by subst].
    + rewrite lookup_insert_eq. split_and!; [lia..|]. exists old, (cur ++ [(k, now')]). split_and!; [by rewrite app_assoc| | |done|done].
      * intros e [He|He%list_elem_of_singleton]%elem_of_app; [by apply H1|subst; simpl; lia].
      * intros lo hi. rewrite let_through_app, let_through_one. specialize (H2 lo hi). case_decide; lia.
Qed.

(** One request, from a state that satisfies the invariant. *)
Lemma window_ok_step k n s ip now now' :
  window_ok k n s now → now ≤ now' → 0 ≤ n < 2 ^ 32 - 1 → window_ok k (n + 1) (limiter_step s (ip, now')) now'.
Proof.
  destruct s as [A m]. intros Hok Hnow Hn. unfold limiter_step, rate_limiter. cbn [fst snd].
  set (key := default "unknown" ip). destruct (decide (key = k)) as [->|Hne].
  2:{ assert (∀ ok c, window_ok k (n + 1) (if ok : bool then A ++ [(key, now')] else A, <[key := c]> m) now') as Hother
        by (intros ok c; by eapply window_ok_other).
      destruct (default (0, now') (m !! key)) as [count ts]. destruct (HOUR_MS <? now' - ts).
      - exact (Hother true _).
      - destruct (500 <? u32 (count + 1)); [exact (Hother false _)|exact (Hother true _)]. }
  change (u32 (0 + 1)) with 1. pose proof Hok as (Hmax & Hpast & Hk). cbn [fst snd] in *.
  destruct (m !! k) as [[count ts]|] eqn:Hm; cbn [default from_option id].
  - destruct (HOUR_MS <? now' - ts) eqn:E.
    + apply Z.ltb_lt in E. apply (window_ok_fresh k n A m now now'); [done..|lia|].
      destruct Hk as (Hc & Hts & old & cur & -> & H1 & H2 & H3 & H4). intros hi.
      rewrite let_through_app, (let_through_past k _ hi old); [specialize (H2 (now' - HOUR_MS) hi); lia|].
      intros e He%H4. unfold HOUR_MS in *. lia.
    + apply Z.ltb_ge in E. assert (0 ≤ count ≤ n) as Hc by tauto.
      assert (u32 (count + 1) = count + 1) as -> by (apply wrap_u_small; unfold in_u; lia).
      pose proof (window_ok_next k n A m count ts now now' Hm Hok Hnow E) as H. by destruct (500 <? count + 1).
  - rewrite Z.sub_diag. change (HOUR_MS <? 0) with false. change (u32 (0 + 1)) with 1.
    apply (window_ok_fresh k n A m now now'); [done..|lia|]. intros hi. rewrite Hk. lia.
Qed.

(** The times of a run never go back. *)
Fixpoint clock_order (l : list Z) : bool :=
  match l with
  | x :: l' => match l' with y :: _ => (x <=? y) && clock_order l' | [] => true end
  | [] => true
  end.

Lemma clock_order_le x l : clock_order (x :: l) = true → clock_order l = true ∧ Forall (Z.le x) l.
Proof.
  revert x. induction l as [|y l IH]; intros x; [by split|]. cbn [clock_order].
  rewrite andb_true_iff, Z.leb_le. intros [Hxy Hl]. split; [done|]. constructor; [done|].
  eapply Forall_impl; [by apply IH|]. simpl. lia.
Qed.

(** The limiter lets at most 1000 requests of a client through in any hour, and counts
    500 per window of its own: in a run of fewer than 2^32 requests, at any times in the
    order of the clock, every closed interval of an hour contains at most 1000 requests of
    a client that were let through. *)
Theorem limiter_bounds_every_hour k rs t :
  clock_order (map snd rs) = true → Z.of_nat (length rs) < 2 ^ 32 →
  let_through k t (t + HOUR_MS) (limiter_run rs).1 ≤ 1000.
Proof.
  intros Hs Hn. unfold limiter_run.
  assert (∀ n s now, window_ok k n s now → 0 ≤ n → n + Z.of_nat (length rs) < 2 ^ 32 →
    Forall (λ r, now ≤ r.2) rs → clock_order (map snd rs) = true →
    ∀ t, let_through k t (t + HOUR_MS) (foldl limiter_step s rs).1 ≤ 1000) as H.
  { clear. induction rs as [|[ip now'] rs IH]; intros n s now Hok H0 Hn Hall Hs; [apply Hok|]. simpl in *.
    apply Forall_cons in Hall as [Hnow _]. apply clock_order_le in Hs as [Hs Hle].
    apply (IH (n + 1) _ now'); [apply (window_ok_step k n s ip now); [done|done|lia]|lia|lia| |done].
    by rewrite Forall_map in Hle. }
  destruct rs as [|[ip now] rs]; [vm_compute; discriminate|].
  apply (H 0 _ now); [|lia|lia| |done].
  - split_and!; simpl; [intros t'; vm_compute; discriminate|by intros e He%elem_of_nil|]. by rewrite lookup_empty.
  - simpl in Hs. apply clock_order_le in Hs as [_ Hle]. constructor; [simpl; lia|].
    by rewrite Forall_map in Hle.
Qed.

(** *** A client that waits for the end of its window: 999 requests within two
    milliseconds *)

Definition burst : list (option string * Z) :=
  (Some "1.2.3.4", 0) :: replicate 499 (Some "1.2.3.4", HOUR_MS) ++ replicate 600 (Some "1.2.3.4", HOUR_MS + 1).

Lemma limiter_bounds_every_hour_witness :
  let_through "1.2.3.4" HOUR_MS (HOUR_MS + 1) (limiter_run burst).1 = 999 ∧
  let_through "1.2.3.4" 1 (1 + HOUR_MS) (limiter_run burst).1 ≤ 1000.
Proof.
  split; [vm_compute; reflexivity|].
  assert (clock_order (map snd burst) = true) as Hs by (vm_compute; reflexivity).
  assert (Z.of_nat (length burst) < 2 ^ 32) as Hn by (vm_compute; reflexivity).
  pose proof (limiter_bounds_every_hour "1.2.3.4" burst 1 Hs Hn) as H. exact H.
Defined.

(** ** The routes

    The tables of [admin_routes], [user_routes], [auth_routes] and [internal_routes], and the
    nests of [main].  A guard stands in front of a whole table.  The matcher of paths is
    axum's: the class [PathRouter]. *)

(** A pattern and its handlers by method. *)
Abbreviation routes := (list (string * list (string * string))).

Definition admin_routes : routes := [
  ("/upload", [("POST", "upload::upload_file")]);
  ("/stats", [("GET", "stats::get_stats")]);
  ("/categories", [("GET", "categories::list_categories"); ("POST", "categories::create_category")]);
  ("/categories/:id", [("GET", "categories::get_category"); ("PUT", "categories::update_category"); ("DELETE", "categories::delete_category")]);
  ("/cities", [("GET", "cities::list_distinct_cities")]);
  ("/shows", [("GET", "shows::list_shows"); ("POST", "shows::create_show")]);
  ("/shows/:id", [("GET", "shows::get_show"); ("PUT", "shows::update_show"); ("DELETE", "shows::delete_show")]);
  ("/layouts", [("GET", "layouts::list_layouts"); ("POST", "layouts::create_layout")]);
  ("/layouts/:id", [("GET", "layouts::get_layout"); ("PUT", "layouts::update_layout"); ("DELETE", "layouts::delete_layout")]);
  ("/layouts/:id/seats", [("GET", "layouts::get_layout_seats"); ("POST", "layouts::add_seats_to_layout")]);
  ("/schedules", [("GET", "schedules_v2::list_schedules"); ("POST", "schedules_v2::create_schedule")]);
  ("/schedules/:id", [("GET", "schedules_v2::get_schedule"); ("PUT", "schedules_v2::update_schedule"); ("DELETE", "schedules_v2::delete_schedule")]);
  ("/schedules/:id/seats", [("GET", "schedules_v2::get_schedule_seats"); ("POST", "schedules_v2::add_extra_seats"); ("PUT", "schedules_v2::update_schedule_seats")]);
  ("/schedules/:id/start", [("POST", "schedules_v2::start_schedule")]);
  ("/schedules/:id/close", [("POST", "schedules_v2::close_schedule")])].

Definition user_routes : routes := [
  ("/payments", [("POST", "payments::request_payment")]);
  ("/payments/razorpay-order", [("POST", "payments::create_razorpay_order")]);
  ("/payments/checkout-summary", [("POST", "payments::get_checkout_summary")]);
  ("/orders/:id/cancel", [("POST", "payments::cancel_order")]);
  ("/tickets/:id", [("GET", "tickets::get_ticket_details")]);
  ("/tickets/:id/pdf", [("GET", "tickets::download_ticket_pdf")]);
  ("/me/tickets", [("GET", "tickets::get_user_tickets")]);
  ("/schedules_v2", [("GET", "schedules_v2::list_active_schedules")]);
  ("/schedules_v2/:id", [("GET", "schedules_v2::get_schedule_details")]);
  ("/schedules_v2/:id/seats", [("GET", "schedules_v2::get_schedule_seats")]);
  ("/schedules_v2/:id/my-locks", [("GET", "schedules_v2::get_my_locked_seats")]);
  ("/schedules_v2/show/:show_id", [("GET", "schedules_v2::get_schedules_for_show")]);
  ("/shows", [("GET", "shows::list_shows")]);
  ("/shows/grid", [("GET", "shows::list_shows_grid")]);
  ("/shows/:id", [("GET", "shows::get_show_details")]);
  ("/movies", [("GET", "movies::get_movies")]);
  ("/categories", [("GET", "categories::list_categories")]);
  ("/cities", [("GET", "shows::get_cities")])].

Definition auth_routes : routes := [
  ("/signup", [("POST", "signup")]); ("/login", [("POST", "login")]); ("/google", [("POST", "google_login")]); ("/me", [("GET", "me")]);
  ("/admin/reset-request", [("POST", "password_reset::reset_request")]);
  ("/admin/reset-confirm", [("POST", "password_reset::reset_confirm")])].

Definition internal_routes : routes := [("/tickets/generate-pdf", [("POST", "generate_pdf_ticket")])].

(** The guard of a table: [from_extractor::<AdminUser>], the rate limiter, or none. *)
Inductive guard := NoGuard | AdminGuard | LimitGuard.

(** A route of the server: its pattern, its guard, its module and its handlers by method.
    Handlers of different modules may share a name. *)
Record endpoint := Endpoint { ep_pattern : string; ep_guard : guard; ep_module : string; ep_methods : list (string * string) }.
Definition nest (prefix : string) (g : guard) (module : string) (rs : routes) : list endpoint :=
  (λ r, Endpoint (prefix +:+ r.1) g module r.2) <$> rs.

Definition http_routes : list endpoint :=
  [Endpoint "/health" NoGuard "main" [("GET", "health")]]
  ++ nest "/api/internal" NoGuard "internal" internal_routes
  ++ nest "/api/auth" NoGuard "auth" auth_routes
  ++ nest "/api/admin" AdminGuard "admin" admin_routes
  ++ nest "/api/user" LimitGuard "user" user_routes.

(** A path fits a pattern segment by segment; a parameter fits what is not empty. *)
Fixpoint segments_fit (pattern path : list string) : bool :=
  match pattern, path with
  | [], [] => true
  | p :: pattern, s :: path =>
      (if starts_with ":" p then negb (is_empty s) else bool_decide (p = s)) && segments_fit pattern path
  | _, _ => false
  end.
Definition slash : Ascii.ascii := Ascii.ascii_of_nat 47.
Definition fits (pattern path : string) : bool := segments_fit (split_on slash pattern) (split_on slash path).

(** The matcher finds a pattern that fits, if there is one (which one, when several fit, is
    its own rule). *)
Class PathRouter := {
  pick : list string → string → option nat;
  pick_some ps path i : pick ps path = Some i → ∃ p, ps !! i = Some p ∧ fits p path = true;
  pick_none ps path : pick ps path = None → Forall (λ p, fits p path = false) ps
}.

Record http_arrival := HttpArrival { ar_method : string; ar_path : string; ar_authorization : option string; ar_forwarded_for : option string }.

(** What becomes of a request: no route or no such method there, refused by the guard, or run
    by a handler of a module. *)
Inductive served := NoRoute | NoMethod | RefusedBy (e : guard_error) | RunBy (module handler : string).

(** [get] serves HEAD requests, too. *)
Definition method_is (requested : string) (m : string * string) : bool :=
  bool_decide (m.1 = requested) || (bool_decide (m.1 = "GET") && bool_decide (requested = "HEAD")).
Definition run_method (ep : endpoint) (requested : string) : served :=
  match list_find (λ m, method_is requested m = true) (ep_methods ep) with
  | Some (_, m) => RunBy (ep_module ep) m.2
  | None => NoMethod
  end.

Section dispatch.
Context {HC : ClaimsDecoder} `{!PathRouter}.

Definition dispatch (secret : string) (now : Z) (q : http_arrival) (m : limiter) : served * limiter :=
  match pick (ep_pattern <$> http_routes) (ar_path q) ≫= λ i, http_routes !! i with
  | None => (NoRoute, m)
  | Some ep =>
      match ep_guard ep with
      | NoGuard => (run_method ep (ar_method q), m)
      | AdminGuard =>
          match admin_user secret (ar_authorization q) with
          | inr e => (RefusedBy e, m)
          | inl _ => (run_method ep (ar_method q), m)
          end
      | LimitGuard =>
          let '(e, m) := rate_limiter (ar_forwarded_for q) now m in
          (match e with Some e => RefusedBy e | None => run_method ep (ar_method q) end, m)
      end
  end.

Lemma run_method_by ep requested module h : run_method ep requested = RunBy module h → module = ep_module ep ∧ h ∈ (ep_methods ep).*2.
Proof.
  unfold run_method. destruct (list_find _ _) as [[i m]|] eqn:Hf; [|done]. intros [= <- <-]. split; [done|].
  apply list_find_Some in Hf as (Hi & _ & _). apply list_elem_of_fmap. exists m. split; [done|]. by eapply list_elem_of_lookup_2.
Qed.

Lemma run_method_served ep requested : run_method ep requested ≠ NoRoute ∧ ∀ e, run_method ep requested ≠ RefusedBy e.
Proof. unfold run_method. by destruct (list_find _ _) as [[]|]. Qed.

(** Each module stands behind its guard. *)
Definition guard_of (module : string) : guard :=
  if bool_decide (module = "admin") then AdminGuard else if bool_decide (module = "user") then LimitGuard else NoGuard.
Lemma routes_guarded ep : ep ∈ http_routes → ep_guard ep = guard_of (ep_module ep).
Proof.
  intros Hep. assert (Forall (λ ep, ep_guard ep = guard_of (ep_module ep)) http_routes) as Hall by (repeat constructor).
  by apply (proj1 (Forall_forall _ _) Hall).
Qed.

(** C9: Nothing runs before its guard.  A handler of the administration runs only for a request
    whose bearer token decodes, with the secret of the server, to claims of the role Admin; a
    handler of the user routes only for a client within its limit, whose request is counted;
    a refusal is 401 or 403, from the administration, or 429; there is no route for a request
    exactly when no pattern fits its path, so that what runs is a handler of a route that
    fits; and a request of an administrator whose path fits a route of the administration
    and no other is served there. *)
Theorem administration_is_guarded secret now q m :
  match (dispatch secret now q m).1 with
  | RunBy module h =>
      (∃ ep, ep ∈ http_routes ∧ fits (ep_pattern ep) (ar_path q) = true ∧ module = ep_module ep ∧ h ∈ (ep_methods ep).*2) ∧
      (module = "admin" → ∃ token c, ar_authorization q = Some ("Bearer " +:+ token) ∧ decode_claims secret token = Some c ∧ cl_role c = "Admin") ∧
      (module = "user" → (rate_limiter (ar_forwarded_for q) now m).1 = None ∧ (dispatch secret now q m).2 = (rate_limiter (ar_forwarded_for q) now m).2)
  | RefusedBy e => (into_response e).1 ∈ [401; 403; 429]
  | NoRoute | NoMethod => True
  end ∧
  ((dispatch secret now q m).1 = NoRoute ↔ Forall (λ ep, fits (ep_pattern ep) (ar_path q) = false) http_routes) ∧
  (∀ ep c, ep ∈ http_routes → fits (ep_pattern ep) (ar_path q) = true →
     (∀ ep', ep' ∈ http_routes → fits (ep_pattern ep') (ar_path q) = true → ep' = ep) →
     ep_guard ep = AdminGuard → admin_user secret (ar_authorization q) = inl c →
     dispatch secret now q m = (run_method ep (ar_method q), m)).
Proof.
  assert (∀ i, pick (ep_pattern <$> http_routes) (ar_path q) = Some i →
    ∃ ep, http_routes !! i = Some ep ∧ ep ∈ http_routes ∧ fits (ep_pattern ep) (ar_path q) = true) as Hpick.
  { intros i (p & Hp & Hf)%pick_some. rewrite list_lookup_fmap in Hp. destruct (http_routes !! i) as [ep|] eqn:Hi; simplify_eq/=.
    exists ep. split; [done|]. split; [by eapply list_elem_of_lookup_2|done]. }
  unfold dispatch. destruct (pick _ (ar_path q)) as [i|] eqn:Hi.
  - destruct (Hpick i eq_refl) as (ep & Hl & Hin & Hfit). cbn [mbind option_bind]. rewrite Hl.
    pose proof (routes_guarded ep Hin) as Hg. pose proof (run_method_served ep (ar_method q)) as Hne.
    assert (Forall (λ ep, fits (ep_pattern ep) (ar_path q) = false) http_routes → False) as Hno
      by (rewrite Forall_forall; intros Hall; specialize (Hall ep Hin); simpl in Hall; congruence).
    split; [|split; [split; [|by intros []%Hno]|]].
    + destruct (ep_guard ep) eqn:E.
      * destruct (run_method ep _) as [| | |module h] eqn:Hr; simpl; try done; [by destruct (proj2 Hne _ eq_refl)|].
        apply run_method_by in Hr as [-> ?]. split; [by exists ep|]. split; intros Hm; rewrite Hm in Hg; done.
      * pose proof (admin_user_spec secret (ar_authorization q)) as Ha.
        destruct (admin_user secret _) as [c|e]; simpl; [|set_solver].
        destruct (run_method ep _) as [| | |module h] eqn:Hr; simpl; try done; [by destruct (proj2 Hne _ eq_refl)|].
        apply run_method_by in Hr as [-> ?]. split; [by exists ep|]. split; [|intros Hm; rewrite Hm in Hg; done]. intros _.
        destruct Ha as (token & ? & ? & ?). by exists token, c.
      * destruct (rate_limiter _ now m) as [[e|] m'] eqn:Hl'; simpl.
        { unfold rate_limiter in Hl'. repeat case_match; simplify_eq/=; set_solver. }
        destruct (run_method ep _) as [| | |module h] eqn:Hr; simpl; try done; [by destruct (proj2 Hne _ eq_refl)|].
        apply run_method_by in Hr as [-> ?]. split; [by exists ep|]. split; [intros Hm; rewrite Hm in Hg; done|done].
    + destruct (ep_guard ep); [by intros ?%Hne|destruct (admin_user secret _); [by intros ?%Hne|done]|].
      destruct (rate_limiter _ now m) as [[e|] m']; [done|by intros ?%Hne].
    + intros ep' c Hin' Hf' Hu Hga Hc. rewrite <-(Hu ep Hin Hfit) in *. by rewrite Hga, Hc.
  - cbn [mbind option_bind]. pose proof (pick_none _ _ Hi) as Hn. rewrite Forall_fmap in Hn. split; [done|]. split; [done|].
    intros ep c Hin Hf. rewrite Forall_forall in Hn. specialize (Hn ep Hin). simpl in Hn. congruence.
Qed.
End dispatch.

(** *** A router that takes the first pattern that fits, and tokens that are the secret and a
    role *)

Lemma first_fit_some (ps : list string) path i :
  fst <$> list_find (λ p, fits p path = true) ps = Some i → ∃ p, ps !! i = Some p ∧ fits p path = true.
Proof. intros ([j p] & (Hj & Hf & _)%list_find_Some & [= <-])%fmap_Some. by exists p. Qed.
Lemma first_fit_none (ps : list string) path :
  fst <$> list_find (λ p, fits p path = true) ps = None → Forall (λ p, fits p path = false) ps.
Proof. rewrite fmap_None, list_find_None. intros H. eapply Forall_impl; [exact H|]. intros p Hp. by apply not_true_is_false. Qed.
Definition first_fit : PathRouter :=
  {| pick := λ ps path, fst <$> list_find (λ p, fits p path = true) ps; pick_some := first_fit_some; pick_none := first_fit_none |}.
Definition role_tokens : ClaimsDecoder :=
  {| decode_claims := λ secret token, (λ role, Claims "1" "a@b" role 0) <$> strip_prefix (secret +:+ "/") token; decode_error := "bad" |}.

Lemma administration_is_guarded_witness :
  let q role := HttpArrival "DELETE" "/api/admin/shows/7" (Some ("Bearer s/" +:+ role)) None in
  let run q := @dispatch role_tokens first_fit "s" 0 q ∅ in
  (run (q "Admin")).1 = RunBy "admin" "shows::delete_show" ∧
  (run (q "User")).1 = RefusedBy (Forbidden "Admin access required") ∧
  (∃ token c, ar_authorization (q "Admin") = Some ("Bearer " +:+ token) ∧ @decode_claims role_tokens "s" token = Some c ∧ cl_role c = "Admin").
Proof.
  intros q run. split_and!; [reflexivity|reflexivity|].
  exact (proj1 (proj2 (proj1 (@administration_is_guarded role_tokens first_fit "s" 0 (q "Admin") ∅))) eq_refl).
Defined.
