(* ===== verification/HttpAuth.v ===== *)
(** * HttpAuth: accounts ([apps/http-server/src/api/auth.rs],
    [apps/http-server/src/api/admin/password_reset.rs])

    Sign-up, login, Google login, and the password reset of administrators.  bcrypt and
    the encoding of tokens are fields of [AuthLibs]; the salt that [hash] draws and what
    Google answers are arguments of the handlers. *)

From stdpp Require Import gmap.
From S2P Require Import Prelude Text Redis SeatLock Db HttpCache HttpGuards.

#[local] Open Scope string_scope.
#[local] Open Scope list_scope.
#[local] Open Scope Z_scope.

Class AuthLibs := {
  bcrypt_hash : Z → string → option string;          (* bcrypt::hash, by the salt *)
  bcrypt_verify : string → string → option bool;     (* bcrypt::verify *)
  encode_claims : string → claims → option string;   (* jsonwebtoken::encode *)
  uuid_hyphenated : Z → string;                      (* Uuid::to_string *)
  uuid_simple : Z → string                           (* Uuid::simple *)
}.

(** ** Requests and answers *)

Record signup_request := SignupRequest { sg_email : string; sg_password : string; sg_role : option string }.
Record login_request := LoginRequest { lg_email : string; lg_password : string }.
Record google_token_info := GoogleTokenInfo { gt_aud : string; gt_email : string; gt_email_verified : string; gt_exp : string }.
Record reset_confirm_payload := ResetConfirmPayload { rc_email : string; rc_token : string; rc_new_password : string }.

Record user_public := UserPublic { pu_id : Z; pu_email : string; pu_role : string }.
Record auth_response := AuthResponse { ar_token : string; ar_user : user_public }.

(** The status and the text of an error. *)
Abbreviation auth_error := (Z * string)%type.

Definition role_name (r : user_role) : string := match r with RoleUser => "User" | RoleAdmin => "Admin" end.
Definition to_public (u : user_row) : user_public := UserPublic (u_id u) (u_email u) (role_name (u_role u)).

(** ** The table [users] *)

Definition user_by_email (email : string) (d : db) : option user_row :=
  head (filter (λ u, u_email u = email) (map snd (map_to_list (d_users d)))).

(** [INSERT INTO users .. RETURNING *]; [email] is unique. *)
Definition insert_user (email password_hash : string) (role : user_role) (d : db) : option (user_row * db) :=
  let '(id, d) := next_user_id d in
  match user_by_email email d with
  | Some _ => None
  | None => let u := User id email password_hash role in Some (u, with_users <[id := u]> d)
  end.

(** [UPDATE users SET password_hash WHERE email]: the number of rows. *)
Definition set_hash (email h : string) (u : user_row) : user_row :=
  if decide (u_email u = email) then User (u_id u) (u_email u) h (u_role u) else u.
Definition update_password (email h : string) (d : db) : option (nat * db) :=
  Some (length (filter (λ u, u_email u = email) (map snd (map_to_list (d_users d)))),
        with_users (fmap (set_hash email h)) d).

Definition contains_at (s : string) : bool := existsb (λ a, Ascii.eqb a (Ascii.ascii_of_nat 64)) (String.list_ascii_of_string s).

Definition WEEK_SECS : Z := 7 * 24 * 3600.
Definition RESET_TTL_SECS : Z := 60 * 15.
Definition reset_key (email : string) : string := "admin:pwd_reset:" +:+ email.

Section handlers.
Context {D : Type} `{!RedisServer D} {HC : ClaimsDecoder} {HA : AuthLibs}.
Abbreviation S := (St (site D)).

Definition create_jwt (u : user_row) (secret : string) : S (option string) :=
  now ← redis_of now_secs;
  mret (encode_claims secret (Claims (show_Z (u_id u)) (u_email u) (role_name (u_role u)) (now + WEEK_SECS))).

(** The token of an account, as the three logins answer it. *)
Definition answer_with (u : user_row) (secret failure : string) : S (auth_response + auth_error) :=
  token ←? or_err (500, failure) (create_jwt u secret);
  mret (inl (AuthResponse token (to_public u))).

Definition connection : S (unit + auth_error) :=
  conn ← db_get; check conn (500, "Database connection failed.").

Definition signup (secret : string) (salt : Z) (payload : signup_request) : S (auth_response + auth_error) :=
  if is_empty (trim (sg_email payload)) then mret (inr (400, "Email address is required."))
  else if negb (contains_at (sg_email payload)) then mret (inr (400, "Please enter a valid email address."))
  else if Z.of_nat (String.length (sg_password payload)) <? 6 then mret (inr (400, "Password must be at least 6 characters."))
  else
    _ ←? connection;
    existing ← db_query (user_by_email (sg_email payload));
    _ ←? check (bool_decide (default None existing = None)) (409, "An account with this email already exists.");
    hashed ←? or_err (500, "Failed to process password.") (mret (bcrypt_hash salt (sg_password payload)));
    let user_role := if decide (sg_role payload = Some "admin") then RoleAdmin else RoleUser in
    user ←? or_err (500, "Failed to create account.") (db_run (insert_user (sg_email payload) hashed user_role));
    answer_with user secret "Account created but token failed.".

Definition login (secret : string) (payload : login_request) : S (auth_response + auth_error) :=
  if is_empty (trim (lg_email payload)) then mret (inr (400, "Email address is required."))
  else if is_empty (lg_password payload) then mret (inr (400, "Password is required."))
  else
    _ ←? connection;
    found ← db_query (user_by_email (lg_email payload));
    user ←? or_err (401, "No account found with that email.") (mret (default None found));
    valid ←? or_err (500, "Failed to verify password.") (mret (bcrypt_verify (lg_password payload) (u_password_hash user)));
    _ ←? check valid (401, "Incorrect password.");
    answer_with user secret "Login succeeded but token failed.".

(** [token_info]: the answer of Google, [None] when there is none, with its success and
    its body when that decodes. *)
Definition google_login (secret : string) (client_id : option string) (credential : string)
    (token_info : option (bool * option google_token_info)) (salt : Z) : S (auth_response + auth_error) :=
  client_id ←? or_err (503, "Google login is not configured.") (mret client_id);
  if is_empty (trim credential) then mret (inr (400, "Google credential is required."))
  else
    token_info ←? or_err (502, "Google token verification failed.") (mret token_info);
    _ ←? check token_info.1 (401, "Invalid Google credential.");
    claims ←? or_err (401, "Invalid Google token response.") (mret token_info.2);
    let expires_at := default 0 (x ← parse_Z (gt_exp claims); if bool_decide (in_s 64 x) then Some x else None) in
    now ← redis_of now_secs;
    _ ←? check (bool_decide (gt_aud claims = client_id) && bool_decide (gt_email_verified claims = "true") && (now <? expires_at))
           (401, "Google credential validation failed.");
    let normalized_email := string_lower (trim (gt_email claims)) in
    _ ←? connection;
    found ←? or_err (500, "Failed to find account.") (db_query (user_by_email normalized_email));
    user ←? (match found with
             | Some user => mret (inl user)
             | None =>
                 random_password ← new_v4;
                 password_hash ←? or_err (500, "Failed to initialize Google account.")
                                    (mret (bcrypt_hash salt (uuid_hyphenated random_password)));
                 or_err (500, "Failed to create Google account.") (db_run (insert_user normalized_email password_hash RoleUser))
             end);
    answer_with user secret "Google login succeeded but token creation failed.".

Definition me (secret : string) (authorization : option string) : (string * string * string) + guard_error :=
  match auth_user secret authorization with
  | inl c => inl (cl_sub c, cl_email c, cl_role c)
  | inr e => inr e
  end.

(** ** Password reset *)

Definition reset_request (email : string) : S (string + auth_error) :=
  if is_empty (trim email) then mret (inr (400, "Email is required."))
  else
    _ ←? connection;
    found ← db_query (user_by_email email);
    user ←? or_err (404, "No admin account found with that email.") (mret (default None found));
    _ ←? check (bool_decide (u_role user = RoleAdmin)) (403, "No admin account found with that email.");
    token ← new_v4;
    _ ←? or_err (500, "Cache error.") (redis_of (node_cmd 0 (cmd_setex (reset_key email) (uuid_simple token) RESET_TTL_SECS)));
    mret (inl (uuid_simple token)).

Definition reset_confirm (salt : Z) (payload : reset_confirm_payload) : S (unit + auth_error) :=
  if Z.of_nat (String.length (rc_new_password payload)) <? 8 then mret (inr (400, "Password must be at least 8 characters."))
  else
    let key := reset_key (rc_email payload) in
    stored ←? or_err (500, "Cache error.") (redis_of (node_cmd 0 (cmd_get key)));
    stored_token ←? or_err (410, "Reset token not found or has expired. Please request a new one.") (mret stored);
    _ ←? check (bool_decide (stored_token = rc_token payload)) (401, "Invalid reset token.");
    hashed ←? or_err (500, "Failed to hash password.") (mret (bcrypt_hash salt (rc_new_password payload)));
    _ ←? connection;
    updated ←? or_err (500, "Failed to update password.") (db_run (update_password (rc_email payload) hashed));
    _ ←? check (negb (updated =? 0)%nat) (404, "User not found.");
    redis_of (node_cmd 0 (cmd_del key)) ;;
    mret (inl tt).
End handlers.
