(* ===== verification/HttpAuthProps.v ===== *)
(** * HttpAuthProps: who can become an administrator, and what changes a password *)

From stdpp Require Import gmap.
From S2P Require Import Prelude Text Redis RedisMem SeatLock Db HttpCache HttpGuards HttpAuth.

#[local] Open Scope string_scope.
#[local] Open Scope list_scope.
#[local] Open Scope Z_scope.

(** A password verifies against its own hash, and a token decodes under the secret it was
    encoded with, as long as it has not expired. *)
Class AuthLaws {HC : ClaimsDecoder} (HA : AuthLibs) := {
  verify_hash salt p h : bcrypt_hash salt p = Some h → bcrypt_verify p h = Some true;
  decode_encoded secret c t : encode_claims secret c = Some t → decode_claims secret t = Some c
}.

Section runs.
Context {D : Type} `{!RedisServer D} `{!RedisLaws D} {HC : ClaimsDecoder} {HA : AuthLibs} {HL : AuthLaws HA}.
Implicit Types (st : site D) (u : user_row).

Lemma answer_with_ok u secret m st token :
  encode_claims secret (Claims (show_Z (u_id u)) (u_email u) (role_name (u_role u)) (w_now (s_world st) / 1000 + WEEK_SECS)) = Some token →
  answer_with u secret m st = (inl (AuthResponse token (to_public u)), st).
Proof.
  intros H. unfold answer_with. erewrite and_then_step; [reflexivity|]. apply or_err_step. unfold create_jwt.
  destruct st as [d [ns t fl lg] us k]. simpl in *. unfold mbind, St_bind. simpl. unfold mret, St_ret. by rewrite H.
Qed.

(** The token of an account opens what its role opens. *)
Lemma token_opens u secret token t :
  encode_claims secret (Claims (show_Z (u_id u)) (u_email u) (role_name (u_role u)) t) = Some token →
  u_role u = RoleAdmin →
  admin_user secret (Some ("Bearer " +:+ token)) = inl (Claims (show_Z (u_id u)) (u_email u) "Admin" t).
Proof.
  intros H Hr. unfold admin_user, auth_user, decode_token. rewrite strip_prefix_app, (decode_encoded _ _ _ H), Hr. done.
Qed.

Lemma connection_ok st : w_faults (s_world st) = [] → connection st = (inl tt, st).
Proof. intros Hf. unfold connection. by rewrite (bind_step _ _ _ _ _ (db_get_ok st Hf)). Qed.

Lemma mret_ok {A} (a : A) st : (mret a : St (site D) A) st = (a, st).
Proof. done. Qed.

(** Anybody can become an administrator.  A sign-up that asks for the role "admin", for
    an e-mail address without an account, is answered with a token that the administration
    routes accept. *)
Theorem signup_grants_admin secret salt email password h st :
  is_empty (trim email) = false → contains_at email = true → 6 ≤ Z.of_nat (String.length password) →
  user_by_email email (s_db st) = None → bcrypt_hash salt password = Some h → (∀ c, is_Some (encode_claims secret c)) →
  in_i32 (d_user_seq (s_db st)) = true → w_faults (s_world st) = [] →
  ∃ r c, (signup secret salt (SignupRequest email password (Some "admin")) st).1 = inl r ∧
    admin_user secret (Some ("Bearer " +:+ ar_token r)) = inl c ∧ cl_email c = email ∧
    user_id_from_claims c = inl (pu_id (ar_user r)).
Proof.
  intros He Ha Hp Hu Hh Hc Hi Hf. unfold signup. cbn [sg_email sg_password sg_role].
  rewrite He, Ha, (proj2 (Z.ltb_ge _ _)) by lia. cbn [negb].
  rewrite (and_then_step _ _ _ _ _ (connection_ok st Hf)), (bind_step _ _ _ _ _ (db_query_ok _ st Hf)), Hu.
  erewrite and_then_step by reflexivity. rewrite Hh. erewrite and_then_step by reflexivity.
  rewrite decide_True by done.
  assert (insert_user email h RoleAdmin (s_db st) =
    Some (User (d_user_seq (s_db st)) email h RoleAdmin,
          with_users <[d_user_seq (s_db st) := User (d_user_seq (s_db st)) email h RoleAdmin]> (next_user_id (s_db st)).2)) as Hn.
  { unfold insert_user. cbn [next_user_id]. unfold user_by_email in *. cbn [d_users]. by rewrite Hu. }
  set (u := User (d_user_seq (s_db st)) email h RoleAdmin) in *. set (d' := with_users _ _) in *.
  rewrite (and_then_step _ _ st u (Site d' (s_world st) (s_uuids st) (s_drawn st)))
    by (apply or_err_step; rewrite db_run_ok by done; by rewrite Hn).
  destruct (Hc (Claims (show_Z (u_id u)) (u_email u) (role_name (u_role u)) (w_now (s_world st) / 1000 + WEEK_SECS))) as [token Ht].
  rewrite (answer_with_ok _ _ _ (Site d' (s_world st) (s_uuids st) (s_drawn st)) _ Ht).
  do 2 eexists. split; [reflexivity|]. split; [by apply (token_opens u _ _ _ Ht)|]. split; [done|].
  unfold user_id_from_claims. cbn [cl_sub]. by rewrite parse_show_i32.
Qed.

(** ** The reset of a password *)

Lemma user_by_email_some email d u : user_by_email email d = Some u → u_email u = email ∧ ∃ i, d_users d !! i = Some u.
Proof.
  unfold user_by_email. intros H. destruct (filter _ _) as [|v l] eqn:E; [done|]. injection H as ->.
  assert (u ∈ filter (λ u, u_email u = email) (map snd (map_to_list (d_users d)))) as Hu by (rewrite E; left).
  apply list_elem_of_filter in Hu as [H1 H2]. split; [done|].
  apply list_elem_of_fmap in H2 as ([i v] & -> & Hv). exists i. by apply elem_of_map_to_list.
Qed.

Lemma filter_set_hash email h l :
  filter (λ u, u_email u = email) (map (set_hash email h) l) = map (set_hash email h) (filter (λ u, u_email u = email) l).
Proof.
  induction l as [|u l IH]; [done|]. simpl. rewrite !filter_cons, IH.
  assert (u_email (set_hash email h u) = u_email u) as -> by (unfold set_hash; by case_decide). by case_decide.
Qed.

Lemma users_set_hash email h d :
  map snd (map_to_list (d_users (with_users (fmap (set_hash email h)) d))) = map (set_hash email h) (map snd (map_to_list (d_users d))).
Proof.
  simpl. rewrite map_to_list_fmap. induction (map_to_list (d_users d)) as [|x l IH]; [done|]. simpl. by f_equal.
Qed.

Lemma user_after_update email h d u :
  user_by_email email d = Some u →
  user_by_email email (with_users (fmap (set_hash email h)) d) = Some (User (u_id u) email h (u_role u)).
Proof.
  intros H. pose proof (user_by_email_some _ _ _ H) as [He _]. unfold user_by_email in *.
  rewrite users_set_hash, filter_set_hash. destruct (filter _ _) as [|v l]; [done|]. injection H as ->. simpl.
  unfold set_hash. by rewrite decide_True, He by done.
Qed.

(** Whoever knows the e-mail address of an administrator becomes that administrator.
    The reset request answers with the token it stores, the token sets a new password, and
    a login with that password gives a token of the account that the administration routes
    accept. *)
Theorem reset_hands_over_admin secret salt email password h u st n :
  is_empty (trim email) = false → 8 ≤ Z.of_nat (String.length password) →
  user_by_email email (s_db st) = Some u → u_role u = RoleAdmin →
  bcrypt_hash salt password = Some h → (∀ c, is_Some (encode_claims secret c)) →
  w_faults (s_world st) = [] → w_nodes (s_world st) !! 0%nat = Some n →
  ∃ token st1 st2 r c,
    reset_request email st = (inl token, st1) ∧
    reset_confirm salt (ResetConfirmPayload email token password) st1 = (inl tt, st2) ∧
    (login secret (LoginRequest email password) st2).1 = inl r ∧ pu_id (ar_user r) = u_id u ∧
    admin_user secret (Some ("Bearer " +:+ ar_token r)) = inl c ∧ cl_sub c = show_Z (u_id u).
Proof.
  destruct st as [d [ns t fl lg] us k]. cbn [s_db s_world w_faults w_nodes]. intros He Hp Hu Hr Hh Hc -> Hn.
  set (tok := uuid_simple (us k)). set (key := reset_key email).
  set (n1 := r_set_px n t key tok (RESET_TTL_SECS * 1000)).
  set (st1 := Site d (World (<[0%nat := n1]> ns) t [] lg) us (S k)).
  assert (reset_request email (Site d (World ns t [] lg) us k) = (inl tok, st1)) as H1.
  { unfold reset_request. rewrite He. rewrite (and_then_step _ _ _ _ _ (connection_ok (Site d (World ns t [] lg) us k) eq_refl)).
    rewrite (bind_step _ _ _ _ _ (db_query_ok _ (Site d (World ns t [] lg) us k) eq_refl)). cbn [s_db]. rewrite Hu.
    erewrite and_then_step by reflexivity. rewrite bool_decide_true by done. erewrite and_then_step by reflexivity.
    erewrite bind_step by reflexivity. cbn [s_uuids s_drawn].
    erewrite and_then_step; [reflexivity|]. apply or_err_step. unfold redis_of, zoom. cbn [s_world].
    rewrite (node_cmd_ok 0 _ ns t lg n Hn). unfold cmd_setex. rewrite px_ok_range by done. done. }
  assert (<[0%nat := n1]> ns !! 0%nat = Some n1) as Hn1 by (apply list_lookup_insert_eq; by eapply lookup_lt_Some).
  assert (r_get n1 t key = Some tok) as Hg 
    by (unfold n1; rewrite get_set_px by lia; rewrite decide_True by done; rewrite (proj2 (Z.ltb_lt _ _)); [done|unfold RESET_TTL_SECS; lia]).
  set (d2 := with_users (fmap (set_hash email h)) d). set (u2 := User (u_id u) email h (u_role u)).
  pose proof (user_after_update email h d u Hu) as Hu2. change (user_by_email email d2 = Some u2) in Hu2.
  set (st2 := Site d2 (World (<[0%nat := r_del n1 key]> (<[0%nat := n1]> ns)) t [] lg) us (S k)).
  assert (reset_confirm salt (ResetConfirmPayload email tok password) st1 = (inl tt, st2)) as H2.
  { unfold reset_confirm. cbn [rc_email rc_token rc_new_password]. rewrite (proj2 (Z.ltb_ge _ _)) by lia.
    rewrite (and_then_step _ _ st1 (Some tok) st1)
      by (apply or_err_step; unfold redis_of, zoom; cbn [s_world st1]; rewrite (node_cmd_ok 0 _ _ t lg n1 Hn1); unfold cmd_get; cbn [fst snd];
          fold key; rewrite Hg; by rewrite list_insert_id).
    erewrite and_then_step by reflexivity. rewrite bool_decide_true by done. erewrite and_then_step by reflexivity.
    rewrite Hh. erewrite and_then_step by reflexivity. rewrite (and_then_step _ _ _ _ _ (connection_ok st1 eq_refl)).
    erewrite and_then_step; [|apply or_err_step; rewrite db_run_ok by done; reflexivity].
    assert (length (filter (λ v, u_email v = email) (map snd (map_to_list (d_users (s_db st1))))) ≠ 0%nat) as Hl.
    { intros H0%nil_length_inv. revert Hu. unfold user_by_email. cbn [s_db st1] in H0. by rewrite H0. }
    rewrite (proj2 (Nat.eqb_neq _ _) Hl). erewrite and_then_step by reflexivity.
    unfold redis_of, zoom. erewrite bind_step; [reflexivity|]. cbn [s_world st1]. by rewrite (node_cmd_ok 0 _ _ t lg n1 Hn1). }
  destruct (Hc (Claims (show_Z (u_id u2)) (u_email u2) (role_name (u_role u2)) (t / 1000 + WEEK_SECS))) as [token Ht].
  exists tok, st1, st2, (AuthResponse token (to_public u2)), (Claims (show_Z (u_id u2)) (u_email u2) "Admin" (t / 1000 + WEEK_SECS)).
  split_and!; [done|done| |done|by apply (token_opens u2 _ _ _ Ht)|done].
  unfold login. cbn [lg_email lg_password]. rewrite He. destruct password as [|a password]; [simpl in Hp; lia|]. cbn [is_empty].
  rewrite (and_then_step _ _ _ _ _ (connection_ok st2 eq_refl)), (bind_step _ _ _ _ _ (db_query_ok _ st2 eq_refl)).
  cbn [s_db st2]. rewrite Hu2. erewrite and_then_step by reflexivity. cbn [u_password_hash u2].
  rewrite (verify_hash _ _ _ Hh). erewrite and_then_step by reflexivity. erewrite and_then_step by reflexivity.
  by rewrite (answer_with_ok u2 _ _ st2 _ Ht).
Qed.
End runs.

(** ** A concrete issuer *)

#[export] Instance plain_tokens : ClaimsDecoder := {
  decode_claims secret token :=
    match json_parse (JsonText := mem_json) token with
    | Some (JArr [JStr s; JStr sub; JStr email; JStr role; JStr exp]) =>
        if decide (s = secret) then Claims sub email role <$> parse_Z exp else None
    | _ => None
    end;
  decode_error := ""
}.
#[export] Instance plain_auth : AuthLibs := {
  bcrypt_hash salt p := Some ("hash:" +:+ p); bcrypt_verify p h := Some (bool_decide (h = "hash:" +:+ p));
  uuid_hyphenated := show_Z; uuid_simple := show_Z;
  encode_claims secret c :=
    Some (json_print (JsonText := mem_json) (JArr [JStr secret; JStr (cl_sub c); JStr (cl_email c); JStr (cl_role c); JStr (show_Z (cl_exp c))]))
}.
#[export] Instance plain_auth_laws : AuthLaws plain_auth.
Proof.
  split.
  - intros salt p h [= <-]. simpl. by rewrite bool_decide_true.
  - intros secret c t H. unfold encode_claims, plain_auth in H. apply (inj Some) in H as <-.
    unfold decode_claims, plain_tokens.
    rewrite (json_parse_print (JsonText := mem_json)) by done. rewrite decide_True by done. rewrite parse_show_Z. by destruct c.
Qed.

Definition auth_db : db :=
  Db [] [] [] [] [] [] {[1 := User 1 "boss@bookit.in" "hash:secret" RoleAdmin; 2 := some_user 2]} ∅ [] 1 1 ∅ 3 1 1.
Definition auth_site : site mem_redis := Site auth_db (mem_world 1 1000) (λ k, 100 + Z.of_nat k) 0.

Lemma encode_plain_total secret c : is_Some (encode_claims secret c).
Proof. by eexists. Qed.

Lemma signup_grants_admin_witness :
  ∃ r c, (signup "key" 5 (SignupRequest "eve@mail.in" "123456" (Some "admin")) auth_site).1 = inl r ∧
    admin_user "key" (Some ("Bearer " +:+ ar_token r)) = inl c ∧ cl_email c = "eve@mail.in" ∧
    user_id_from_claims c = inl (pu_id (ar_user r)).
Proof.
  assert (6 ≤ Z.of_nat (String.length "123456")) as Hp by (vm_compute; discriminate).
  pose proof (signup_grants_admin "key" 5 "eve@mail.in" "123456" "hash:123456" auth_site
    eq_refl eq_refl Hp eq_refl eq_refl (encode_plain_total "key") eq_refl eq_refl) as H.
  exact H.
Defined.

Lemma reset_hands_over_admin_witness :
  ∃ token st1 st2 r c,
    reset_request "boss@bookit.in" auth_site = (inl token, st1) ∧
    reset_confirm 5 (ResetConfirmPayload "boss@bookit.in" token "stolen-account") st1 = (inl tt, st2) ∧
    (login "key" (LoginRequest "boss@bookit.in" "stolen-account") st2).1 = inl r ∧ pu_id (ar_user r) = 1 ∧
    admin_user "key" (Some ("Bearer " +:+ ar_token r)) = inl c ∧ cl_sub c = "1".
Proof.
  assert (8 ≤ Z.of_nat (String.length "stolen-account")) as Hp by (vm_compute; discriminate).
  assert (user_by_email "boss@bookit.in" (s_db auth_site) = Some (User 1 "boss@bookit.in" "hash:secret" RoleAdmin)) as Hu
    by (vm_compute; reflexivity).
  pose proof (reset_hands_over_admin "key" 5 "boss@bookit.in" "stolen-account" "hash:stolen-account"
    (User 1 "boss@bookit.in" "hash:secret" RoleAdmin) auth_site mem_empty
    eq_refl Hp Hu eq_refl eq_refl (encode_plain_total "key") eq_refl eq_refl) as H.
  exact H.
Defined.
