(* ===== verification/HttpAuthHistory.v ===== *)
(** * HttpAuthHistory: what changes a password, in any history of requests *)

From stdpp Require Import gmap.
From S2P Require Import Prelude Text Redis RedisMem SeatLock Db HttpCache HttpGuards HttpAuth HttpAuthProps.

#[local] Open Scope string_scope.
#[local] Open Scope list_scope.
#[local] Open Scope Z_scope.

Section history.
Context {D : Type} `{!RedisServer D} `{!RedisLaws D} {HC : ClaimsDecoder} {HA : AuthLibs}.
Implicit Types (st : site D) (u v : user_row).

(** ** Requests, and the passing of time *)

Inductive auth_op :=
  | OpSignup (salt : Z) (payload : signup_request)
  | OpLogin (payload : login_request)
  | OpGoogle (client_id : option string) (credential : string) (token_info : option (bool * option google_token_info)) (salt : Z)
  | OpResetRequest (email : string)
  | OpResetConfirm (salt : Z) (payload : reset_confirm_payload)
  | OpWait (ms : N).

Definition auth_run (secret : string) (o : auth_op) : St (site D) unit :=
  match o with
  | OpSignup salt payload => signup secret salt payload ;; mret tt
  | OpLogin payload => login secret payload ;; mret tt
  | OpGoogle client_id credential token_info salt => google_login secret client_id credential token_info salt ;; mret tt
  | OpResetRequest email => reset_request email ;; mret tt
  | OpResetConfirm salt payload => reset_confirm salt payload ;; mret tt
  | OpWait ms => redis_of (advance ms)
  end.

(** The tokens that reset requests for administrators can have stored, with their times. *)
Abbreviation issued := (list (string * string * Z)).
Definition issue (o : auth_op) (st : site D) : issued :=
  match o with
  | OpResetRequest email =>
      if decide (u_role <$> user_by_email email (s_db st) = Some RoleAdmin)
      then [(email, uuid_simple (s_uuids st (s_drawn st)), w_now (s_world st))] else []
  | _ => []
  end.

Definition auth_step (secret : string) (x : site D * issued) (o : auth_op) : site D * issued :=
  ((auth_run secret o x.1).2, x.2 ++ issue o x.1).
Definition auth_history (secret : string) (os : list auth_op) (st : site D) : site D * issued :=
  foldl (auth_step secret) (st, []) os.

(** ** The accounts *)

(** One account per e-mail, and ids below the sequence. *)
Record accounts_ok (d : db) : Prop := {
  ac_email : ∀ i j u v, d_users d !! i = Some u → d_users d !! j = Some v → u_email u = u_email v → i = j;
  ac_seq : ∀ i u, d_users d !! i = Some u → i < d_user_seq d
}.

(** No account goes, and none but those of [email], if any, gets another password; e-mails
    and roles stay. *)
Definition same_account (changed : option (string * string)) u v : Prop :=
  u_email v = u_email u ∧ u_role v = u_role u ∧
  (u_password_hash v ≠ u_password_hash u → changed = Some (u_email u, u_password_hash v)).
Definition accounts_step (changed : option (string * string)) (d d' : db) : Prop :=
  ∀ i u, d_users d !! i = Some u → ∃ v, d_users d' !! i = Some v ∧ same_account changed u v.

Lemma accounts_step_refl c d : accounts_step c d d.
Proof. intros i u H. exists u. by split_and!. Qed.

Lemma accounts_step_insert email h role d u d' :
  insert_user email h role d = Some (u, d') → accounts_ok d → accounts_ok d' ∧ ∀ i v, d_users d !! i = Some v → d_users d' !! i = Some v.
Proof.
  unfold insert_user. cbn [next_user_id]. destruct (user_by_email email _) as [x|] eqn:Hx; [done|]. intros [= <- <-] [He Hs].
  assert (d_users d !! d_user_seq d = None) as Hn.
  { destruct (d_users d !! d_user_seq d) as [v|] eqn:Hv; [|done]. apply Hs in Hv. lia. }
  assert (∀ i v, d_users d !! i = Some v → u_email v ≠ email) as Hne.
  { intros i v Hv Hev. unfold user_by_email in Hx. cbn [d_users] in Hx.
    assert (v ∈ filter (λ u, u_email u = email) (map snd (map_to_list (d_users d)))) as Hin.
    { apply list_elem_of_filter. split; [done|]. apply list_elem_of_fmap. exists (i, v). split; [done|]. by apply elem_of_map_to_list. }
    destruct (filter _ _); [by apply elem_of_nil in Hin|done]. }
  split; [split|]; simpl.
  - intros i j u v [[<- <-]|[_ Hu]]%lookup_insert_Some [[<- <-]|[_ Hv]]%lookup_insert_Some Huv; simpl in *; [done| | |by eapply He].
    + by destruct (Hne _ _ Hv).
    + by destruct (Hne _ _ Hu).
  - intros i v [[<- <-]|[_ Hv]]%lookup_insert_Some; [lia|]. apply Hs in Hv. lia.
  - intros i v Hv. rewrite lookup_insert_ne; [done|]. intros <-. congruence.
Qed.

Lemma accounts_step_update email h d : accounts_ok d →
  accounts_ok (with_users (fmap (set_hash email h)) d) ∧ accounts_step (Some (email, h)) d (with_users (fmap (set_hash email h)) d).
Proof.
  assert (∀ u, u_email (set_hash email h u) = u_email u) as Hemail by (intros u; unfold set_hash; by case_decide).
  intros [He Hs]. split; [split|]; simpl.
  - intros i j u v. rewrite !lookup_fmap. intros (u0 & Hu & ->)%fmap_Some (v0 & Hv & ->)%fmap_Some. rewrite !Hemail. by eapply He.
  - intros i u. rewrite lookup_fmap. intros (u0 & Hu & ->)%fmap_Some. by eapply Hs.
  - intros i u Hu. exists (set_hash email h u). simpl. rewrite lookup_fmap, Hu. split; [done|]. split_and!; [done|unfold set_hash; by case_decide|].
    unfold set_hash. case_decide as H; [|done]. simpl. intros _. by rewrite H.
Qed.

(** ** The effect of a request

    [world_is ns t]: the contents of the servers and the clock. *)
Definition world_is (ns : list D) (t : Z) st : Prop := w_nodes (s_world st) = ns ∧ w_now (s_world st) = t.
Definition stays (X : db → Prop) ns t st : Prop := X (s_db st) ∧ world_is ns t st.

Lemma stays_draw X ns t : keeps (stays X ns t) (redis_of draw).
Proof. intros [d [ns0 t0 fl lg] us k] (H & H1 & H2). unfold redis_of, zoom, draw. by destruct fl. Qed.
Lemma stays_get X ns t : keeps (stays X ns t) db_get.
Proof. apply keeps_bind; [apply stays_draw|intros ?; apply keeps_ret]. Qed.
Lemma stays_run {A} X ns t (tx : db → option (A * db)) :
  (∀ d a d', X d → tx d = Some (a, d') → X d') → keeps (stays X ns t) (db_run tx).
Proof.
  intros Htx st Hst. unfold db_run. pose proof (stays_draw X ns t st Hst) as H. destruct (redis_of draw st) as [fl st1]. simpl in H.
  destruct H as [H Hw]. destruct (tx (s_db st1)) as [[a d]|] eqn:E; destruct fl; split; try done; by eapply Htx.
Qed.
Lemma stays_query {A} X ns t (q : db → A) : keeps (stays X ns t) (db_query q).
Proof. apply stays_run. by intros d a d' Hd [= _ <-]. Qed.
Lemma stays_new_v4 X ns t : keeps (stays X ns t) new_v4.
Proof. by intros []. Qed.
Lemma stays_now X ns t : keeps (stays X ns t) (redis_of now_secs).
Proof. by intros []. Qed.
Lemma stays_connection X ns t : keeps (stays X ns t) connection.
Proof. apply keeps_bind; [apply stays_get|intros ?; apply keeps_check]. Qed.
Hint Resolve stays_get stays_query stays_new_v4 stays_now stays_connection : keeps.

Lemma stays_answer X ns t u secret m : keeps (stays X ns t) (answer_with u secret m).
Proof. unfold answer_with, create_jwt. keeps_tac. Qed.
Hint Resolve stays_answer : keeps.

(** What a new account may do to the table. *)
Definition grown (d d' : db) : Prop := accounts_ok d' ∧ ∀ i u, d_users d !! i = Some u → d_users d' !! i = Some u.

Lemma stays_insert d0 ns t email h role : keeps (stays (grown d0) ns t) (db_run (insert_user email h role)).
Proof.
  apply stays_run. intros d u d' [Hok Hg] H. destruct (accounts_step_insert _ _ _ _ _ _ H Hok) as [H1 H2].
  split; [done|]. intros i v Hv. by apply H2, Hg.
Qed.
Hint Resolve stays_insert : keeps.

Lemma stays_signup d0 ns t secret salt p : keeps (stays (grown d0) ns t) (signup secret salt p).
Proof. unfold signup. keeps_tac. Qed.
Lemma stays_login d0 ns t secret p : keeps (stays (grown d0) ns t) (login secret p).
Proof. unfold login. keeps_tac. Qed.
Lemma stays_google d0 ns t secret c cr i salt : keeps (stays (grown d0) ns t) (google_login secret c cr i salt).
Proof. unfold google_login. keeps_tac. Qed.

(** The end of a request that has one command left. *)
Lemma node_cmd_effect {R} (f : D → Z → D * option R) st :
  let st' := (redis_of (node_cmd 0 f) st).2 in
  s_db st' = s_db st ∧ w_now (s_world st') = w_now (s_world st) ∧
  (w_nodes (s_world st') = w_nodes (s_world st) ∨
   ∃ n, w_nodes (s_world st) !! 0%nat = Some n ∧ w_nodes (s_world st') = <[0%nat := (f n (w_now (s_world st))).1]> (w_nodes (s_world st))) ∧
  (∀ r, (redis_of (node_cmd 0 f) st).1 = Some r → ∃ n, w_nodes (s_world st) !! 0%nat = Some n ∧ (f n (w_now (s_world st))).2 = Some r).
Proof.
  destruct st as [d [ns t fl lg] us k]. unfold redis_of, zoom, node_cmd, draw. simpl.
  destruct fl as [|[| |] fl]; simpl; destruct (ns !! 0%nat) as [n|] eqn:Hn; simpl; split_and!; try done; eauto.
Qed.

(** Everything but the faults to come is as in [st0]. *)
Definition fixed (st0 st : site D) : Prop :=
  s_db st = s_db st0 ∧ world_is (w_nodes (s_world st0)) (w_now (s_world st0)) st ∧ s_uuids st = s_uuids st0 ∧ s_drawn st = s_drawn st0.

Lemma fixed_draw st0 : keeps (fixed st0) (redis_of draw).
Proof. intros [d [ns t fl lg] us k] H. unfold redis_of, zoom, draw. by destruct fl. Qed.
Lemma fixed_connection st0 : keeps (fixed st0) connection.
Proof. unfold connection, db_get. apply keeps_bind; [apply keeps_bind; [apply fixed_draw|]; intros ?; apply keeps_ret|intros ?; apply keeps_check]. Qed.
Lemma fixed_query {A} st0 (q : db → A) :
  hoare (fixed st0) (db_query q) (λ r st, (r = None ∨ r = Some (q (s_db st0))) ∧ fixed st0 st).
Proof.
  intros st Hst. unfold db_query, db_run. pose proof (fixed_draw st0 st Hst) as H. destruct (redis_of draw st) as [fl st1]. simpl in H.
  pose proof H as (Hd & Hw). destruct fl; simpl; (split; [|exact H || (destruct st1; exact H)]); rewrite ?Hd; auto.
Qed.

Lemma hoare_facts {A B} (φ : A → Prop) (P : site D → Prop) (R : B → site D → Prop) (m : St (site D) A) (f : A → St (site D) B) :
  hoare P m (λ a s, φ a ∧ P s) → (∀ a, φ a → hoare P (f a) R) → hoare P (m ≫= f) R.
Proof. intros Hm Hf. eapply hoare_bind; [exact Hm|]. intros a. apply hoare_pure. intros Ha. by apply Hf. Qed.

Lemma hoare_try {A B E} (P : site D → Prop) (R : B + E → site D → Prop) (m : St (site D) (A + E)) (f : A → St (site D) (B + E)) :
  keeps P m → (∀ e s, P s → R (inr e) s) → (∀ a, hoare P (f a) R) → hoare P (and_then m f) R.
Proof. intros Hm He Hf. eapply hoare_bind; [exact Hm|]. intros [a|e]; [apply Hf|apply hoare_ret, He]. Qed.

Lemma hoare_found {A B E} (φ : A → Prop) (P : site D → Prop) (R : B + E → site D → Prop) (e : E) m (f : A → St (site D) (B + E)) :
  hoare P m (λ r s, (∀ x, r = Some x → φ x) ∧ P s) → (∀ s, P s → R (inr e) s) → (∀ x, φ x → hoare P (f x) R) →
  hoare P (and_then (or_err e m) f) R.
Proof.
  intros Hm He Hf s Hs. specialize (Hm s Hs). unfold and_then, or_err, mbind, St_bind. destruct (m s) as [[x|] s1]; simpl in *.
  - apply Hf; [by apply Hm|apply Hm].
  - apply He, Hm.
Qed.

(** A value that is there or not, and a condition. *)
Lemma hoare_some {A B E} (P : site D → Prop) (R : B + E → site D → Prop) (e : E) (o : option A) (f : A → St (site D) (B + E)) :
  (∀ s, P s → R (inr e) s) → (∀ a, o = Some a → hoare P (f a) R) → hoare P (and_then (or_err e (mret o)) f) R.
Proof. intros He Hf s Hs. destruct o as [a|]; [by apply (Hf a eq_refl)|by apply He]. Qed.
Lemma hoare_check {B E} (P : site D → Prop) (R : B + E → site D → Prop) (e : E) (b : bool) (f : unit → St (site D) (B + E)) :
  (∀ s, P s → R (inr e) s) → (b = true → hoare P (f tt) R) → hoare P (and_then (check b e) f) R.
Proof. intros He Hf s Hs. destruct b; [by apply (Hf eq_refl)|by apply He]. Qed.

(** The effect of a reset request: a token it issues is stored, or nothing happens. *)
Definition requested email (st st' : site D) : Prop :=
  s_db st' = s_db st ∧ w_now (s_world st') = w_now (s_world st) ∧
  (w_nodes (s_world st') = w_nodes (s_world st) ∨
   ∃ n token, w_nodes (s_world st) !! 0%nat = Some n ∧ (email, token, w_now (s_world st)) ∈ issue (OpResetRequest email) st ∧
     w_nodes (s_world st') = <[0%nat := (cmd_setex (reset_key email) token RESET_TTL_SECS n (w_now (s_world st))).1]> (w_nodes (s_world st))).

Lemma fixed_requested email st0 st : fixed st0 st → requested email st0 st.
Proof. intros (H1 & [H2 H3] & _). split_and!; auto. Qed.

Lemma reset_request_effect email st0 : hoare (fixed st0) (reset_request email) (λ _, requested email st0).
Proof.
  unfold reset_request. destruct (is_empty _); [intros st Hst; by apply fixed_requested|].
  apply hoare_try; [apply fixed_connection|intros _ st; apply fixed_requested|intros _].
  eapply hoare_facts; [apply fixed_query|]. intros found Hfound.
  apply hoare_some; [intros st; apply fixed_requested|]. intros u Hu.
  apply hoare_check; [intros st; apply fixed_requested|]. intros Hr%bool_decide_eq_true.
  assert (user_by_email email (s_db st0) = Some u) as Hu' by (destruct Hfound as [-> | ->]; [done|exact Hu]).
  intros st (H1 & [H2 H3] & H4 & H5). unfold new_v4 at 1. unfold mbind at 1, St_bind at 1. cbn [s_uuids s_drawn s_db s_world].
  match goal with |- context [and_then (or_err _ (redis_of (node_cmd 0 ?f))) _ ?st1] =>
    pose proof (node_cmd_effect f st1) as (E1 & E2 & E3 & _);
    assert (∀ g : unit → St (site D) (string + auth_error), (∀ x, ∃ y, g x = mret y) →
      (and_then (or_err (500, "Cache error.") (redis_of (node_cmd 0 f))) g st1).2 = (redis_of (node_cmd 0 f) st1).2) as -> end.
  - intros g Hg. unfold and_then, or_err, mbind, St_bind. destruct (redis_of _ _) as [[x|] st2]; simpl; [|done].
    destruct (Hg x) as [y ->]. done.
  - cbn [s_db s_world] in *. split_and!; [congruence|congruence|].
    destruct E3 as [E3|(n & Hn & E3)]; [left; congruence|right]. exists n, (uuid_simple (s_uuids st0 (s_drawn st0))).
    rewrite H2 in Hn. split_and!; [done| |congruence]. unfold issue. rewrite Hu'. simpl. rewrite Hr, decide_True by done. left.
  - intros x. by eexists.
Qed.

(** The effect of a confirmation: it changes the password when the token is stored, and
    may delete the token. *)
Definition confirmed (salt : Z) (p : reset_confirm_payload) (st st' : site D) : Prop :=
  w_now (s_world st') = w_now (s_world st) ∧
  (s_db st' = s_db st ∨ ∃ n h, w_nodes (s_world st) !! 0%nat = Some n ∧
     r_get n (w_now (s_world st)) (reset_key (rc_email p)) = Some (rc_token p) ∧
     bcrypt_hash salt (rc_new_password p) = Some h ∧ s_db st' = with_users (fmap (set_hash (rc_email p) h)) (s_db st)) ∧
  (w_nodes (s_world st') = w_nodes (s_world st) ∨
   ∃ n, w_nodes (s_world st) !! 0%nat = Some n ∧ w_nodes (s_world st') = <[0%nat := r_del n (reset_key (rc_email p))]> (w_nodes (s_world st))).

Lemma fixed_confirmed salt p st0 st : fixed st0 st → confirmed salt p st0 st.
Proof. intros (H1 & [H2 H3] & _). split_and!; auto. Qed.

Lemma fixed_cmd_get key st0 :
  hoare (fixed st0) (redis_of (node_cmd 0 (cmd_get key)))
    (λ r st, (∀ x, r = Some x → ∃ n, w_nodes (s_world st0) !! 0%nat = Some n ∧ x = r_get n (w_now (s_world st0)) key) ∧ fixed st0 st).
Proof.
  intros st (H1 & [H2 H3] & H4 & H5). pose proof (node_cmd_effect (cmd_get key) st) as (E1 & E2 & E3 & E4).
  rewrite H2, H3 in *. split.
  - intros x Hx. apply E4 in Hx as (n & Hn & Hx). exists n. split; [done|]. by injection Hx.
  - unfold redis_of, zoom in *. destruct (node_cmd 0 (cmd_get key) (s_world st)) as [r w]. simpl in *.
    split; [exact H1|]. split; [|done]. split; [|exact E2]. simpl.
    destruct E3 as [E3|(n & Hn & E3)]; rewrite E3; [done|]. by rewrite list_insert_id.
Qed.

(** Between the update and the deletion of the token. *)
Definition half salt p st0 st : Prop := confirmed salt p st0 st ∧ w_nodes (s_world st) = w_nodes (s_world st0).

Lemma half_update salt p st0 n h :
  w_nodes (s_world st0) !! 0%nat = Some n → r_get n (w_now (s_world st0)) (reset_key (rc_email p)) = Some (rc_token p) →
  bcrypt_hash salt (rc_new_password p) = Some h →
  hoare (fixed st0) (db_run (update_password (rc_email p) h)) (λ _, half salt p st0).
Proof.
  intros Hn Hg Hh st Hst. unfold db_run. pose proof (fixed_draw st0 st Hst) as H. destruct (redis_of draw st) as [fl st1]. simpl in H.
  pose proof (fixed_confirmed salt p _ _ H) as Hc. destruct H as (H1 & [H2 H3] & _). unfold update_password.
  destruct fl; simpl; (split; [|done]); try exact Hc; (split_and!; [done| |by left]); right; exists n, h; by rewrite H1.
Qed.

Lemma half_delete salt p st0 : hoare (half salt p st0) (redis_of (node_cmd 0 (cmd_del (reset_key (rc_email p))))) (λ _, confirmed salt p st0).
Proof.
  intros st [(H1 & H2 & _) H3]. pose proof (node_cmd_effect (cmd_del (reset_key (rc_email p))) st) as (E1 & E2 & E3 & _).
  rewrite H3 in *. split_and!; [congruence| |exact E3]. by rewrite E1.
Qed.

Lemma reset_confirm_effect salt p st0 : hoare (fixed st0) (reset_confirm salt p) (λ _, confirmed salt p st0).
Proof.
  unfold reset_confirm. destruct (_ <? 8); [intros st; apply fixed_confirmed|].
  assert (∀ (e : auth_error) st, fixed st0 st → confirmed salt p st0 st) as He by (intros e st; apply fixed_confirmed).
  eapply hoare_found; [apply fixed_cmd_get|apply He; exact (0, "")|]. intros stored (n & Hn & Hg).
  apply hoare_some; [apply He; exact (0, "")|]. intros token ->.
  apply hoare_check; [apply He; exact (0, "")|]. intros Ht%bool_decide_eq_true.
  apply hoare_some; [apply He; exact (0, "")|]. intros h Hh.
  apply hoare_try; [apply fixed_connection|exact He|]. intros _.
  eapply (hoare_bind _ (λ _, half salt p st0)).
  { eapply hoare_bind; [apply (half_update salt p st0 n h); done || by rewrite <-Hg, Ht|]. intros r. by apply hoare_ret. }
  intros [x|e]; [|apply hoare_ret; by intros st []].
  eapply (hoare_bind _ (λ _, half salt p st0)); [apply keeps_check|]. intros [[]|e]; [|apply hoare_ret; by intros st []].
  eapply hoare_bind; [apply half_delete|]. intros r. by apply hoare_ret.
Qed.

(** ** The invariant of a history *)

Lemma reset_key_inj a b : reset_key a = reset_key b → a = b.
Proof. apply string_app_inj_l. Qed.

(** Every token that Redis holds was issued, less than its lifetime ago, for an
    administrator. *)
Record history_ok (st : site D) (log : issued) : Prop := {
  ho_accounts : accounts_ok (s_db st);
  ho_tokens : ∀ n email token t, w_nodes (s_world st) !! 0%nat = Some n → w_now (s_world st) ≤ t →
    r_get n t (reset_key email) = Some token → ∃ t0, (email, token, t0) ∈ log ∧ t < t0 + RESET_TTL_SECS * 1000;
  ho_admins : ∀ email token t0, (email, token, t0) ∈ log → ∃ i u, d_users (s_db st) !! i = Some u ∧ u_email u = email ∧ u_role u = RoleAdmin
}.

Lemma history_tokens_kept st st' (log log' : issued) :
  (∀ x, x ∈ log → x ∈ log') → w_nodes (s_world st') = w_nodes (s_world st) → w_now (s_world st) ≤ w_now (s_world st') →
  history_ok st log →
  ∀ n email token t, w_nodes (s_world st') !! 0%nat = Some n → w_now (s_world st') ≤ t →
    r_get n t (reset_key email) = Some token → ∃ t0, (email, token, t0) ∈ log' ∧ t < t0 + RESET_TTL_SECS * 1000.
Proof.
  intros Hl Hn Hw Hok n email token t H1 H2 H3. rewrite Hn in H1.
  destruct (ho_tokens _ _ Hok n email token t H1) as (t0 & H4 & H5); [lia|done|]. eauto.
Qed.

Lemma history_grown st st' log : stays (grown (s_db st)) (w_nodes (s_world st)) (w_now (s_world st)) st' → history_ok st log →
  history_ok st' log ∧ accounts_step None (s_db st) (s_db st').
Proof.
  intros [[Ha Hg] [H1 H2]] Hok. split; [split; [done| |]|].
  - apply (history_tokens_kept st st' log log); [done|done|lia|done].
  - intros email token t0 Hin. destruct (ho_admins _ _ Hok _ _ _ Hin) as (i & u & Hu & He & Hr). exists i, u. auto.
  - intros i u Hu. exists u. split; [by apply Hg|by split_and!].
Qed.

Lemma history_requested email st st' log : requested email st st' → history_ok st log →
  history_ok st' (log ++ issue (OpResetRequest email) st) ∧ accounts_step None (s_db st) (s_db st').
Proof.
  intros (H1 & H2 & H3) Hok. rewrite H1. split; [|apply accounts_step_refl]. split; rewrite ?H1; [apply Hok| |].
  - destruct H3 as [H3|(n & token & Hn & Hin & H3)].
    { apply (history_tokens_kept st st' log); [intros x Hx; apply elem_of_app; by left|done|lia|done]. }
    intros n' email' token' t. rewrite H2, H3, list_lookup_insert_eq by (by eapply lookup_lt_Some). intros [= <-] Ht.
    unfold cmd_setex. rewrite px_ok_range by done. cbn [fst]. rewrite get_set_px by done. case_decide as Hk.
    + apply reset_key_inj in Hk as <-. destruct (t <? _) eqn:Hlt; [|done]. intros [= <-]. apply Z.ltb_lt in Hlt.
      exists (w_now (s_world st)). split; [|done]. apply elem_of_app. by right.
    + intros Hg. destruct (ho_tokens _ _ Hok n email' token' t Hn Ht Hg) as (t0 & H4 & H5). exists t0. split; [|done].
      apply elem_of_app. by left.
  - intros e token t0 [Hin|Hin]%elem_of_app; [by apply (ho_admins _ _ Hok) in Hin|]. unfold issue in Hin.
    case_decide as Hu; [|by apply elem_of_nil in Hin]. apply list_elem_of_singleton in Hin as [= -> -> ->].
    destruct (user_by_email email (s_db st)) as [u|] eqn:E; [|done]. injection Hu as Hu.
    destruct (user_by_email_some _ _ _ E) as (He & i & Hi). by exists i, u.
Qed.

Lemma history_confirmed salt p st st' log : confirmed salt p st st' → history_ok st log →
  history_ok st' log ∧
  (s_db st' = s_db st ∨ ∃ h t0, bcrypt_hash salt (rc_new_password p) = Some h ∧ accounts_step (Some (rc_email p, h)) (s_db st) (s_db st') ∧
    (rc_email p, rc_token p, t0) ∈ log ∧ w_now (s_world st) < t0 + RESET_TTL_SECS * 1000).
Proof.
  intros (H1 & H2 & H3) Hok. split.
  - split.
    + destruct H2 as [->|(n & h & _ & _ & _ & ->)]; [apply Hok|]. by apply accounts_step_update, Hok.
    + destruct H3 as [H3|(n & Hn & H3)]; [apply (history_tokens_kept st st' log); [done|done|lia|done]|].
      intros n' email' token' t. rewrite H1, H3, list_lookup_insert_eq by (by eapply lookup_lt_Some). intros [= <-] Ht.
      rewrite get_del. case_decide; [done|]. by apply (ho_tokens _ _ Hok).
    + intros email token t0 Hin. destruct (ho_admins _ _ Hok _ _ _ Hin) as (i & u & Hu & He & Hr).
      destruct H2 as [->|(n & h & _ & _ & _ & ->)]; [by exists i, u|].
      destruct (proj2 (accounts_step_update (rc_email p) h _ (ho_accounts _ _ Hok)) i u Hu) as (v & Hv & E1 & E2 & _).
      exists i, v. split_and!; congruence.
  - destruct H2 as [->|(n & h & Hn & Hg & Hh & ->)]; [by left|right].
    destruct (ho_tokens _ _ Hok n (rc_email p) (rc_token p) (w_now (s_world st)) Hn ltac:(lia) Hg) as (t0 & Hin & Ht).
    exists h, t0. split_and!; [done|by apply accounts_step_update, Hok|done|done].
Qed.

Lemma history_step secret o st log : history_ok st log →
  history_ok (auth_run secret o st).2 (log ++ issue o st) ∧
  (accounts_step None (s_db st) (s_db (auth_run secret o st).2) ∨
   ∃ salt p h t0, o = OpResetConfirm salt p ∧ bcrypt_hash salt (rc_new_password p) = Some h ∧
     accounts_step (Some (rc_email p, h)) (s_db st) (s_db (auth_run secret o st).2) ∧
     (rc_email p, rc_token p, t0) ∈ log ∧ w_now (s_world st) < t0 + RESET_TTL_SECS * 1000).
Proof.
  intros Hok. pose proof Hok as [Ha _ _].
  assert (stays (grown (s_db st)) (w_nodes (s_world st)) (w_now (s_world st)) st) as Hst by done.
  assert (∀ A (m : St (site D) A), keeps (stays (grown (s_db st)) (w_nodes (s_world st)) (w_now (s_world st))) m →
    history_ok ((m ;; mret tt) st).2 (log ++ []) ∧ accounts_step None (s_db st) (s_db ((m ;; mret tt) st).2)) as Hk.
  { intros A m Hm. rewrite app_nil_r. specialize (Hm st Hst). unfold mbind, St_bind. destruct (m st). simpl in *. by apply history_grown. }
  destruct o as [salt p|p|c cr i salt|email|salt p|ms]; cbn [auth_run issue].
  - destruct (Hk _ _ (stays_signup (s_db st) _ _ secret salt p)). auto.
  - destruct (Hk _ _ (stays_login (s_db st) _ _ secret p)). auto.
  - destruct (Hk _ _ (stays_google (s_db st) _ _ secret c cr i salt)). auto.
  - pose proof (reset_request_effect email st st ltac:(done)) as H. unfold mbind, St_bind.
    destruct (reset_request email st) as [r st']. simpl in *. destruct (history_requested _ _ _ _ H Hok). auto.
  - pose proof (reset_confirm_effect salt p st st ltac:(done)) as H. unfold mbind, St_bind. rewrite app_nil_r.
    destruct (reset_confirm salt p st) as [r st']. simpl in *. destruct (history_confirmed _ _ _ _ _ H Hok) as [H1 H2].
    split; [done|]. destruct H2 as [H2|(h & t0 & Hh & Hs & Hin & Ht)].
    + left. rewrite H2. apply accounts_step_refl.
    + right. by exists salt, p, h, t0.
  - destruct st as [d [ns t fl lg] us k]. rewrite app_nil_r. simpl. split; [|left; apply accounts_step_refl].
    split; [done|by apply (history_tokens_kept (Site d (World ns t fl lg) us k) _ log log); [done|done|simpl; lia|]|apply Hok].
Qed.

(** C8: a password changes only through a token of the last quarter of an hour.  In any
    history of requests over any network, from accounts with distinct e-mails and a Redis
    without reset tokens: no account disappears or changes its e-mail or role, and a request
    that changes the password of an account is a reset confirmation for an administrator,
    with a token that a reset request for that e-mail generated less than 15 minutes ago,
    and stores the hash of the password it names. *)
Theorem password_changes_need_issued_token secret os o st0 i u :
  accounts_ok (s_db st0) →
  (∀ n email t, w_nodes (s_world st0) !! 0%nat = Some n → w_now (s_world st0) ≤ t → r_get n t (reset_key email) = None) →
  let '(st, log) := auth_history secret os st0 in
  d_users (s_db st) !! i = Some u →
  ∃ v, d_users (s_db (auth_run secret o st).2) !! i = Some v ∧ u_email v = u_email u ∧ u_role v = u_role u ∧
    (u_password_hash v ≠ u_password_hash u →
       u_role u = RoleAdmin ∧ ∃ salt password token t0,
         o = OpResetConfirm salt (ResetConfirmPayload (u_email u) token password) ∧
         bcrypt_hash salt password = Some (u_password_hash v) ∧
         (u_email u, token, t0) ∈ log ∧ w_now (s_world st) < t0 + 900 * 1000).
Proof.
  intros Ha Hn. assert (history_ok st0 []) as Hok.
  { split; [done| |by intros ??? ?%elem_of_nil]. intros n email token t H1 H2. by rewrite (Hn n email t H1 H2). }
  unfold auth_history. generalize (@nil (string * string * Z)), Hok. clear Ha Hn Hok. revert st0.
  induction os as [|o' os IH]; intros st log Hok; [|exact (IH _ _ (proj1 (history_step secret o' st log Hok)))].
  cbn [foldl]. intros Hu. destruct (history_step secret o st log Hok) as [_ [Hs|(salt & p & h & t0 & -> & Hh & Hs & Hin & Ht)]];
    destruct (Hs i u Hu) as (v & Hv & He & Hr & Hc); exists v; split_and!; try done; intros Hne; specialize (Hc Hne); [done|].
  injection Hc as He' Hh'. split.
  - destruct (ho_admins _ _ Hok _ _ _ Hin) as (j & w & Hw & Hew & Hrw).
    assert (i = j) as <- by (eapply (ac_email _ (ho_accounts _ _ Hok)); [exact Hu|exact Hw|congruence]). congruence.
  - destruct p as [email token password]. simpl in *. subst email. exists salt, password, token, t0. by rewrite <-Hh'.
Qed.
End history.

(** *** An administrator asks for a reset, and somebody signs up meanwhile *)

Definition reset_story : list auth_op := [OpResetRequest "boss@bookit.in"; OpSignup 5 (SignupRequest "eve@mail.in" "123456" None); OpWait 60000].

Lemma auth_accounts_ok : accounts_ok auth_db.
Proof.
  split; simpl.
  - intros i j u v [[<- <-]|[_ Hu]]%lookup_insert_Some [[<- <-]|[_ Hv]]%lookup_insert_Some Huv; try done.
    + by apply lookup_singleton_Some in Hv as [<- <-].
    + by apply lookup_singleton_Some in Hu as [<- <-].
    + apply lookup_singleton_Some in Hu as [<- <-]. by apply lookup_singleton_Some in Hv as [<- _].
  - intros i u [[<- <-]|[_ Hu]]%lookup_insert_Some; [lia|]. apply lookup_singleton_Some in Hu as [<- _]. lia.
Qed.

Lemma auth_no_tokens n email t : w_nodes (s_world auth_site) !! 0%nat = Some n → w_now (s_world auth_site) ≤ t → r_get n t (reset_key email) = None.
Proof. intros [= <-] _. done. Qed.

Definition story_end := auth_history "key" reset_story auth_site.
Definition boss : user_row := User 1 "boss@bookit.in" "hash:secret" RoleAdmin.

Lemma password_changes_need_issued_token_witness :
  story_end.2 = [("boss@bookit.in", "100", 1000)] ∧
  u_password_hash <$> (d_users (s_db (auth_run "key" (OpResetConfirm 5 (ResetConfirmPayload "boss@bookit.in" "100" "new-secret")) story_end.1).2) !! 1)
    = Some "hash:new-secret" ∧
  (∃ v, d_users (s_db (auth_run "key" (OpResetConfirm 5 (ResetConfirmPayload "boss@bookit.in" "100" "new-secret")) story_end.1).2) !! 1 = Some v ∧
     u_email v = u_email boss ∧ u_role v = u_role boss ∧
     (u_password_hash v ≠ u_password_hash boss → u_role boss = RoleAdmin ∧ ∃ salt password token t0,
        OpResetConfirm 5 (ResetConfirmPayload "boss@bookit.in" "100" "new-secret") = OpResetConfirm salt (ResetConfirmPayload (u_email boss) token password) ∧
        bcrypt_hash salt password = Some (u_password_hash v) ∧
        (u_email boss, token, t0) ∈ story_end.2 ∧ w_now (s_world story_end.1) < t0 + 900 * 1000)).
Proof.
  split; [vm_compute; reflexivity|]. split; [vm_compute; reflexivity|].
  pose proof (password_changes_need_issued_token "key" reset_story (OpResetConfirm 5 (ResetConfirmPayload "boss@bookit.in" "100" "new-secret"))
    auth_site 1 boss auth_accounts_ok auth_no_tokens) as H.
  fold story_end in H. assert (story_end = (story_end.1, story_end.2)) as E by apply surjective_pairing. rewrite E in H.
  assert (d_users (s_db story_end.1) !! 1 = Some boss) as Hb by (vm_compute; reflexivity). exact (H Hb).
Defined.
