(* ===== verification/Schedules.v ===== *)
(** * Schedules: the administration of schedules and their seats
    ([apps/http-server/src/api/admin/schedules_v2.rs])

    A handler that changes the database and then tells Redis is the composition of its
    two halves, which other requests may separate.  What MongoDB answers about a show is
    an argument ([None]: the query failed); the parsers of dates, times and decimals are
    fields of [ScheduleLibs].  A statement outside a transaction commits by itself. *)

From stdpp Require Import gmap sorting.
From S2P Require Import Prelude Text Keys Redis SeatLock Events Db HttpPayments HttpCache.

#[local] Open Scope string_scope.
#[local] Open Scope list_scope.
#[local] Open Scope Z_scope.

Class ScheduleLibs := {
  object_id_ok : string → bool;                     (* ObjectId::parse_str *)
  parse_date : string → option Z;                   (* a day *)
  parse_rfc3339 : string → option Z;                (* a time in ms *)
  decimal_of : string → option string;              (* BigDecimal::from_str *)
  numeric_fits : string → bool;                     (* is it in the range of NUMERIC(10,2) *)
  sql_error : string                                (* the text of a database error *)
}.

(** ** Requests *)

Record create_schedule_request := CreateScheduleRequest {
  cs_mongo_show_id : string; cs_show_type : show_type; cs_layout_id : Z; cs_date : string; cs_slot : time_slot;
  cs_start_time : option string; cs_end_time : string; cs_booking_open_at : string; cs_prices : gmap string string;
  cs_venue_name : option string; cs_venue_address : option string; cs_venue_city : string; cs_venue_state : option string
}.
Record extra_seat_input := ExtraSeatInput {
  xs_row_letter : string; xs_seat_number : Z; xs_seat_class : seat_class; xs_price : string
}.
Record update_seat_input := UpdateSeatInput { us_id : Z; us_price : option string; us_status : option seat_status }.
Record update_schedule_request := UpdateScheduleRequest {
  up_date : option string; up_slot : option time_slot; up_start_time : option string; up_end_time : option string;
  up_booking_open_at : option string; up_venue_name : option string; up_venue_address : option string;
  up_venue_city : option string; up_venue_state : option string
}.

(** The types of the shows in MongoDB are those of PostgreSQL. *)
Definition show_types_match (postgres mongo : show_type) : bool :=
  match postgres, mongo with
  | Movie, Movie | Concert, Concert | Event, Event | GameEvent, GameEvent => true
  | _, _ => false
  end.

Definition show_type_name (t : show_type) : string :=
  match t with Movie => "Movie" | Concert => "Concert" | Event => "Event" | GameEvent => "GameEvent" end.

Definition class_key (c : seat_class) : string :=
  match c with Standard => "Standard" | Premium => "Premium" | Vip => "VIP" | Ga => "GA" end.

Definition slot_hour (s : time_slot) : Z := match s with Morning => 10 | Afternoon => 14 | Evening => 18 | Night => 22 end.
Definition derived_start (date : Z) (slot : time_slot) : Z := (date * 24 + slot_hour slot) * 3600000.

(** ** Statements *)

(** The unique index [unique_active_schedule_venue_start]: a missing city is no city. *)
Definition same_place (a b : schedule_row) : bool :=
  bool_decide (sc_deleted_at a = None) && bool_decide (sc_deleted_at b = None) &&
  bool_decide (sc_mongo_show_id a = sc_mongo_show_id b) &&
  match sc_venue_city a, sc_venue_city b with Some x, Some y => bool_decide (x = y) | _, _ => false end &&
  bool_decide (default "" (sc_venue_name a) = default "" (sc_venue_name b)) && (sc_start_time a =? sc_start_time b).

(** [schedules_venue_city_required], asked of every row that is written: [BTRIM] removes
    spaces. *)
Definition venue_city_required (r : schedule_row) : bool :=
  match sc_venue_city r with
  | Some c => existsb (λ a, negb (Ascii.eqb a (Ascii.ascii_of_nat 32))) (String.list_ascii_of_string c)
  | None => false
  end.

Definition schedule_row_ok (r : schedule_row) (d : db) : bool :=
  venue_city_required r && varchar 24 (sc_mongo_show_id r) && opt_varchar 255 (sc_venue_name r) && opt_varchar 100 (sc_venue_city r)
  && opt_varchar 100 (sc_venue_state r)
  && forallb (λ x, (x.1 =? sc_id r) || negb (same_place x.2 r)) (map_to_list (d_schedules d)).

(** The row that an insertion or an update writes, or the error of the statement. *)
Definition put_schedule (r : schedule_row) (d : db) : option db :=
  if schedule_row_ok r d then Some (with_schedules <[sc_id r := r]> d) else None.

Record new_seat := NewScheduleSeat { ns_schedule_id : Z; ns_price : string; ns_place : seat_place }.

Definition seat_conflict (n : new_seat) (r : seat_row) : bool :=
  (ss_schedule_id r =? ns_schedule_id n) &&
  ((sp_seat_index (ss_place r) =? sp_seat_index (ns_place n)) ||
   bool_decide (sp_row_letter (ss_place r) = sp_row_letter (ns_place n)) && (sp_seat_number (ss_place r) =? sp_seat_number (ns_place n))).

(** The foreign key [layout_seat_id]. *)
Definition layout_seat_exists (n : new_seat) (d : db) : bool :=
  match sp_layout_seat_id (ns_place n) with
  | Some l => existsb (λ x, ls_id x =? l) (d_layout_seats d)
  | None => true
  end.

(** One row of [INSERT INTO schedule_seats]; [skip]: [ON CONFLICT DO NOTHING]. *)
Definition insert_seat (numeric_fits : string → bool) (skip : bool) (n : new_seat) (d : db) : option (list seat_row * db) :=
  if negb (varchar 4 (sp_row_letter (ns_place n))) || negb (numeric_fits (ns_price n)) || (sp_seat_index (ns_place n) <? 1)
     || negb (bool_decide (ns_schedule_id n ∈ dom (d_schedules d))) || negb (layout_seat_exists n d)
  then None
  else
    let '(id, d) := next_seat_id d in
    if existsb (seat_conflict n) (d_seats d) then (if skip then Some ([], d) else None)
    else
      let r := SeatRow id (ns_schedule_id n) Available (ns_price n) (ns_place n) in
      Some ([r], with_seats (λ l, l ++ [r]) d).

Fixpoint insert_seats (numeric_fits : string → bool) (skip : bool) (ns : list new_seat) (d : db) : option (list seat_row * db) :=
  match ns with
  | [] => Some ([], d)
  | n :: ns =>
      '(r, d) ← insert_seat numeric_fits skip n d;
      '(rs, d) ← insert_seats numeric_fits skip ns d;
      Some (r ++ rs, d)
  end.

(** ** Copying a layout *)

(** The order of [sort_by]: strings compare by their bytes. *)
Definition layout_seat_cmp (a b : layout_seat_row) : comparison :=
  match String.compare (ls_row_letter a) (ls_row_letter b) with
  | Eq => match ls_seat_number a ?= ls_seat_number b with Eq => ls_id a ?= ls_id b | c => c end
  | c => c
  end.
Definition layout_seat_le (a b : layout_seat_row) : Prop := layout_seat_cmp a b ≠ Gt.
#[export] Instance layout_seat_le_dec a b : Decision (layout_seat_le a b).
Proof. unfold layout_seat_le. destruct (layout_seat_cmp a b); [left|left|right]; done || (intros H; by apply H). Defined.

Definition key_of (s : layout_seat_row) : string * Z := (ls_row_letter s, ls_seat_number s).

Section handlers.
Context {D : Type} `{!RedisServer D} {HJ : JsonText} {HS : ScheduleLibs}.
Abbreviation S := (St (site D)).

Definition price_of (prices : gmap string string) (c : seat_class) : string :=
  let price_str := default "0" (match prices !! class_key c with Some p => Some p | None => prices !! "Standard" end) in
  default "0" (decimal_of price_str).

(** The loop over the sorted seats; a seat whose row and number were seen is passed
    over.  [None]: the index is out of range. *)
Fixpoint copy_seats (schedule_id : Z) (prices : gmap string string) (seats : list layout_seat_row)
    (seen : gset (string * Z)) (new_seats : list new_seat) : option (list new_seat) :=
  match seats with
  | [] => Some new_seats
  | seat :: seats =>
      if bool_decide (key_of seat ∈ seen) then copy_seats schedule_id prices seats seen new_seats
      else
        seat_index ← i32_checked (Z.of_nat (length new_seats) + 1);
        copy_seats schedule_id prices seats ({[key_of seat]} ∪ seen)
          (new_seats ++ [NewScheduleSeat schedule_id (price_of prices (ls_seat_class seat))
             (SeatPlace seat_index (Some (ls_id seat)) Base (ls_row_letter seat) (ls_seat_number seat) (ls_seat_class seat))])
  end.

(** ** Caches *)

Definition invalidate_show_schedule_caches (s : schedule_row) : S unit :=
  let inv k := redis_of (invalidate_async k) in
  inv cache_schedules_active_key ;;
  inv (cache_show_schedules_key (sc_mongo_show_id s) (sc_venue_city s)) ;;
  inv (cache_show_schedules_key (sc_mongo_show_id s) None) ;;
  let show_type := show_type_name (sc_show_type s) in
  for_each [cache_movies_key None None; cache_movies_key (Some show_type) None;
            cache_movies_key None (sc_venue_city s); cache_movies_key (Some show_type) (sc_venue_city s)] inv.

Definition invalidate_schedule_lifecycle_caches (s : schedule_row) : S unit :=
  redis_of (invalidate_async (cache_schedule_key (sc_id s))) ;; invalidate_show_schedule_caches s.

(** ** Creation *)

Record schedule_created := ScheduleCreated { cr_id : Z; cr_start : Z; cr_state : lifecycle_state; cr_seats_copied : Z }.

(** The times of a request: date, start, end and opening. *)
Definition request_times (body : create_schedule_request) : (Z * Z * Z * Z) + app_error :=
  match parse_date (cs_date body) with
  | None => inr (bad_request "Invalid date format, expected YYYY-MM-DD")
  | Some date =>
      match (match cs_start_time body with Some st => parse_rfc3339 st | None => Some (derived_start date (cs_slot body)) end) with
      | None => inr (bad_request "Invalid start_time — use ISO-8601")
      | Some start_time =>
          match parse_rfc3339 (cs_end_time body) with
          | None => inr (bad_request "Invalid end_time — use ISO-8601")
          | Some end_time =>
              match parse_rfc3339 (cs_booking_open_at body) with
              | None => inr (bad_request "Invalid booking_open_at — use ISO-8601")
              | Some booking_open_at =>
                  if start_time <=? booking_open_at then inr (bad_request "booking_open_at must be before start_time")
                  else inl (date, start_time, end_time, booking_open_at)
              end
          end
      end
  end.

(** [INSERT INTO schedules .. RETURNING *]; [layout_id] is a foreign key. *)
Definition insert_schedule (mongo_show_id venue_city : string) (times : Z * Z * Z * Z) (now : Z) (body : create_schedule_request)
    (d : db) : option (schedule_row * db) :=
  let '(id, d) := next_schedule_id d in
  let '(date, start_time, end_time, booking_open_at) := times in
  let r := Schedule id mongo_show_id (cs_show_type body) (Some (cs_layout_id body)) start_time booking_open_at Scheduled now None
             (cs_venue_name body) (cs_venue_address body) (Some venue_city) (cs_venue_state body) date (cs_slot body) end_time in
  if negb (bool_decide (cs_layout_id body ∈ dom (d_layouts d))) then None
  else d ← put_schedule r d; Some (r, d).

(** From the connection on. *)
Definition store_schedule (mongo_show_id venue_city : string) (times : Z * Z * Z * Z) (body : create_schedule_request) :
    S (schedule_created + app_error) :=
  conn ← db_get;
  if negb conn then mret (inr (internal sql_error))
  else
    seats ← db_query (λ d, filter (λ s, ls_layout_id s = cs_layout_id body) (d_layout_seats d));
    match seats with
    | None => mret (inr (internal sql_error))
    | Some [] => mret (inr (bad_request "Seat layout has no seats — add seats to the layout first"))
    | Some base_seats =>
        now ← redis_of now_ms;
        schedule ← db_run (insert_schedule mongo_show_id venue_city times now body);
        match schedule with
        | None => mret (inr (internal sql_error))
        | Some schedule =>
            match copy_seats (sc_id schedule) (cs_prices body) (merge_sort layout_seat_le base_seats) ∅ [] with
            | None => mret (inr (bad_request "Seat layout contains too many seats"))
            | Some new_seats =>
                inserted ← db_run (insert_seats numeric_fits true new_seats);
                match inserted with
                | None => mret (inr (internal sql_error))
                | Some _ =>
                    invalidate_show_schedule_caches schedule ;;
                    mret (inl (ScheduleCreated (sc_id schedule) (sc_start_time schedule) (sc_lifecycle_state schedule)
                                 (Z.of_nat (length new_seats))))
                end
            end
        end
    end.

Definition create_schedule (mongo_show : option (option show_type)) (body : create_schedule_request) : S (schedule_created + app_error) :=
  let venue_city := trim (cs_venue_city body) in
  if is_empty venue_city then mret (inr (bad_request "venue_city is required"))
  else
    let mongo_show_id := trim (cs_mongo_show_id body) in
    if negb (object_id_ok mongo_show_id) then mret (inr (bad_request "mongo_show_id must be a valid MongoDB ObjectId"))
    else
      match mongo_show with
      | None => mret (inr (internal sql_error))
      | Some None => mret (inr (not_found "Show not found or has been deleted"))
      | Some (Some mongo_type) =>
          if negb (show_types_match (cs_show_type body) mongo_type)
          then mret (inr (bad_request "show_type does not match the referenced MongoDB show"))
          else
            match request_times body with
            | inr e => mret (inr e)
            | inl times => store_schedule mongo_show_id venue_city times body
            end
      end.

(** ** Extra seats *)

Definition active_schedule (schedule_id : Z) (d : db) : option schedule_row :=
  s ← d_schedules d !! schedule_id; if decide (sc_deleted_at s = None) then Some s else None.

Definition plan_of (schedule_id : Z) (d : db) : list seat_row := filter (λ r, ss_schedule_id r = schedule_id) (d_seats d).

(** [ORDER BY seat_index DESC LIMIT 1]. *)
Definition last_index (rows : list seat_row) : Z := foldr (λ r n, Z.max (sp_seat_index (ss_place r)) n) 0 rows.

(** The loop over the request: a seat whose row and number exist, or come again, is passed
    over. *)
Fixpoint extra_seats (schedule_id : Z) (seats : list extra_seat_input) (keys : gset (string * Z)) (next_seat_index : Z)
    (new_seats : list new_seat) : list new_seat + app_error :=
  match seats with
  | [] => inl new_seats
  | seat :: seats =>
      let key := (xs_row_letter seat, xs_seat_number seat) in
      if bool_decide (key ∈ keys) then extra_seats schedule_id seats keys next_seat_index new_seats
      else
        match decimal_of (xs_price seat) with
        | None => inr (bad_request ("Invalid price: " +:+ xs_price seat))
        | Some price =>
            match i32_checked (next_seat_index + 1) with
            | None => inr (bad_request "Schedule contains too many seats")
            | Some next =>
                extra_seats schedule_id seats ({[key]} ∪ keys) next
                  (new_seats ++ [NewScheduleSeat schedule_id price
                     (SeatPlace next_seat_index None Extra (xs_row_letter seat) (xs_seat_number seat) (xs_seat_class seat))])
            end
        end
  end.

(** The transaction: an error leaves the database as it was. *)
Definition extra_seats_tx (schedule_id : Z) (seats : list extra_seat_input) (d : db) :
    option ((list seat_row + app_error) * db) :=
  match active_schedule schedule_id d with
  | None => Some (inr (not_found "Schedule not found"), d)
  | Some schedule =>
      if bool_decide (sc_lifecycle_state schedule ≠ Scheduled)
      then Some (inr (bad_request "Cannot add seats after the schedule has started"), d)
      else
        let rows := plan_of schedule_id d in
        let keys := list_to_set (map (λ r, (sp_row_letter (ss_place r), sp_seat_number (ss_place r))) rows) in
        match i32_checked (last_index rows + 1) with
        | None => Some (inr (bad_request "Schedule contains too many seats"), d)
        | Some next =>
            match extra_seats schedule_id seats keys next [] with
            | inr e => Some (inr e, d)
            | inl [] => Some (inl [], d)
            | inl new_seats => '(rs, d) ← insert_seats numeric_fits false new_seats d; Some (inl rs, d)
            end
        end
  end.

Definition add_extra_seats (schedule_id : Z) (seats : list extra_seat_input) : S (list seat_row + app_error) :=
  if bool_decide (seats = []) then mret (inr (bad_request "seats must not be empty"))
  else
    conn ← db_get;
    if negb conn then mret (inr (internal sql_error))
    else
      inserted ← db_run (extra_seats_tx schedule_id seats);
      match inserted with
      | None => mret (inr (internal sql_error))
      | Some (inr e) => mret (inr e)
      | Some (inl rows) =>
          redis_of (invalidate_async (cache_schedule_key schedule_id)) ;;
          redis_of (invalidate_async cache_schedules_active_key) ;;
          mret (inl rows)
      end.

(** ** Prices and states of seats *)

Definition set_seat_price (p : string) (r : seat_row) : seat_row :=
  SeatRow (ss_id r) (ss_schedule_id r) (ss_status r) p (ss_place r).
Definition seat_of (schedule_id seat_id : Z) (r : seat_row) : bool := (ss_id r =? seat_id) && (ss_schedule_id r =? schedule_id).

Definition price_stmt (schedule_id seat_id : Z) (p : string) (d : db) : option (unit * db) :=
  if existsb (seat_of schedule_id seat_id) (d_seats d) && negb (numeric_fits p) then None
  else Some (tt, with_seats (update_where (seat_of schedule_id seat_id) (set_seat_price p)) d).
Definition status_stmt (schedule_id seat_id : Z) (st : seat_status) (d : db) : option (unit * db) :=
  Some (tt, with_seats (update_where (seat_of schedule_id seat_id) (set_seat_status st)) d).

Fixpoint update_seats (schedule_id : Z) (seats : list update_seat_input) : S (unit + app_error) :=
  match seats with
  | [] => mret (inl tt)
  | seat :: seats =>
      priced ← (match us_price seat ≫= decimal_of with
                | Some price => db_run (price_stmt schedule_id (us_id seat) price)
                | None => mret (Some tt)
                end);
      match priced with
      | None => mret (inr (internal sql_error))
      | Some _ =>
          set ← (match us_status seat with
                 | Some st => db_run (status_stmt schedule_id (us_id seat) st)
                 | None => mret (Some tt)
                 end);
          match set with
          | None => mret (inr (internal sql_error))
          | Some _ => update_seats schedule_id seats
          end
      end
  end.

Definition update_schedule_seats (schedule_id : Z) (seats : list update_seat_input) : S (unit + app_error) :=
  if bool_decide (seats = []) then mret (inr (bad_request "seats array must not be empty"))
  else
    conn ← db_get;
    if negb conn then mret (inr (internal sql_error))
    else
      found ← db_query (λ d, d_schedules d !! schedule_id);
      match found with
      | None | Some None => mret (inr (not_found "Schedule not found"))
      | Some (Some _) =>
          r ← update_seats schedule_id seats;
          match r with
          | inr e => mret (inr e)
          | inl _ => redis_of (invalidate_async (cache_schedule_key schedule_id)) ;; mret (inl tt)
          end
      end.

(** ** The life of a schedule *)

Definition set_lifecycle (st : lifecycle_state) (r : schedule_row) : schedule_row :=
  Schedule (sc_id r) (sc_mongo_show_id r) (sc_show_type r) (sc_layout_id r) (sc_start_time r) (sc_booking_open_at r) st
    (sc_created_at r) (sc_deleted_at r) (sc_venue_name r) (sc_venue_address r) (sc_venue_city r) (sc_venue_state r)
    (sc_date r) (sc_slot r) (sc_end_time r).
Definition set_deleted (at_ : Z) (r : schedule_row) : schedule_row :=
  Schedule (sc_id r) (sc_mongo_show_id r) (sc_show_type r) (sc_layout_id r) (sc_start_time r) (sc_booking_open_at r)
    (sc_lifecycle_state r) (sc_created_at r) (Some at_) (sc_venue_name r) (sc_venue_address r) (sc_venue_city r)
    (sc_venue_state r) (sc_date r) (sc_slot r) (sc_end_time r).

(** The state, the closed marker, then the message. *)
Definition publish_schedule_lifecycle (event : pubsub_event) : S (unit + app_error) :=
  match (match event with
         | ScheduleOpened schedule_id => Some (schedule_id, false)
         | ScheduleClosed schedule_id => Some (schedule_id, true)
         | _ => None
         end) with
  | None => mret (inr (internal "Invalid schedule lifecycle event"))
  | Some (schedule_id, closed) =>
      let closed_key := schedule_closed_key schedule_id in
      marked ← redis_of (node_cmd 0 (if (closed : bool) then cmd_set closed_key "1" else cmd_del closed_key));
      match marked with
      | None => mret (inr (internal sql_error))
      | Some _ =>
          fl ← redis_of draw;
          (if decide (fl = FDown) then mret tt
           else redis_of (λ w, (tt, World (w_nodes w) (w_now w) (w_faults w)
                                      (w_log w ++ [(schedule_lifecycle_channel, event_json event)])))) ;;
          mret (if decide (fl = FOk) then inl tt else inr (internal sql_error))
      end
  end.

(** The second half of [start_schedule], [close_schedule] and [delete_schedule]. *)
Definition announce (event : pubsub_event) (schedule : schedule_row) : S (unit + app_error) :=
  r ← publish_schedule_lifecycle event;
  match r with
  | inr e => mret (inr e)
  | inl _ => invalidate_schedule_lifecycle_caches schedule ;; mret (inl tt)
  end.

(** [diesel::update(..).get_result] of a row with another state. *)
Definition set_row (schedule_id : Z) (s : schedule_row) (d : db) : option ((schedule_row + app_error) * db) :=
  if venue_city_required s then Some (inl s, with_schedules <[schedule_id := s]> d) else None.

Definition start_tx (schedule_id : Z) (d : db) : option ((schedule_row + app_error) * db) :=
  match active_schedule schedule_id d with
  | None => Some (inr (not_found "Schedule not found"), d)
  | Some current =>
      match sc_lifecycle_state current with
      | Closed => Some (inr (bad_request "A closed schedule cannot be restarted"), d)
      | Open => Some (inl current, d)
      | Scheduled => set_row schedule_id (set_lifecycle Open current) d
      end
  end.

Definition close_tx (schedule_id : Z) (d : db) : option ((schedule_row + app_error) * db) :=
  match active_schedule schedule_id d with
  | None => Some (inr (not_found "Schedule not found"), d)
  | Some current =>
      match sc_lifecycle_state current with
      | Closed => Some (inl current, d)
      | _ => set_row schedule_id (set_lifecycle Closed current) d
      end
  end.

(** The first half: the transaction. *)
Definition lifecycle_tx (tx : Z → db → option ((schedule_row + app_error) * db)) (schedule_id : Z) : S (schedule_row + app_error) :=
  conn ← db_get;
  if negb conn then mret (inr (internal sql_error))
  else
    r ← db_run (tx schedule_id);
    mret (match r with None => inr (internal sql_error) | Some r => r end).

Definition then_announce (event : pubsub_event) (first : S (schedule_row + app_error)) : S (unit + app_error) :=
  r ← first; match r with inr e => mret (inr e) | inl schedule => announce event schedule end.

Definition start_schedule (schedule_id : Z) : S (unit + app_error) :=
  then_announce (ScheduleOpened schedule_id) (lifecycle_tx start_tx schedule_id).
Definition close_schedule (schedule_id : Z) : S (unit + app_error) :=
  then_announce (ScheduleClosed schedule_id) (lifecycle_tx close_tx schedule_id).

(** Two statements: the row read may have changed before the update. *)
Definition delete_stmt (schedule_id now : Z) (d : db) : option (unit * db) :=
  if negb (default true (venue_city_required <$> d_schedules d !! schedule_id)) then None
  else Some (tt, with_schedules (alter (λ r, set_lifecycle Closed (set_deleted now r)) schedule_id) d).

Definition delete_rows (schedule_id : Z) : S (schedule_row + app_error) :=
  conn ← db_get;
  if negb conn then mret (inr (internal sql_error))
  else
    found ← db_query (active_schedule schedule_id);
    match found with
    | None | Some None => mret (inr (not_found "Schedule not found"))
    | Some (Some schedule) =>
        now ← redis_of now_ms;
        r ← db_run (delete_stmt schedule_id now);
        mret (match r with None => inr (internal sql_error) | Some _ => inl schedule end)
    end.

Definition delete_schedule (schedule_id : Z) : S (unit + app_error) :=
  then_announce (ScheduleClosed schedule_id) (delete_rows schedule_id).

(** ** Metadata *)

Record changeset := ScheduleChangeset {
  ch_date : option Z; ch_slot : option time_slot; ch_start_time : option Z; ch_end_time : option Z;
  ch_booking_open_at : option Z; ch_venue_name : option string; ch_venue_address : option string;
  ch_venue_city : option string; ch_venue_state : option string
}.

(** Columns that are [None] stay; a changeset without columns is an error of the query
    builder. *)
Definition or_old {A} (o : option A) (old : A) : A := default old o.
Definition or_old_opt {A} (o old : option A) : option A := match o with Some x => Some x | None => old end.
Definition apply_changes (c : changeset) (r : schedule_row) : schedule_row :=
  Schedule (sc_id r) (sc_mongo_show_id r) (sc_show_type r) (sc_layout_id r) (or_old (ch_start_time c) (sc_start_time r))
    (or_old (ch_booking_open_at c) (sc_booking_open_at r)) (sc_lifecycle_state r) (sc_created_at r) (sc_deleted_at r)
    (or_old_opt (ch_venue_name c) (sc_venue_name r)) (or_old_opt (ch_venue_address c) (sc_venue_address r))
    (or_old_opt (ch_venue_city c) (sc_venue_city r)) (or_old_opt (ch_venue_state c) (sc_venue_state r))
    (or_old (ch_date c) (sc_date r)) (or_old (ch_slot c) (sc_slot r)) (or_old (ch_end_time c) (sc_end_time r)).

Definition no_changes (c : changeset) : bool :=
  match c with ScheduleChangeset None None None None None None None None None => true | _ => false end.

Definition update_stmt (schedule_id : Z) (c : changeset) (d : db) : option (unit * db) :=
  if no_changes c then None
  else
    match d_schedules d !! schedule_id with
    | None => Some (tt, d)
    | Some r => d ← put_schedule (apply_changes c r) d; Some (tt, d)
    end.

(** An optional field that must parse. *)
Definition parsed {A} (parse : string → option A) (o : option string) (m : string) : option A + app_error :=
  match o with
  | None => inl None
  | Some s => match parse s with Some x => inl (Some x) | None => inr (bad_request m) end
  end.

Definition changes_of (body : update_schedule_request) : changeset + app_error :=
  match parsed parse_rfc3339 (up_start_time body) "Invalid start_time — use ISO-8601",
        parsed parse_rfc3339 (up_end_time body) "Invalid end_time — use ISO-8601",
        parsed parse_rfc3339 (up_booking_open_at body) "Invalid booking_open_at — use ISO-8601",
        parsed parse_date (up_date body) "Invalid date format, expected YYYY-MM-DD" with
  | inr e, _, _, _ => inr e
  | _, inr e, _, _ => inr e
  | _, _, inr e, _ => inr e
  | _, _, _, inr e => inr e
  | inl start_time, inl end_time, inl booking_open_at, inl date =>
      inl (ScheduleChangeset date (up_slot body) start_time end_time booking_open_at (up_venue_name body)
             (up_venue_address body) (trim <$> up_venue_city body) (up_venue_state body))
  end.

Definition update_schedule (schedule_id : Z) (body : update_schedule_request) : S (schedule_row + app_error) :=
  if bool_decide (trim <$> up_venue_city body = Some "") then mret (inr (bad_request "venue_city must not be empty"))
  else
    conn ← db_get;
    if negb conn then mret (inr (internal sql_error))
    else
      found ← db_query (active_schedule schedule_id);
      match found with
      | None | Some None => mret (inr (not_found "Schedule not found"))
      | Some (Some existing) =>
          match changes_of body with
          | inr e => mret (inr e)
          | inl c =>
              r ← db_run (update_stmt schedule_id c);
              match r with
              | None => mret (inr (internal sql_error))
              | Some _ =>
                  redis_of (invalidate_async (cache_schedule_key schedule_id)) ;;
                  reread ← db_query (λ d, d_schedules d !! schedule_id);
                  let updated := default existing (default None reread) in
                  invalidate_show_schedule_caches existing ;;
                  when (bool_decide (sc_venue_city existing ≠ sc_venue_city updated)) (invalidate_show_schedule_caches updated) ;;
                  mret (inl updated)
              end
          end
      end.

(** ** Reading *)

Definition get_schedule (schedule_id : Z) : S (schedule_row + app_error) :=
  conn ← db_get;
  if negb conn then mret (inr (internal sql_error))
  else
    found ← db_query (λ d, d_schedules d !! schedule_id);
    mret (match found with Some (Some s) => inl s | _ => inr (not_found "Schedule not found") end).

(** [ORDER BY seat_index]. *)
Definition index_le (a b : seat_row) : Prop := sp_seat_index (ss_place a) ≤ sp_seat_index (ss_place b).
#[export] Instance index_le_dec a b : Decision (index_le a b).
Proof. unfold index_le. apply _. Defined.

Definition get_schedule_seats (schedule_id : Z) : S (list seat_row + app_error) :=
  conn ← db_get;
  if negb conn then mret (inr (internal sql_error))
  else
    rows ← db_query (λ d, merge_sort index_le (plan_of schedule_id d));
    mret (match rows with Some l => inl l | None => inr (internal sql_error) end).
End handlers.
