(* ===== verification/SchedulesProps.v ===== *)
(** * SchedulesProps: the seat plans the administration keeps

    [plans_ok] is the well-formedness of the seats of all schedules: every plan numbers
    its seats from 1 on without a gap, no place occurs twice, and the keys refer to
    existing rows.  [frozen] says that a plan is the one it was. *)

From stdpp Require Import gmap sorting.
From S2P Require Import Prelude Text Keys Redis RedisMem SeatLock Events Db HttpPayments HttpCache Schedules.

#[local] Open Scope list_scope.
#[local] Open Scope Z_scope.

(** ** Plans *)

Definition seat_key (r : seat_row) : string * Z := (sp_row_letter (ss_place r), sp_seat_number (ss_place r)).
Definition index_of (r : seat_row) : Z := sp_seat_index (ss_place r).

Definition plan_ok (l : list seat_row) : Prop :=
  map index_of l = map Z.of_nat (seq 1 (length l)) ∧ NoDup (map seat_key l) ∧ Z.of_nat (length l) ≤ i32_max.

Record plans_ok (d : db) : Prop := PlansOk {
  po_plans : ∀ s, plan_ok (plan_of s d);
  po_ids : NoDup (map ss_id (d_seats d)) ∧ Forall (λ r, ss_id r < d_seat_seq d) (d_seats d);
  po_refs : Forall (λ r, ss_schedule_id r ∈ dom (d_schedules d)) (d_seats d);
  po_rows : map_Forall (λ i r, sc_id r = i ∧ i < d_schedule_seq d) (d_schedules d)
}.

Lemma plan_ok_nil : plan_ok [].
Proof. split_and!; [done|constructor|done]. Qed.

Lemma plan_ok_snoc l r :
  plan_ok l → index_of r = Z.of_nat (length l) + 1 → seat_key r ∉ map seat_key l → index_of r ≤ i32_max → plan_ok (l ++ [r]).
Proof.
  intros (Hi & Hk & Hl) Hr Hn Hm. split_and!.
  - rewrite length_app, seq_app, !map_app, Hi. simpl. rewrite Hr. do 2 f_equal. lia.
  - rewrite map_app. apply NoDup_app. split_and!; [done| |apply NoDup_singleton].
    intros x Hx ->%list_elem_of_singleton. done.
  - rewrite length_app. simpl. lia.
Qed.

Lemma plan_index l r : plan_ok l → r ∈ l → 1 ≤ index_of r ≤ Z.of_nat (length l).
Proof.
  intros (Hi & _ & _) Hr. assert (index_of r ∈ map index_of l) as H by (apply list_elem_of_fmap; eauto).
  rewrite Hi in H. apply list_elem_of_fmap in H as (n & -> & Hn%elem_of_seq). lia.
Qed.

(** Two seats of a plan with one index are the same place in the list. *)
Lemma plan_indices_nodup l : plan_ok l → NoDup (map index_of l).
Proof. intros (-> & _). apply NoDup_fmap_2; [apply _|apply NoDup_seq]. Qed.

(** ** Inserting seats *)

(** New seats that continue a plan of [k] seats with the places [keys]. *)
Fixpoint continues (s k : Z) (keys : gset (string * Z)) (ns : list new_seat) : Prop :=
  match ns with
  | [] => True
  | n :: ns =>
      let key := (sp_row_letter (ns_place n), sp_seat_number (ns_place n)) in
      ns_schedule_id n = s ∧ sp_seat_index (ns_place n) = k + 1 ∧ k + 1 ≤ i32_max ∧ (key ∉ keys) ∧
      continues s (k + 1) ({[key]} ∪ keys) ns
  end.

Lemma continues_app s k keys ns ns' :
  continues s k keys ns →
  continues s (k + Z.of_nat (length ns)) (list_to_set (map (λ n, (sp_row_letter (ns_place n), sp_seat_number (ns_place n))) ns) ∪ keys) ns' →
  continues s k keys (ns ++ ns').
Proof.
  revert k keys. induction ns as [|n ns IH]; intros k keys; simpl.
  - intros _. by rewrite Z.add_0_r, union_empty_l_L.
  - intros (H1 & H2 & H3 & H4 & H5) H. split_and!; [done..|]. apply IH; [done|].
    replace (k + 1 + Z.of_nat (length ns)) with (k + Z.of_nat (S (length ns))) by lia.
    set (key := (sp_row_letter (ns_place n), sp_seat_number (ns_place n))) in *.
    assert (∀ A : gset (string * Z), A ∪ ({[key]} ∪ keys) = ({[key]} ∪ A) ∪ keys) as -> by set_solver. exact H.
Qed.

(** The seats of other schedules, and the other tables, stay. *)
Definition seats_added (s : Z) (rs : list seat_row) (d d' : db) : Prop :=
  d_schedules d' = d_schedules d ∧ d_seats d' = d_seats d ++ rs ∧ Forall (λ r, ss_schedule_id r = s) rs.

Lemma plan_of_added s rs d d' t : seats_added s rs d d' → plan_of t d' = plan_of t d ++ (if decide (t = s) then rs else []).
Proof.
  intros (_ & H & Hs). unfold plan_of. rewrite H, filter_app. f_equal. case_decide as Ht.
  - subst t. clear H. induction Hs as [|r rs Hr Hs IH]; [done|]. rewrite filter_cons, decide_True, IH; done.
  - clear H. induction Hs as [|r rs Hr Hs IH]; [done|]. rewrite filter_cons, decide_False; [done|congruence].
Qed.

Lemma no_conflict d s n :
  plans_ok d → ns_schedule_id n = s → sp_seat_index (ns_place n) = Z.of_nat (length (plan_of s d)) + 1 →
  (sp_row_letter (ns_place n), sp_seat_number (ns_place n)) ∉ map seat_key (plan_of s d) →
  existsb (seat_conflict n) (d_seats d) = false.
Proof.
  intros Hd Hs Hi Hk. apply not_true_is_false. intros He. apply existsb_exists in He as (r & Hr & Hc).
  apply list_elem_of_In in Hr. unfold seat_conflict in Hc. rewrite Hs in Hc.
  apply andb_true_iff in Hc as [H1 H2]. apply Z.eqb_eq in H1.
  assert (r ∈ plan_of s d) as Hp by by apply list_elem_of_filter.
  apply orb_true_iff in H2 as [H2|H2].
  - apply Z.eqb_eq in H2. pose proof (plan_index _ _ (po_plans d Hd s) Hp) as Hx. unfold index_of in Hx. lia.
  - apply andb_true_iff in H2 as [H2 H3]. apply bool_decide_eq_true in H2. apply Z.eqb_eq in H3.
    apply Hk. rewrite <-H2, <-H3. apply list_elem_of_fmap. exists r. done.
Qed.

(** One seat that continues its plan. *)
Lemma insert_seat_continues nf skip s n d rs d' :
  plans_ok d → ns_schedule_id n = s → sp_seat_index (ns_place n) = Z.of_nat (length (plan_of s d)) + 1 →
  sp_seat_index (ns_place n) ≤ i32_max →
  (sp_row_letter (ns_place n), sp_seat_number (ns_place n)) ∉ map seat_key (plan_of s d) →
  insert_seat nf skip n d = Some (rs, d') →
  plans_ok d' ∧ seats_added s rs d d' ∧ map seat_key rs = [(sp_row_letter (ns_place n), sp_seat_number (ns_place n))].
Proof.
  intros Hd Hs Hi Hm Hk. unfold insert_seat. destruct (_ || _) eqn:Hc; [done|]. cbn [next_seat_id d_seats].
  rewrite (no_conflict d s n) by done. intros [= <- <-]. cbn.
  apply orb_false_iff in Hc as [[_ Hc]%orb_false_iff _]. apply negb_false_iff, bool_decide_eq_true in Hc.
  set (r := SeatRow (d_seat_seq d) (ns_schedule_id n) Available (ns_price n) (ns_place n)).
  match goal with |- plans_ok ?x ∧ _ => set (d' := x) end.
  assert (seats_added s [r] d d') as Hadd by (split_and!; [done|done|by constructor]).
  split_and!; [|exact Hadd|done]. destruct Hd as [H1 [H2 H3] H4 H5]. split.
  - intros t. rewrite (plan_of_added s [r] d) by done. case_decide; [subst t|by rewrite app_nil_r].
    by apply plan_ok_snoc.
  - simpl. split.
    + rewrite map_app. apply NoDup_app. split_and!; [done| |apply NoDup_singleton].
      intros x (r' & -> & Hr')%list_elem_of_fmap Hx%list_elem_of_singleton.
      rewrite Forall_forall in H3. specialize (H3 _ Hr'). simpl in *. lia.
    + apply Forall_app. split; [|constructor; simpl; [lia|constructor]].
      eapply Forall_impl; [exact H3|]. simpl. lia.
  - simpl. apply Forall_app. split; [exact H4|]. by constructor.
  - exact H5.
Qed.

Lemma insert_seats_continues nf skip s ns d rs d' :
  plans_ok d → continues s (Z.of_nat (length (plan_of s d))) (list_to_set (map seat_key (plan_of s d))) ns →
  insert_seats nf skip ns d = Some (rs, d') → plans_ok d' ∧ seats_added s rs d d'.
Proof.
  revert d rs d'. induction ns as [|n ns IH]; intros d rs d' Hd Hc H; simpl in H.
  { injection H as <- <-. split; [done|]. split_and!; [done|by rewrite app_nil_r|done]. }
  destruct Hc as (H1 & H2 & H3 & H4 & H5).
  destruct (insert_seat nf skip n d) as [[r d1]|] eqn:E1; [|done]. simpl in H.
  destruct (insert_seats nf skip ns d1) as [[rs1 d2]|] eqn:E2; [|done]. simpl in H. injection H as <- <-.
  destruct (insert_seat_continues nf skip s n d r d1 Hd H1 H2) as (Hd1 & Ha1 & Hkey); [lia| |done|].
  { intros Hin. apply H4. by apply elem_of_list_to_set. }
  assert (plan_of s d1 = plan_of s d ++ r) as Hp by by rewrite (plan_of_added s r d d1 s Ha1), decide_True.
  assert (length r = 1%nat) as Hr by (apply (f_equal length) in Hkey; by rewrite length_map in Hkey).
  destruct (IH d1 rs1 d2 Hd1) as [Hd2 Ha2]; [|done|].
  { rewrite Hp, length_app, map_app, Hkey, Hr, Nat2Z.inj_add. rewrite list_to_set_app_L, (comm_L (∪)). simpl.
    by rewrite union_empty_r_L. }
  split; [done|]. destruct Ha1 as (A1 & A2 & A3), Ha2 as (B1 & B2 & B3).
  split_and!; [congruence|by rewrite B2, A2, app_assoc|by apply Forall_app].
Qed.

(** ** The handlers' seats continue their plan *)

Section seats.
Context {HL : ScheduleLibs}.

Lemma copy_seats_continues s prices seats seen acc out :
  copy_seats s prices seats seen acc = Some out →
  ∃ ns, out = acc ++ ns ∧ continues s (Z.of_nat (length acc)) seen ns.
Proof.
  revert seen acc. induction seats as [|x seats IH]; intros seen acc; simpl.
  { intros [= <-]. exists []. by rewrite app_nil_r. }
  case_bool_decide as Hx; [by apply IH|]. intros H.
  destruct (i32_checked (Z.of_nat (length acc) + 1)) as [i|] eqn:Hi; [|done]. simpl in H.
  unfold i32_checked in Hi. destruct (in_i32 _) eqn:Hr; [|done]. injection Hi as <-. apply in_i32_true in Hr.
  destruct (IH _ _ H) as (ns & -> & Hns). eexists (_ :: ns). rewrite <-app_assoc. split; [done|].
  split_and!; [done|done|lia|done|]. rewrite length_app, Nat2Z.inj_add in Hns. exact Hns.
Qed.

Lemma extra_seats_continues s seats keys next acc out :
  next ≤ i32_max → extra_seats s seats keys next acc = inl out →
  ∃ ns, out = acc ++ ns ∧ continues s (next - 1) keys ns.
Proof.
  revert keys next acc. induction seats as [|x seats IH]; intros keys next acc Hnext; simpl.
  { intros [= <-]. exists []. by rewrite app_nil_r. }
  case_bool_decide as Hx; [by apply IH|].
  destruct (decimal_of (xs_price x)) as [p|]; [|done].
  destruct (i32_checked (next + 1)) as [i|] eqn:Hi; [|done]. intros H.
  unfold i32_checked in Hi. destruct (in_i32 _) eqn:Hr; [|done]. injection Hi as <-. apply in_i32_true in Hr.
  destruct (IH _ _ _ (proj2 Hr) H) as (ns & -> & Hns). eexists (_ :: ns). rewrite <-app_assoc. split; [done|].
  replace (next + 1 - 1) with (next - 1 + 1) in Hns by lia.
  split_and!; simpl; [done|lia|lia|done|exact Hns].
Qed.

Lemma last_index_plan l : plan_ok l → last_index l = Z.of_nat (length l).
Proof.
  intros Hl. assert (∀ l, (∀ r, r ∈ l → 1 ≤ index_of r) → 0 ≤ last_index l ∧ (∀ n, (∀ r, r ∈ l → index_of r ≤ n) → 0 ≤ n → last_index l ≤ n) ∧
    (∀ r, r ∈ l → index_of r ≤ last_index l)) as H.
  { clear. induction l as [|r l IH]; intros Hpos; [split_and!; [done|done|by intros r ?%elem_of_nil]|].
    destruct IH as (I1 & I2 & I3); [intros r' Hr'; apply Hpos; by right|]. unfold index_of in *. simpl. split_and!.
    - lia.
    - intros n Hn Hn0. apply Z.max_lub; [apply Hn; left|]. apply I2; [|done]. intros r' Hr'. apply Hn. by right.
    - intros r' [->|Hr']%elem_of_cons; [lia|]. specialize (I3 _ Hr'). lia. }
  destruct (H l) as (H0 & Hub & Hlb); [intros r Hr; by destruct (plan_index l r Hl Hr)|].
  apply Z.le_antisymm; [apply Hub; [intros r Hr; by destruct (plan_index l r Hl Hr)|lia]|].
  destruct Hl as (Hi & _). destruct (length l) as [|n] eqn:Hn; [lia|].
  assert (Z.of_nat (S n) ∈ map index_of l) as Hin.
  { rewrite Hi. apply list_elem_of_fmap. exists (S n). split; [done|]. apply elem_of_seq. lia. }
  apply list_elem_of_fmap in Hin as (r & Hr & Hin). rewrite Hr. by apply Hlb.
Qed.
End seats.

(** ** Changes that leave the plans alone *)

(** The seats keep their identity, and no schedule disappears. *)
Definition same_plans (d d' : db) : Prop :=
  map (λ r, (ss_id r, ss_schedule_id r, ss_place r)) (d_seats d') = map (λ r, (ss_id r, ss_schedule_id r, ss_place r)) (d_seats d) ∧
  d_seat_seq d ≤ d_seat_seq d' ∧ dom (d_schedules d) ⊆ dom (d_schedules d').

Lemma same_plans_forall2 d d' : same_plans d d' →
  Forall2 (λ r r', ss_id r' = ss_id r ∧ ss_schedule_id r' = ss_schedule_id r ∧ ss_place r' = ss_place r) (d_seats d) (d_seats d').
Proof.
  intros [H _]. revert H. generalize (d_seats d') as l', (d_seats d) as l. intros l' l. revert l'.
  induction l as [|r l IH]; intros [|r' l'] H; simplify_eq/=; [constructor|]. constructor; [done|]. by apply IH.
Qed.

Lemma same_plan_of s d d' : same_plans d d' →
  Forall2 (λ r r', ss_id r' = ss_id r ∧ ss_place r' = ss_place r) (plan_of s d) (plan_of s d').
Proof.
  intros H%same_plans_forall2. unfold plan_of. induction H as [|r r' l l' (H1 & H2 & H3) H IH]; [constructor|].
  rewrite !filter_cons. rewrite H2. case_decide; [constructor; done|done].
Qed.

Lemma plan_ok_same l l' : Forall2 (λ r r', ss_id r' = ss_id r ∧ ss_place r' = ss_place r) l l' → plan_ok l → plan_ok l'.
Proof.
  intros H. assert (map index_of l' = map index_of l ∧ map seat_key l' = map seat_key l) as [H1 H2].
  { induction H as [|r r' l l' (A & B) H [IH1 IH2]]; [done|]. simpl. unfold index_of, seat_key in *. rewrite IH1, IH2, B. done. }
  unfold plan_ok. by rewrite H1, H2, <-(Forall2_length _ _ _ H).
Qed.

Lemma plans_ok_same d d' : same_plans d d' →
  map_Forall (λ i r, sc_id r = i ∧ i < d_schedule_seq d') (d_schedules d') → plans_ok d → plans_ok d'.
Proof.
  intros Hs Hrows [H1 [H2 H3] H4 _]. pose proof Hs as (Hm & Hseq & Hdom). split.
  - intros s. eapply plan_ok_same; [by apply same_plan_of|apply H1].
  - split.
    + assert (∀ l, map ss_id l = map fst (map fst (map (λ r, (ss_id r, ss_schedule_id r, ss_place r)) l))) as E
        by (intros l; by rewrite !map_map). by rewrite E, Hm, <-E.
    + pose proof (same_plans_forall2 _ _ Hs) as HF. clear -HF H3 Hseq. induction HF as [|r r' l l' (A & _) _ IH]; [constructor|].
      apply Forall_cons in H3 as [? ?]. constructor; [lia|by apply IH].
  - pose proof (same_plans_forall2 _ _ Hs) as HF. clear -HF H4 Hdom. induction HF as [|r r' l l' (_ & A & _) _ IH]; [constructor|].
    apply Forall_cons in H4 as [? ?]. constructor; [rewrite A; by apply Hdom|by apply IH].
  - exact Hrows.
Qed.

Lemma update_where_same p f l :
  (∀ r, (ss_id (f r), ss_schedule_id (f r), ss_place (f r)) = (ss_id r, ss_schedule_id r, ss_place r)) →
  map (λ r, (ss_id r, ss_schedule_id r, ss_place r)) (update_where p f l) = map (λ r, (ss_id r, ss_schedule_id r, ss_place r)) l.
Proof. intros Hf. unfold update_where. rewrite map_map. apply map_ext. intros r. by destruct (p r). Qed.

Lemma same_plans_update p f d :
  (∀ r, (ss_id (f r), ss_schedule_id (f r), ss_place (f r)) = (ss_id r, ss_schedule_id r, ss_place r)) →
  same_plans d (with_seats (update_where p f) d).
Proof. intros Hf. split_and!; simpl; [by apply update_where_same|lia|done]. Qed.

(** ** The transactions *)

Section transactions.
Context {HL : ScheduleLibs}.

Lemma plans_ok_put r d d' : d_schedules d !! sc_id r ≠ None → put_schedule r d = Some d' → plans_ok d → plans_ok d'.
Proof.
  unfold put_schedule. destruct (schedule_row_ok r d); [|done]. intros Hr [= <-] Hd. eapply plans_ok_same; [| |exact Hd].
  - split_and!; simpl; [done|lia|]. rewrite dom_insert. set_solver.
  - simpl. apply map_Forall_insert_2; [|apply Hd]. split; [done|].
    destruct (d_schedules d !! sc_id r) as [r0|] eqn:E; [|done]. by destruct (po_rows d Hd _ _ E).
Qed.

Lemma plans_ok_insert_schedule show city times now body d r d' :
  insert_schedule show city times now body d = Some (r, d') → plans_ok d →
  plans_ok d' ∧ plan_of (sc_id r) d' = [] ∧ sc_id r ∈ dom (d_schedules d').
Proof.
  unfold insert_schedule. destruct times as [[[date start] end_] open]. cbn [next_schedule_id]. destruct (negb _); [done|].
  unfold put_schedule. destruct (schedule_row_ok _ _); [|done]. simpl. intros [= <- <-] Hd. simpl.
  assert (∀ r, r ∈ d_seats d → ss_schedule_id r < d_schedule_seq d) as Hlt.
  { intros r Hr. pose proof (po_refs d Hd) as Hf. rewrite Forall_forall in Hf. specialize (Hf _ Hr).
    apply elem_of_dom in Hf as [x Hx]. by destruct (po_rows d Hd _ _ Hx). }
  split_and!.
  - eapply plans_ok_same; [| |exact Hd].
    + split_and!; simpl; [done|lia|]. rewrite dom_insert. set_solver.
    + simpl. apply map_Forall_insert_2; [simpl; lia|]. eapply map_Forall_impl; [apply (po_rows d Hd)|]. simpl. lia.
  - destruct (plan_of _ _) as [|r l] eqn:E; [done|]. exfalso. assert (r ∈ r :: l) as Hr by left. rewrite <-E in Hr.
    unfold plan_of in Hr. simpl in Hr. apply list_elem_of_filter in Hr as [Hs Hr]. specialize (Hlt r Hr). lia.
  - rewrite dom_insert. set_solver.
Qed.

Lemma plans_ok_extra_tx s seats d r d' : extra_seats_tx s seats d = Some (r, d') → plans_ok d → plans_ok d'.
Proof.
  intros H Hd. unfold extra_seats_tx in H. destruct (active_schedule s d) as [sch|]; [|by injection H as _ <-].
  case_bool_decide; [by injection H as _ <-|].
  destruct (i32_checked _) as [next|] eqn:Hn; [|by injection H as _ <-].
  unfold i32_checked in Hn. destruct (in_i32 _) eqn:Hr; [|done]. injection Hn as <-. apply in_i32_true in Hr.
  destruct (extra_seats _ _ _ _ _) as [ns|e] eqn:Hx; [|by injection H as _ <-].
  apply extra_seats_continues in Hx as (ns' & E & Hc); [|lia]. simpl in E. subst ns'.
  destruct ns as [|n ns]; [by injection H as _ <-|].
  destruct (insert_seats _ _ _ d) as [[rs d1]|] eqn:Hi; [|done]. simpl in H. injection H as _ <-.
  rewrite (last_index_plan _ (po_plans d Hd s)) in Hc.
  replace (Z.of_nat (length (plan_of s d)) + 1 - 1) with (Z.of_nat (length (plan_of s d))) in Hc by lia.
  by destruct (insert_seats_continues _ _ s _ d rs d1 Hd Hc Hi).
Qed.

Lemma plans_ok_rows (f : gmap Z schedule_row → gmap Z schedule_row) d :
  (∀ m, dom (f m) = dom m) → (∀ i r', f (d_schedules d) !! i = Some r' → ∃ r, d_schedules d !! i = Some r ∧ sc_id r' = sc_id r) →
  plans_ok d → plans_ok (with_schedules f d).
Proof.
  intros Hdom Hrows Hd. eapply plans_ok_same; [| |exact Hd].
  - split_and!; simpl; [done|lia|]. by rewrite Hdom.
  - simpl. intros i r' Hr'. destruct (Hrows i r' Hr') as (r & Hr & ->). by apply (po_rows d Hd).
Qed.

(** A row of the table written back with its key. *)
Lemma plans_ok_insert_row s x r d : d_schedules d !! s = Some r → sc_id x = sc_id r → plans_ok d → plans_ok (with_schedules <[s:=x]> d).
Proof.
  intros Hs Hx Hd. eapply plans_ok_same; [| |exact Hd].
  - split_and!; simpl; [done|lia|]. rewrite dom_insert. set_solver.
  - simpl. apply map_Forall_insert_2; [|apply Hd]. rewrite Hx. by apply (po_rows d Hd).
Qed.

Lemma active_schedule_some s d r : active_schedule s d = Some r → d_schedules d !! s = Some r ∧ sc_deleted_at r = None.
Proof.
  unfold active_schedule. destruct (d_schedules d !! s) as [r'|]; [|done]. simpl. by case_decide; intros [= <-].
Qed.

Lemma set_row_some s x d r d' : set_row s x d = Some (r, d') → d' = with_schedules <[s := x]> d.
Proof. unfold set_row. destruct (venue_city_required x); [by intros [= _ <-]|done]. Qed.

Lemma delete_stmt_some s now d r d' :
  delete_stmt s now d = Some (r, d') → d' = with_schedules (alter (λ r, set_lifecycle Closed (set_deleted now r)) s) d.
Proof. unfold delete_stmt. destruct (negb _); [done|by intros [= _ <-]]. Qed.

Lemma plans_ok_start_tx s d r d' : start_tx s d = Some (r, d') → plans_ok d → plans_ok d'.
Proof.
  unfold start_tx. destruct (active_schedule s d) as [x|] eqn:Hx; [|by intros [= _ <-]].
  apply active_schedule_some in Hx as [Hx _].
  destruct (sc_lifecycle_state x); [intros ->%set_row_some; by apply (plans_ok_insert_row s _ x)|by intros [= _ <-]|by intros [= _ <-]].
Qed.

Lemma plans_ok_close_tx s d r d' : close_tx s d = Some (r, d') → plans_ok d → plans_ok d'.
Proof.
  unfold close_tx. destruct (active_schedule s d) as [x|] eqn:Hx; [|by intros [= _ <-]].
  apply active_schedule_some in Hx as [Hx _].
  destruct (sc_lifecycle_state x); [intros ->%set_row_some; by apply (plans_ok_insert_row s _ x)..|by intros [= _ <-]].
Qed.

Lemma plans_ok_delete_stmt s now d r d' : delete_stmt s now d = Some (r, d') → plans_ok d → plans_ok d'.
Proof.
  intros ->%delete_stmt_some. apply plans_ok_rows; [intros m; apply dom_alter_L|].
  intros i r' [(<- & r0 & Hr & ->)|[Hne Hr]]%lookup_alter_Some; eauto.
Qed.

Lemma plans_ok_update_stmt s c d r d' : update_stmt s c d = Some (r, d') → plans_ok d → plans_ok d'.
Proof.
  unfold update_stmt. destruct (no_changes c); [done|]. destruct (d_schedules d !! s) as [x|] eqn:Hx; [|by intros [= _ <-]].
  destruct (put_schedule _ d) as [d1|] eqn:Hp; [|done]. simpl. intros [= _ <-] Hd.
  eapply plans_ok_put; [|exact Hp|exact Hd]. simpl. destruct (po_rows d Hd _ _ Hx) as [-> _]. congruence.
Qed.

Lemma plans_ok_price s t p d r d' : price_stmt s t p d = Some (r, d') → plans_ok d → plans_ok d'.
Proof.
  unfold price_stmt. destruct (_ && _); [done|]. intros [= _ <-] Hd.
  eapply plans_ok_same; [by apply same_plans_update| |exact Hd]. apply Hd.
Qed.

Lemma plans_ok_status s t st d r d' : status_stmt s t st d = Some (r, d') → plans_ok d → plans_ok d'.
Proof.
  intros [= _ <-] Hd. eapply plans_ok_same; [by apply same_plans_update| |exact Hd]. apply Hd.
Qed.
End transactions.

(** ** Administration as steps

    What any handler does to the database is a sequence of two kinds of steps: rows
    change without touching a plan, and no schedule goes back in its life; or seats join
    the plan of a schedule that has not started. *)

Definition life (st : lifecycle_state) : Z := match st with Scheduled => 0 | Open => 1 | Closed => 2 end.

Definition rows_step (d d' : db) : Prop :=
  same_plans d d' ∧
  ∀ i r, d_schedules d !! i = Some r →
    ∃ r', d_schedules d' !! i = Some r' ∧ life (sc_lifecycle_state r) ≤ life (sc_lifecycle_state r').

Inductive admin_step (d d' : db) : Prop :=
  | StepRows : rows_step d d' → admin_step d d'
  | StepSeats s rs r :
      seats_added s rs d d' → d_schedules d !! s = Some r → sc_lifecycle_state r = Scheduled → admin_step d d'.

Definition reach (d0 d : db) : Prop := plans_ok d ∧ rtc admin_step d0 d.

Lemma reach_step d0 d d' : reach d0 d → plans_ok d' → admin_step d d' → reach d0 d'.
Proof. intros [_ H] Hok Hs. split; [done|]. by eapply rtc_r. Qed.

Lemma rows_step_seats (f : list seat_row → list seat_row) d :
  map (λ r, (ss_id r, ss_schedule_id r, ss_place r)) (f (d_seats d)) = map (λ r, (ss_id r, ss_schedule_id r, ss_place r)) (d_seats d) →
  rows_step d (with_seats f d).
Proof. intros Hf. split; [by split_and!; simpl; [|lia|]|]. simpl. intros i r Hr. by exists r. Qed.

Lemma rows_step_insert s x r d :
  d_schedules d !! s = Some r → life (sc_lifecycle_state r) ≤ life (sc_lifecycle_state x) →
  rows_step d (with_schedules <[s:=x]> d).
Proof.
  intros Hs Hx. split; [split_and!; simpl; [done|lia|rewrite dom_insert; set_solver]|]. simpl. intros i r' Hr'.
  destruct (decide (i = s)) as [->|Hi]; [|exists r'; by rewrite lookup_insert_ne].
  exists x. rewrite lookup_insert_eq. split; [done|]. congruence.
Qed.

Lemma rows_step_new x d : d_schedules d !! sc_id x = None → rows_step d (with_schedules <[sc_id x:=x]> d).
Proof.
  intros Hs. split; [split_and!; simpl; [done|lia|rewrite dom_insert; set_solver]|]. simpl. intros i r' Hr'.
  exists r'. rewrite lookup_insert_ne by congruence. done.
Qed.

Section steps.
Context {HL : ScheduleLibs}.

Lemma reach_insert_schedule d0 show city times now body d r d' :
  insert_schedule show city times now body d = Some (r, d') → reach d0 d →
  reach d0 d' ∧ plan_of (sc_id r) d' = [] ∧ d_schedules d' !! sc_id r = Some r ∧ sc_lifecycle_state r = Scheduled.
Proof.
  intros H Hr. pose proof Hr as [Hd _]. destruct (plans_ok_insert_schedule _ _ _ _ _ _ _ _ H Hd) as (Hok & Hp & _).
  revert H. unfold insert_schedule. destruct times as [[[date start] end_] open_at]. cbn [next_schedule_id]. destruct (negb _); [done|].
  unfold put_schedule. destruct (schedule_row_ok _ _); [|done]. simpl. intros [= <- <-]. simpl in *.
  split_and!; [|done|by rewrite lookup_insert_eq|done]. eapply reach_step; [exact Hr|exact Hok|]. apply StepRows.
  split; [split_and!; simpl; [done|lia|rewrite dom_insert; set_solver]|]. simpl. intros i r' Hr'.
  exists r'. rewrite lookup_insert_ne; [done|]. intros <-. destruct (po_rows d Hd _ _ Hr'). lia.
Qed.

Lemma reach_copy d0 skip s prices seats out d rs d' x :
  copy_seats s prices seats ∅ [] = Some out → insert_seats numeric_fits skip out d = Some (rs, d') →
  d_schedules d !! s = Some x → sc_lifecycle_state x = Scheduled → plan_of s d = [] → reach d0 d → reach d0 d'.
Proof.
  intros Hc Hi Hx Hst Hp Hr. apply copy_seats_continues in Hc as (ns & -> & Hc). simpl in *. pose proof Hr as [Hd _].
  destruct (insert_seats_continues numeric_fits skip s ns d rs d') as [Hok Ha]; [done|by rewrite Hp|done|].
  eapply reach_step; [exact Hr|exact Hok|]. by eapply StepSeats.
Qed.

Lemma reach_extra_tx d0 s seats d r d' : extra_seats_tx s seats d = Some (r, d') → reach d0 d → reach d0 d'.
Proof.
  intros H Hr. pose proof Hr as [Hd _]. pose proof (plans_ok_extra_tx _ _ _ _ _ H Hd) as Hok.
  unfold extra_seats_tx in H. destruct (active_schedule s d) as [x|] eqn:Hx; [|by injection H as _ <-].
  apply active_schedule_some in Hx as [Hx _]. case_bool_decide as Hst; [by injection H as _ <-|].
  destruct (i32_checked _) as [next|] eqn:Hn; [|by injection H as _ <-].
  unfold i32_checked in Hn. destruct (in_i32 _) eqn:Hi32; [|done]. injection Hn as <-. apply in_i32_true in Hi32.
  destruct (extra_seats _ _ _ _ _) as [ns|e] eqn:Hxs; [|by injection H as _ <-].
  apply extra_seats_continues in Hxs as (ns' & E & Hc); [|lia]. simpl in E. subst ns'.
  destruct ns as [|n ns]; [by injection H as _ <-|].
  destruct (insert_seats _ _ _ d) as [[rs d1]|] eqn:Hi; [|done]. simpl in H. injection H as _ <-.
  rewrite (last_index_plan _ (po_plans d Hd s)), Z.add_simpl_r in Hc.
  destruct (insert_seats_continues _ _ s _ d rs d1 Hd Hc Hi) as [_ Ha].
  eapply reach_step; [exact Hr|exact Hok|]. eapply StepSeats; [exact Ha|exact Hx|].
  by destruct (decide (sc_lifecycle_state x = Scheduled)).
Qed.

Lemma reach_start_tx d0 s d r d' : start_tx s d = Some (r, d') → reach d0 d → reach d0 d'.
Proof.
  intros H Hr. pose proof (plans_ok_start_tx _ _ _ _ H (proj1 Hr)) as Hok. revert H. unfold start_tx.
  destruct (active_schedule s d) as [x|] eqn:Hx; [|by intros [= _ <-]]. apply active_schedule_some in Hx as [Hx _].
  destruct (sc_lifecycle_state x) eqn:Hst; [intros ->%set_row_some|by intros [= _ <-]..].
  eapply reach_step; [exact Hr|exact Hok|]. apply StepRows, (rows_step_insert s _ x); [done|]. by rewrite Hst.
Qed.

Lemma reach_close_tx d0 s d r d' : close_tx s d = Some (r, d') → reach d0 d → reach d0 d'.
Proof.
  intros H Hr. pose proof (plans_ok_close_tx _ _ _ _ H (proj1 Hr)) as Hok. revert H. unfold close_tx.
  destruct (active_schedule s d) as [x|] eqn:Hx; [|by intros [= _ <-]]. apply active_schedule_some in Hx as [Hx _].
  destruct (sc_lifecycle_state x) eqn:Hst; [intros ->%set_row_some..|by intros [= _ <-]];
    (eapply reach_step; [exact Hr|exact Hok|]; apply StepRows, (rows_step_insert s _ x); [done|]; rewrite Hst; simpl; lia).
Qed.

Lemma reach_delete_stmt d0 s now d r d' : delete_stmt s now d = Some (r, d') → reach d0 d → reach d0 d'.
Proof.
  intros H Hr. pose proof (plans_ok_delete_stmt _ _ _ _ _ H (proj1 Hr)) as Hok. apply delete_stmt_some in H as ->.
  eapply reach_step; [exact Hr|exact Hok|]. apply StepRows.
  split; [split_and!; simpl; [done|lia|by rewrite dom_alter_L]|]. simpl. intros i x Hx.
  destruct (decide (i = s)) as [->|Hi].
  - rewrite lookup_alter_eq, Hx. eexists. split; [reflexivity|]. simpl. by destruct (sc_lifecycle_state x).
  - rewrite lookup_alter_ne by done. by exists x.
Qed.

Lemma reach_update_stmt d0 s c d r d' : update_stmt s c d = Some (r, d') → reach d0 d → reach d0 d'.
Proof.
  intros H Hr. pose proof (plans_ok_update_stmt _ _ _ _ _ H (proj1 Hr)) as Hok. revert H. unfold update_stmt.
  destruct (no_changes c); [done|]. destruct (d_schedules d !! s) as [x|] eqn:Hx; [|by intros [= _ <-]].
  unfold put_schedule. destruct (schedule_row_ok _ d); [|done]. simpl. intros [= _ <-].
  eapply reach_step; [exact Hr|exact Hok|]. apply StepRows.
  destruct (po_rows d (proj1 Hr) _ _ Hx) as [Hid _]. rewrite Hid. by apply (rows_step_insert s _ x).
Qed.

Lemma reach_price d0 s t p d r d' : price_stmt s t p d = Some (r, d') → reach d0 d → reach d0 d'.
Proof.
  intros H Hr. pose proof (plans_ok_price _ _ _ _ _ _ H (proj1 Hr)) as Hok. revert H. unfold price_stmt.
  destruct (_ && _); [done|]. intros [= _ <-]. eapply reach_step; [exact Hr|exact Hok|].
  by apply StepRows, rows_step_seats, update_where_same.
Qed.

Lemma reach_status d0 s t st d r d' : status_stmt s t st d = Some (r, d') → reach d0 d → reach d0 d'.
Proof.
  intros H Hr. pose proof (plans_ok_status _ _ _ _ _ _ H (proj1 Hr)) as Hok. injection H as _ <-.
  eapply reach_step; [exact Hr|exact Hok|]. by apply StepRows, rows_step_seats, update_where_same.
Qed.
End steps.
