(* ===== verification/SchedulesPlans.v ===== *)
(** * SchedulesPlans: seat plans under any administration

    The handlers of [Schedules] as operations, in any order and over any network, and
    what they leave of the plans: no gaps, and no change after the start. *)

From stdpp Require Import gmap sorting.
From S2P Require Import Prelude Text Keys Redis RedisMem SeatLock Events Db HttpPayments HttpCache Schedules SchedulesProps.

#[local] Open Scope list_scope.
#[local] Open Scope Z_scope.

(** The writing routes of the administration, and a worker that sets the state of seats
    (the payment processor). *)
Inductive admin_op :=
  | AdCreate (mongo_show : option (option show_type)) (body : create_schedule_request)
  | AdExtraSeats (schedule_id : Z) (seats : list extra_seat_input)
  | AdUpdateSeats (schedule_id : Z) (seats : list update_seat_input)
  | AdStart (schedule_id : Z)
  | AdClose (schedule_id : Z)
  | AdDelete (schedule_id : Z)
  | AdUpdate (schedule_id : Z) (body : update_schedule_request)
  | AdSeatStates (p : seat_row → bool) (st : seat_status).

Section plans.
Context {D : Type} `{!RedisServer D} {HJ : JsonText} {HL : ScheduleLibs}.
Abbreviation S := (St (site D)).

Definition admin_run (o : admin_op) : S unit :=
  match o with
  | AdCreate mongo body => create_schedule mongo body ;; mret tt
  | AdExtraSeats s seats => add_extra_seats s seats ;; mret tt
  | AdUpdateSeats s seats => update_schedule_seats s seats ;; mret tt
  | AdStart s => start_schedule s ;; mret tt
  | AdClose s => close_schedule s ;; mret tt
  | AdDelete s => delete_schedule s ;; mret tt
  | AdUpdate s body => update_schedule s body ;; mret tt
  | AdSeatStates p st => db_run (λ d, Some (tt, with_seats (update_where p (set_seat_status st)) d)) ;; mret tt
  end.
Definition admin_run_all (os : list admin_op) : S unit := for_each os admin_run.

(** A transaction that keeps an assertion. *)
Lemma keeps_reach_run {A} d0 (tx : db → option (A * db)) :
  (∀ d a d', tx d = Some (a, d') → reach d0 d → reach d0 d') → keeps (on_db (D:=D) (reach d0)) (db_run tx).
Proof. intros H. apply keeps_db_run. intros d a d' Hd Htx. by eapply H. Qed.

Lemma reach_run_price d0 s t p : keeps (on_db (D:=D) (reach d0)) (db_run (price_stmt s t p)).
Proof. apply keeps_reach_run. apply reach_price. Qed.
Lemma reach_run_status d0 s t st : keeps (on_db (D:=D) (reach d0)) (db_run (status_stmt s t st)).
Proof. apply keeps_reach_run. apply reach_status. Qed.
Lemma reach_run_extra d0 s l : keeps (on_db (D:=D) (reach d0)) (db_run (extra_seats_tx s l)).
Proof. apply keeps_reach_run. apply reach_extra_tx. Qed.
Lemma reach_run_start d0 s : keeps (on_db (D:=D) (reach d0)) (db_run (start_tx s)).
Proof. apply keeps_reach_run. apply reach_start_tx. Qed.
Lemma reach_run_close d0 s : keeps (on_db (D:=D) (reach d0)) (db_run (close_tx s)).
Proof. apply keeps_reach_run. apply reach_close_tx. Qed.
Lemma reach_run_delete d0 s t : keeps (on_db (D:=D) (reach d0)) (db_run (delete_stmt s t)).
Proof. apply keeps_reach_run. apply reach_delete_stmt. Qed.
Lemma reach_run_update d0 s c : keeps (on_db (D:=D) (reach d0)) (db_run (update_stmt s c)).
Proof. apply keeps_reach_run. apply reach_update_stmt. Qed.
Hint Resolve reach_run_price reach_run_status reach_run_extra reach_run_start reach_run_close reach_run_delete reach_run_update : keeps.

Lemma keeps_invalidations P s : keeps (on_db (D:=D) P) (invalidate_show_schedule_caches s).
Proof. unfold invalidate_show_schedule_caches. keeps_tac. Qed.
Hint Resolve keeps_invalidations : keeps.

Lemma keeps_announce P e s : keeps (on_db (D:=D) P) (announce e s).
Proof. unfold announce, publish_schedule_lifecycle, invalidate_schedule_lifecycle_caches. keeps_tac. Qed.
Hint Resolve keeps_announce : keeps.

Lemma reach_update_seats d0 s l : keeps (on_db (D:=D) (reach d0)) (update_seats s l).
Proof. induction l as [|x l IH]; simpl; keeps_tac. Qed.
Hint Resolve reach_update_seats : keeps.

(** A transaction that commits and answers leaves what its result says. *)
Lemma hoare_db_run {A} (P R : db → Prop) (Q : A → db → Prop) (tx : db → option (A * db)) :
  (∀ d, P d → R d) → (∀ d a d', P d → tx d = Some (a, d') → R d' ∧ Q a d') →
  hoare (on_db (D:=D) P) (db_run tx) (λ o s, (∀ a, o = Some a → Q a (s_db s)) ∧ on_db R s).
Proof.
  intros HR Htx s Hs. unfold db_run. pose proof (keeps_redis_of P draw s Hs) as H.
  destruct (redis_of draw s) as [fl s1]. unfold on_db in *. simpl in H.
  destruct (tx (s_db s1)) as [[a d]|] eqn:E; [destruct (Htx _ _ _ H E) as [HP HQ]|]; destruct fl; simpl; split; try done;
    try (by apply HR); intros a' [= <-]; done.
Qed.

(** The new schedule before its seats. *)
Definition unseated d0 (r : schedule_row) (d : db) : Prop :=
  reach d0 d ∧ plan_of (sc_id r) d = [] ∧ d_schedules d !! sc_id r = Some r ∧ sc_lifecycle_state r = Scheduled.

Lemma reach_store d0 show city times body : keeps (on_db (D:=D) (reach d0)) (store_schedule show city times body).
Proof.
  unfold store_schedule. apply keeps_bind; [auto with keeps|]. intros conn. destruct (negb conn); [apply keeps_ret|].
  apply keeps_bind; [auto with keeps|]. intros [[|x seats]|]; [apply keeps_ret| |apply keeps_ret].
  apply keeps_bind; [auto with keeps|]. intros now.
  eapply hoare_bind; [apply (hoare_db_run (reach d0) (reach d0) (unseated d0)); [done|]|].
  { intros d r d' Hd Hi. destruct (reach_insert_schedule d0 _ _ _ _ _ _ _ _ Hi Hd) as (? & ? & ? & ?). done. }
  intros [r|]; [|apply hoare_ret; by intros s [_ Hs]].
  destruct (copy_seats _ _ _ _ _) as [ns|] eqn:Hc; [|apply hoare_ret; by intros s [_ Hs]].
  eapply hoare_bind.
  - eapply (hoare_conseq (on_db (unseated d0 r))); [intros s [Hr _]; by apply Hr|done|].
    apply (hoare_db_run (unseated d0 r) (reach d0) (λ _ _, True)); [by intros d []|].
    intros d rs d' (Hr & Hp & Hx & Hst) Hi. split; [|done]. by eapply reach_copy.
  - intros inserted. apply hoare_pure. intros _. change (keeps (on_db (D:=D) (reach d0)) (match inserted with
      | None => mret (inr (internal sql_error))
      | Some _ => invalidate_show_schedule_caches r ;;
          mret (inl (ScheduleCreated (sc_id r) (sc_start_time r) (sc_lifecycle_state r) (Z.of_nat (length ns))))
      end)). keeps_tac.
Qed.
Hint Resolve reach_store : keeps.

Lemma reach_admin_run d0 o : keeps (on_db (D:=D) (reach d0)) (admin_run o).
Proof.
  destruct o; simpl; apply keeps_bind; try (intros ?; apply keeps_ret).
  - unfold create_schedule. keeps_tac.
  - unfold add_extra_seats. keeps_tac.
  - unfold update_schedule_seats. keeps_tac.
  - unfold start_schedule, then_announce, lifecycle_tx. keeps_tac.
  - unfold close_schedule, then_announce, lifecycle_tx. keeps_tac.
  - unfold delete_schedule, then_announce, delete_rows. keeps_tac.
  - unfold update_schedule. keeps_tac.
  - apply keeps_reach_run. intros d a d' [= _ <-] Hr.
    assert (rows_step d (with_seats (update_where p (set_seat_status st)) d)) as Hs
      by (by apply rows_step_seats, update_where_same).
    eapply reach_step; [exact Hr| |by apply StepRows]. eapply plans_ok_same; [apply Hs|apply (po_rows d (proj1 Hr))|apply Hr].
Qed.

Lemma reach_admin_run_all os (st : site D) : plans_ok (s_db st) → reach (s_db st) (s_db (admin_run_all os st).2).
Proof.
  intros Hd. apply (keeps_for_each (on_db (reach (s_db st)))); [intros o _; apply reach_admin_run|]. by split.
Qed.

(** C16: seat plans have no gaps.  Whatever requests the administration handles, valid or
    not, in any order, and whatever the network loses, the seats of every schedule are
    numbered 1, 2, 3, ... in the order they were added, no row and number occurs twice,
    seat ids are unique, and every seat belongs to a schedule. *)
Theorem administration_keeps_plans os (st : site D) :
  plans_ok (s_db st) → plans_ok (s_db (admin_run_all os st).2).
Proof. intros Hd. by destruct (reach_admin_run_all os st Hd). Qed.

(** *** After the start *)

(** The seats a plan offers, with their indices. *)
Definition plan_seats (s : Z) (d : db) : list (Z * Z) := map (λ r, (ss_id r, index_of r)) (plan_of s d).

Lemma step_frozen d d' s x :
  admin_step d d' → d_schedules d !! s = Some x → sc_lifecycle_state x ≠ Scheduled →
  plan_seats s d' = plan_seats s d ∧
  ∃ x', d_schedules d' !! s = Some x' ∧ life (sc_lifecycle_state x) ≤ life (sc_lifecycle_state x').
Proof.
  intros [[Hs Hr]|t rs r Ha Ht Hst] Hx Hlife.
  - split; [|by apply Hr]. unfold plan_seats. pose proof (same_plan_of s _ _ Hs) as H.
    induction H as [|a b l l' (A & B) H IH]; [done|]. simpl. unfold index_of in *. by rewrite IH, A, B.
  - assert (s ≠ t) as Hne by congruence. split.
    + unfold plan_seats. rewrite (plan_of_added t rs d d' s Ha), decide_False by done. by rewrite app_nil_r.
    + destruct Ha as (-> & _). by exists x.
Qed.

Lemma steps_frozen d d' s x :
  rtc admin_step d d' → d_schedules d !! s = Some x → sc_lifecycle_state x ≠ Scheduled →
  plan_seats s d' = plan_seats s d ∧
  ∃ x', d_schedules d' !! s = Some x' ∧ life (sc_lifecycle_state x) ≤ life (sc_lifecycle_state x').
Proof.
  intros H. revert x. induction H as [d|d d1 d2 Hs H IH]; intros x Hx Hl; [split; [done|by exists x]|].
  destruct (step_frozen d d1 s x Hs Hx Hl) as (Hp & x1 & Hx1 & Hle).
  destruct (IH x1 Hx1) as (Hp2 & x2 & Hx2 & Hle2); [intros E; rewrite E in Hle; destruct (sc_lifecycle_state x); simpl in *; done || lia|].
  split; [congruence|]. exists x2. split; [done|lia].
Qed.

(** C17: a started plan is frozen and a schedule never goes back.  From the moment a
    schedule is open or closed, no request of the administration, over any network,
    changes which seats it has or their indices; and an open schedule can only stay open
    or close, a closed one stays closed. *)
Theorem started_plan_is_frozen os (st : site D) s x :
  plans_ok (s_db st) → d_schedules (s_db st) !! s = Some x → sc_lifecycle_state x ≠ Scheduled →
  let d' := s_db (admin_run_all os st).2 in
  plan_seats s d' = plan_seats s (s_db st) ∧
  ∃ x', d_schedules d' !! s = Some x' ∧
    (sc_lifecycle_state x' = sc_lifecycle_state x ∨ sc_lifecycle_state x' = Closed).
Proof.
  intros Hd Hx Hl. destruct (reach_admin_run_all os st Hd) as [_ H].
  destruct (steps_frozen _ _ s x H Hx Hl) as (Hp & x' & Hx' & Hle). split; [done|]. exists x'. split; [done|].
  destruct (sc_lifecycle_state x), (sc_lifecycle_state x'); simpl in Hle; auto; try lia; done.
Qed.
End plans.

(** ** A concrete schedule: a layout with a repeated place, then an extra seat *)

#[export] Instance plain_schedules : ScheduleLibs := {
  object_id_ok s := (String.length s =? 24)%nat; parse_date := parse_Z; parse_rfc3339 := parse_Z;
  decimal_of s := show_Z <$> parse_Z s; numeric_fits s := bool_decide (String.length s ≤ 8)%nat; sql_error := ""
}.

Definition two_blocks : list layout_seat_row :=
  [LayoutSeatRow 4 1 "B" 1 Vip None None None; LayoutSeatRow 2 1 "A" 2 Standard None None None; LayoutSeatRow 1 1 "A" 1 Standard None None None; LayoutSeatRow 3 1 "A" 2 Premium None None None].
Definition empty_db : db := Db [] [] [] [] [] [] ∅ ∅ two_blocks 1 1 {[1 := some_layout]} 1 2 5.
Definition empty_site : site mem_redis := Site empty_db (mem_world 1 1000) (λ k, Z.of_nat k) 0.
Definition new_show : create_schedule_request :=
  CreateScheduleRequest "64b000000000000000000001" Movie 1 "20000" Evening None "9000" "500"
    {["Standard" := "100"; "VIP" := "400"]}%string None None " Pune " None.
Definition admin_history : list admin_op :=
  [AdCreate (Some (Some Movie)) new_show; AdExtraSeats 1 [ExtraSeatInput "A" 1 Standard "5"; ExtraSeatInput "C" 1 Ga "50"]].

Lemma empty_plans_ok : plans_ok empty_db.
Proof. split; [intros s; apply plan_ok_nil|by split; constructor|constructor|apply map_Forall_empty]. Qed.

Lemma administration_keeps_plans_witness :
  map (λ r, (index_of r, ss_price r, seat_key r)) (plan_of 1 (s_db (admin_run_all admin_history empty_site).2)) =
    [(1, "100", ("A", 1)); (2, "100", ("A", 2)); (3, "400", ("B", 1)); (4, "50", ("C", 1))]%string ∧
  plans_ok (s_db (admin_run_all admin_history empty_site).2).
Proof.
  split; [vm_compute; reflexivity|].
  pose proof (administration_keeps_plans admin_history empty_site empty_plans_ok) as H. exact H.
Defined.

Definition started_db : db :=
  Db [SeatRow 1 7 Available "100" some_place] [] [] [] [] [] ∅ {[7 := some_schedule 7]} two_blocks 8 2 {[1 := some_layout]} 1 2 5.
Definition started_site : site mem_redis := Site started_db (mem_world 1 1000) (λ k, Z.of_nat k) 0.

Lemma started_plans_ok : plans_ok started_db.
Proof.
  split.
  - intros s. unfold plan_of. cbn [started_db d_seats]. rewrite filter_cons, filter_nil. case_decide; [|apply plan_ok_nil].
    split_and!; [reflexivity|apply NoDup_singleton|vm_compute; discriminate].
  - split; [apply NoDup_singleton|]. constructor; [vm_compute; reflexivity|constructor].
  - constructor; [|constructor]. simpl. set_solver.
  - simpl. intros i r [<- <-]%lookup_singleton_Some. by split.
Qed.

Lemma started_plan_is_frozen_witness :
  let d' := s_db (admin_run_all [AdExtraSeats 7 [ExtraSeatInput "D" 1 Standard "5"]; AdDelete 7; AdStart 7] started_site).2 in
  plan_seats 7 d' = plan_seats 7 started_db ∧
  ∃ x', d_schedules d' !! 7 = Some x' ∧ (sc_lifecycle_state x' = Open ∨ sc_lifecycle_state x' = Closed).
Proof.
  assert (d_schedules (s_db started_site) !! 7 = Some (some_schedule 7)) as Hx by reflexivity.
  assert (sc_lifecycle_state (some_schedule 7) ≠ Scheduled) as Hl by discriminate.
  pose proof (started_plan_is_frozen
    [AdExtraSeats 7 [ExtraSeatInput "D" 1 Standard "5"]; AdDelete 7; AdStart 7] started_site 7 (some_schedule 7) started_plans_ok Hx Hl) as H.
  exact H.
Defined.
