(* ===== verification/SchedulesRaces.v ===== *)
(** * SchedulesRaces: creations that fail half-way, and a start that is announced late

    The statements of a handler commit one by one, and what it tells Redis comes after
    its transaction: two ways for the stores to disagree. *)

From stdpp Require Import gmap sorting.
From S2P Require Import Prelude Text Keys Redis RedisMem SeatLock Events Db HttpPayments HttpCache Gateway Schedules SchedulesProps SchedulesPlans.

#[local] Open Scope string_scope.
#[local] Open Scope list_scope.
#[local] Open Scope Z_scope.

Section creation.
Context {D : Type} `{!RedisServer D} {HL : ScheduleLibs}.
Implicit Types (st : site D).

Lemma same_place_key a b : sc_deleted_at a = None → sc_deleted_at b = None → sc_mongo_show_id a = sc_mongo_show_id b →
  sc_venue_city a = sc_venue_city b → sc_venue_city b ≠ None → sc_venue_name a = sc_venue_name b → sc_start_time a = sc_start_time b →
  same_place a b = true.
Proof.
  intros H1 H2 H3 H4 H5 H6 H7. unfold same_place. rewrite H1, H2, H3, H4, H6, H7.
  destruct (sc_venue_city b); [|done]. rewrite !bool_decide_true by done. by rewrite Z.eqb_refl.
Qed.

(** The row a creation writes has the place it asked for. *)
Lemma insert_schedule_row show city times now body d r d' :
  insert_schedule show city times now body d = Some (r, d') →
  sc_mongo_show_id r = show ∧ sc_venue_city r = Some city ∧ sc_venue_name r = cs_venue_name body ∧
  sc_start_time r = times.1.1.2 ∧ sc_deleted_at r = None ∧ sc_id r = d_schedule_seq d ∧
  d_schedules d' = <[sc_id r := r]> (d_schedules d) ∧ d_seats d' = d_seats d ∧ d_layout_seats d' = d_layout_seats d ∧
  d_schedule_seq d' = d_schedule_seq d + 1.
Proof.
  unfold insert_schedule, put_schedule. destruct times as [[[date start] end_] open_at]. cbn [next_schedule_id].
  destruct (negb _); [done|].
  destruct (schedule_row_ok _ _); [|done]. simpl. by intros [= <- <-].
Qed.

(** A second creation for the place of an active schedule. *)
Lemma insert_schedule_taken show city times now body d i x :
  d_schedules d !! i = Some x → i < d_schedule_seq d → sc_deleted_at x = None → sc_mongo_show_id x = show → sc_venue_city x = Some city →
  sc_venue_name x = cs_venue_name body → sc_start_time x = times.1.1.2 →
  insert_schedule show city times now body d = None.
Proof.
  intros Hx Hi H1 H2 H3 H4 H5. unfold insert_schedule, put_schedule. destruct times as [[[date start] end_] open_at].
  cbn [next_schedule_id fst snd] in *. destruct (negb _); [done|]. unfold schedule_row_ok at 1. cbn [d_schedules].
  match goal with |- context [forallb ?f ?l] => assert (forallb f l = false) as -> end; [|by rewrite !andb_false_r].
  apply not_true_is_false. rewrite forallb_forall. intros H. specialize (H (i, x)). rewrite <-list_elem_of_In in H.
  specialize (H ltac:(by apply elem_of_map_to_list)). simpl in H.
  rewrite same_place_key in H by (simpl; congruence). apply orb_true_iff in H as [H|H]; [|done]. apply Z.eqb_eq in H. lia.
Qed.

(** A creation that fails on its seats keeps its place taken.  When the schedule could
    be inserted but its seats could not (a price out of the range of its column, for
    example), the request is answered with an error, the schedule stays without a seat,
    and every later creation for the same show, city, venue and time, with any layout
    and prices, is refused and changes no row. *)
Theorem failed_creation_blocks_place show city times body st r d1 ns x seats body2 :
  w_faults (s_world st) = [] →
  filter (λ s, ls_layout_id s = cs_layout_id body) (d_layout_seats (s_db st)) = x :: seats →
  insert_schedule show city times (w_now (s_world st)) body (s_db st) = Some (r, d1) →
  copy_seats (sc_id r) (cs_prices body) (merge_sort layout_seat_le (x :: seats)) ∅ [] = Some ns →
  insert_seats numeric_fits true ns d1 = None →
  plans_ok (s_db st) → cs_venue_name body2 = cs_venue_name body →
  let '(answer, st') := store_schedule show city times body st in
  answer = inr (internal sql_error) ∧
  d_schedules (s_db st') !! sc_id r = Some r ∧ plan_of (sc_id r) (s_db st') = [] ∧
  let '(answer2, st'') := store_schedule show city times body2 st' in
  (∃ e, answer2 = inr e) ∧ s_db st'' = s_db st'.
Proof.
  intros Hf Hl Hi Hc Hs Hd Hv. destruct st as [d [nd t fl lg] us k]. simpl in *. subst fl.
  assert (store_schedule show city times body (Site d (World nd t [] lg) us k) =
    (inr (internal sql_error), Site d1 (World nd t [] lg) us k)) as ->.
  { unfold store_schedule. unfold mbind at 1, St_bind at 1. rewrite db_get_ok by done. cbn [negb].
    unfold mbind at 1, St_bind at 1. rewrite db_query_ok by done. cbn [s_db]. rewrite Hl.
    rewrite (bind_step _ _ _ t (Site d (World nd t [] lg) us k)) by reflexivity.
    unfold mbind at 1, St_bind at 1. rewrite db_run_ok by done. cbn [s_db s_world s_uuids s_drawn]. rewrite Hi, Hc.
    unfold mbind at 1, St_bind at 1. rewrite db_run_ok by done. cbn [s_db s_world s_uuids s_drawn]. by rewrite Hs. }
  destruct (insert_schedule_row _ _ _ _ _ _ _ _ Hi) as (R1 & R2 & R3 & R4 & R5 & R6 & R7 & R8 & R9 & R10).
  destruct (plans_ok_insert_schedule _ _ _ _ _ _ _ _ Hi Hd) as (_ & Hp & _). simpl.
  assert (d_schedules d1 !! sc_id r = Some r) as Hr by by rewrite R7, lookup_insert_eq.
  split_and!; [done|exact Hr|exact Hp|].
  unfold store_schedule. unfold mbind at 1, St_bind at 1. rewrite db_get_ok by done. cbn [negb].
  unfold mbind at 1, St_bind at 1. rewrite db_query_ok by done. cbn [s_db].
  destruct (filter _ (d_layout_seats d1)) as [|y l]; [split; [by eexists|done]|].
  rewrite (bind_step _ _ _ t (Site d1 (World nd t [] lg) us k)) by reflexivity.
  unfold mbind at 1, St_bind at 1. rewrite db_run_ok by done. cbn [s_db s_world s_uuids s_drawn].
  rewrite (insert_schedule_taken show city times t body2 d1 (sc_id r) r) by (done || congruence || lia).
  split; [by eexists|done].
Qed.
End creation.

(** ** Announcements over a network without faults *)

Section announcements.
Context {D : Type} `{!RedisServer D} `{!RedisLaws D} {HJ : JsonText} {HL : ScheduleLibs}.
Implicit Types (st : site D).

(** What an announcement must not disturb: the database, the log, and a key. *)
Record quiet_for (k : string) (v : option string) (d : db) (lg : list (string * json)) st : Prop := {
  qf_db : s_db st = d;
  qf_faults : w_faults (s_world st) = [];
  qf_log : w_log (s_world st) = lg;
  qf_key : ∃ n, w_nodes (s_world st) !! 0%nat = Some n ∧ ∀ t, r_get n t k = v
}.

Lemma quiet_invalidate k v d lg k' : k' ≠ k → keeps (quiet_for k v d lg) (redis_of (invalidate_async k')).
Proof.
  intros Hk [d0 [ns t fl lg0] us dr] [H1 H2 H3 (n & Hn & Hg)]. simpl in *. subst.
  unfold redis_of, zoom, invalidate_async. simpl. unfold mbind, St_bind. rewrite (node_cmd_ok 0 (cmd_del k') ns t lg n Hn). simpl.
  split; try done. exists (r_del n k'). split; [apply list_lookup_insert_eq; by eapply lookup_lt_Some|].
  intros t'. by rewrite get_del, decide_False.
Qed.

Lemma quiet_caches s v d lg r : keeps (quiet_for (schedule_closed_key s) v d lg) (invalidate_schedule_lifecycle_caches r).
Proof.
  unfold invalidate_schedule_lifecycle_caches, invalidate_show_schedule_caches, CACHE_DASHBOARD_GRID.
  assert (∀ k, String.prefix "cache:" k = true → keeps (quiet_for (schedule_closed_key s) v d lg) (redis_of (invalidate_async k))) as H.
  { intros k Hk. apply quiet_invalidate. intros ->. discriminate. }
  assert (∀ a b, String.prefix "cache:" (cache_movies_key a b) = true) as Hm.
  { intros a b. unfold cache_movies_key. repeat case_match; reflexivity. }
  apply keeps_bind; [by apply H|intros _]. apply keeps_bind; [by apply H|intros _].
  apply keeps_bind; [by apply H|intros _]. apply keeps_bind; [by apply H|intros _].
  apply keeps_for_each. intros k Hk. apply H.
  repeat (apply elem_of_cons in Hk as [->|Hk]; [apply Hm|]). by apply elem_of_nil in Hk.
Qed.

(** The marker of a message. *)
Definition marker_after (e : pubsub_event) : option string := match e with ScheduleClosed _ => Some "1"%string | _ => None end.

Lemma announce_effect e s r st n :
  e = ScheduleOpened s ∨ e = ScheduleClosed s → w_faults (s_world st) = [] → w_nodes (s_world st) !! 0%nat = Some n →
  (announce e r st).1 = inl tt ∧
  quiet_for (schedule_closed_key s) (marker_after e) (s_db st) (w_log (s_world st) ++ [(schedule_lifecycle_channel, event_json e)])
    (announce e r st).2.
Proof.
  destruct st as [d [ns t fl lg] us dr]. intros He Hf Hn. simpl in *. subst fl. unfold announce.
  set (closed := match e with ScheduleClosed _ => true | _ => false end).
  set (n' := (if closed then cmd_set (schedule_closed_key s) "1"%string else cmd_del (schedule_closed_key s)) n t).
  rewrite (bind_step _ _ _ (inl tt)
    (Site d (World (<[0%nat := n'.1]> ns) t [] (lg ++ [(schedule_lifecycle_channel, event_json e)])) us dr)).
  - match goal with |- context [(invalidate_schedule_lifecycle_caches r ≫= _) ?st0] =>
      pose proof (quiet_caches s (marker_after e) d (lg ++ [(schedule_lifecycle_channel, event_json e)]) r st0) as H end.
    unfold mbind, St_bind. destruct (invalidate_schedule_lifecycle_caches r _) as [[] st']. split; [done|]. apply H.
    split; try done. simpl. exists n'.1. split; [apply list_lookup_insert_eq; by eapply lookup_lt_Some|].
    intros t'. destruct He as [->| ->]; simpl; [by rewrite get_del, decide_True|by rewrite get_set, decide_True].
  - unfold publish_schedule_lifecycle, redis_of, zoom. destruct He as [->| ->]; simpl; unfold mbind, St_bind; simpl;
      by rewrite (node_cmd_ok 0 _ ns t lg n Hn).
Qed.

Lemma lifecycle_tx_ok tx s st : w_faults (s_world st) = [] →
  lifecycle_tx tx s st =
    match tx s (s_db st) with
    | Some (a, d) => (a, Site d (s_world st) (s_uuids st) (s_drawn st))
    | None => (inr (internal sql_error), st)
    end.
Proof.
  intros Hf. unfold lifecycle_tx. rewrite (bind_step _ _ _ true st) by by apply db_get_ok. cbn [negb].
  unfold mbind, St_bind. rewrite db_run_ok by done. by destruct (tx s (s_db st)) as [[]|].
Qed.

Lemma set_row_ok s x y d : venue_city_required x = true → sc_venue_city y = sc_venue_city x →
  set_row s y d = Some (inl y, with_schedules <[s := y]> d).
Proof. unfold set_row, venue_city_required. intros Hx ->. by rewrite Hx. Qed.

Lemma gateway_reopens s : in_i32 s = true →
  on_message schedule_lifecycle_channel (event_text (ScheduleOpened s)) = st_modify (set_closed (D:=D) (λ c, c ∖ {[s]})).
Proof.
  intros Hs. unfold on_message. rewrite bool_decide_true by done. unfold handle_schedule_lifecycle_message.
  by rewrite parse_event_text by done.
Qed.

(** A start announced late reopens a closed schedule everywhere but in the database.
    When one administrator's start has committed, another closes the schedule, and the
    first then announces it, both are answered with success, the row is closed for good,
    but the closed marker is gone from Redis, the last lifecycle message says that the
    schedule was opened, and a gateway that receives the messages does not keep it among
    its closed schedules. *)
Theorem late_start_unmarks_closed_schedule s x st n g :
  in_i32 s = true → w_faults (s_world st) = [] → w_nodes (s_world st) !! 0%nat = Some n →
  d_schedules (s_db st) !! s = Some x → sc_deleted_at x = None → sc_lifecycle_state x = Scheduled →
  venue_city_required x = true →
  let '(started, st1) := lifecycle_tx start_tx s st in
  let '(closed, st2) := close_schedule s st1 in
  let '(answer, st3) := then_announce (ScheduleOpened s) (mret started) st2 in
  closed = inl tt ∧ answer = inl tt ∧
  d_schedules (s_db st3) !! s = Some (set_lifecycle Closed (set_lifecycle Open x)) ∧
  (∃ n', w_nodes (s_world st3) !! 0%nat = Some n' ∧ ∀ t, r_get n' t (schedule_closed_key s) = None) ∧
  w_log (s_world st3) = w_log (s_world st) ++
    [(schedule_lifecycle_channel, event_json (ScheduleClosed s)); (schedule_lifecycle_channel, event_json (ScheduleOpened s))] ∧
  s ∉ g_closed ((on_message schedule_lifecycle_channel (event_text (ScheduleClosed s)) ;;
                 on_message schedule_lifecycle_channel (event_text (ScheduleOpened s))) (g : gateway D)).2.
Proof.
  intros Hi Hf Hn Hx Hdel Hst Hv. rewrite lifecycle_tx_ok by done. unfold start_tx, active_schedule. rewrite Hx. simpl.
  rewrite decide_True by done. rewrite Hst, (set_row_ok s x) by done. simpl.
  set (d1 := with_schedules _ _). set (st1 := Site d1 _ _ _).
  assert (d_schedules d1 !! s = Some (set_lifecycle Open x)) as H1 by (simpl; by rewrite lookup_insert_eq).
  unfold close_schedule, then_announce. unfold mbind at 1, St_bind at 1. rewrite lifecycle_tx_ok by done.
  unfold close_tx, active_schedule. simpl s_db. rewrite H1. cbn [mbind option_bind]. rewrite decide_True by done. cbn [sc_lifecycle_state set_lifecycle]. rewrite (set_row_ok s x) by done.
  set (st2 := Site _ _ _ _). set (row := set_lifecycle Closed (set_lifecycle Open x)).
  destruct (announce_effect (ScheduleClosed s) s row st2 n (or_intror eq_refl) Hf Hn) as [Ha Hq].
  destruct (announce (ScheduleClosed s) row st2) as [closed st3]. simpl in Ha, Hq. subst closed.
  destruct Hq as [Q1 Q2 Q3 (n3 & Hn3 & _)].
  destruct (announce_effect (ScheduleOpened s) s (set_lifecycle Open x) st3 n3 (or_introl eq_refl) Q2 Hn3) as [Hb Hr].
  rewrite (bind_step _ _ st3 (inl (set_lifecycle Open x)) st3) by reflexivity.
  destruct (announce (ScheduleOpened s) (set_lifecycle Open x) st3) as [answer st4]. simpl in Hb, Hr. subst answer.
  destruct Hr as [R1 R2 R3 (n4 & Hn4 & Hk)]. split_and!; [done|done| | | |].
  - rewrite R1, Q1. simpl. by rewrite lookup_insert_eq.
  - by exists n4.
  - by rewrite R3, Q3, <-app_assoc.
  - rewrite gateway_reopens by done. unfold mbind, St_bind. destruct (on_message _ _ g) as [[] g1]. simpl. set_solver.
Qed.
End announcements.

(** *** A price that does not fit *)

Definition dear_show : create_schedule_request :=
  CreateScheduleRequest "64b000000000000000000001" Movie 1 "20000" Evening None "9000" "500"
    {["Standard" := "123456789"]}%string None None "Pune" None.
Definition dear_times : Z * Z * Z * Z := (20000, 1000, 9000, 500).
Definition dear_insert := insert_schedule "64b000000000000000000001" "Pune" dear_times 1000 dear_show empty_db.
Definition dear_row : schedule_row := match dear_insert with Some (r, _) => r | None => some_schedule 1 end.
Definition dear_db : db := match dear_insert with Some (_, d) => d | None => empty_db end.
Definition dear_seats : list new_seat :=
  default [] (copy_seats (sc_id dear_row) (cs_prices dear_show) (merge_sort layout_seat_le two_blocks) ∅ []).

Lemma failed_creation_blocks_place_witness :
  let '(answer, st') := store_schedule "64b000000000000000000001" "Pune" dear_times dear_show empty_site in
  answer = inr (internal sql_error) ∧
  d_schedules (s_db st') !! sc_id dear_row = Some dear_row ∧ plan_of (sc_id dear_row) (s_db st') = [] ∧
  let '(answer2, st'') := store_schedule "64b000000000000000000001" "Pune" dear_times new_show st' in
  (∃ e, answer2 = inr e) ∧ s_db st'' = s_db st'.
Proof.
  assert (w_faults (s_world empty_site) = []) as Hf by reflexivity.
  assert (filter (λ s, ls_layout_id s = cs_layout_id dear_show) (d_layout_seats (s_db empty_site)) =
    LayoutSeatRow 4 1 "B" 1 Vip None None None :: tail two_blocks) as Hl by reflexivity.
  assert (insert_schedule "64b000000000000000000001" "Pune" dear_times (w_now (s_world empty_site)) dear_show (s_db empty_site)
    = Some (dear_row, dear_db)) as Hi by (vm_compute; reflexivity).
  assert (copy_seats (sc_id dear_row) (cs_prices dear_show)
    (merge_sort layout_seat_le (LayoutSeatRow 4 1 "B" 1 Vip None None None :: tail two_blocks)) ∅ [] = Some dear_seats) as Hc by (vm_compute; reflexivity).
  assert (insert_seats numeric_fits true dear_seats dear_db = None) as Hs by (vm_compute; reflexivity).
  assert (cs_venue_name new_show = cs_venue_name dear_show) as Hv by reflexivity.
  pose proof (failed_creation_blocks_place "64b000000000000000000001" "Pune" dear_times dear_show empty_site dear_row dear_db dear_seats
    (LayoutSeatRow 4 1 "B" 1 Vip None None None) (tail two_blocks) new_show Hf Hl Hi Hc Hs empty_plans_ok Hv) as H.
  exact H.
Defined.

(** *** Two administrators *)

Definition coming_schedule : schedule_row := set_lifecycle Scheduled (some_schedule 7).
Definition coming_site : site mem_redis :=
  Site (Db [SeatRow 1 7 Available "100" some_place] [] [] [] [] [] ∅ {[7 := coming_schedule]} two_blocks 8 2 {[1 := some_layout]} 1 2 5)
    (mem_world 1 1000) (λ k, Z.of_nat k) 0.
Definition idle_gateway : gateway mem_redis := Gateway [] ∅ ∅ true [] ∅ 0 (mem_world 1 1000).

Lemma late_start_unmarks_closed_schedule_witness :
  let '(started, st1) := lifecycle_tx start_tx 7 coming_site in
  let '(closed, st2) := close_schedule 7 st1 in
  let '(answer, st3) := then_announce (ScheduleOpened 7) (mret started) st2 in
  closed = inl tt ∧ answer = inl tt ∧
  d_schedules (s_db st3) !! 7 = Some (set_lifecycle Closed (set_lifecycle Open coming_schedule)) ∧
  (∃ n', w_nodes (s_world st3) !! 0%nat = Some n' ∧ ∀ t, r_get n' t (schedule_closed_key 7) = None) ∧
  w_log (s_world st3) = w_log (s_world coming_site) ++
    [(schedule_lifecycle_channel, event_json (ScheduleClosed 7)); (schedule_lifecycle_channel, event_json (ScheduleOpened 7))] ∧
  7 ∉ g_closed ((on_message schedule_lifecycle_channel (event_text (HJ := mem_json) (ScheduleClosed 7)) ;;
                 on_message schedule_lifecycle_channel (event_text (HJ := mem_json) (ScheduleOpened 7))) idle_gateway).2.
Proof.
  assert (w_nodes (s_world coming_site) !! 0%nat = Some mem_empty) as Hn by reflexivity.
  assert (d_schedules (s_db coming_site) !! 7 = Some coming_schedule) as Hx by reflexivity.
  pose proof (late_start_unmarks_closed_schedule (HJ := mem_json) 7 coming_schedule coming_site mem_empty idle_gateway
    eq_refl eq_refl Hn Hx eq_refl eq_refl eq_refl) as H.
  exact H.
Defined.
