(* ===== verification/HttpLedger.v ===== *)
(** * HttpLedger: the books of the database under requests and messages

    [shop_op] is what can happen to the shared database: an HTTP payment request, an
    HTTP cancellation, or a message of the payment queue.  [accounts_ok] is kept by any
    sequence of them on any network. *)

From S2P Require Import Prelude Text Keys Redis RedisMem SeatLock SingleNodeLock Events Db Payments PaymentsProps HttpPayments HttpPaymentsProps.

(** The payment requests announced, and the orders whose cancellation was requested. *)
Definition requested (d : db) : list Z := events_of "payment.requested" d.
Definition cancelled (d : db) : list Z := events_of "payment.cancellation_requested" d.

(** A key of a user names one payment request; a payment request is announced once; the
    cancellation of an order is requested at most once, and never of an order that
    counts as completed. *)
Record ledger_ok (d : db) : Prop := {
  one_request_per_key : NoDup ((λ p, (pr_user_id p, pr_idempotency_key p)) <$> d_payments d);
  requests_distinct : NoDup (pr_id <$> d_payments d);
  requested_once : requested d = pr_id <$> d_payments d;
  orders_distinct : NoDup (od_id <$> d_orders d);
  cancelled_once : NoDup (cancelled d);
  cancelled_known : cancelled d ⊆ od_id <$> d_orders d;
  completed_uncancelled o : o ∈ d_orders d → od_status o = "completed"%string → od_id o ∉ cancelled d
}.

Lemma events_of_app ty e d :
  events_of ty (with_outbox (λ l, l ++ [e]) d) =
    events_of ty d ++ (if bool_decide (oe_event_type e = ty) then [oe_aggregate_id e] else []).
Proof. unfold events_of. simpl. rewrite omap_app. simpl. by case_bool_decide. Qed.

(** What is left of [ledger_ok] when a statement touches neither the announced events
    nor the identity of payments, and orders only change by leaving "completed". *)
Lemma ledger_same d d' :
  d_payments d' = d_payments d ∨
    ((λ p, (pr_user_id p, pr_idempotency_key p)) <$> d_payments d' = (λ p, (pr_user_id p, pr_idempotency_key p)) <$> d_payments d ∧
     pr_id <$> d_payments d' = pr_id <$> d_payments d) →
  requested d' = requested d → cancelled d' = cancelled d → od_id <$> d_orders d' = od_id <$> d_orders d →
  (∀ o, o ∈ d_orders d' → od_status o = "completed"%string → ∃ o0, o0 ∈ d_orders d ∧ od_id o0 = od_id o ∧ od_status o0 = "completed"%string) →
  ledger_ok d → ledger_ok d'.
Proof.
  intros Hp Hr Hc Ho Hcomp [H1 H2 H3 H4 H5 H6 H7].
  assert (((λ p, (pr_user_id p, pr_idempotency_key p)) <$> d_payments d') = ((λ p, (pr_user_id p, pr_idempotency_key p)) <$> d_payments d) ∧
          pr_id <$> d_payments d' = pr_id <$> d_payments d) as [Hk Hi] by (destruct Hp as [->|]; done).
  split; rewrite ?Hk, ?Hi, ?Hr, ?Hc, ?Ho; try done.
  intros o Hin Hst. destruct (Hcomp o Hin Hst) as (o0 & Hin0 & <- & Hst0). by apply H7.
Qed.

Lemma existsb_false {A} (f : A → bool) l x : existsb f l = false → x ∈ l → f x = false.
Proof.
  intros H Hx. apply not_true_iff_false. intros Hf. apply not_true_iff_false in H. apply H.
  apply existsb_exists. exists x. split; [by apply list_elem_of_In|done].
Qed.

(** *** The transactions *)

Section transactions.
Context {HP : PaymentLibs}.

Lemma ledger_request pid eid u now payload rq d ins d' :
  ledger_ok d → request_tx pid eid u now payload rq d = Some (ins, d') → ledger_ok d'.
Proof.
  intros Hd. unfold request_tx, insert_payment.
  destruct (existsb _ (d_payments d)) eqn:Ek; simpl; [by intros [= _ <-]|].
  destruct (existsb _ (d_payments d)) eqn:Ei in |- *; simpl; [done|].
  destruct (_ || _); simpl; [done|].
  destruct (insert_outbox _ _) as [d1|] eqn:E; [|done]. simpl. intros [= _ <-]. apply insert_outbox_some in E as ->.
  destruct Hd as [H1 H2 H3 H4 H5 H6 H7].
  split; simpl; try done; unfold requested, cancelled; rewrite ?events_of_app; simpl; rewrite ?fmap_app, ?app_nil_r; simpl; try done.
  - apply NoDup_app. split; [done|]. split; [|apply NoDup_singleton].
    intros x (p & -> & Hp)%list_elem_of_fmap Hx%list_elem_of_singleton.
    pose proof (existsb_false _ _ _ Ek Hp) as Hf. injection Hx as Hu Hkey. simpl in Hf.
    rewrite Hu, Z.eqb_refl, Hkey, bool_decide_eq_true_2 in Hf by done. done.
  - apply NoDup_app. split; [done|]. split; [|apply NoDup_singleton].
    intros x (p & -> & Hp)%list_elem_of_fmap Hx%list_elem_of_singleton.
    pose proof (existsb_false _ _ _ Ei Hp) as Hf. simpl in Hf. rewrite Hx, Z.eqb_refl in Hf. done.
  - f_equal. exact H3.
Qed.

Lemma cancelled_orders oid (matches : order_row → bool) d :
  (∀ o, matches o = true → od_id o = oid) →
  (∀ o, matches o = true → od_status o = "completed"%string) →
  (∀ o, od_id o = oid → od_status o = "completed"%string → matches o = true) →
  ∀ o, o ∈ update_where matches (set_order_status "cancelling") (d_orders d) → od_status o = "completed"%string →
    od_id o ≠ oid ∧ o ∈ d_orders d.
Proof.
  intros Hid Hst Hall o (o0 & Ho0 & ->)%elem_of_update_where Hc. destruct (matches o0) eqn:E; [done|].
  split; [|done]. intros Heq. rewrite Hall in E; done.
Qed.

Lemma ledger_cancel oid eid now payload d a d' :
  ledger_ok d → cancel_tx oid eid now payload d = Some (a, d') → ledger_ok d'.
Proof.
  intros Hd. unfold cancel_tx.
  set (matches := λ o, (od_id o =? oid) && bool_decide (od_status o = "completed"%string)).
  assert (∀ o, o ∈ update_where matches (set_order_status "cancelling") (d_orders d) → od_status o = "completed"%string →
    od_id o ≠ oid ∧ o ∈ d_orders d) as Hco.
  { apply (cancelled_orders oid); unfold matches.
    - intros o [Ho _]%andb_true_iff. by apply Z.eqb_eq.
    - intros o [_ Ho]%andb_true_iff. by apply bool_decide_eq_true in Ho.
    - intros o -> Ho. by rewrite Z.eqb_refl, bool_decide_eq_true_2. }
  assert (ledger_ok (with_orders (update_where matches (set_order_status "cancelling")) d)) as Hd1.
  { revert Hd. apply ledger_same; try done; [by left|by apply update_where_fmap|].
    intros o Ho Hc. destruct (Hco o Ho Hc) as [_ Hin]. by exists o. }
  destruct (_ =? _)%nat eqn:En; [|by intros [= _ <-]].
  destruct (insert_outbox _ _) as [d1|] eqn:E; [|done]. simpl. intros [= _ <-]. apply insert_outbox_some in E as ->.
  apply Nat.eqb_eq in En. destruct (filter _ (d_orders d)) as [|o l] eqn:Ef; [done|].
  assert (o ∈ o :: l) as Ho by left. rewrite <-Ef in Ho.
  apply list_elem_of_filter in Ho as [Hm Hin].
  assert (od_id o = oid ∧ od_status o = "completed"%string) as [Hoid Host].
  { apply andb_true_iff in Hm as [Ha%Z.eqb_eq Hb%bool_decide_eq_true]. done. }
  pose proof (completed_uncancelled _ Hd o Hin Host) as Hnew. rewrite Hoid in Hnew.
  destruct Hd1 as [H1 H2 H3 H4 H5 H6 H7]. simpl in *.
  split; simpl; try done; unfold requested, cancelled in *; rewrite ?events_of_app; simpl; rewrite ?app_nil_r; try done.
  - apply NoDup_app. split; [exact H5|]. split; [|apply NoDup_singleton].
    intros x Hx Hs%list_elem_of_singleton. subst x. by apply Hnew.
  - intros x [Hx|Hs%list_elem_of_singleton]%elem_of_app; [by apply H6|]. subst x.
    rewrite update_where_fmap by done. rewrite <-Hoid. by apply list_elem_of_fmap_2.
  - intros o' Ho' Hst' [Hx|Hs%list_elem_of_singleton]%elem_of_app; [by apply (H7 o')|].
    destruct (Hco o' Ho' Hst') as [Hne _]. done.
Qed.

Lemma ledger_update_seats l st d : ledger_ok d → ledger_ok (update_seats l st d).
Proof. apply ledger_same; try done; [by left|]. intros o Ho Hc. by exists o. Qed.

Lemma ledger_payments p st reason d :
  ledger_ok d → ledger_ok (with_payments (update_where p (set_payment st reason)) d).
Proof.
  apply ledger_same; try done.
  - right. split; by apply update_where_fmap.
  - intros o Ho Hc. by exists o.
Qed.

Lemma ledger_checkout c a e now d d' : ledger_ok d → checkout_tx c a e now d = Some d' → ledger_ok d'.
Proof.
  intros Hd. unfold checkout_tx.
  apply (ledger_update_seats (cc_seat_ids c) Booked) in Hd. revert Hd. generalize (update_seats (cc_seat_ids c) Booked d).
  clear d. intros d Hd. unfold insert_order.
  destruct (existsb _ (d_orders d)) eqn:Eo; simpl; [done|]. destruct (_ || _); simpl; [done|].
  destruct (insert_audit _ _) as [d2|] eqn:E2; [|done]. apply insert_audit_some in E2 as ->. simpl.
  intros ->%insert_outbox_some.
  apply (ledger_payments (λ p, pr_id p =? cc_payment_request_id c) PsSucceeded None) in Hd.
  destruct Hd as [H1 H2 H3 H4 H5 H6 H7]. simpl in *.
  assert (cc_order_id c ∉ od_id <$> d_orders d) as Hnew.
  { intros (o & Ho & Hin)%list_elem_of_fmap. pose proof (existsb_false _ _ _ Eo Hin) as Hf. simpl in Hf.
    by rewrite <-Ho, Z.eqb_refl in Hf. }
  split; simpl; try done; unfold requested, cancelled in *; rewrite ?events_of_app; simpl; rewrite ?fmap_app, ?app_nil_r; simpl; try done.
  - apply NoDup_app. split; [done|]. split; [|apply NoDup_singleton].
    intros x Hx Hs%list_elem_of_singleton. by subst x.
  - intros x Hx. apply elem_of_app. left. by apply H6.
  - intros o [Ho|Ho%list_elem_of_singleton]%elem_of_app Hst; [by apply H7|]. subst o. simpl. intros Hc. by apply Hnew, H6.
Qed.

Lemma ledger_cancellation c a e now d d' : ledger_ok d → cancellation_tx c a e now d = Some d' → ledger_ok d'.
Proof.
  intros Hd. unfold cancellation_tx.
  destruct (insert_audit _ _) as [d1|] eqn:E; [|done]. apply insert_audit_some in E as ->. simpl.
  intros ->%insert_outbox_some. revert Hd. apply ledger_same; simpl; try done; unfold requested, cancelled; rewrite ?events_of_app; simpl; rewrite ?app_nil_r; try done.
  - by left.
  - by apply update_where_fmap.
  - intros o (o0 & Ho0 & ->)%elem_of_update_where. destruct (_ =? _); simpl; [done|]. intros Hc. by exists o0.
Qed.
End transactions.

(** *** With the books of the worker *)

(** Every order is one of a payment request. *)
Definition orders_known (d : db) : Prop := od_payment_request_id <$> d_orders d ⊆ pr_id <$> d_payments d.

Definition accounts_ok (d : db) : Prop := ledger_ok d ∧ books_ok d ∧ orders_known d.

Section accounts.
Context {HP : PaymentLibs}.

Lemma accounts_request pid eid u now payload rq d ins d' :
  accounts_ok d → request_tx pid eid u now payload rq d = Some (ins, d') → accounts_ok d'.
Proof.
  intros (Hl & [B1 B2 B3 B4] & Hk) Htx. split; [by eapply ledger_request|]. revert Htx.
  unfold request_tx, insert_payment.
  destruct (existsb _ (d_payments d)); simpl; [by intros [= _ <-]|].
  destruct (existsb _ (d_payments d)) eqn:Ei; simpl; [done|].
  destruct (_ || _); simpl; [done|].
  destruct (insert_outbox _ _) as [d1|] eqn:E; [|done]. simpl. intros [= _ <-]. apply insert_outbox_some in E as ->.
  split.
  - split; simpl; try done.
    + unfold completed_events. rewrite events_of_app. simpl. by rewrite app_nil_r.
    + intros o p Ho [Hp|Hp%list_elem_of_singleton]%elem_of_app; [by apply (B4 o)|]. subst p. simpl. intros Hid.
      assert (pid ∈ pr_id <$> d_payments d) as Hin.
      { apply Hk. rewrite Hid. by apply list_elem_of_fmap_2. }
      apply list_elem_of_fmap in Hin as (p & Hpid & Hp). pose proof (existsb_false _ _ _ Ei Hp) as Hf.
      simpl in Hf. by rewrite <-Hpid, Z.eqb_refl in Hf.
  - intros x Hx. simpl. rewrite fmap_app. apply elem_of_app. left. by apply Hk.
Qed.

Lemma accounts_cancel oid eid now payload d a d' :
  accounts_ok d → cancel_tx oid eid now payload d = Some (a, d') → accounts_ok d'.
Proof.
  intros (Hl & Hb & Hk) Htx. split; [by eapply ledger_cancel|]. revert Htx. unfold cancel_tx.
  set (matches := λ o, _ && _). set (d0 := with_orders _ d).
  assert (books_ok d0 ∧ orders_known d0) as [Hb0 Hk0].
  { split.
    - revert Hb. apply books_same; try done; try (by apply update_where_fmap). intros p Hp. by exists p.
    - unfold orders_known. simpl. by rewrite update_where_fmap. }
  destruct (_ =? _)%nat; [|by intros [= _ <-]].
  destruct (insert_outbox _ _) as [d1|] eqn:E; [|done]. simpl. intros [= _ <-]. apply insert_outbox_some in E as ->.
  split; [|exact Hk0]. revert Hb0. apply books_same; try done.
  - unfold completed_events. rewrite events_of_app. simpl. by rewrite app_nil_r.
  - intros p Hp. by exists p.
Qed.

Lemma accounts_checkout c a e now d d' : accounts_ok d → checkout_tx c a e now d = Some d' → accounts_ok d'.
Proof.
  intros (Hl & Hb & Hk) Htx. split; [by eapply ledger_checkout|]. split; [by eapply books_checkout|].
  revert Htx. unfold checkout_tx, insert_order.
  destruct (existsb _ (d_orders _)); simpl; [done|].
  destruct (existsb (λ p, pr_id p =? cc_payment_request_id c) (d_payments d)) eqn:Ep; simpl; [|done].
  destruct (_ || _); simpl; [done|].
  destruct (insert_audit _ _) as [d2|] eqn:E2; [|done]. apply insert_audit_some in E2 as ->. simpl.
  intros ->%insert_outbox_some. unfold orders_known. simpl. rewrite fmap_app, update_where_fmap by done.
  intros x [Hx|Hx%list_elem_of_singleton]%elem_of_app; [by apply Hk|]. subst x.
  apply existsb_exists in Ep as (p & Hp%list_elem_of_In & Hid%Z.eqb_eq). simpl. rewrite <-Hid. by apply list_elem_of_fmap_2.
Qed.

Lemma accounts_cancellation c a e now d d' : accounts_ok d → cancellation_tx c a e now d = Some d' → accounts_ok d'.
Proof.
  intros (Hl & Hb & Hk) Htx. split; [by eapply ledger_cancellation|]. split; [by eapply books_cancellation|].
  revert Htx. unfold cancellation_tx.
  destruct (insert_audit _ _) as [d1|] eqn:E; [|done]. apply insert_audit_some in E as ->. simpl.
  intros ->%insert_outbox_some. unfold orders_known. simpl. by rewrite update_where_fmap.
Qed.

Lemma accounts_fail k reason d :
  accounts_ok d →
  accounts_ok (with_payments (update_where (λ p, (pr_id p =? k) && bool_decide (pr_status p ≠ PsSucceeded))
    (set_payment PsFailed (Some reason))) d).
Proof.
  intros (Hl & Hb & Hk). split; [by apply ledger_payments|]. split; [by apply books_fail_payment|].
  unfold orders_known. simpl. by rewrite update_where_fmap.
Qed.
End accounts.

(** ** Requests and messages *)

Inductive shop_op :=
  | ShopPay (authorization : option string) (rq : payment_request)
  | ShopOrder (authorization : option string) (rq : create_razorpay_order_request)
  | ShopCancel (authorization : option string) (order_id : Z) (idempotency_key : string)
  | ShopMessage (data : string)
  | ShopTick (ms : N).

(** The secrets and keys of the environment, and whether refunds are made. *)
Record shop_env := ShopEnv { jwt_secret : string; razorpay_secret : string; razorpay_key_id : string; refund_mock : bool }.

Section shop.
Context {D : Type} `{!RedisServer D} {HS : SeatLock D} {HJ : JsonText} {HP : PaymentLibs} {HL : CheckoutLibs} {HT : TokenDecoder}.

Definition shop_step (env : shop_env) (o : shop_op) : St (processor D) unit :=
  match o with
  | ShopPay a rq => at_site (request_payment a (jwt_secret env) (razorpay_secret env) rq) ;; mret tt
  | ShopOrder a rq => at_site (create_razorpay_order a (jwt_secret env) (razorpay_key_id env) rq) ;; mret tt
  | ShopCancel a oid key => at_site (cancel_order a (jwt_secret env) oid key) ;; mret tt
  | ShopMessage data => process_message (refund_mock env) data ;; mret tt
  | ShopTick ms => redis_op (advance ms)
  end.

Definition shop_run (env : shop_env) (os : list shop_op) : St (processor D) unit := for_each os (shop_step env).

Lemma keeps_accounts_tx {A} (tx : db → option (A * db)) :
  (∀ d a d', accounts_ok d → tx d = Some (a, d') → accounts_ok d') → keeps (on_db (D:=D) accounts_ok) (db_run tx).
Proof. apply keeps_db_run. Qed.

Lemma keeps_accounts_request a s1 s2 rq : keeps (on_db (D:=D) accounts_ok) (request_payment a s1 s2 rq).
Proof.
  unfold request_payment, submit_payment, existing_payment.
  assert (∀ s u l, keeps (on_db (D:=D) accounts_ok) (holds_all s u l)) as Hholds.
  { intros s u l. induction l as [|t l IH]; simpl; keeps_tac. }
  assert (∀ s o l c, keeps (on_db (D:=D) accounts_ok) (take_checkout_keys s o l c)) as Hkeys by (intros; apply keeps_take_keys).
  assert (∀ c, keeps (on_db (D:=D) accounts_ok) (delete_keys c)) as Hdel by (intros; apply keeps_delete_keys).
  assert (∀ pid eid u now payload, keeps (on_db (D:=D) accounts_ok) (db_run (request_tx pid eid u now payload rq))) as Htx.
  { intros. apply keeps_accounts_tx. intros d ins d'. apply accounts_request. }
  keeps_tac.
Qed.

Lemma keeps_accounts_order P a s1 s2 rq : keeps (on_db (D:=D) P) (create_razorpay_order a s1 s2 rq).
Proof.
  unfold create_razorpay_order.
  assert (∀ s u l, keeps (on_db (D:=D) P) (holds_all s u l)) as Hholds.
  { intros s u l. induction l as [|t l IH]; simpl; keeps_tac. }
  keeps_tac.
Qed.

Lemma keeps_accounts_cancel a s oid key : keeps (on_db (D:=D) accounts_ok) (cancel_order a s oid key).
Proof.
  unfold cancel_order.
  assert (∀ oid eid now payload, keeps (on_db (D:=D) accounts_ok) (db_run (cancel_tx oid eid now payload))) as Htx.
  { intros. apply keeps_accounts_tx. intros d x d'. apply accounts_cancel. }
  keeps_tac.
Qed.

Lemma keeps_accounts_message mock data : keeps (with_books (D:=D) accounts_ok) (process_message mock data).
Proof.
  assert (∀ c, keeps (with_books (D:=D) accounts_ok) (at_site (commit_checkout c))) as H1.
  { intros c. apply keeps_at_site, keeps_commit. intros ?????. apply accounts_checkout. }
  assert (∀ c, keeps (with_books (D:=D) accounts_ok) (at_site (commit_cancellation c))) as H2.
  { intros c. apply keeps_at_site, keeps_commit. intros ?????. apply accounts_cancellation. }
  assert (∀ k reason, keeps (with_books (D:=D) accounts_ok) (fail_payment k reason)) as H3.
  { intros k reason. unfold fail_payment. apply keeps_bind; [apply keeps_at_site, keeps_db_get|]. intros c. apply keeps_when.
    apply keeps_bind; [|intros ?; apply keeps_ret]. apply keeps_at_site, keeps_accounts_tx.
    intros d x d' Hd [= _ <-]. by apply accounts_fail. }
  unfold process_message. destruct (json_parse data) as [j|]; [|apply keeps_ret].
  unfold process_cancellation, process_checkout, adjust_cached_available_seats, broadcast, clear_checkout_keys, book_seats.
  keeps_tac.
Qed.

(** C21: the ledger stays balanced.  Any sequence of payment requests, cancellations and
    queue messages, from any users, repeated and in any order, on any network: an
    idempotency key of a user never names two payment requests, every payment request
    has been announced exactly once and in order and has at most one order, an order is
    one of a known payment request that has succeeded, has announced its completion once
    and been audited once, and the cancellation of an order has been requested at most
    once -- never of an order that still counts as completed. *)
Theorem ledger_stays_balanced env os (p : processor D) :
  accounts_ok (s_db (pp_site p)) → accounts_ok (s_db (pp_site (shop_run env os p).2)).
Proof.
  assert (keeps (with_books accounts_ok) (shop_run env os)) as Hk; [|apply Hk].
  apply keeps_for_each. intros o _. destruct o; simpl.
  - apply keeps_bind; [apply keeps_at_site, keeps_accounts_request|]. intros ?. apply keeps_ret.
  - apply keeps_bind; [apply keeps_at_site, keeps_accounts_order|]. intros ?. apply keeps_ret.
  - apply keeps_bind; [apply keeps_at_site, keeps_accounts_cancel|]. intros ?. apply keeps_ret.
  - apply keeps_bind; [apply keeps_accounts_message|]. intros ?. apply keeps_ret.
  - apply keeps_redis_op.
Qed.
End shop.

(** ** A concrete run *)

#[local] Existing Instance single_node_lock.

Definition test_env : shop_env := ShopEnv "secret" "secret" "" true.

(** A request and its repetition, the message of the request, and two cancellations. *)
Definition busy_day : list shop_op :=
  [ShopPay (Some "Bearer mock_token") (seat_request "k"); ShopPay (Some "Bearer mock_token") (seat_request "k");
   ShopMessage (json_print (payment_payload 1000 1 "100" (seat_request "k")));
   ShopCancel (Some "Bearer mock_token") 1002 "c"; ShopCancel (Some "Bearer mock_token") 1002 "c"]%string.

Lemma empty_accounts_ok : accounts_ok (s_db (pp_site open_shop)).
Proof.
  assert (∀ l : list Z, [] ⊆ l) as Hnil by (intros l x Hx; by apply not_elem_of_nil in Hx).
  split; [|split; [|apply Hnil]].
  - split; try done; try constructor; try apply Hnil. intros o Ho. by apply not_elem_of_nil in Ho.
  - split; try done; [constructor|]. intros o p Ho. by apply not_elem_of_nil in Ho.
Qed.

Lemma ledger_stays_balanced_witness :
  map oe_event_type (d_outbox (s_db (pp_site (shop_run test_env busy_day open_shop).2))) =
    ["payment.requested"; "OrderCompleted"; "payment.cancellation_requested"]%string ∧
  accounts_ok (s_db (pp_site (shop_run test_env busy_day open_shop).2)).
Proof.
  split; [vm_compute; reflexivity|].
  pose proof (ledger_stays_balanced test_env busy_day open_shop empty_accounts_ok) as H.
  exact H.
Defined.
