(* ===== verification/Checkout.v ===== *)
(** * Checkout: from a payment request to a booking
    (the handler of [HttpPayments.v] and then the worker of [Payments.v], over
    [SingleNodeLock], on a network without faults) *)

From S2P Require Import Prelude Text Keys Redis RedisMem SeatLock SingleNodeLock Events Db Payments PaymentsProps PaymentsSeats HttpPayments HttpPaymentsProps.

#[local] Existing Instance single_node_lock.

Section faultless.
Context {D : Type} `{!RedisServer D} `{!RedisLaws D} {HJ : JsonText} {HP : PaymentLibs} {HL : CheckoutLibs} {HT : TokenDecoder}.
Implicit Types (st : site D) (p : processor D).

(** *** Reads *)

Lemma redis_of_pure {A} (m : St (world D) A) a st :
  m (s_world st) = (a, s_world st) → redis_of m st = (a, st).
Proof. intros H. unfold redis_of, zoom. rewrite H. by destruct st. Qed.

Lemma owner_ok s t u (w : world D) : w_faults w = [] → both_keys s u t (w_nodes w) (w_now w) →
  sn_get_lock_owner s t w = (Some u, w).
Proof.
  destruct w as [ns now fl lg]. simpl. intros -> (i & d & Hi & Hd & Ho & _).
  unfold sn_get_lock_owner, mbind, St_bind, pool_for_seat. simpl. rewrite Hi, pool_get_ok. simpl.
  rewrite (node_cmd_ok _ _ _ _ _ d Hd). unfold cmd_get_i32. simpl. rewrite (list_insert_id ns i d) by done.
  destruct (r_get d now _) as [v|]; [|done]. simpl in Ho. by rewrite Ho.
Qed.

Lemma holds_ok s t u (w : world D) : w_faults w = [] → both_keys s u t (w_nodes w) (w_now w) →
  sn_user_holds_lock s t u w = (true, w).
Proof.
  destruct w as [ns now fl lg]. simpl. intros -> (i & d & Hi & Hd & _ & [v Hc]).
  unfold sn_user_holds_lock, mbind, St_bind, pool_for_seat. simpl. rewrite Hi, pool_get_ok. simpl.
  rewrite (node_cmd_ok _ _ _ _ _ d Hd). unfold cmd_exists. simpl. rewrite (list_insert_id ns i d) by done.
  by rewrite Hc.
Qed.

Lemma holds_all_ok s u l st : w_faults (s_world st) = [] →
  (∀ t, t ∈ l → both_keys s u t (w_nodes (s_world st)) (w_now (s_world st))) → holds_all s u l st = (true, st).
Proof.
  intros Hf. induction l as [|t l IH]; intros Hl; simpl; [done|].
  unfold mbind, St_bind. rewrite (redis_of_pure _ true) by (apply holds_ok; [done|apply Hl; left]).
  apply IH. intros t' Ht'. apply Hl. by right.
Qed.

Lemma lock_failure_ok s u l p : no_faults p →
  (∀ t, t ∈ l → both_keys s u t (w_nodes (s_world (pp_site p))) (w_now (s_world (pp_site p)))) →
  lock_failure s u l p = (None, p).
Proof.
  intros Hf. induction l as [|t l IH]; intros Hl; simpl; [done|].
  assert (∀ A (m : St (world D) A) a, m (s_world (pp_site p)) = (a, s_world (pp_site p)) → redis_op m p = (a, p)) as Hop.
  { intros A m a Hm. unfold redis_op, at_site, zoom. rewrite (redis_of_pure m a) by done. by destruct p. }
  unfold mbind, St_bind. rewrite (Hop _ _ (Some u)) by (apply owner_ok; [done|apply Hl; left]).
  rewrite bool_decide_eq_false_2 by (intros H; by apply H).
  rewrite (Hop _ _ true) by (apply holds_ok; [done|apply Hl; left]). simpl.
  apply IH. intros t' Ht'. apply Hl. by right.
Qed.

(** *** The checkout keys *)

(** Two first servers agree but for the checkout keys. *)
Definition same_but_checkout (now : Z) (d d' : D) : Prop :=
  ∀ k, (∀ s t, k ≠ seat_checkout_key s t) → r_get d' now k = r_get d now k.

Lemma take_keys_ok s owner l created st d : w_faults (s_world st) = [] → w_nodes (s_world st) !! 0%nat = Some d →
  NoDup l → (∀ t, t ∈ l → r_get d (w_now (s_world st)) (seat_checkout_key s t) = None) →
  ∃ keys d', same_but_checkout (w_now (s_world st)) d d' ∧
    take_checkout_keys s owner l created st =
      (inl keys, Site (s_db st) (World (<[0%nat := d']> (w_nodes (s_world st))) (w_now (s_world st)) [] (w_log (s_world st)))
                   (s_uuids st) (s_drawn st)).
Proof.
  destruct st as [dbs [ns now fl lg] us n]. simpl. intros ->.
  assert (r_px_ok 300000 = true) as Hpx by (apply px_ok_range; lia).
  revert created d ns. induction l as [|t l IH]; intros created d ns Hd Hnd Hl; simpl.
  { exists created, d. split; [done|]. by rewrite list_insert_id. }
  apply NoDup_cons in Hnd as [Ht Hnd].
  unfold mbind, St_bind, redis_of at 1, zoom at 1. simpl. rewrite (node_cmd_ok _ _ _ _ _ d Hd).
  unfold cmd_set_nx_px. rewrite Hpx, (Hl t) by left. simpl.
  set (d1 := r_set_px d now (seat_checkout_key s t) owner 300000).
  destruct (IH (created ++ [seat_checkout_key s t]) d1 (<[0%nat:=d1]> ns)) as (keys & d' & Hsame & Heq).
  - apply list_lookup_insert_eq. by eapply lookup_lt_Some.
  - done.
  - intros t' Ht'. unfold d1. rewrite get_set_px by lia. rewrite decide_False; [apply Hl; by right|].
    intros [_ ->]%seat_checkout_key_inj. done.
  - exists keys, d'. split.
    + intros k Hk. rewrite Hsame by done. unfold d1. rewrite get_set_px by lia.
      by rewrite decide_False by (intros H; by apply (Hk s t)).
    + by rewrite Heq, list_insert_insert_eq.
Qed.

Lemma both_keys_same s u t ns now d d' : ns !! 0%nat = Some d → same_but_checkout now d d' →
  both_keys s u t ns now → both_keys s u t (<[0%nat := d']> ns) now.
Proof.
  intros Hd Hsame (i & di & Hi & Hdi & Ho & Hc).
  assert (∀ k s' t', (∀ s t, k ≠ KCheckout s t) → key_text k ≠ seat_checkout_key s' t') as Hne.
  { intros k s' t' Hk H. apply (inj key_text k (KCheckout s' t')) in H. by apply (Hk s' t'). }
  destruct (decide (i = 0%nat)) as [->|Hn].
  - exists 0%nat, d'. simplify_eq. rewrite length_insert. split; [done|].
    rewrite list_lookup_insert_eq by (by eapply lookup_lt_Some). split; [done|]. split.
    + by rewrite (Hsame (seat_lock_key s t)) by (intros; by apply (Hne (KLock s t))).
    + by rewrite (Hsame (seat_user_context_key s t u)) by (intros; by apply (Hne (KContext s t u))).
  - exists i, di. rewrite length_insert. split; [done|]. by rewrite list_lookup_insert_ne by done.
Qed.

(** *** The request *)

(** The identifiers still to be drawn are new and distinct. *)
Definition fresh_stream (st : site D) : Prop :=
  (∀ i j, (s_drawn st ≤ i)%nat → s_uuids st i = s_uuids st j → (s_drawn st ≤ j)%nat → i = j) ∧
  ∀ i, (s_drawn st ≤ i)%nat →
    s_uuids st i ∉ (pr_id <$> d_payments (s_db st)) ++ (od_payment_request_id <$> d_orders (s_db st)) ++
      (od_id <$> d_orders (s_db st)) ++ (ua_id <$> d_audits (s_db st)) ++ (oe_id <$> d_outbox (s_db st)).

(** User [u] may buy the seats of [rq]: the servers hold both keys of every seat, the
    seats are free rows of the schedule, nobody is checking them out, and the key of the
    request is new. *)
Record may_buy (u : Z) (rq : payment_request) (st : site D) : Prop := {
  mb_faultless : w_faults (s_world st) = [];
  mb_first : ∃ d, w_nodes (s_world st) !! 0%nat = Some d ∧
    ∀ t, t ∈ rq_seat_ids rq → r_get d (w_now (s_world st)) (seat_checkout_key (rq_schedule_id rq) t) = None;
  mb_keys t : t ∈ rq_seat_ids rq → both_keys (rq_schedule_id rq) u t (w_nodes (s_world st)) (w_now (s_world st));
  mb_rows : NoDup (ss_id <$> d_seats (s_db st)) ∧ length (requested_seats rq (s_db st)) = length (rq_seat_ids rq) ∧
    find (λ r, bool_decide (ss_status r = Booked)) (requested_seats rq (s_db st)) = None;
  mb_key : filter (λ r, same_key u (rq_idempotency_key rq) r = true) (d_payments (s_db st)) = [];
  mb_known : u ∈ dom (d_users (s_db st)) ∧ rq_schedule_id rq ∈ dom (d_schedules (s_db st));
  mb_fresh : fresh_stream st
}.

Lemma existsb_id {A} (f : A → Z) l k : k ∉ f <$> l → existsb (λ x, f x =? k) l = false.
Proof.
  intros Hk. apply existsb_none. intros x Hx. apply Z.eqb_neq. intros <-. apply Hk. by apply list_elem_of_fmap_2.
Qed.

(** The database after the request. *)
Definition filed_db (pid eid u now : Z) (payload : json) (rq : payment_request) (d : db) : db :=
  with_outbox (λ l, l ++ [new_outbox_event eid pid "payment.requested" payload now])
    (with_payments (λ l, l ++ [PaymentRow pid (rq_idempotency_key rq) u (rq_schedule_id rq) (rq_seat_ids rq) PsPending None]) d).

Lemma request_tx_ok pid eid u now payload rq d :
  filter (λ r, same_key u (rq_idempotency_key rq) r = true) (d_payments d) = [] →
  pid ∉ pr_id <$> d_payments d → eid ∉ oe_id <$> d_outbox d → u ∈ dom (d_users d) → rq_schedule_id rq ∈ dom (d_schedules d) →
  request_tx pid eid u now payload rq d = Some (true, filed_db pid eid u now payload rq d).
Proof.
  intros Hkey Hpid Heid Hu Hs. unfold request_tx, insert_payment. simpl.
  rewrite existsb_none.
  2:{ intros r Hr. destruct (_ && _) eqn:E; [|done]. exfalso.
      assert (r ∈ filter (λ r, same_key u (rq_idempotency_key rq) r = true) (d_payments d)) as Hin.
      { apply list_elem_of_filter. split; [|done]. unfold same_key. by rewrite andb_comm. }
      rewrite Hkey in Hin. by apply not_elem_of_nil in Hin. }
  rewrite (existsb_id pr_id) by done. rewrite !bool_decide_eq_true_2 by done. simpl.
  by rewrite insert_outbox_ok.
Qed.

Lemma request_ok authorization jwt_secret secret rq u st :
  authenticated_user authorization jwt_secret = inl u → request_invalid rq = false → check_signature secret rq = None →
  may_buy u rq st →
  let n := s_drawn st in
  let pid := s_uuids st n in
  let payload := payment_payload pid u (total_text (map ss_price (requested_seats rq (s_db st)))) rq in
  ∃ d d', w_nodes (s_world st) !! 0%nat = Some d ∧ same_but_checkout (w_now (s_world st)) d d' ∧
    request_payment authorization jwt_secret secret rq st =
      (inl (PaymentAccepted 202 (uuid_text pid) "pending"),
       Site (filed_db pid (s_uuids st (S n)) u (w_now (s_world st)) payload rq (s_db st))
         (World (<[0%nat := d']> (w_nodes (s_world st))) (w_now (s_world st)) [] (w_log (s_world st)))
         (s_uuids st) (S (S n))).
Proof.
  intros Hu Hinv Hsig [Hf (d & Hd & Hck) Hkeys (Hids & Hlen & Hfind) Hkey (Hku & Hks) [Hinj Hfresh]] n pid payload.
  destruct (requested_seats_cover rq (s_db st) Hids Hlen) as [Hnd _].
  exists d. unfold request_payment. rewrite Hu, Hinv, Hsig.
  unfold mbind at 1, St_bind at 1. rewrite db_get_ok by done. cbn [negb].
  unfold existing_payment at 1, mbind at 1, St_bind at 1. rewrite db_query_ok by done. rewrite Hkey. cbn [head].
  unfold mbind at 1, St_bind at 1. rewrite holds_all_ok by done. cbn [negb].
  unfold mbind at 1, St_bind at 1. rewrite db_query_ok by done. rewrite bool_decide_eq_false_2 by (intros H; by apply H).
  rewrite Hfind. unfold submit_payment. unfold mbind at 1, St_bind at 1, new_v4 at 1.
  set (st1 := Site (s_db st) (s_world st) (s_uuids st) (S (s_drawn st))).
  assert (w_faults (s_world st1) = []) as Hf1 by done.
  unfold mbind at 1, St_bind at 1. rewrite (redis_of_pure (pool_get 0) true st1).
  2:{ subst st1. simpl. destruct (s_world st) as [ns t fl lg]. simpl in *. by subst fl. }
  cbn [negb]. unfold mbind at 1, St_bind at 1.
  destruct (take_keys_ok (rq_schedule_id rq) (show_Z u +:+ ":" +:+ rq_idempotency_key rq)%string (rq_seat_ids rq) [] st1 d Hf1 Hd Hnd Hck)
    as (keys & d' & Hsame & ->).
  exists d'. split; [done|]. split; [done|].
  unfold mbind at 1, St_bind at 1, new_v4 at 1. cbn [s_db s_world s_uuids s_drawn st1].
  unfold mbind at 1, St_bind at 1. rewrite (redis_of_pure now_ms (w_now (s_world st))) by done.
  unfold mbind at 1, St_bind at 1. rewrite db_run_ok by done. cbn [s_db s_world s_uuids s_drawn].
  assert (∀ i, (s_drawn st ≤ i)%nat → (s_uuids st i ∉ pr_id <$> d_payments (s_db st)) ∧ (s_uuids st i ∉ oe_id <$> d_outbox (s_db st))) as Hnew.
  { intros i Hi. specialize (Hfresh i Hi). rewrite !not_elem_of_app in Hfresh. destruct Hfresh as (H1 & _ & _ & _ & H5). by split. }
  rewrite request_tx_ok; [done|done|apply Hnew; lia|apply Hnew; lia|done|done].
Qed.

(** *** The worker *)

(** What follows a committed checkout does not touch the database. *)
Lemma after_commit P s u l n :
  hoare (with_books (D:=D) P)
    (answer ← (adjust_cached_available_seats s n ;; book_seats s u l ;; broadcast s "seat_booked" l u ;; mret AckMessage);
     clear_checkout_keys s l ;; mret answer)
    (λ a p, a = AckMessage ∧ with_books P p).
Proof.
  eapply (hoare_bind _ (λ a p, a = AckMessage ∧ with_books P p)).
  - eapply hoare_bind; [apply keeps_adjust|]. intros ?. eapply hoare_bind; [apply keeps_book_seats|]. intros ?.
    eapply hoare_bind; [apply keeps_broadcast|]. intros ?. by apply hoare_ret.
  - intros a. apply hoare_pure. intros ->. eapply hoare_bind; [apply keeps_clear|]. intros ?. by apply hoare_ret.
Qed.

Lemma checkout_ok j k p d' :
  no_faults p → payment_of j = Some k → ¬ ordered k (s_db (pp_site p)) → parse_seat_ids j ≠ [] →
  (∀ t, t ∈ parse_seat_ids j →
     both_keys (checkout_schedule j) (checkout_user j) t (w_nodes (s_world (pp_site p))) (w_now (s_world (pp_site p)))) →
  let n := s_drawn (pp_site p) in
  let us := s_uuids (pp_site p) in
  checkout_tx (CheckoutCommit (us n) k (checkout_user j) (checkout_schedule j) (parse_seat_ids j)
     (default "0"%string (as_str (jindex "amount" j))) (default EmptyString (as_str (jindex "razorpay_order_id" j)))
     (as_str (jindex "razorpay_payment_id" j))) (us (S n)) (us (S (S n))) (w_now (s_world (pp_site p))) (s_db (pp_site p)) = Some d' →
  (process_checkout j p).1 = AckMessage ∧ s_db (pp_site (process_checkout j p).2) = d'.
Proof.
  intros Hf Hk Hno Hne Hkeys n us Htx. subst n us.
  set (site' := Site d' (s_world (pp_site p)) (s_uuids (pp_site p)) (S (S (S (s_drawn (pp_site p)))))).
  assert (process_checkout j p =
    (answer ← (adjust_cached_available_seats (checkout_schedule j) (- Z.of_nat (length (parse_seat_ids j))) ;;
        book_seats (checkout_schedule j) (checkout_user j) (parse_seat_ids j) ;;
        broadcast (checkout_schedule j) "seat_booked" (parse_seat_ids j) (checkout_user j) ;; mret AckMessage);
     clear_checkout_keys (checkout_schedule j) (parse_seat_ids j) ;; mret answer) (Processor site' (pp_refunds p))) as ->.
  { unfold process_checkout. fold (payment_of j) (checkout_user j) (checkout_schedule j). rewrite Hk.
    assert (order_exists k (pp_site p) = (false, pp_site p)) as He.
    { unfold order_exists, mbind, St_bind. rewrite db_get_ok by done. cbn [negb]. rewrite db_query_ok by done. simpl.
      destruct (existsb _ _) eqn:E; [|done]. by apply existsb_ordered in E. }
    unfold mbind at 1, St_bind at 1, at_site at 1, zoom at 1. rewrite He.
    rewrite bool_decide_eq_false_2 by done.
    assert (Processor (pp_site p) (pp_refunds p) = p) as -> by (by destruct p).
    unfold mbind at 1, St_bind at 1. rewrite lock_failure_ok by done.
    unfold mbind at 1, St_bind at 1, at_site at 1, zoom at 1, new_v4 at 1. cbn [pp_site pp_refunds].
    unfold mbind at 1, St_bind at 1, at_site at 1, zoom at 1. unfold commit_checkout. rewrite commit_ok by done.
    cbn [s_uuids s_drawn s_world s_db pp_site pp_refunds]. by rewrite Htx. }
  exact (after_commit (λ d, d = d') _ _ _ _ (Processor site' (pp_refunds p)) eq_refl).
Qed.

(** *** The message *)

(** Integers of the request in the range of [i32], identifiers that are read back, a
    trace carrier that is plain JSON. *)
Definition printable (u pid : Z) (rq : payment_request) : Prop :=
  in_i32 u = true ∧ in_i32 (rq_schedule_id rq) = true ∧ forallb in_i32 (rq_seat_ids rq) = true ∧
  uuid_parse (uuid_text pid) = Some pid ∧ json_ok_at 15 trace_carrier = true.

Lemma in_i32_i32 z : in_i32 z = true → i32 z = z.
Proof. intros [? ?]%in_i32_true. apply wrap_s_small; [done|]. unfold in_s, i32_min, i32_max in *. simpl in *. lia. Qed.

Lemma in_i32_json d z : in_i32 z = true → json_ok_at d (JNum z) = true.
Proof.
  intros [? ?]%in_i32_true. unfold i32_min, i32_max in *.
  destruct d; simpl; apply andb_true_iff; split; [apply Z.leb_le|apply Z.ltb_lt|apply Z.leb_le|apply Z.ltb_lt]; lia.
Qed.

Lemma parse_seat_list l : forallb in_i32 l = true → omap (λ v, i32 <$> as_i64 v) (map JNum l) = l.
Proof.
  induction l as [|z l IH]; [done|]. cbn [forallb map]. intros [Hz Hl]%andb_true_iff.
  change (match i32 <$> as_i64 (JNum z) with
          | Some y => y :: omap (λ v, i32 <$> as_i64 v) (map JNum l)
          | None => omap (λ v, i32 <$> as_i64 v) (map JNum l)
          end = z :: l).
  rewrite as_i64_i32 by done. cbn. by rewrite in_i32_i32, IH.
Qed.

Lemma json_ok_fields d l :
  json_ok_at (S d) (JObj l) = bool_decide (NoDup (map fst l)) && forallb (λ kv, json_ok_at d kv.2) l.
Proof. done. Qed.

Lemma payload_fields pid u amount rq : printable u pid rq →
  let j := payment_payload pid u amount rq in
  json_parse (json_print j) = Some j ∧ request_type j = "checkout"%string ∧ payment_of j = Some pid ∧
  parse_seat_ids j = rq_seat_ids rq ∧ checkout_user j = u ∧ checkout_schedule j = rq_schedule_id rq.
Proof.
  intros (Hu & Hs & Hl & Hp & Hc) j. split_and!.
  - apply json_parse_print. unfold json_ok, j, payment_payload. rewrite json_ok_fields. apply andb_true_iff. split.
    { apply bool_decide_eq_true_2, (bool_decide_unpack _). vm_compute. exact I. }
    assert (json_ok_at 15 (seat_list (rq_seat_ids rq)) = true) as Hseats.
    { apply forallb_forall. intros x (z & <- & Hz)%in_map_iff. change (json_ok_at 14 (JNum z) = true). apply in_i32_json.
      by apply (proj1 (forallb_forall in_i32 (rq_seat_ids rq))). }
    assert (∀ o, json_ok_at 15 (optional_text o) = true) as Hopt by (by intros []).
    cbn [forallb snd]. by rewrite Hc, !in_i32_json, Hseats, !Hopt.
  - done.
  - unfold payment_of, j. simpl. exact Hp.
  - unfold j, parse_seat_ids. simpl. by apply parse_seat_list.
  - unfold checkout_user, j. simpl. change (if (- 2 ^ 63 <=? u) && (u <? 2 ^ 63) then Some u else None) with (as_i64 (JNum u)).
    rewrite as_i64_i32 by done. by apply in_i32_i32.
  - unfold checkout_schedule, j. simpl.
    change (if (- 2 ^ 63 <=? rq_schedule_id rq) && (rq_schedule_id rq <? 2 ^ 63) then Some (rq_schedule_id rq) else None)
      with (as_i64 (JNum (rq_schedule_id rq))).
    rewrite as_i64_i32 by done. by apply in_i32_i32.
Qed.

(** *** From request to booking *)

Lemma insert_order_ok r d :
  od_id r ∉ od_id <$> d_orders d → od_payment_request_id r ∉ od_payment_request_id <$> d_orders d →
  od_payment_request_id r ∈ pr_id <$> d_payments d → od_user_id r ∈ dom (d_users d) → od_schedule_id r ∈ dom (d_schedules d) →
  varchar 128 (od_razorpay_order_id r) = true → opt_varchar 128 (od_razorpay_payment_id r) = true →
  insert_order r d = Some (with_orders (λ l, l ++ [r]) d).
Proof.
  intros Hid Hpay Hknown Hu Hs Hlo Hlp. unfold insert_order. rewrite Hlo, Hlp.
  rewrite existsb_none.
  2:{ intros o Ho. apply orb_false_iff. split; apply Z.eqb_neq; intros Heq.
      - apply Hid. rewrite <-Heq. by apply list_elem_of_fmap_2.
      - apply Hpay. rewrite <-Heq. by apply list_elem_of_fmap_2. }
  apply list_elem_of_fmap in Hknown as (x & Hx & Hin).
  assert (existsb (λ y, pr_id y =? od_payment_request_id r) (d_payments d) = true) as ->.
  { apply existsb_exists. exists x. split; [by apply list_elem_of_In|]. rewrite Hx. apply Z.eqb_refl. }
  by rewrite !bool_decide_eq_true_2 by done.
Qed.

Lemma checkout_tx_ok c a e now d :
  cc_order_id c ∉ od_id <$> d_orders d → cc_payment_request_id c ∉ od_payment_request_id <$> d_orders d →
  cc_payment_request_id c ∈ pr_id <$> d_payments d → cc_user_id c ∈ dom (d_users d) → cc_schedule_id c ∈ dom (d_schedules d) →
  a ∉ ua_id <$> d_audits d → e ∉ oe_id <$> d_outbox d →
  varchar 128 (cc_razorpay_order_id c) = true → opt_varchar 128 (cc_razorpay_payment_id c) = true →
  ∃ d' o, checkout_tx c a e now d = Some d' ∧ d_orders d' = d_orders d ++ [o] ∧
    od_user_id o = cc_user_id c ∧ od_schedule_id o = cc_schedule_id c ∧ od_seat_ids o = cc_seat_ids c ∧
    od_payment_request_id o = cc_payment_request_id c ∧ od_status o = "completed"%string ∧
    ∀ row, row ∈ d_seats d' → ss_id row ∈ cc_seat_ids c → ss_status row = Booked.
Proof.
  intros H1 H2 H3 H4 H5 H6 H7 H8 H9. unfold checkout_tx. rewrite insert_order_ok by done. simpl.
  rewrite insert_audit_ok; simpl; [|done| |done].
  2:{ rewrite fmap_app. apply elem_of_app. right. by left. }
  rewrite insert_outbox_ok by done. do 2 eexists. split; [done|]. simpl. split; [done|]. simpl. split_and!; try done.
  intros row (row0 & _ & ->)%elem_of_update_where. by case_bool_decide.
Qed.

(** No transaction books a request whose identifiers of Razorpay are too long for the table,
    though nothing refuses the request before. *)
Theorem long_identifiers_book_nothing c a e now d :
  varchar 128 (cc_razorpay_order_id c) && opt_varchar 128 (cc_razorpay_payment_id c) = false → checkout_tx c a e now d = None.
Proof.
  intros H. unfold checkout_tx, insert_order. simpl. apply andb_false_iff in H.
  assert (∀ b b1 b2 b3 : bool, b || b1 || b2 || b3 || negb (varchar 128 (cc_razorpay_order_id c)) || negb (opt_varchar 128 (cc_razorpay_payment_id c)) = true) as Hor.
  { intros b b1 b2 b3. destruct H as [-> | ->]; simpl; rewrite ?orb_true_r; done. }
  by rewrite Hor.
Qed.

(** C22: who holds the seats and asks gets them.  On a network without faults, when user
    [u] may buy the seats of a request ([may_buy]), its proof of payment passes and the
    identifiers of Razorpay that it names have at most 128 characters, as the table of orders
    demands, the request is accepted, and its message, printed and handed to the payment
    worker, is acknowledged: there is one new, completed order of [u] for exactly these
    seats, and every row of them is booked.  A request without a Razorpay order, or with one
    that starts with "order_mock_", passes the check of the payment as it is. *)
Theorem accepted_request_is_booked mock authorization jwt_secret secret rq u st refunds :
  authenticated_user authorization jwt_secret = inl u → request_invalid rq = false → check_signature secret rq = None →
  may_buy u rq st → printable u (s_uuids st (s_drawn st)) rq →
  opt_varchar 128 (rq_razorpay_order_id rq) = true → opt_varchar 128 (rq_razorpay_payment_id rq) = true →
  let r := request_payment authorization jwt_secret secret rq st in
  let pid := s_uuids st (s_drawn st) in
  ∃ amount,
    let payload := payment_payload pid u amount rq in
    let r' := process_message mock (json_print payload) (Processor r.2 refunds) in
    r.1 = inl (PaymentAccepted 202 (uuid_text pid) "pending") ∧
    oe_payload <$> last (d_outbox (s_db r.2)) = Some payload ∧
    r'.1 = AckMessage ∧
    (∃ o, d_orders (s_db (pp_site r'.2)) = d_orders (s_db st) ++ [o] ∧ od_user_id o = u ∧
       od_schedule_id o = rq_schedule_id rq ∧ od_seat_ids o = rq_seat_ids rq ∧ od_payment_request_id o = pid ∧
       od_status o = "completed"%string) ∧
    (∀ row, row ∈ d_seats (s_db (pp_site r'.2)) → ss_id row ∈ rq_seat_ids rq → ss_status row = Booked).
Proof.
  intros Hu Hinv Hsig Hmb Hpr Hlo Hlp r pid.
  destruct (request_ok authorization jwt_secret secret rq u st Hu Hinv Hsig Hmb) as (d & d' & Hd & Hsame & Heq).
  exists (total_text (map ss_price (requested_seats rq (s_db st)))). intros payload. subst r. rewrite Heq. cbn [fst snd].
  destruct (payload_fields pid u (total_text (map ss_price (requested_seats rq (s_db st)))) rq Hpr) as (Hj & Ht & Hk & Hl & Hcu & Hcs).
  fold payload in Hj, Ht, Hk, Hl, Hcu, Hcs. fold pid. split; [done|].
  destruct Hmb as [Hf (d0 & Hd0 & _) Hkeys _ _ (Hku & Hks) [Hinj Hfresh]].
  split; [simpl; by rewrite last_snoc|].
  set (p := Processor _ refunds).
  assert (process_message mock (json_print payload) p = process_checkout payload p) as ->.
  { unfold process_message. rewrite Hj. fold (request_type payload). rewrite Ht. by rewrite bool_decide_eq_false_2. }
  assert (∀ i, (s_drawn st ≤ i)%nat → (s_uuids st i ∉ pr_id <$> d_payments (s_db st)) ∧
    (s_uuids st i ∉ od_payment_request_id <$> d_orders (s_db st)) ∧ (s_uuids st i ∉ od_id <$> d_orders (s_db st)) ∧
    (s_uuids st i ∉ ua_id <$> d_audits (s_db st)) ∧ (s_uuids st i ∉ oe_id <$> d_outbox (s_db st))) as Hnew.
  { intros i Hi. specialize (Hfresh i Hi). by rewrite !not_elem_of_app in Hfresh. }
  destruct (checkout_tx_ok (CheckoutCommit (s_uuids st (S (S (s_drawn st)))) pid (checkout_user payload) (checkout_schedule payload)
      (parse_seat_ids payload) (default "0"%string (as_str (jindex "amount" payload)))
      (default EmptyString (as_str (jindex "razorpay_order_id" payload))) (as_str (jindex "razorpay_payment_id" payload)))
      (s_uuids st (S (S (S (s_drawn st))))) (s_uuids st (S (S (S (S (s_drawn st)))))) (w_now (s_world st)) (s_db (pp_site p)))
    as (d2 & o & Htx & Ho & Hou & Hos & Hol & Hop & Host & Hrows); cbn [cc_order_id cc_payment_request_id cc_user_id cc_schedule_id cc_seat_ids] in *.
  - apply Hnew. lia.
  - apply Hnew. lia.
  - simpl. rewrite fmap_app. apply elem_of_app. right. by left.
  - by rewrite Hcu.
  - by rewrite Hcs.
  - apply Hnew. lia.
  - simpl. rewrite fmap_app. intros [Hin|Hin%list_elem_of_singleton]%elem_of_app; [by eapply (Hnew (S (S (S (S (s_drawn st))))) ltac:(lia))|].
    simpl in Hin. apply Hinj in Hin; lia.
  - change (jindex "razorpay_order_id" payload) with (optional_text (rq_razorpay_order_id rq)).
    destruct (rq_razorpay_order_id rq); [exact Hlo|done].
  - change (jindex "razorpay_payment_id" payload) with (optional_text (rq_razorpay_payment_id rq)).
    by destruct (rq_razorpay_payment_id rq).
  - destruct (checkout_ok payload pid p d2) as [Hack Hdb].
    + done.
    + done.
    + unfold ordered. simpl. by apply Hnew.
    + rewrite Hl. intros Hnil. unfold request_invalid in Hinv. by rewrite Hnil in Hinv.
    + rewrite Hl, Hcs, Hcu. intros t Hin. simpl. by eapply both_keys_same, Hkeys.
    + exact Htx.
    + split; [exact Hack|]. rewrite Hdb. split; [|by rewrite <-Hl].
      exists o. rewrite Hou, Hos, Hol, Hcu, Hcs, Hl. by split_and!.
Qed.
End faultless.

(** ** A concrete run *)

Definition shop_node (i : nat) : mem_redis := default mem_empty (w_nodes (s_world (pp_site open_shop)) !! i).
Definition shop_pool : nat := default 0%nat (pool_index 2 7 3).

Lemma some_default {A} (x : A) o : is_Some o → o = Some (default x o).
Proof. by intros [y ->]. Qed.

Lemma open_shop_may_buy : may_buy 1 (seat_request "k") (pp_site open_shop).
Proof.
  split.
  - vm_compute; reflexivity.
  - exists (shop_node 0). split; [unfold shop_node; apply some_default; apply (bool_decide_unpack _); vm_compute; exact I|]. intros t ->%list_elem_of_singleton. vm_compute. reflexivity.
  - intros t ->%list_elem_of_singleton. exists shop_pool, (shop_node shop_pool).
    split; [vm_compute; reflexivity|]. split; [unfold shop_node; apply some_default; apply (bool_decide_unpack _); vm_compute; exact I|].
    split; [vm_compute; reflexivity|]. apply (bool_decide_unpack _). vm_compute. exact I.
  - split; [apply (bool_decide_unpack _); vm_compute; exact I|]. split; vm_compute; reflexivity.
  - vm_compute; reflexivity.
  - split; [apply (bool_decide_unpack _); vm_compute; exact I|change (7 ∈ ({[7]} : gset Z)); set_solver].
  - split; [|intros i _; apply not_elem_of_nil]. intros i j _ Hij _. simpl in Hij. lia.
Qed.

(** No Razorpay order, no payment: the seat is booked. *)
Lemma accepted_request_is_booked_witness :
  rq_razorpay_order_id (seat_request "k") = None ∧
  ∃ o, d_orders (s_db (pp_site (process_message true (json_print (payment_payload 1000 1 "100" (seat_request "k")))
         (Processor first_answer.2 [])).2)) = [o] ∧ od_seat_ids o = [3] ∧ od_user_id o = 1.
Proof.
  split; [reflexivity|].
  assert (Hu : authenticated_user (Some "Bearer mock_token") "secret" = inl 1) by (vm_compute; reflexivity).
  assert (Hi : request_invalid (seat_request "k") = false) by (vm_compute; reflexivity).
  assert (Hs : check_signature "secret" (seat_request "k") = None) by (vm_compute; reflexivity).
  assert (Hp : printable 1 (s_uuids (pp_site open_shop) (s_drawn (pp_site open_shop))) (seat_request "k"))
    by (split_and!; vm_compute; reflexivity).
  destruct (accepted_request_is_booked true (Some "Bearer mock_token") "secret" "secret" (seat_request "k") 1 (pp_site open_shop) []
    Hu Hi Hs open_shop_may_buy Hp eq_refl eq_refl) as (amount & _ & Hl & _ & (o & Ho & H1 & _ & H2 & _) & _).
  assert (He : oe_payload <$> last (d_outbox (s_db first_answer.2)) = Some (payment_payload 1000 1 "100" (seat_request "k")))
    by (vm_compute; reflexivity).
  assert (Ha : payment_payload 1000 1 amount (seat_request "k") = payment_payload 1000 1 "100" (seat_request "k")).
  { change (oe_payload <$> last (d_outbox (s_db first_answer.2)) = Some (payment_payload 1000 1 amount (seat_request "k"))) in Hl.
    rewrite Hl in He. by injection He as ->. }
  exists o. split; [|by split]. rewrite <-Ha. exact Ho.
Defined.
