(* ===== verification/NotifyConfig.v ===== *)
(** * NotifyConfig: the settings of the notification worker
    ([apps/notification-worker/src/email.rs], [apps/notification-worker/src/pdf.rs])

    [env] is the environment of the process.  The parser of URLs is a field of
    [UrlParser]. *)

From S2P Require Import Prelude Text.

#[local] Open Scope string_scope.
#[local] Open Scope list_scope.
#[local] Open Scope Z_scope.

Record url := Url {
  url_scheme : string; url_host : option string; url_username : string; url_password : option string;
  url_path : string; url_query : option string; url_fragment : option string
}.
Class UrlParser := { parse_url : string → option url }.

Abbreviation environment := (string → option string).

(** A quoted empty string counts as empty. *)
Definition quote2 : string := String (Ascii.ascii_of_nat 34) (String (Ascii.ascii_of_nat 34) EmptyString).
Definition apostrophe2 : string := "''".
Definition blank (v : string) : bool := is_empty (trim v) || bool_decide (v = quote2) || bool_decide (v = apostrophe2).
Definition value (env : environment) (key : string) : option string := v ← env key; if blank v then None else Some v.

(** ** SMTP *)

Record smtp_config := SmtpConfig {
  sm_host : string; sm_port : Z; sm_secure : bool; sm_user : string; sm_password : string; sm_from : string
}.

Definition parse_u16 (s : string) : option Z := x ← parse_Z s; if negb (starts_with "-" s) && (0 <=? x) && (x <? 2 ^ 16) then Some x else None.

Definition smtp_credentials (env : environment) : (string * string) + string :=
  match value env "SMTP_USER", value env "SMTP_PASS" with
  | Some user, Some pass => inl (user, pass)
  | None, None =>
      match value env "GMAIL_USER" with
      | None => inr "SMTP_USER or GMAIL_USER is required"
      | Some user =>
          match value env "GMAIL_APP_PASSWORD" with
          | None => inr "SMTP_PASS or GMAIL_APP_PASSWORD is required"
          | Some pass => inl (user, pass)
          end
      end
  | _, _ => inr "SMTP_USER and SMTP_PASS must be configured together"
  end.

Definition smtp_from_lookup (env : environment) : smtp_config + string :=
  match smtp_credentials env with
  | inr e => inr e
  | inl (user, password) =>
      let host := default "smtp.gmail.com" (value env "SMTP_HOST") in
      match parse_u16 (default "465" (value env "SMTP_PORT")) with
      | None => inr "SMTP_PORT must be a valid port"
      | Some port =>
          if port =? 0 then inr "SMTP_PORT must be nonzero"
          else
            match (match value env "SMTP_SECURE" with
                   | None => Some (port =? 465)
                   | Some s => if decide (s = "true") then Some true else if decide (s = "false") then Some false else None
                   end) with
            | None => inr "SMTP_SECURE must be true or false"
            | Some secure =>
                if (port =? 465) && negb secure then inr "SMTP port 465 requires SMTP_SECURE=true"
                else if (port =? 587) && secure then inr "SMTP port 587 requires SMTP_SECURE=false (STARTTLS)"
                else inl (SmtpConfig host port secure user password (default user (value env "SMTP_FROM")))
            end
      end
  end.

(** ** Object storage *)

Definition required (env : environment) (name : string) : option string := value env name.

Definition hex_digit (a : Ascii.ascii) : bool :=
  let n := Ascii.N_of_ascii a in
  ((48 <=? n) && (n <=? 57) || (65 <=? n) && (n <=? 70) || (97 <=? n) && (n <=? 102))%N.
(** [is_ascii_whitespace]. *)
Definition ascii_space (a : Ascii.ascii) : bool :=
  let n := Ascii.N_of_ascii a in ((n =? 32) || (n =? 9) || (n =? 10) || (n =? 12) || (n =? 13))%N.
Definition bytes (s : string) : list Ascii.ascii := String.list_ascii_of_string s.

Definition resolve_endpoint (account_id : string) (configured : option string) : option string :=
  let expected := "https://" +:+ account_id +:+ ".r2.cloudflarestorage.com" in
  match trim <$> configured with
  | None => Some expected
  | Some v =>
      if is_empty v || bool_decide (v = quote2) || bool_decide (v = apostrophe2) then Some expected
      else if bool_decide (trim_end_slashes v = expected) then Some expected
      else None
  end.

(** [build_r2_client]: the endpoint of the client. *)
Definition build_r2_client (env : environment) : option string :=
  account_id ← required env "CLOUDFLARE_R2_ACCOUNT_ID";
  if negb ((String.length account_id =? 32)%nat && forallb hex_digit (bytes account_id)) then None
  else
    access_key_id ← required env "CLOUDFLARE_R2_ACCESS_KEY_ID";
    if negb (String.length access_key_id =? 32)%nat || existsb ascii_space (bytes access_key_id) then None
    else
      endpoint ← resolve_endpoint account_id (env "CLOUDFLARE_R2_ENDPOINT");
      _ ← required env "CLOUDFLARE_R2_SECRET_ACCESS_KEY";
      Some endpoint.

Section urls.
Context {HU : UrlParser}.

Definition http_with_host (u : url) : bool :=
  bool_decide (url_scheme u ∈ ["http"; "https"]) && bool_decide (is_Some (url_host u)).

(** The bucket and the public URL. *)
Definition upload_settings (env : environment) : option (string * string) :=
  bucket ← required env "CLOUDFLARE_R2_BUCKET";
  public_url ← required env "NEXT_PUBLIC_R2_PUBLIC_URL";
  u ← parse_url public_url;
  if http_with_host u && is_empty (url_username u) && bool_decide (url_password u = None) &&
     bool_decide (url_query u = None) && bool_decide (url_fragment u = None)
  then Some (bucket, public_url) else None.

(** [path().contains("/tickets/default")]. *)
Fixpoint contains (p s : string) : bool :=
  starts_with p s || match s with EmptyString => false | String _ s => contains p s end.

Definition valid_pdf_url (value : string) : bool :=
  match parse_url value with
  | Some u => http_with_host u && negb (contains "/tickets/default" (url_path u))
  | None => false
  end.
End urls.

(** ** Properties *)

(** What is accepted is consistent: credentials in full, a port from 1 to 65535, and
    implicit TLS exactly as the two standard ports ask. *)
Lemma smtp_config_sound env c : smtp_from_lookup env = inl c →
  0 < sm_port c < 2 ^ 16 ∧ (sm_port c = 465 → sm_secure c = true) ∧ (sm_port c = 587 → sm_secure c = false).
Proof.
  unfold smtp_from_lookup. destruct (smtp_credentials env) as [[user password]|]; [|done].
  destruct (parse_u16 _) as [port|] eqn:Hp; [|done]. unfold parse_u16 in Hp.
  destruct (parse_Z _) as [x|]; [|done]. simpl in Hp. destruct (_ && _) eqn:Hr; [|done]. injection Hp as ->.
  apply andb_true_iff in Hr as [[_ H1%Z.leb_le]%andb_true_iff H2%Z.ltb_lt].
  destruct (port =? 0) eqn:H0; [done|]. apply Z.eqb_neq in H0.
  destruct (match value env "SMTP_SECURE" with Some _ => _ | None => _ end) as [secure|]; [|done].
  destruct ((port =? 465) && negb secure) eqn:E1; [done|]. destruct ((port =? 587) && secure) eqn:E2; [done|].
  intros [= <-]. simpl. split; [lia|]. split; intros ->; simpl in *; by destruct secure.
Qed.
