(* ===== verification/Notifications.v ===== *)
(** * Notifications: the worker that makes tickets and mails
    ([apps/notification-worker/src/consumer.rs], [db.rs], [email.rs], [pdf.rs])

    [process_delivery] is the handling of one delivery of the notification queue; its
    result is the answer to the broker.  A use of the object storage or of the mail server
    draws a fault like a use of a database.  What was uploaded and mailed is kept, oldest
    first.  Rendering, PDF bytes, dates and floating-point texts are library code. *)

From S2P Require Import Prelude Text Redis SeatLock Db Payments NotifyConfig.

#[local] Open Scope string_scope.
#[local] Open Scope list_scope.
#[local] Open Scope Z_scope.

Class NotifyLibs := {
  show_time_text : Z → string;                  (* the start in IST, formatted *)
  f64_text : json → option string;              (* Value::as_f64 and to_string *)
  decimal_text : string → option string;        (* BigDecimal::from_str *)
  mailbox_ok : string → bool                    (* does an address parse *)
}.

Record pdf_request := TicketPdfRequest {
  pq_order_id : string; pq_show_name : string; pq_show_time : string; pq_place : string; pq_venue : string; pq_price : string;
  pq_seat_numbers : list string
}.
Inductive mail :=
  | BookingEmail (order_id venue show_time : string) (seats : list string) (seat_count : nat) (amount ticket_url support_email : string)
  | CancellationEmail (order_id : string) (seats : list string) (seat_count : nat) (refund_amount support_email : string).

Definition mail_subject (m : mail) : string :=
  match m with
  | BookingEmail order_id _ _ _ _ _ _ _ => "Your BookIt booking is confirmed — " +:+ order_id
  | CancellationEmail order_id _ _ _ _ => "BookIt cancellation confirmed — " +:+ order_id
  end.

Record notifier (D : Type) := Notifier {
  nf_site : site D;
  nf_uploads : list (string * pdf_request);     (* keys of the bucket *)
  nf_sent : list (string * mail)                (* recipients *)
}.
Arguments Notifier {D}. Arguments nf_site {D}. Arguments nf_uploads {D}. Arguments nf_sent {D}.

(** ** Statements *)

(** [INSERT INTO tickets]: the key, the unique order, the references, the length of the URL. *)
Definition insert_ticket (r : ticket_row) (d : db) : option db :=
  if existsb (λ k, (tk_id k =? tk_id r) || (tk_order_id k =? tk_order_id r)) (d_tickets d)
     || negb (existsb (λ o, od_id o =? tk_order_id r) (d_orders d))
     || negb (bool_decide (tk_user_id r ∈ dom (d_users d))) || negb (bool_decide (tk_schedule_id r ∈ dom (d_schedules d)))
     || (512 <? Z.of_nat (String.length (tk_pdf_url r)))
  then None else Some (with_tickets (λ l, l ++ [r]) d).

Definition set_pdf_url (u : string) (r : ticket_row) : ticket_row :=
  TicketRow (tk_id r) (tk_order_id r) (tk_user_id r) (tk_schedule_id r) (tk_seat_ids r) u (tk_status r).

Definition ticket_of (order_id : Z) (d : db) : option ticket_row := head (filter (λ k, tk_order_id k = order_id) (d_tickets d)).
Definition mailed (order_id : Z) (d : db) : bool :=
  existsb (λ a, (ua_order_id a =? order_id) && bool_decide (ua_action a = "booking_email_sent")) (d_audits d).

(** [format!("{}{}", row_letter, seat_number)]. *)
Definition seat_label (r : seat_row) : string := sp_row_letter (ss_place r) +:+ show_Z (sp_seat_number (ss_place r)).
Definition labels_of (seat_ids : list Z) (d : db) : list string := map seat_label (filter (λ r, ss_id r ∈ seat_ids) (d_seats d)).

Definition get_user_email (u : Z) (d : db) : option string := u_email <$> d_users d !! u.
Definition fallback_email : string := "bookit985@gmail.com".

Section worker.
Context {D : Type} `{!RedisServer D} {HJ : JsonText} {HP : PaymentLibs} {HU : UrlParser} {HN : NotifyLibs}.
Variable env : environment.
Abbreviation N := (St (notifier D)).

Definition n_site {A} (m : St (site D) A) : N A := zoom nf_site (λ s n, Notifier s (nf_uploads n) (nf_sent n)) m.
Definition support_email : string := default "support@bookit4u.shop" (env "SUPPORT_EMAIL").

(** ** Object storage and mail *)

(** An external call: whether it had its effect, and whether the caller sees success. *)
Definition external (effect : notifier D → notifier D) : N bool :=
  fl ← n_site (redis_of draw);
  when (bool_decide (fl ≠ FDown)) (st_modify effect) ;;
  mret (bool_decide (fl = FOk)).

Definition generate_and_upload_ticket_pdf (request : pdf_request) : N (option string) :=
  match upload_settings env, build_r2_client env with
  | Some (_, public_url), Some _ =>
      now ← n_site (redis_of now_ms);
      let key := "tickets/" +:+ show_Z now +:+ "-ticket_" +:+ pq_order_id request +:+ ".pdf" in
      ok ← external (λ n, Notifier (nf_site n) (nf_uploads n ++ [(key, request)]) (nf_sent n));
      mret (if (ok : bool) then Some (trim_end_slashes public_url +:+ "/" +:+ key) else None)
  | _, _ => mret None
  end.

Definition send_rendered_email (recipient : string) (m : mail) : N bool :=
  if bool_decide (env "APP_MODE" = Some "test") then mret true
  else
    match smtp_from_lookup env with
    | inr _ => mret false
    | inl config =>
        if negb (mailbox_ok (sm_from config)) || negb (mailbox_ok recipient) then mret false
        else external (λ n, Notifier (nf_site n) (nf_uploads n) (nf_sent n ++ [(recipient, m)]))
    end.

(** ** The transaction *)

Definition ticket_details (pdf_url : string) (seat_ids : list Z) : json := JObj [("pdf_url", JStr pdf_url); ("seat_ids", seat_list seat_ids)].
Definition amount_column (amount : string) : string := default "0" (decimal_text amount).

Definition ticket_tx (existing : option ticket_row) (ticket_id audit_id order_id user_id schedule_id : Z) (seat_ids : list Z)
    (amount pdf_url : string) (d : db) : option db :=
  match existing with
  | Some ticket =>
      if existsb (λ k, tk_id k =? tk_id ticket) (d_tickets d) && (512 <? Z.of_nat (String.length pdf_url)) then None
      else Some (with_tickets (update_where (λ k, tk_id k =? tk_id ticket) (set_pdf_url pdf_url)) d)
  | None =>
      d ← insert_ticket (TicketRow ticket_id order_id user_id schedule_id seat_ids pdf_url "active") d;
      insert_audit (AuditRow audit_id user_id "ticket_created" order_id (amount_column amount) (ticket_details pdf_url seat_ids)) d
  end.

(** The two identifiers of a new ticket are drawn before its first statement. *)
Definition commit_ticket (existing : option ticket_row) (order_id user_id schedule_id : Z) (seat_ids : list Z) (amount pdf_url : string) :
    St (site D) bool :=
  ids ← (match existing with
         | Some _ => mret (0, 0)
         | None => ticket_id ← new_v4; audit_id ← new_v4; mret (ticket_id, audit_id)
         end);
  r ← db_run (λ d, d' ← ticket_tx existing ids.1 ids.2 order_id user_id schedule_id seat_ids amount pdf_url d; Some (tt, d'));
  mret (bool_decide (r = Some tt)).

(** ** The handlers *)

(** The amount of a payload as text. *)
Definition amount_text (payload : json) : string :=
  let amount := jindex "amount" payload in
  default "0" (match as_str amount with Some s => Some s | None => f64_text amount end).

Definition user_of (payload : json) : Z := i32 (default 0 (as_i64 (jindex "user_id" payload))).
Definition schedule_of (payload : json) : Z :=
  i32 (default 0 (match as_i64 (jindex "schedule_id" payload) with
                  | Some s => Some s
                  | None => as_i64 (jindex "showtime_id" payload)
                  end)).

Definition inactive (k : option ticket_row) : bool := match k with Some k => bool_decide (tk_status k ≠ "active") | None => false end.

(** The labels, over a second connection. *)
Definition seat_labels (seat_ids : list Z) : St (site D) (list string) :=
  conn ← db_get;
  if (conn : bool) then rows ← db_query (labels_of seat_ids); mret (default [] rows) else mret (map show_Z seat_ids).

(** From the ticket on: upload, transaction, mail and its audit. *)
Definition deliver_ticket (payload : json) (order_id : Z) (existing : option ticket_row) : N answer :=
  let user_id := user_of payload in
  let seat_ids := parse_seat_ids payload in
  let amount := amount_text payload in
  details ← n_site (db_query (λ d, d_schedules d !! schedule_of payload));
  let details := default None details in
  let venue_name := default "BookIt Venue" (details ≫= sc_venue_name) in
  let show_time := match details with Some s => show_time_text (sc_start_time s) | None => "See your ticket for schedule details" end in
  labels ← n_site (seat_labels seat_ids);
  let existing_pdf := k ← existing; if valid_pdf_url (tk_pdf_url k) then Some (tk_pdf_url k) else None in
  pdf_url ← (match existing_pdf with
             | Some u => mret (Some u)
             | None => generate_and_upload_ticket_pdf
                         (TicketPdfRequest (uuid_text order_id) "BookIt Show Ticket" show_time "Main Theater" venue_name amount labels)
             end);
  match pdf_url with
  | None => mret NackMessage
  | Some pdf_url =>
      ok ← n_site (commit_ticket existing order_id user_id (schedule_of payload) seat_ids amount pdf_url);
      if negb ok then mret NackMessage
      else
        email ← n_site (db_query (get_user_email user_id));
        sent ← send_rendered_email (default fallback_email (default None email))
                 (BookingEmail (uuid_text order_id) venue_name show_time labels (length labels) amount pdf_url support_email);
        if negb sent then mret NackMessage
        else
          audit_id ← n_site new_v4;
          audited ← n_site (db_run (λ d, d' ← insert_audit (AuditRow audit_id user_id "booking_email_sent" order_id (amount_column amount)
                                                  (JObj [("ticket_url", JStr pdf_url)])) d; Some (tt, d')));
          mret (if decide (audited = Some tt) then AckMessage else NackMessage)
  end.

Definition order_completed (payload : json) : N answer :=
  match uuid_parse (default EmptyString (as_str (jindex "order_id" payload))) with
  | None => mret AckMessage
  | Some order_id =>
      conn ← n_site db_get;
      if negb conn then mret NackMessage
      else
        existing_ticket ← n_site (db_query (ticket_of order_id));
        match existing_ticket with
        | None => mret NackMessage
        | Some existing_ticket =>
            email_sent ← n_site (db_query (mailed order_id));
            match email_sent with
            | None => mret NackMessage
            | Some true => mret AckMessage
            | Some false =>
                if inactive existing_ticket then mret AckMessage
                else deliver_ticket payload order_id existing_ticket
            end
        end
  end.

Definition ticket_cancelled (payload : json) : N answer :=
  let order_id := default EmptyString (as_str (jindex "order_id" payload)) in
  let seat_ids := parse_seat_ids payload in
  conn ← n_site db_get;
  if negb conn then mret NackMessage
  else
    email ← n_site (db_query (get_user_email (user_of payload)));
    labels ← n_site (db_query (labels_of seat_ids));
    let labels := default [] labels in
    let seats := match labels with [] => map show_Z seat_ids | _ => labels end in
    sent ← send_rendered_email (default fallback_email (default None email))
             (CancellationEmail order_id seats (length seats) (amount_text payload) support_email);
    mret (if (sent : bool) then AckMessage else NackMessage).

Definition process_delivery (data : string) : N answer :=
  match json_parse data with
  | None => mret NackMessage
  | Some payload =>
      let event_type := default EmptyString (as_str (jindex "event_type" payload)) in
      if decide (event_type = "OrderCompleted" ∨ event_type = "BookingSuccess") then order_completed payload
      else if decide (event_type = "TicketCancelled") then ticket_cancelled payload
      else mret AckMessage
  end.
End worker.
