(* ===== verification/NotifyProps.v ===== *)
(** * NotifyProps: what an acknowledged confirmation leaves, and a confirmation that comes late *)

From S2P Require Import Prelude Text Redis RedisMem SeatLock Db Payments PaymentsProps NotifyConfig Notifications.

#[local] Open Scope string_scope.
#[local] Open Scope list_scope.
#[local] Open Scope Z_scope.

Section answers.
Context {D : Type} `{!RedisServer D} {HJ : JsonText} {HP : PaymentLibs} {HU : UrlParser} {HN : NotifyLibs}.
Variable env : environment.
Implicit Types (n : notifier D).

Definition event_type_of (j : json) : string := default EmptyString (as_str (jindex "event_type" j)).
Definition order_of (j : json) : option Z := uuid_parse (default EmptyString (as_str (jindex "order_id" j))).
Definition is_confirmation (j : json) : Prop := event_type_of j = "OrderCompleted" ∨ event_type_of j = "BookingSuccess".

Definition nf_db n : db := s_db (nf_site n).
Definition on_ndb (P : db → Prop) n : Prop := P (nf_db n).
Definition quiet_network n : Prop := w_faults (s_world (nf_site n)) = [].

(** Nothing is left to do for the order. *)
Definition settled (k : Z) (d : db) : Prop := mailed k d = true ∨ inactive (ticket_of k d) = true.

(** ** Rules *)

Lemma keeps_n_site {A} (P : db → Prop) (m : St (site D) A) : keeps (on_db P) m → keeps (on_ndb P) (n_site m).
Proof. intros Hm n Hn. specialize (Hm (nf_site n) Hn). unfold n_site, zoom. by destruct (m (nf_site n)). Qed.

Lemma keeps_n_get P : keeps (on_ndb P) (n_site db_get).
Proof. apply keeps_n_site, keeps_db_get. Qed.
Lemma keeps_n_query {A} P (q : db → A) : keeps (on_ndb P) (n_site (db_query q)).
Proof. apply keeps_n_site, keeps_db_query. Qed.
Lemma keeps_n_redis {A} P (m : St (world D) A) : keeps (on_ndb P) (n_site (redis_of m)).
Proof. apply keeps_n_site, keeps_redis_of. Qed.
Lemma keeps_n_v4 P : keeps (on_ndb P) (n_site new_v4).
Proof. apply keeps_n_site, keeps_new_v4. Qed.
Hint Resolve keeps_n_get keeps_n_query keeps_n_redis keeps_n_v4 : keeps.

Lemma keeps_labels P l : keeps (on_ndb P) (n_site (seat_labels l)).
Proof.
  apply keeps_n_site. unfold seat_labels. apply keeps_bind; [apply keeps_db_get|]. intros [].
  - apply keeps_bind; [apply keeps_db_query|intros ?; apply keeps_ret].
  - apply keeps_ret.
Qed.
Lemma keeps_external P f : (∀ n, nf_site (f n) = nf_site n) → keeps (on_ndb P) (external f).
Proof.
  intros Hf. unfold external. apply keeps_bind; [apply keeps_n_redis|]. intros fl.
  apply keeps_bind; [apply keeps_when; intros n Hn; unfold on_ndb, nf_db; simpl; by rewrite Hf|intros _; apply keeps_ret].
Qed.
Lemma keeps_upload P r : keeps (on_ndb P) (generate_and_upload_ticket_pdf env r).
Proof.
  unfold generate_and_upload_ticket_pdf. destruct (upload_settings env) as [[]|]; [|apply keeps_ret]. destruct (build_r2_client env); [|apply keeps_ret].
  apply keeps_bind; [apply keeps_n_redis|]. intros now. apply keeps_bind; [by apply keeps_external|intros ?; apply keeps_ret].
Qed.
Lemma keeps_mail P r m : keeps (on_ndb P) (send_rendered_email env r m).
Proof.
  unfold send_rendered_email. case_bool_decide; [apply keeps_ret|]. destruct (smtp_from_lookup env); [|apply keeps_ret].
  destruct (_ || _); [apply keeps_ret|]. by apply keeps_external.
Qed.
Hint Resolve keeps_labels keeps_upload keeps_mail : keeps.

(** A query answers from the database it leaves as it was. *)
Lemma hoare_n_query {A} (q : db → A) d :
  hoare (on_ndb (eq d)) (n_site (db_query q)) (λ r n, (r = None ∨ r = Some (q d)) ∧ on_ndb (eq d) n).
Proof.
  intros n Hn. unfold on_ndb, nf_db in *. unfold n_site, zoom, db_query, db_run.
  pose proof (keeps_redis_of (eq d) draw (nf_site n) Hn) as H. destruct (redis_of draw (nf_site n)) as [fl s1]. unfold on_db in H. simpl in H.
  destruct fl; simpl; rewrite <-?H; auto.
Qed.

Lemma hoare_n_facts {A B} (φ : A → Prop) (P : notifier D → Prop) (R : B → notifier D → Prop) (m : St (notifier D) A) (f : A → St (notifier D) B) :
  hoare P m (λ a n, φ a ∧ P n) → (∀ a, φ a → hoare P (f a) R) → hoare P (m ≫= f) R.
Proof. intros Hm Hf. eapply hoare_bind; [exact Hm|]. intros a. apply hoare_pure. intros Ha. by apply Hf. Qed.

Lemma mailed_audit k d r d' :
  insert_audit r d = Some d' → ua_order_id r = k → ua_action r = "booking_email_sent" → mailed k d' = true.
Proof.
  intros ->%insert_audit_some <- Ha. unfold mailed. simpl. rewrite existsb_app. apply orb_true_iff. right. simpl.
  by rewrite Z.eqb_refl, Ha.
Qed.

(** ** What an acknowledgement means *)

Lemma hoare_deliver_ack j k existing :
  hoare (λ _, True) (deliver_ticket env j k existing) (λ a n, a = AckMessage → on_ndb (settled k) n).
Proof.
  unfold deliver_ticket. assert (∀ A (m : St (notifier D) A), hoare (λ _, True) m (λ _ _, True)) as Hany by by intros A m n _.
  eapply hoare_bind; [apply Hany|]. intros details. eapply hoare_bind; [apply Hany|]. intros labels.
  eapply hoare_bind; [apply Hany|]. intros [pdf_url|]; [|by intros n _].
  eapply hoare_bind; [apply Hany|]. intros [|]; [|by intros n _]. simpl.
  eapply hoare_bind; [apply Hany|]. intros email. eapply hoare_bind; [apply Hany|]. intros [|]; [|by intros n _]. simpl.
  eapply hoare_bind; [apply Hany|]. intros audit_id.
  eapply (hoare_bind _ (λ r n, r = Some tt → on_ndb (settled k) n)).
  - intros n _. unfold n_site, zoom, db_run. destruct (redis_of draw (nf_site n)) as [fl s1].
    destruct (insert_audit _ (s_db s1)) as [d'|] eqn:E; destruct fl; simpl; try done.
    intros _. unfold on_ndb, nf_db. simpl. left. by eapply mailed_audit.
  - intros r. apply hoare_ret. intros n Hn. destruct (decide (r = Some tt)) as [->|]; [intros _; by apply Hn|done].
Qed.

Lemma hoare_confirmation_ack j k : order_of j = Some k →
  hoare (λ _, True) (order_completed env j) (λ a n, a = AckMessage → on_ndb (settled k) n).
Proof.
  intros Hk. unfold order_completed. fold (order_of j). rewrite Hk.
  assert (∀ d, hoare (on_ndb (eq d)) (order_completed env j) (λ a n, a = AckMessage → on_ndb (settled k) n)) as H.
  - intros d. unfold order_completed. fold (order_of j). rewrite Hk.
    eapply hoare_bind; [apply (keeps_n_get (eq d))|]. intros [|]; [|by intros n _]. simpl.
    eapply hoare_n_facts; [apply hoare_n_query|]. intros r [->| ->]; [by intros n _|].
    eapply hoare_n_facts; [apply hoare_n_query|]. intros r [->| ->]; [by intros n _|].
    destruct (mailed k d) eqn:Hm; [intros n Hn _; unfold on_ndb in *; subst d; by left|].
    destruct (inactive (ticket_of k d)) eqn:Hi; [intros n Hn _; unfold on_ndb in *; subst d; by right|].
    intros n _. by apply hoare_deliver_ack.
  - intros n _. specialize (H (nf_db n) n eq_refl). unfold order_completed in H. fold (order_of j) in H. by rewrite Hk in H.
Qed.

Lemma n_get_ok n : quiet_network n → n_site db_get n = (true, n).
Proof. intros Hf. unfold n_site, zoom. rewrite db_get_ok by done. by destruct n. Qed.
Lemma n_query_ok {A} (q : db → A) n : quiet_network n → n_site (db_query q) n = (Some (q (nf_db n)), n).
Proof. intros Hf. unfold n_site, zoom. rewrite db_query_ok by done. by destruct n. Qed.

(** C10: a confirmation is acknowledged when the order has been mailed, and once.  Whatever
    fails on the way, after an acknowledged confirmation of an order its mail is recorded or
    its ticket is not active; and when nothing fails any more, its redelivery is
    acknowledged and changes nothing: no ticket, no upload, no mail. *)
Theorem acknowledged_confirmation_is_settled data j k n :
  json_parse data = Some j → is_confirmation j → order_of j = Some k → (process_delivery env data n).1 = AckMessage →
  let n' := (process_delivery env data n).2 in
  settled k (nf_db n') ∧ (quiet_network n' → process_delivery env data n' = (AckMessage, n')).
Proof.
  intros Hj Hc Hk Ha. assert (∀ n, process_delivery env data n = order_completed env j n) as Hp.
  { intros n1. unfold process_delivery. rewrite Hj. fold (event_type_of j). by rewrite decide_True. }
  rewrite !Hp in *. intros n'. pose proof (hoare_confirmation_ack j k Hk n I Ha) as Hs. fold n' in Hs. split; [exact Hs|].
  intros Hf. rewrite Hp. unfold order_completed. fold (order_of j). rewrite Hk.
  rewrite (bind_step _ _ _ _ _ (n_get_ok n' Hf)). cbn [negb]. rewrite (bind_step _ _ _ _ _ (n_query_ok _ n' Hf)).
  rewrite (bind_step _ _ _ _ _ (n_query_ok _ n' Hf)). unfold on_ndb, settled in Hs.
  destruct (mailed k (nf_db n')); [done|]. destruct Hs as [Hs|Hs]; [done|]. by rewrite Hs.
Qed.
(** ** A confirmation that comes after the cancellation *)

Lemma n_redis_ok {A} (m : St (world D) A) (a : A) n : m (s_world (nf_site n)) = (a, s_world (nf_site n)) → n_site (redis_of m) n = (a, n).
Proof. intros Hm. unfold n_site, redis_of, zoom. rewrite Hm. simpl. by destruct n as [[]]. Qed.
Lemma draw_ok n : quiet_network n → n_site (redis_of draw) n = (FOk, n).
Proof. intros Hf. apply n_redis_ok. unfold quiet_network in Hf. destruct (s_world (nf_site n)). simpl in *. by subst. Qed.
Lemma external_ok f n : quiet_network n → external f n = (true, f n).
Proof. intros Hf. unfold external. by rewrite (bind_step _ _ _ _ _ (draw_ok n Hf)). Qed.
Lemma labels_ok l n : quiet_network n → n_site (seat_labels l) n = (labels_of l (nf_db n), n).
Proof.
  intros Hf. unfold n_site, zoom, seat_labels. rewrite (bind_step _ _ _ _ _ (db_get_ok (nf_site n) Hf)).
  cbv iota. rewrite (bind_step _ _ _ _ _ (db_query_ok (labels_of l) (nf_site n) Hf)). by destruct n.
Qed.

Definition ticket_url (public_url : string) (k now : Z) : string :=
  trim_end_slashes public_url +:+ "/" +:+ ("tickets/" +:+ show_Z now +:+ "-ticket_" +:+ uuid_text k +:+ ".pdf").

Lemma upload_ok r k bucket public_url endpoint n : quiet_network n → pq_order_id r = uuid_text k →
  upload_settings env = Some (bucket, public_url) → build_r2_client env = Some endpoint →
  ∃ n1, generate_and_upload_ticket_pdf env r n = (Some (ticket_url public_url k (w_now (s_world (nf_site n)))), n1) ∧ nf_site n1 = nf_site n.
Proof.
  intros Hf Hr Hu Hb. unfold generate_and_upload_ticket_pdf. rewrite Hu, Hb, Hr.
  rewrite (bind_step _ _ _ _ _ (n_redis_ok now_ms (w_now (s_world (nf_site n))) n ltac:(by destruct (s_world (nf_site n))))).
  rewrite (bind_step _ _ _ _ _ (external_ok _ n Hf)). by eexists.
Qed.

(** The ticket of an order stays what it is while orders keep theirs. *)
Definition revived (k : Z) (t : ticket_row) (orders : list order_row) (d : db) : Prop := ticket_of k d = Some t ∧ d_orders d = orders.

Lemma revived_audit k t l r d d' : insert_audit r d = Some d' → revived k t l d → revived k t l d'.
Proof. by intros ->%insert_audit_some [??]. Qed.

Lemma ticket_of_app k t l d : tk_order_id t = k → ticket_of k d = None → head (filter (λ r, tk_order_id r = k) (d_tickets d ++ t :: l)) = Some t.
Proof.
  intros Ht Hn. rewrite filter_app. unfold ticket_of in Hn. destruct (filter _ (d_tickets d)); [|done].
  simpl. by rewrite filter_cons_True.
Qed.

Lemma ticket_none k d : ticket_of k d = None → Forall (λ r, tk_order_id r ≠ k) (d_tickets d).
Proof.
  unfold ticket_of. intros Hn. apply Forall_forall. intros r Hr Hk.
  assert (r ∈ filter (λ r, tk_order_id r = k) (d_tickets d)) as H by by apply list_elem_of_filter.
  destruct (filter _ _); [by apply elem_of_nil in H|done].
Qed.

Lemma insert_ticket_fresh t d :
  ticket_of (tk_order_id t) d = None → tk_id t ∉ map tk_id (d_tickets d) → tk_order_id t ∈ map od_id (d_orders d) →
  tk_user_id t ∈ dom (d_users d) → tk_schedule_id t ∈ dom (d_schedules d) → Z.of_nat (String.length (tk_pdf_url t)) ≤ 512 →
  insert_ticket t d = Some (with_tickets (λ l, l ++ [t]) d).
Proof.
  intros Hn%ticket_none Hid Ho Hu Hs Hl. unfold insert_ticket. rewrite existsb_none.
  2:{ rewrite Forall_forall in Hn. intros r Hr. apply orb_false_iff. rewrite !Z.eqb_neq. split; [|by apply Hn].
      intros E. apply Hid. rewrite <-E. apply list_elem_of_fmap. by exists r. }
  rewrite !bool_decide_true by done. rewrite (proj2 (Z.ltb_ge _ _)) by done.
  apply list_elem_of_fmap in Ho as (o & Ho & Hin). rewrite (proj2 (existsb_exists _ _)); [done|].
  exists o. split; [by apply list_elem_of_In|]. apply Z.eqb_eq. by rewrite Ho.
Qed.

Lemma insert_audit_fresh r d :
  ua_id r ∉ map ua_id (d_audits d) → ua_order_id r ∈ map od_id (d_orders d) → ua_user_id r ∈ dom (d_users d) →
  insert_audit r d = Some (with_audits (λ l, l ++ [r]) d).
Proof.
  intros Hid Ho Hu. unfold insert_audit. rewrite existsb_none.
  2:{ intros x Hx. apply Z.eqb_neq. intros E. apply Hid. rewrite <-E. apply list_elem_of_fmap. by exists x. }
  rewrite bool_decide_true by done.
  apply list_elem_of_fmap in Ho as (o & Ho & Hin). rewrite (proj2 (existsb_exists _ _)); [done|].
  exists o. split; [by apply list_elem_of_In|]. apply Z.eqb_eq. by rewrite Ho.
Qed.

Lemma commit_ticket_fresh k u s l amount pdf_url (st : site D) d : w_faults (s_world st) = [] → s_db st = d →
  ticket_of k d = None → s_uuids st (s_drawn st) ∉ map tk_id (d_tickets d) → s_uuids st (S (s_drawn st)) ∉ map ua_id (d_audits d) →
  k ∈ map od_id (d_orders d) → u ∈ dom (d_users d) → s ∈ dom (d_schedules d) → Z.of_nat (String.length pdf_url) ≤ 512 →
  ∃ t st', commit_ticket None k u s l amount pdf_url st = (true, st') ∧ revived k t (d_orders d) (s_db st') ∧ tk_status t = "active".
Proof.
  intros Hf <- Hn Ht Ha Ho Hu Hs Hl. unfold commit_ticket, new_v4, mbind, St_bind, mret, St_ret. cbn [fst snd s_db s_uuids s_drawn].
  rewrite db_run_ok by done. cbn [s_db ticket_tx]. rewrite insert_ticket_fresh by done. simpl. rewrite insert_audit_fresh by done. simpl.
  eexists _, _. split; [reflexivity|]. split; [split; [by apply ticket_of_app|done]|done].
Qed.

Lemma deliver_keeps_ticket {A} k t l (m : St (notifier D) A) n : keeps (on_ndb (revived k t l)) m → revived k t l (nf_db n) → revived k t l (nf_db (m n).2).
Proof. intros Hm Hn. by apply Hm. Qed.

Lemma insert_audit_order r d d' : insert_audit r d = Some d' → ua_order_id r ∈ map od_id (d_orders d) ∧ ua_user_id r ∈ dom (d_users d).
Proof.
  unfold insert_audit. destruct (existsb _ (d_orders d)) eqn:E; [|by rewrite orb_true_r].
  case_bool_decide; [|by rewrite orb_true_r]. intros _. split; [|done].
  apply existsb_exists in E as (o & Ho%list_elem_of_In & E%Z.eqb_eq). apply list_elem_of_fmap. by exists o.
Qed.

(** What is left of an order without a ticket when it has been cancelled. *)
Lemma cancelled_order c a e now k d d' : cancellation_tx c a e now d = Some d' → ca_order_id c = k →
  ticket_of k d = None → mailed k d = false →
  ticket_of k d' = None ∧ mailed k d' = false ∧ k ∈ map od_id (d_orders d') ∧ ca_user_id c ∈ dom (d_users d') ∧
  d_schedules d' = d_schedules d ∧ Forall (λ o, od_id o = k → od_status o = "refunded") (d_orders d').
Proof.
  intros Htx <- Hn%ticket_none Hm. unfold cancellation_tx in Htx.
  destruct (insert_audit _ _) as [d1|] eqn:E; [|done]. pose proof (insert_audit_order _ _ _ E) as [Ho Hu].
  apply insert_audit_some in E as ->. simpl in Htx. apply insert_outbox_some in Htx as ->.
  cbn [d_users d_schedules d_orders d_tickets with_outbox with_audits with_tickets with_orders update_seats with_seats ua_user_id ua_order_id] in *.
  split; [|split; [|split; [done|split; [done|split; [done|]]]]].
  - unfold ticket_of. cbn. destruct (filter _ _) as [|r l] eqn:E; [done|].
    assert (r ∈ r :: l) as Hr by by left. rewrite <-E in Hr. apply list_elem_of_filter in Hr as [Hr (r0 & Hin & ->)%elem_of_update_where].
    rewrite Forall_forall in Hn. destruct (Hn r0 Hin). by destruct (tk_order_id r0 =? ca_order_id c).
  - unfold mailed. cbn. rewrite existsb_app. cbn. fold (mailed (ca_order_id c) d). by rewrite Hm, Z.eqb_refl.
  - apply Forall_forall. intros o (o0 & _ & ->)%elem_of_update_where. by destruct (od_id o0 =? ca_order_id c) eqn:E; [|apply Z.eqb_neq in E].
Qed.

(** Nobody looks at the order.  When a confirmation is handled after the cancellation of its
    order (each has its own event in the outbox, and the two may overtake one another), the worker
    finds no ticket to be inactive and makes an active one for the refunded order. *)
Theorem late_confirmation_revives_cancelled_order data j k n c a e now d bucket public_url endpoint :
  json_parse data = Some j → is_confirmation j → order_of j = Some k → quiet_network n →
  cancellation_tx c a e now d = Some (nf_db n) → ca_order_id c = k → user_of j = ca_user_id c →
  ticket_of k d = None → mailed k d = false → schedule_of j ∈ dom (d_schedules d) →
  upload_settings env = Some (bucket, public_url) → build_r2_client env = Some endpoint →
  Z.of_nat (String.length (ticket_url public_url k (w_now (s_world (nf_site n))))) ≤ 512 →
  s_uuids (nf_site n) (s_drawn (nf_site n)) ∉ map tk_id (d_tickets (nf_db n)) →
  s_uuids (nf_site n) (S (s_drawn (nf_site n))) ∉ map ua_id (d_audits (nf_db n)) →
  let d' := nf_db (process_delivery env data n).2 in
  (∃ t, ticket_of k d' = Some t ∧ tk_status t = "active") ∧ Forall (λ o, od_id o = k → od_status o = "refunded") (d_orders d').
Proof.
  intros Hj Hc Hk Hf Htx Hca Hu Hn Hm Hs Hset Hr2 Hlen Hft Hfa d'.
  destruct (cancelled_order c a e now k d _ Htx Hca Hn Hm) as (Hn' & Hm' & Ho & Hcu & Hsd & Hall). rewrite <-Hu in Hcu. rewrite <-Hsd in Hs.
  assert (∃ t, revived k t (d_orders (nf_db n)) d' ∧ tk_status t = "active") as (t & [Ht Hd] & Hact); [|rewrite Hd; eauto].
  unfold d'. clear d'. unfold process_delivery. rewrite Hj. fold (event_type_of j). rewrite decide_True by done.
  unfold order_completed. fold (order_of j). rewrite Hk.
  rewrite (bind_step _ _ _ _ _ (n_get_ok n Hf)). cbn [negb]. rewrite (bind_step _ _ _ _ _ (n_query_ok _ n Hf)).
  rewrite (bind_step _ _ _ _ _ (n_query_ok _ n Hf)). rewrite Hm', Hn'. cbn [inactive].
  unfold deliver_ticket. rewrite (bind_step _ _ _ _ _ (n_query_ok _ n Hf)). rewrite (bind_step _ _ _ _ _ (labels_ok _ n Hf)).
  cbn [mbind option_bind].
  match goal with |- context [generate_and_upload_ticket_pdf env ?r] => destruct (upload_ok r k _ _ _ n Hf eq_refl Hset Hr2) as (n1 & Hup & Hn1) end.
  rewrite (bind_step _ _ _ _ _ Hup). cbv iota beta.
  set (u := ticket_url _ _ _). cbv iota beta.
  destruct (commit_ticket_fresh k (user_of j) (schedule_of j) (parse_seat_ids j) (amount_text j) u (nf_site n) (nf_db n))
    as (t & st' & Hcm & Hrev & Hact); try done.
  assert (n_site (commit_ticket None k (user_of j) (schedule_of j) (parse_seat_ids j) (amount_text j) u) n1
    = (true, Notifier st' (nf_uploads n1) (nf_sent n1))) as Hcm1 by (unfold n_site, zoom; by rewrite Hn1, Hcm).
  rewrite (bind_step _ _ _ _ _ Hcm1). cbn [negb]. exists t. split; [|done].
  apply deliver_keeps_ticket; [|done]. apply keeps_bind; [apply keeps_n_query|]. intros email.
  apply keeps_bind; [apply keeps_mail|]. intros [|]; [|apply keeps_ret]. cbn [negb].
  apply keeps_bind; [apply keeps_n_v4|]. intros audit_id. apply keeps_bind; [|intros ?; apply keeps_ret].
  apply keeps_n_site, keeps_db_run. intros d0 x d1 H0. destruct (insert_audit _ d0) as [d2|] eqn:E; [|done].
  intros [= _ <-]. by eapply revived_audit.
Qed.
End answers.

(** ** A concrete worker *)

Fixpoint split_host (s : string) : string * string :=
  match s with
  | EmptyString => (EmptyString, "/")
  | String a s' => if Ascii.eqb a (Ascii.ascii_of_nat 47) then (EmptyString, s) else let '(h, p) := split_host s' in (String a h, p)
  end.
#[export] Instance plain_urls : UrlParser := {
  parse_url s :=
    if starts_with "https://" s then
      let '(host, path) := split_host (String.substring 8 (String.length s) s) in Some (Url "https" (Some host) "" None path None None)
    else None
}.
#[export] Instance plain_notify : NotifyLibs := {
  show_time_text := show_Z; f64_text v := show_Z <$> as_i64 v; decimal_text := Some; mailbox_ok a := contains "@" a
}.

Definition notify_env : environment := λ key,
  if decide (key = "CLOUDFLARE_R2_BUCKET") then Some "tickets"
  else if decide (key = "NEXT_PUBLIC_R2_PUBLIC_URL") then Some "https://cdn.bookit.in"
  else if decide (key = "CLOUDFLARE_R2_ACCOUNT_ID") then Some "0123456789abcdef0123456789abcdef"
  else if decide (key = "CLOUDFLARE_R2_ACCESS_KEY_ID") then Some "0123456789ABCDEF0123456789ABCDEF"
  else if decide (key = "CLOUDFLARE_R2_SECRET_ACCESS_KEY") then Some "secret"
  else if decide (key = "GMAIL_USER") then Some "bookit@mail.in"
  else if decide (key = "GMAIL_APP_PASSWORD") then Some "password"
  else None.

(** Order 60 of user 1, paid and without its ticket. *)
Definition paid_db : db := with_orders (λ _, [OrderRow 60 50 1 7 [3] "200" "order_9" (Some "pay_9") "completed"]) shop_db.
Definition refund_of_60 : cancellation_commit := CancellationCommit 60 1 7 [3] "200".
Definition cancelled_db : db := default paid_db (cancellation_tx refund_of_60 900 901 4000 paid_db).
Definition notifier_at (d : db) : notifier mem_redis := Notifier (Site d (mem_world 1 5000) (λ k, 1000 + Z.of_nat k) 0) [] [].
Definition confirmation_60 : json :=
  JObj [("event_type", JStr "OrderCompleted"); ("order_id", JStr "60"); ("user_id", JNum 1); ("schedule_id", JNum 7);
        ("seat_ids", seat_list [3]); ("amount", JStr "200")].

Definition message_60 : string := json_print (JsonText := mem_json) confirmation_60.

(** The worker makes the ticket and mails it; a second delivery does nothing. *)
Lemma acknowledged_confirmation_is_settled_witness :
  let n' := (process_delivery notify_env message_60 (notifier_at paid_db)).2 in
  settled 60 (nf_db n') ∧ process_delivery notify_env message_60 n' = (AckMessage, n').
Proof.
  pose proof (acknowledged_confirmation_is_settled (HJ := mem_json) notify_env message_60 confirmation_60 60 (notifier_at paid_db)
    ltac:(vm_compute; reflexivity) ltac:(left; vm_compute; reflexivity) ltac:(vm_compute; reflexivity) ltac:(vm_compute; reflexivity)) as [H1 H2].
  split; [exact H1|]. apply H2. vm_compute. reflexivity.
Defined.

Lemma late_confirmation_revives_cancelled_order_witness :
  ∃ t, ticket_of 60 (nf_db (process_delivery notify_env message_60 (notifier_at cancelled_db)).2) = Some t ∧ tk_status t = "active".
Proof.
  pose proof (late_confirmation_revives_cancelled_order (HJ := mem_json) notify_env message_60 confirmation_60 60 (notifier_at cancelled_db)
    refund_of_60 900 901 4000 paid_db "tickets" "https://cdn.bookit.in" "https://0123456789abcdef0123456789abcdef.r2.cloudflarestorage.com"
    ltac:(vm_compute; reflexivity) ltac:(left; vm_compute; reflexivity) ltac:(vm_compute; reflexivity) ltac:(vm_compute; reflexivity)
    ltac:(vm_compute; reflexivity) eq_refl ltac:(vm_compute; reflexivity) ltac:(vm_compute; reflexivity) ltac:(vm_compute; reflexivity)
    ltac:(apply (bool_decide_unpack _); vm_compute; exact I) ltac:(vm_compute; reflexivity) ltac:(vm_compute; reflexivity)
    ltac:(vm_compute; discriminate)
    ltac:(apply (bool_decide_unpack _); vm_compute; exact I) ltac:(apply (bool_decide_unpack _); vm_compute; exact I)) as [H _].
  exact H.
Defined.
