(* ===== verification/Outbox.v ===== *)
(** * Outbox: the publisher of the outbox
    ([apps/outbox-server/src/lib.rs], [store.rs], [publisher.rs], [routing.rs])

    Several instances of [run] work on one table.  Each claim, publication and mark is
    one atomic step ([worker_step]); a schedule interleaves the steps of the instances
    with the passing of time and with new events.  The broker is the list of messages it
    has accepted.  Its outcome is a fault of the network: confirmed, lost, or accepted
    with the confirmation lost; a negative or unroutable answer is a loss. *)

From S2P Require Import Prelude Text Keys Redis Events Db.

Definition MAX_ATTEMPTS : Z := 10.

Definition retry_delay_seconds (attempts : Z) : Z := Z.min (2 ^ (Z.max 1 (Z.min attempts 8))) 300.

Definition should_dead_letter (attempts : Z) (permanent_failure : bool) : bool :=
  permanent_failure && (MAX_ATTEMPTS <=? attempts).

(** [str::parse::<u64>]: digits with an optional plus sign, below [2^64]. *)
Definition parse_u64 (s : string) : option Z :=
  z ← parse_Z s;
  if bool_decide (starts_with "-" s = false) && (0 <=? z) && (z <? 2 ^ 64) then Some z else None.

Definition parse_payment_message_ttl (value : option string) : Z :=
  match value ≫= parse_u64 with
  | Some v => if 1000 <=? v then v else 300000
  | None => 300000
  end.

(** ** Routing *)

Record route := Route { exchange : string; routing_key : string }.

Definition route_for (event_type : string) : option route :=
  if bool_decide (event_type ∈ ["payment.requested"; "payment.cancellation_requested"])
  then Some (Route "" "payment_processing")
  else if bool_decide (event_type ∈ ["OrderCompleted"; "TicketCancelled"])
  then Some (Route "booking_events_exchange" "")
  else None.

(** ** The store *)

Record claimed_event := ClaimedEvent {
  ce_id : Z; ce_aggregate_id : Z; ce_event_type : string; ce_payload : json; ce_attempts : Z
}.

Definition with_row (id : Z) (f : outbox_row → outbox_row) : db → db :=
  with_outbox (update_where (λ r, oe_id r =? id) f).

(** The rows a claim considers, and the first by creation. *)
Definition eligible (now : Z) (r : outbox_row) : bool :=
  bool_decide (oe_published_at r = None) && bool_decide (oe_dead_lettered_at r = None)
  && (oe_next_attempt_at r <=? now)
  && match oe_processing_at r with None => true | Some t => t <? now - 300000 end.

Fixpoint oldest (l : list outbox_row) : option outbox_row :=
  match l with
  | [] => None
  | r :: l =>
      match oldest l with
      | Some r' => if oe_created_at r' <? oe_created_at r then Some r' else Some r
      | None => Some r
      end
  end.

Definition claim (now : Z) (r : outbox_row) : outbox_row :=
  OutboxRow (oe_id r) (oe_aggregate_id r) (oe_event_type r) (oe_payload r) (oe_created_at r) (oe_published_at r)
    (oe_attempts r + 1) (Some now) (oe_next_attempt_at r) (oe_last_error r) (oe_dead_lettered_at r).

(** The statement fails when [attempts + 1] leaves INTEGER. *)
Definition claim_next (now : Z) (d : db) : option (option claimed_event * db) :=
  match oldest (filter (λ r, eligible now r = true) (d_outbox d)) with
  | None => Some (None, d)
  | Some r =>
      if in_i32 (oe_attempts r + 1) then
        Some (Some (ClaimedEvent (oe_id r) (oe_aggregate_id r) (oe_event_type r) (oe_payload r) (oe_attempts r + 1)),
              with_row (oe_id r) (claim now) d)
      else None
  end.

Definition mark_published (now : Z) (e : claimed_event) (d : db) : db :=
  let d := with_row (ce_id e) (λ r, OutboxRow (oe_id r) (oe_aggregate_id r) (oe_event_type r) (oe_payload r) (oe_created_at r)
             (Some now) (oe_attempts r) None (oe_next_attempt_at r) None (oe_dead_lettered_at r)) d in
  if bool_decide (ce_event_type e = "payment.requested"%string) then
    with_payments (update_where (λ p, (pr_id p =? ce_aggregate_id e) && bool_decide (pr_status p = PsPending))
      (λ p, set_payment PsProcessing (pr_failure_reason p) p)) d
  else d.

Definition mark_failed (now : Z) (e : claimed_event) (message : string) (permanent_failure : bool) (d : db) : db :=
  if should_dead_letter (ce_attempts e) permanent_failure then
    let d := with_row (ce_id e) (λ r, OutboxRow (oe_id r) (oe_aggregate_id r) (oe_event_type r) (oe_payload r) (oe_created_at r)
               (oe_published_at r) (oe_attempts r) None (oe_next_attempt_at r) (Some message) (Some now)) d in
    if bool_decide (ce_event_type e = "payment.requested"%string) then
      with_payments (update_where (λ p, (pr_id p =? ce_aggregate_id e) && bool_decide (pr_status p ≠ PsSucceeded))
        (set_payment PsFailed (Some message))) d
    else d
  else
    let delay := retry_delay_seconds (ce_attempts e) in
    with_row (ce_id e) (λ r, OutboxRow (oe_id r) (oe_aggregate_id r) (oe_event_type r) (oe_payload r) (oe_created_at r)
      (oe_published_at r) (oe_attempts r) None (now + delay * 1000) (Some message) (oe_dead_lettered_at r)) d.

(** ** Publication *)

(** A message of the broker: where it went, its id and type, its body, its expiration. *)
Record amqp_message := AmqpMessage {
  am_route : route; am_message_id : Z; am_type : string; am_body : json; am_expiration : option Z; am_mandatory : bool
}.

(** [serde_json::Map::insert]. *)
Definition jset (k : string) (v : json) (l : list (string * json)) : list (string * json) :=
  if existsb (λ kv, bool_decide (kv.1 = k)) l
  then map (λ kv, if bool_decide (kv.1 = k) then (k, v) else kv) l
  else l ++ [(k, v)].

(** [ttl] is PAYMENT_MESSAGE_TTL_MS of the environment. *)
Definition message_of (ttl : option string) (r : route) (e : claimed_event) : amqp_message :=
  let is_fanout := bool_decide (exchange r = "booking_events_exchange"%string) in
  let body :=
    if is_fanout then
      match ce_payload e with
      | JObj l => JObj (jset "event_type" (JStr (ce_event_type e)) l)
      | j => j
      end
    else ce_payload e in
  let expiration :=
    if bool_decide (routing_key r = "payment_processing"%string) then Some (parse_payment_message_ttl ttl) else None in
  AmqpMessage r (ce_id e) (ce_event_type e) body expiration (negb is_fanout).

(** ** The instances *)

(** Where an instance stands: between two rounds, with a claimed event, with one it has
    published, with one whose publication failed for good or not, or gone: a database
    error ended it, or the publication of an event, after the mark. *)
Inductive worker :=
  | WIdle
  | WClaimed (e : claimed_event)
  | WPublished (e : claimed_event)
  | WFailed (e : claimed_event) (message : string) (permanent_failure : bool)
  | WStopped.

Record outbox_system := OutboxSystem { o_db : db; o_now : Z; o_broker : list amqp_message; o_workers : list worker }.

Section instances.
Variable ttl : option string.
(** The text of a broker's error. *)
Variable broker_error : string.

(** One step of an instance: its database, the clock, and the network's answer to the
    step. *)
Definition worker_step (fl : fault) (now : Z) (w : worker) (d : db) (broker : list amqp_message) : worker * db * list amqp_message :=
  match w with
  | WIdle =>
      match fl, claim_next now d with
      | FDown, _ | _, None => (WStopped, d, broker)
      | FOk, Some (Some e, d) => (WClaimed e, d, broker)
      | FOk, Some (None, d) => (WIdle, d, broker)
      | FReplyLost, Some (_, d) => (WStopped, d, broker)
      end
  | WClaimed e =>
      match route_for (ce_event_type e) with
      | None => (WFailed e ("unsupported outbox event type " +:+ ce_event_type e)%string true, d, broker)
      | Some r =>
          match fl with
          | FOk => (WPublished e, d, broker ++ [message_of ttl r e])
          | FDown => (WFailed e broker_error false, d, broker)
          | FReplyLost => (WFailed e broker_error false, d, broker ++ [message_of ttl r e])
          end
      end
  | WPublished e =>
      match fl with
      | FOk => (WIdle, mark_published now e d, broker)
      | FDown => (WStopped, d, broker)
      | FReplyLost => (WStopped, mark_published now e d, broker)
      end
  | WFailed e message permanent_failure =>
      match fl with
      | FDown => (WStopped, d, broker)
      | _ => (WStopped, mark_failed now e message permanent_failure d, broker)
      end
  | WStopped => (WIdle, d, broker)                      (* main reconnects after five seconds *)
  end.

(** A new event comes from a transaction of another service. *)
Definition new_row (id aggregate_id : Z) (event_type : string) (payload : json) (now : Z) : outbox_row :=
  OutboxRow id aggregate_id event_type payload now None 0 None now None None.

Inductive outbox_op :=
  | OWorker (i : nat) (fl : fault)
  | OCrash (i : nat)
  | OTick (ms : N)
  | OInsert (id aggregate_id : Z) (event_type : string) (payload : json).

Definition outbox_step (o : outbox_op) (s : outbox_system) : outbox_system :=
  match o with
  | OWorker i fl =>
      match o_workers s !! i with
      | None => s
      | Some w =>
          let '(w, d, broker) := worker_step fl (o_now s) w (o_db s) (o_broker s) in
          OutboxSystem d (o_now s) broker (<[i := w]> (o_workers s))
      end
  | OCrash i => OutboxSystem (o_db s) (o_now s) (o_broker s) (<[i := WStopped]> (o_workers s))
  | OTick ms => OutboxSystem (o_db s) (o_now s + Z.of_N ms) (o_broker s) (o_workers s)
  | OInsert id aggregate_id event_type payload =>
      match insert_outbox (new_row id aggregate_id event_type payload (o_now s)) (o_db s) with
      | Some d => OutboxSystem d (o_now s) (o_broker s) (o_workers s)
      | None => s
      end
  end.

Definition outbox_run (os : list outbox_op) (s : outbox_system) : outbox_system :=
  fold_left (λ s o, outbox_step o s) os s.
End instances.
