(* ===== verification/OutboxProps.v ===== *)
(** * OutboxProps: nothing published is lost, nothing routable is given up *)

From Stdlib Require Import Sorted.
From S2P Require Import Prelude Text Keys Redis Events Db PaymentsProps HttpLedger Outbox.

(** ** Rows and the events taken from them *)

(** The row after some steps: the same event, more attempts. *)
Definition row_le (r r' : outbox_row) : Prop :=
  oe_id r' = oe_id r ∧ oe_aggregate_id r' = oe_aggregate_id r ∧ oe_event_type r' = oe_event_type r ∧
  oe_payload r' = oe_payload r ∧ oe_attempts r ≤ oe_attempts r'.

#[global] Instance row_le_preorder : PreOrder row_le.
Proof.
  split.
  - by intros r.
  - intros r1 r2 r3 (?&?&?&?&?) (?&?&?&?&?). split_and!; try congruence. lia.
Qed.

Definition event_of (r : outbox_row) : claimed_event :=
  ClaimedEvent (oe_id r) (oe_aggregate_id r) (oe_event_type r) (oe_payload r) (oe_attempts r).

(** The event was claimed from the row. *)
Definition taken_from (r : outbox_row) (e : claimed_event) : Prop :=
  ce_id e = oe_id r ∧ ce_aggregate_id e = oe_aggregate_id r ∧ ce_event_type e = oe_event_type r ∧
  ce_payload e = oe_payload r ∧ ce_attempts e ≤ oe_attempts r.

Lemma taken_le r r' e : row_le r r' → taken_from r e → taken_from r' e.
Proof. intros (?&?&?&?&?) (?&?&?&?&?). split_and!; try congruence. lia. Qed.

Lemma message_of_taken ttl rt r e : taken_from r e → message_of ttl rt e = message_of ttl rt (event_of r).
Proof. intros (H1 & _ & H3 & H4 & _). unfold message_of. simpl. by rewrite H1, H3, H4. Qed.

(** Two lists of rows: the second is the first after some steps. *)
Definition rows_le : list outbox_row → list outbox_row → Prop := Forall2 row_le.

Lemma rows_le_elem l l' r : rows_le l l' → r ∈ l → ∃ r', r' ∈ l' ∧ row_le r r'.
Proof.
  intros Hl (i & Hi)%list_elem_of_lookup. destruct (Forall2_lookup_l _ _ _ _ _ Hl Hi) as (r' & Hi' & Hr).
  exists r'. split; [|done]. by eapply list_elem_of_lookup_2.
Qed.

Lemma with_row_le id f d : (∀ r, row_le r (f r)) → rows_le (d_outbox d) (d_outbox (with_row id f d)).
Proof.
  intros Hf. unfold with_row, rows_le, update_where. simpl. apply Forall2_fmap_r. apply Forall_Forall2_diag.
  apply Forall_forall. intros r _. simpl. by destruct (oe_id r =? id).
Qed.

(** *** Steps on the table *)

Lemma NoDup_fmap_elem {A B} (f : A → B) l x y : NoDup (f <$> l) → x ∈ l → y ∈ l → f x = f y → x = y.
Proof.
  intros Hnd (i & Hi)%list_elem_of_lookup (j & Hj)%list_elem_of_lookup Hf.
  assert (i = j) as ->; [|congruence].
  eapply (NoDup_lookup (f <$> l)); [done| |]; rewrite list_lookup_fmap, ?Hi, ?Hj; simpl; [done|by rewrite Hf].
Qed.

Lemma oldest_elem l r : oldest l = Some r → r ∈ l.
Proof.
  revert r. induction l as [|a l IH]; simpl; [done|]. intros r. destruct (oldest l) as [b|].
  - destruct (_ <? _); intros [= <-]; [right; by apply IH|left].
  - intros [= <-]. left.
Qed.

Lemma claim_next_spec now d oe d' : claim_next now d = Some (oe, d') →
  (oe = None ∧ d' = d) ∨
  ∃ r, r ∈ d_outbox d ∧ eligible now r = true ∧ oe = Some (event_of (claim now r)) ∧ d' = with_row (oe_id r) (claim now) d.
Proof.
  unfold claim_next. destruct (oldest _) as [r|] eqn:E; [|intros [= <- <-]; by left].
  destruct (in_i32 _); [|done]. intros [= <- <-]. right. exists r.
  apply oldest_elem, list_elem_of_filter in E as [He Hr]. by split_and!.
Qed.

Lemma claim_le now r : row_le r (claim now r).
Proof. unfold claim. split_and!; simpl; try done. lia. Qed.

Lemma outbox_with_payments f d : d_outbox (with_payments f d) = d_outbox d.
Proof. done. Qed.

(** How the row of an event that is marked changes. *)
Definition published_row (now : Z) (r : outbox_row) : outbox_row :=
  OutboxRow (oe_id r) (oe_aggregate_id r) (oe_event_type r) (oe_payload r) (oe_created_at r)
    (Some now) (oe_attempts r) None (oe_next_attempt_at r) None (oe_dead_lettered_at r).
Definition dead_row (now : Z) (message : string) (r : outbox_row) : outbox_row :=
  OutboxRow (oe_id r) (oe_aggregate_id r) (oe_event_type r) (oe_payload r) (oe_created_at r)
    (oe_published_at r) (oe_attempts r) None (oe_next_attempt_at r) (Some message) (Some now).

Lemma mark_published_rows now e d :
  d_outbox (mark_published now e d) = update_where (λ r, oe_id r =? ce_id e) (published_row now) (d_outbox d).
Proof. unfold mark_published. by case_bool_decide. Qed.

Lemma mark_failed_rows now e message perm d :
  ∃ f, d_outbox (mark_failed now e message perm d) = update_where (λ r, oe_id r =? ce_id e) f (d_outbox d) ∧
    (∀ r, row_le r (f r) ∧ oe_published_at (f r) = oe_published_at r ∧ oe_attempts (f r) = oe_attempts r ∧
          (oe_dead_lettered_at (f r) = oe_dead_lettered_at r ∨ perm = true ∧ MAX_ATTEMPTS ≤ ce_attempts e)).
Proof.
  unfold mark_failed. destruct (should_dead_letter _ _) eqn:E.
  - exists (dead_row now message). split; [by case_bool_decide|]. intros r. split_and!; try done.
    right. unfold should_dead_letter in E. apply andb_true_iff in E as [-> E%Z.leb_le]. done.
  - eexists. split; [done|]. intros r. simpl. split_and!; try done. by left.
Qed.

(** ** The accounts *)

Section accounts.
Variable ttl : option string.
Variable broker_error : string.
Abbreviation outbox_step := (outbox_step ttl broker_error).
Abbreviation worker_step := (worker_step ttl broker_error).

(** A published row has been accepted by the broker; a dead row has no route and at
    least ten attempts. *)
Definition row_ok (broker : list amqp_message) (r : outbox_row) : Prop :=
  (oe_published_at r ≠ None → ∃ rt, route_for (oe_event_type r) = Some rt ∧ message_of ttl rt (event_of r) ∈ broker) ∧
  (oe_dead_lettered_at r ≠ None → route_for (oe_event_type r) = None ∧ MAX_ATTEMPTS ≤ oe_attempts r).

Definition worker_ok (rows : list outbox_row) (broker : list amqp_message) (w : worker) : Prop :=
  match w with
  | WIdle | WStopped => True
  | WClaimed e => ∃ r, r ∈ rows ∧ taken_from r e
  | WPublished e => ∃ r, r ∈ rows ∧ taken_from r e ∧
      ∃ rt, route_for (ce_event_type e) = Some rt ∧ message_of ttl rt e ∈ broker
  | WFailed e _ perm => ∃ r, r ∈ rows ∧ taken_from r e ∧ (perm = true → route_for (ce_event_type e) = None)
  end.

Definition message_ok (rows : list outbox_row) (m : amqp_message) : Prop :=
  ∃ r rt, r ∈ rows ∧ route_for (oe_event_type r) = Some rt ∧ m = message_of ttl rt (event_of r).

Record outbox_ok (s : outbox_system) : Prop := {
  ids_distinct : NoDup (oe_id <$> d_outbox (o_db s));
  rows_ok : Forall (row_ok (o_broker s)) (d_outbox (o_db s));
  workers_ok : Forall (worker_ok (d_outbox (o_db s)) (o_broker s)) (o_workers s);
  messages_ok : Forall (message_ok (d_outbox (o_db s))) (o_broker s)
}.

Lemma worker_ok_le rows rows' broker broker' w :
  rows_le rows rows' → broker ⊆ broker' → worker_ok rows broker w → worker_ok rows' broker' w.
Proof.
  intros Hr Hb. destruct w as [|e|e|e m p|]; simpl; try done.
  - intros (r & Hin & Ht). destruct (rows_le_elem _ _ _ Hr Hin) as (r' & ? & Hle). exists r'. eauto using taken_le.
  - intros (r & Hin & Ht & rt & Hrt & Hm). destruct (rows_le_elem _ _ _ Hr Hin) as (r' & ? & Hle).
    exists r'. split_and!; eauto using taken_le.
  - intros (r & Hin & Ht & Hp). destruct (rows_le_elem _ _ _ Hr Hin) as (r' & ? & Hle). exists r'. eauto using taken_le.
Qed.

Lemma event_of_le ttl' rt r r' : row_le r r' → message_of ttl' rt (event_of r') = message_of ttl' rt (event_of r).
Proof. intros (H1 & _ & H3 & H4 & _). unfold message_of. simpl. by rewrite H1, H3, H4. Qed.

Lemma message_ok_le rows rows' m : rows_le rows rows' → message_ok rows m → message_ok rows' m.
Proof.
  intros Hr (r & rt & Hin & Hrt & ->). destruct (rows_le_elem _ _ _ Hr Hin) as (r' & ? & Hle).
  exists r', rt. split_and!; [done| |by rewrite (event_of_le _ _ _ _ Hle)]. destruct Hle as (_ & _ & -> & _). done.
Qed.

Lemma row_ok_more broker broker' r : broker ⊆ broker' → row_ok broker r → row_ok broker' r.
Proof. intros Hb [H1 H2]. split; [|done]. intros Hp. destruct (H1 Hp) as (rt & ? & ?). eauto. Qed.

Lemma rows_le_ids l l' : rows_le l l' → oe_id <$> l' = oe_id <$> l.
Proof. induction 1 as [|r r' l l' (Hid & _) _ IH]; csimpl; [done|]. by rewrite Hid, IH. Qed.

(** A step of one instance. *)
Lemma ok_worker_step fl now w d broker w' d' broker' :
  NoDup (oe_id <$> d_outbox d) → Forall (row_ok broker) (d_outbox d) → worker_ok (d_outbox d) broker w →
  worker_step fl now w d broker = (w', d', broker') →
  rows_le (d_outbox d) (d_outbox d') ∧ broker ⊆ broker' ∧ Forall (row_ok broker') (d_outbox d') ∧
  worker_ok (d_outbox d') broker' w' ∧ (∀ m, m ∈ broker' → m ∈ broker ∨ message_ok (d_outbox d') m).
Proof.
  intros Hnd Hrows Hw Hstep.
  assert (rows_le (d_outbox d) (d_outbox d)) as Hrefl by (apply Forall_Forall2_diag, Forall_forall; by intros r _).
  assert (∀ r, r ∈ d_outbox d → row_ok broker r) as Hrow by (by apply Forall_forall).
  destruct w as [|e|e|e message perm|]; simpl in Hstep.
  - destruct (claim_next now d) as [[oe d1]|] eqn:Hc; [|destruct fl; simplify_eq; by (split_and!; auto)].
    apply claim_next_spec in Hc as [[-> ->]|(r & Hin & He & -> & ->)]; [destruct fl; simplify_eq; by (split_and!; auto)|].
    assert (rows_le (d_outbox d) (d_outbox (with_row (oe_id r) (claim now) d)) ∧
            Forall (row_ok broker) (d_outbox (with_row (oe_id r) (claim now) d))) as [Hle Hok].
    { split; [apply with_row_le, claim_le|]. apply Forall_forall. unfold with_row, update_where. simpl.
      intros x (r0 & -> & Hin0)%list_elem_of_fmap. destruct (_ =? _); [|by apply Hrow].
      destruct (Hrow r0 Hin0) as [H1 H2]. split; simpl; [|intros Hd; destruct (H2 Hd); split; [done|lia]].
      intros Hp. destruct (H1 Hp) as (rt & Hrt & Hm). exists rt. split; [done|].
      by rewrite (event_of_le _ _ r0) by apply claim_le. }
    assert (claim now r ∈ d_outbox (with_row (oe_id r) (claim now) d)) as Hin'.
    { unfold with_row, update_where. simpl. apply list_elem_of_fmap. exists r. by rewrite Z.eqb_refl. }
    destruct fl; simplify_eq; try done; split_and!; try done; try (intros m Hm; by left).
    exists (claim now r). split; [done|]. by split_and!.
  - destruct Hw as (r & Hin & Ht). assert (ce_event_type e = oe_event_type r) as Hty by apply Ht.
    destruct (route_for (ce_event_type e)) as [rt|] eqn:Hrt.
    + assert (broker ⊆ broker ++ [message_of ttl rt e]) as Hsub by (intros m Hm; apply elem_of_app; by left).
      assert (Forall (row_ok (broker ++ [message_of ttl rt e])) (d_outbox d)) as Hok.
      { apply Forall_forall. intros x Hx. by eapply row_ok_more, Hrow. }
      assert (∀ m, m ∈ broker ++ [message_of ttl rt e] → m ∈ broker ∨ message_ok (d_outbox d) m) as Hmsg.
      { intros m [Hm|Hm%list_elem_of_singleton]%elem_of_app; [by left|]. right. exists r, rt.
        rewrite <-Hty. split_and!; [done..|]. by rewrite Hm, (message_of_taken _ _ _ _ Ht). }
      destruct fl; simplify_eq; split_and!; try done.
      * exists r. split_and!; [done..|]. exists rt. split; [done|]. apply elem_of_app. right. by left.
      * exists r. by split_and!.
      * intros m Hm. by left.
      * exists r. by split_and!.
    + simplify_eq. split_and!; try done; [|intros m Hm; by left]. exists r. by split_and!.
  - destruct Hw as (r & Hin & Ht & rt & Hrt & Hm).
    assert (rows_le (d_outbox d) (d_outbox (mark_published now e d)) ∧ Forall (row_ok broker) (d_outbox (mark_published now e d))) as [Hle Hok].
    { rewrite mark_published_rows. split.
      - apply Forall2_fmap_r, Forall_Forall2_diag, Forall_forall. intros x _. simpl. by destruct (_ =? _).
      - apply Forall_forall. intros x (r0 & -> & Hin0)%list_elem_of_fmap. destruct (oe_id r0 =? ce_id e) eqn:Eid; [|by apply Hrow].
        apply Z.eqb_eq in Eid. assert (r0 = r) as ->.
        { destruct Ht as (Hid & _). rewrite Hid in Eid. by eapply (NoDup_fmap_elem oe_id). }
        destruct (Hrow r Hin) as [H1 H2]. split; [|exact H2]. intros _. exists rt.
        assert (ce_event_type e = oe_event_type r) as Hty by apply Ht. simpl. rewrite <-Hty. split; [done|].
        rewrite (message_of_taken _ _ _ _ Ht) in Hm. exact Hm. }
    destruct fl; simplify_eq; split_and!; try done; intros m' Hm'; by left.
  - destruct Hw as (r & Hin & Ht & Hperm).
    destruct (mark_failed_rows now e message perm d) as (f & Hf & Hfr).
    assert (rows_le (d_outbox d) (d_outbox (mark_failed now e message perm d)) ∧
            Forall (row_ok broker) (d_outbox (mark_failed now e message perm d))) as [Hle Hok].
    { rewrite Hf. split.
      - apply Forall2_fmap_r, Forall_Forall2_diag, Forall_forall. intros x _. simpl. destruct (_ =? _); [apply Hfr|done].
      - apply Forall_forall. intros x (r0 & -> & Hin0)%list_elem_of_fmap. destruct (oe_id r0 =? ce_id e) eqn:Eid; [|by apply Hrow].
        apply Z.eqb_eq in Eid. assert (r0 = r) as ->.
        { destruct Ht as (Hid & _). rewrite Hid in Eid. by eapply (NoDup_fmap_elem oe_id). }
        destruct (Hrow r Hin) as [H1 H2]. destruct (Hfr r) as (Hle & Hp & Ha & Hd).
        assert (oe_event_type (f r) = oe_event_type r) as Hty by apply Hle.
        assert (ce_event_type e = oe_event_type r) as Hty' by apply Ht.
        split.
        + rewrite Hp, Hty. intros Hpub. destruct (H1 Hpub) as (rt & Hrt & Hm). exists rt. split; [done|].
          by rewrite (event_of_le _ _ r).
        + rewrite Hty, Ha. destruct Hd as [->|[Hpt Hmax]]; [exact H2|]. intros _. split; [rewrite <-Hty'; by apply Hperm|].
          destruct Ht as (_ & _ & _ & _ & Hatt). lia. }
    destruct fl; simplify_eq; split_and!; try done; intros m' Hm'; by left.
  - simplify_eq. split_and!; try done. intros m Hm. by left.
Qed.

Lemma ok_outbox_step o s : outbox_ok s → outbox_ok (outbox_step o s).
Proof.
  intros [Hnd Hrows Hws Hms]. destruct s as [d now broker ws]. simpl in *. destruct o as [i fl|i|ms|id agg ty payload]; simpl.
  - destruct (ws !! i) as [w|] eqn:Hi; [|done]. destruct (worker_step fl now w d broker) as [[w' d'] broker'] eqn:E.
    destruct (ok_worker_step _ _ _ _ _ _ _ _ Hnd Hrows (Forall_lookup_1 _ _ _ _ Hws Hi) E) as (Hle & Hsub & Hok & Hw & Hm).
    split; simpl.
    + by rewrite (rows_le_ids _ _ Hle).
    + exact Hok.
    + apply Forall_insert; [|done]. eapply Forall_impl; [exact Hws|]. intros x. by apply worker_ok_le.
    + apply Forall_forall. intros m Hin. destruct (Hm m Hin) as [Hold|]; [|done].
      eapply message_ok_le; [done|]. by apply (Forall_forall (message_ok (d_outbox d)) broker).
  - split; simpl; try done. by apply Forall_insert.
  - by split.
  - destruct (insert_outbox _ d) as [d'|] eqn:E; [|done]. unfold insert_outbox in E.
    destruct (existsb _ _) eqn:Ex; simplify_eq. simpl in Ex.
    assert (rows_le (d_outbox d) (d_outbox d)) as Hrefl by (apply Forall_Forall2_diag, Forall_forall; by intros r _).
    assert (∀ r : outbox_row, r ∈ d_outbox d → r ∈ d_outbox d ++ [new_row id agg ty payload now]) as Hext.
    { intros r Hr. apply elem_of_app. by left. }
    split; simpl.
    + rewrite fmap_app. apply NoDup_app. split; [done|]. split; [|apply NoDup_singleton].
      intros x (r & -> & Hr)%list_elem_of_fmap Hx%list_elem_of_singleton.
      pose proof (existsb_false _ _ _ Ex Hr) as Hf. simpl in *. by rewrite Hx, Z.eqb_refl in Hf.
    + apply Forall_app. split; [done|]. apply Forall_singleton. by split.
    + eapply Forall_impl; [exact Hws|]. intros [|e|e|e m p|]; simpl; try done.
      * intros (r & ? & ?). eauto.
      * intros (r & ? & ? & ?). eauto.
      * intros (r & ? & ? & ?). eauto.
    + eapply Forall_impl; [exact Hms|]. intros m (r & rt & ? & ? & ?). exists r, rt. eauto.
Qed.

(** C23: the outbox keeps its accounts.  In any interleaving of the steps of any number
    of publishers -- claims, publications and marks that fail, succeed or succeed
    unnoticed, crashes and restarts at any point -- with new events and the passing of
    time: a row counts as published only if the broker has accepted its message, a
    dead-lettered row has a type without a route and at least ten attempts, every message
    of the broker is the message of a row, and no row is both published and dead. *)
Theorem outbox_keeps_accounts os s :
  outbox_ok s →
  let s' := outbox_run ttl broker_error os s in
  outbox_ok s' ∧
  ∀ r, r ∈ d_outbox (o_db s') →
    (oe_published_at r ≠ None → ∃ rt, route_for (oe_event_type r) = Some rt ∧ message_of ttl rt (event_of r) ∈ o_broker s') ∧
    (oe_dead_lettered_at r ≠ None → route_for (oe_event_type r) = None ∧ MAX_ATTEMPTS ≤ oe_attempts r) ∧
    (oe_published_at r = None ∨ oe_dead_lettered_at r = None).
Proof.
  intros Hs s'. assert (outbox_ok s') as Hs'.
  { subst s'. unfold outbox_run. revert s Hs. induction os as [|o os IH]; simpl; [done|]. intros s Hs. by apply IH, ok_outbox_step. }
  split; [done|]. intros r Hr. destruct Hs' as [_ Hrows _ _].
  destruct (proj1 (Forall_forall _ _) Hrows r Hr) as [H1 H2]. split_and!; [done..|].
  destruct (oe_published_at r) as [p|]; [|by left]. destruct (oe_dead_lettered_at r) as [x|]; [|by right]. exfalso.
  destruct H1 as (rt & Hrt & _); [done|]. destruct H2 as [Hn _]; [done|]. congruence.
Qed.
End accounts.

(** ** Draining *)

Section drain.
Variable ttl : option string.
Variable broker_error : string.

Definition due (now : Z) (d : db) : list outbox_row := filter (λ r, eligible now r = true) (d_outbox d).

(** The message of a row that has a route. *)
Definition row_message (r : outbox_row) : amqp_message :=
  message_of ttl (default (Route "" "") (route_for (oe_event_type r))) (event_of r).

Definition by_creation (r r' : outbox_row) : Prop := oe_created_at r ≤ oe_created_at r'.

(** Every due row can be published. *)
Definition publishable (now : Z) (d : db) : Prop :=
  NoDup (oe_id <$> d_outbox d) ∧
  ∀ r, r ∈ due now d → is_Some (route_for (oe_event_type r)) ∧ in_i32 (oe_attempts r + 1) = true.

Lemma oldest_none l : oldest l = None → l = [].
Proof. destruct l as [|r l]; simpl; [done|]. destruct (oldest l); [by destruct (_ <? _)|done]. Qed.

Lemma oldest_least l r x : oldest l = Some r → x ∈ l → oe_created_at r ≤ oe_created_at x.
Proof.
  revert r. induction l as [|a l IH]; simpl; [done|]. intros r Ho Hx.
  destruct (oldest l) as [b|] eqn:E.
  - destruct (oe_created_at b <? oe_created_at a) eqn:Hlt; simplify_eq.
    + apply Z.ltb_lt in Hlt. apply elem_of_cons in Hx as [->|Hx]; [lia|by apply IH].
    + apply Z.ltb_ge in Hlt. apply elem_of_cons in Hx as [->|Hx]; [lia|]. specialize (IH b eq_refl Hx). lia.
  - apply oldest_none in E as ->. simplify_eq. apply list_elem_of_singleton in Hx as ->. lia.
Qed.

(** One round of a lone publisher without faults. *)
Definition round (d : db) (now : Z) (broker : list amqp_message) : outbox_system :=
  outbox_run ttl broker_error [OWorker 0 FOk; OWorker 0 FOk; OWorker 0 FOk] (OutboxSystem d now broker [WIdle]).

Fixpoint rounds (n : nat) (s : outbox_system) : outbox_system :=
  match n with
  | O => s
  | S n => rounds n (outbox_run ttl broker_error [OWorker 0 FOk; OWorker 0 FOk; OWorker 0 FOk] s)
  end.

Lemma due_filter now f id d :
  NoDup (oe_id <$> d_outbox d) → (∀ r, oe_id (f r) = oe_id r ∧ eligible now (f r) = false) →
  filter (λ r, eligible now r = true) (update_where (λ r, oe_id r =? id) f (d_outbox d)) =
    filter (λ r, oe_id r ≠ id) (due now d).
Proof.
  intros _ Hf. unfold due. induction (d_outbox d) as [|r l IH]; [done|].
  change (update_where (λ r, oe_id r =? id) f (r :: l)) with
    ((if oe_id r =? id then f r else r) :: update_where (λ r, oe_id r =? id) f l).
  destruct (oe_id r =? id) eqn:E.
  - apply Z.eqb_eq in E. rewrite filter_cons_False by (rewrite (proj2 (Hf r)); done). rewrite IH.
    destruct (decide (eligible now r = true)).
    + rewrite (filter_cons_True (λ r, eligible now r = true)) by done. rewrite filter_cons_False by (intros H; by apply H). done.
    + by rewrite (filter_cons_False (λ r, eligible now r = true)) by done.
  - apply Z.eqb_neq in E. destruct (decide (eligible now r = true)).
    + rewrite !(filter_cons_True (λ r, eligible now r = true)) by done. rewrite filter_cons_True by done. by rewrite IH.
    + by rewrite !(filter_cons_False (λ r, eligible now r = true)) by done.
Qed.

Lemma filter_keeps_all {A} (P : A → Prop) `{∀ x, Decision (P x)} (l : list A) : (∀ x, x ∈ l → P x) → filter P l = l.
Proof.
  induction l as [|x l IH]; intros Hl; [done|]. rewrite filter_cons_True by (apply Hl; left). f_equal.
  apply IH. intros y Hy. apply Hl. by right.
Qed.

Lemma split_by_id (l : list outbox_row) r : NoDup (oe_id <$> l) → r ∈ l → l ≡ₚ r :: filter (λ x, oe_id x ≠ oe_id r) l.
Proof.
  induction l as [|a l IH]; [by intros _ ?%not_elem_of_nil|]. csimpl. intros [Ha Hnd]%NoDup_cons [->|Hr]%elem_of_cons.
  - rewrite filter_cons_False by (intros H; by apply H). f_equiv.
    assert (filter (λ x, oe_id x ≠ oe_id a) l = l) as ->; [|done].
    apply filter_keeps_all. intros x Hx Heq. apply Ha. rewrite <-Heq. by apply list_elem_of_fmap_2.
  - rewrite filter_cons_True. 2:{ intros Heq. apply Ha. rewrite Heq. by apply list_elem_of_fmap_2. }
    rewrite (IH Hnd Hr) at 1. apply Permutation_swap.
Qed.

Lemma due_ids now d : NoDup (oe_id <$> d_outbox d) → NoDup (oe_id <$> due now d).
Proof. intros H. eapply sublist_NoDup; [exact H|]. apply fmap_sublist, sublist_filter. Qed.

(** A round publishes the oldest due event. *)
Lemma round_publishes d now broker r :
  publishable now d → oldest (due now d) = Some r →
  ∃ d', round d now broker = OutboxSystem d' now (broker ++ [row_message r]) [WIdle] ∧
    publishable now d' ∧ due now d' = filter (λ x, oe_id x ≠ oe_id r) (due now d) ∧
    d_outbox d' = update_where (λ x, oe_id x =? oe_id r) (λ x, published_row now (claim now x)) (d_outbox d).
Proof.
  intros [Hnd Hpub] Ho. pose proof (oldest_elem _ _ Ho) as Hr. destruct (Hpub r Hr) as [[rt Hrt] Hatt].
  set (e := ClaimedEvent (oe_id r) (oe_aggregate_id r) (oe_event_type r) (oe_payload r) (oe_attempts r + 1)).
  set (d1 := with_row (oe_id r) (claim now) d). set (d2 := mark_published now e d1).
  assert (d_outbox d2 = update_where (λ x, oe_id x =? oe_id r) (λ x, published_row now (claim now x)) (d_outbox d)) as Hd2.
  { unfold d2. rewrite mark_published_rows. unfold d1, with_row, update_where. simpl. rewrite map_map.
    apply map_ext. intros x. destruct (oe_id x =? oe_id r) eqn:E; simpl; by rewrite E. }
  assert (due now d2 = filter (λ x, oe_id x ≠ oe_id r) (due now d)) as Hdue.
  { unfold due at 1. rewrite Hd2. apply due_filter; [done|]. intros x. by split. }
  exists d2. split_and!; [| |done|done].
  - assert (claim_next now d = Some (Some e, d1)) as Hc by (unfold claim_next; unfold due in Ho; by rewrite Ho, Hatt).
    assert (outbox_step ttl broker_error (OWorker 0 FOk) (OutboxSystem d now broker [WIdle]) =
            OutboxSystem d1 now broker [WClaimed e]) as H1 by (unfold outbox_step; simpl; by rewrite Hc).
    assert (outbox_step ttl broker_error (OWorker 0 FOk) (OutboxSystem d1 now broker [WClaimed e]) =
            OutboxSystem d1 now (broker ++ [row_message r]) [WPublished e]) as H2.
    { unfold outbox_step, row_message. simpl. by rewrite Hrt. }
    unfold round, outbox_run. cbn [fold_left]. by rewrite H1, H2.
  - split.
    + rewrite Hd2. by rewrite update_where_fmap.
    + intros x Hx. rewrite Hdue in Hx. apply list_elem_of_filter in Hx as [_ Hx]. by apply Hpub.
Qed.

(** C24: the outbox drains.  On a network without faults a lone publisher works off the
    due events, if it has a route for their types and their attempts can be counted, in as many rounds as there are, one message each, oldest first, and marks
    every one of them as published; the other rows stay as they are. *)
Theorem publisher_drains_outbox now d broker :
  publishable now d →
  let s' := rounds (length (due now d)) (OutboxSystem d now broker [WIdle]) in
  ∃ L, L ≡ₚ due now d ∧ StronglySorted by_creation L ∧
    o_broker s' = broker ++ map row_message L ∧ o_workers s' = [WIdle] ∧ due now (o_db s') = [] ∧
    (∀ r, r ∈ L → published_row now (claim now r) ∈ d_outbox (o_db s')) ∧
    (∀ r, r ∈ d_outbox d → eligible now r = false → r ∈ d_outbox (o_db s')).
Proof.
  remember (length (due now d)) as n eqn:Hn. revert d broker Hn. induction n as [|n IH]; intros d broker Hn Hp.
  - exists []. symmetry in Hn. apply nil_length_inv in Hn. simpl. rewrite Hn, app_nil_r.
    split_and!; try done; [constructor|]. by intros r ?%not_elem_of_nil.
  - destruct (oldest (due now d)) as [r|] eqn:Ho; [|apply oldest_none in Ho; by rewrite Ho in Hn].
    destruct (round_publishes d now broker r Hp Ho) as (d' & Hround & Hp' & Hdue & Hrows).
    pose proof (oldest_elem _ _ Ho) as Hr.
    pose proof (split_by_id _ r (due_ids now d (proj1 Hp)) Hr) as Hperm. rewrite <-Hdue in Hperm.
    assert (n = length (due now d')) as Hn'.
    { apply Permutation_length in Hperm. simpl in Hperm. lia. }
    destruct (IH d' (broker ++ [row_message r]) Hn' Hp') as (L & HL & Hs & Hb & Hw & Hd & Hall & Hrest).
    exists (r :: L). cbv zeta. change (rounds (S n) (OutboxSystem d now broker [WIdle])) with (rounds n (round d now broker)).
    rewrite Hround. cbn [map]. split_and!; try done.
    + by rewrite HL, Hperm.
    + constructor; [done|]. apply Forall_forall. intros x Hx. rewrite HL, Hdue in Hx.
      apply list_elem_of_filter in Hx as [_ Hx]. by eapply oldest_least.
    + rewrite Hb. by rewrite <-app_assoc.
    + intros x [->|Hx]%elem_of_cons; [|by apply Hall]. apply Hrest; [|done].
      rewrite Hrows. apply list_elem_of_fmap. exists r. rewrite Z.eqb_refl. split; [done|].
      by apply list_elem_of_filter in Hr as [_ Hr].
    + intros x Hx He. apply Hrest; [|done]. rewrite Hrows. apply list_elem_of_fmap. exists x. split; [|done].
      apply list_elem_of_filter in Hr as [Her Hr]. destruct (Z.eqb_spec (oe_id x) (oe_id r)) as [Hid|]; [|done].
      rewrite (NoDup_fmap_elem oe_id _ x r (proj1 Hp) Hx Hr Hid) in He. congruence.
Qed.
End drain.

(** ** Concrete runs *)

Definition outbox_db (rows : list outbox_row) : db := Db [] [] [] [] [] rows ∅ ∅ [] 1 1 ∅ 1 1 1.

(** A payment request and an event of no known type, two publishers. *)
Definition mixed_outbox : outbox_system :=
  OutboxSystem (outbox_db [new_row 1 50 "payment.requested" (JObj []) 0; new_row 2 51 "Mystery" (JObj []) 5]) 10 [] [WIdle; WIdle].

(** The confirmation of the first publication is lost; the event is published again. *)
Definition troubled : list outbox_op :=
  [OWorker 0 FOk; OWorker 1 FOk; OWorker 1 FOk; OWorker 0 FReplyLost; OWorker 0 FOk; OWorker 1 FOk; OCrash 1;
   OTick 3000; OWorker 0 FOk; OWorker 0 FOk; OWorker 0 FOk; OWorker 0 FOk].

Lemma outbox_keeps_accounts_witness :
  map am_message_id (o_broker (outbox_run None "lost" troubled mixed_outbox)) = [1; 1] ∧
  map oe_published_at (d_outbox (o_db (outbox_run None "lost" troubled mixed_outbox))) = [Some 3010; None] ∧
  outbox_ok None (outbox_run None "lost" troubled mixed_outbox).
Proof.
  split; [vm_compute; reflexivity|]. split; [vm_compute; reflexivity|].
  assert (Hs : outbox_ok None mixed_outbox).
  { split.
    - apply (bool_decide_unpack _). vm_compute. exact I.
    - repeat (apply List.Forall_cons; [by split|]). apply List.Forall_nil.
    - repeat (apply List.Forall_cons; [exact I|]). apply List.Forall_nil.
    - apply List.Forall_nil. }
  pose proof (outbox_keeps_accounts None "lost" troubled mixed_outbox Hs) as [H _].
  exact H.
Defined.

(** The second row is the older one; the third was published before. *)
Definition late_db : db :=
  outbox_db [new_row 1 50 "payment.requested" (JObj []) 7; new_row 2 51 "OrderCompleted" (JObj []) 5;
             published_row 4 (new_row 3 52 "TicketCancelled" (JObj []) 1)].

Lemma publisher_drains_outbox_witness :
  map am_message_id (o_broker (rounds None "lost" 2 (OutboxSystem late_db 10 [] [WIdle]))) = [2; 1] ∧
  due 10 (o_db (rounds None "lost" 2 (OutboxSystem late_db 10 [] [WIdle]))) = [].
Proof.
  split; [vm_compute; reflexivity|].
  assert (Hp : publishable 10 late_db).
  { split; [apply (bool_decide_unpack _); vm_compute; exact I|].
    assert (Hd : due 10 late_db = [new_row 1 50 "payment.requested" (JObj []) 7; new_row 2 51 "OrderCompleted" (JObj []) 5])
      by (vm_compute; reflexivity).
    intros r Hr. rewrite Hd in Hr. apply elem_of_cons in Hr as [->|Hr]; [split; [by eexists|reflexivity]|].
    apply list_elem_of_singleton in Hr as ->. split; [by eexists|reflexivity]. }
  destruct (publisher_drains_outbox None "lost" 10 late_db [] Hp) as (L & _ & _ & _ & _ & Hd & _).
  exact Hd.
Defined.
