(* ===== verification/ShowModel.v ===== *)
(** * ShowModel: BSON documents and the shows of the catalogue
    ([packages/mongo-conn/src/models/show.rs])

    An ObjectId is its 24 hexadecimal digits, a date its milliseconds, a float its text.
    [from_bson] and [to_bson] between BSON and JSON are library code; [BsonLaws] states
    what is used of them. *)

From S2P Require Import Prelude Text.

#[local] Open Scope string_scope.
#[local] Open Scope list_scope.
#[local] Open Scope Z_scope.

#[warnings="-register-all"]
Inductive bson : Type :=
  | BNull
  | BBool (b : bool)
  | BInt32 (n : Z)
  | BInt64 (n : Z)
  | BDouble (text : string)
  | BString (s : string)
  | BDateTime (ms : Z)
  | BObjectId (hex : string)
  | BArray (l : list bson)
  | BDocument (fields : list (string * bson)).

Abbreviation document := (list (string * bson)).

(** [Document::get], [get_str], [get_i64], [get_array]. *)
Definition get_str (k : string) (d : document) : option string := match assoc k d with Some (BString s) => Some s | _ => None end.
Definition get_i64 (k : string) (d : document) : option Z := match assoc k d with Some (BInt64 n) => Some n | _ => None end.
Definition get_array (k : string) (d : document) : option (list bson) := match assoc k d with Some (BArray l) => Some l | _ => None end.
Definition bson_str (b : bson) : option string := match b with BString s => Some s | _ => None end.
Definition is_null (b : bson) : bool := match b with BNull => true | _ => false end.

Class BsonLibs := {
  from_bson : bson → option json;         (* from_bson::<Value> *)
  to_bson : json → option bson            (* to_bson(&Value) *)
}.

(** Texts, nulls, and lists and objects of them. *)
Fixpoint plain_json (j : json) : bool :=
  match j with
  | JNull | JStr _ => true
  | JArr l => forallb plain_json l
  | JObj l => forallb (λ kv, negb (starts_with "$" kv.1) && plain_json kv.2) l
  | _ => false
  end.

(** A document becomes an object with its keys, and plain values come back. *)
Class BsonLaws (L : BsonLibs) := {
  from_bson_keys l j : from_bson (BDocument l) = Some j → ∃ l', j = JObj l' ∧ map fst l' = map fst l;
  to_bson_plain j : plain_json j = true → j ≠ JNull → ∃ b, to_bson j = Some b ∧ is_null b = false ∧ from_bson b = Some j
}.

(** ** Shows *)

Inductive mongo_show_type := MMovie | MConcert | MEvent | MGameEvent.
Definition mongo_show_type_name (t : mongo_show_type) : string :=
  match t with MMovie => "Movie" | MConcert => "Concert" | MEvent => "Event" | MGameEvent => "GameEvent" end.

Inductive show_status := ComingSoon | NowShowing | Ended | Cancelled.
Definition show_status_name (s : show_status) : string :=
  match s with ComingSoon => "comingSoon" | NowShowing => "nowShowing" | Ended => "ended" | Cancelled => "cancelled" end.

Record cast_member := CastMember { cm_name : string; cm_photo_url : string; cm_role : option string; cm_display_order : option Z }.
Record performer_info := PerformerInfo { pf_name : string; pf_photo_url : option string; pf_role : option string; pf_bio : option string }.
Record team_info := TeamInfo { tm_name : string; tm_logo_url : option string; tm_city : option string; tm_captain : option string }.

Record show := Show {
  sh_id : option string; sh_show_type : mongo_show_type; sh_title : string; sh_description : option string; sh_tags : list string;
  sh_category_ids : option (list string);
  sh_poster_url : option string; sh_backdrop_url : option string; sh_thumbnail_url : option string; sh_trailer_url : option string;
  sh_teaser_url : option string;
  sh_language : option string; sh_genre : list string; sh_score : option string; sh_weight : option Z; sh_next_start_time : option Z;
  sh_status : show_status; sh_duration_minutes : option Z;
  sh_director : option string; sh_director_photo_url : option string; sh_cast : option (list cast_member);
  sh_host : option string; sh_host_photo_url : option string; sh_performers : option (list performer_info);
  sh_sport : option string; sh_team_a : option team_info; sh_team_b : option team_info; sh_venue : option string;
  sh_match_round : option string; sh_city : option string; sh_created_at : option Z; sh_deleted_at : option Z
}.

Record create_show_request := CreateShowRequest {
  rs_show_type : mongo_show_type; rs_title : string; rs_description : option string; rs_tags : option (list string);
  rs_poster_url : option string; rs_backdrop_url : option string; rs_thumbnail_url : option string; rs_trailer_url : option string;
  rs_teaser_url : option string; rs_language : option string; rs_genre : option (list string); rs_category_ids : option (list string);
  rs_score : option string; rs_weight : option Z; rs_status : option show_status; rs_duration_minutes : option Z;
  rs_director : option string; rs_director_photo_url : option string; rs_cast : option (list cast_member);
  rs_host : option string; rs_host_photo_url : option string; rs_performers : option (list performer_info);
  rs_sport : option string; rs_team_a : option team_info; rs_team_b : option team_info; rs_venue : option string;
  rs_match_round : option string; rs_city : option string
}.

(** [From<CreateShowRequest> for Show], at a time. *)
Definition show_of_request (r : create_show_request) (now : Z) : show :=
  Show None (rs_show_type r) (rs_title r) (rs_description r) (default [] (rs_tags r)) (rs_category_ids r)
    (rs_poster_url r) (rs_backdrop_url r) (rs_thumbnail_url r) (rs_trailer_url r) (rs_teaser_url r)
    (rs_language r) (default [] (rs_genre r)) (rs_score r) (Some (default 0 (rs_weight r))) None
    (default ComingSoon (rs_status r)) (rs_duration_minutes r)
    (rs_director r) (rs_director_photo_url r) (rs_cast r) (rs_host r) (rs_host_photo_url r) (rs_performers r)
    (rs_sport r) (rs_team_a r) (rs_team_b r) (rs_venue r) (rs_match_round r) (rs_city r) (Some now) None.

Definition with_identity (id : string) (created_at : option Z) (s : show) : show :=
  Show (Some id) (sh_show_type s) (sh_title s) (sh_description s) (sh_tags s) (sh_category_ids s)
    (sh_poster_url s) (sh_backdrop_url s) (sh_thumbnail_url s) (sh_trailer_url s) (sh_teaser_url s)
    (sh_language s) (sh_genre s) (sh_score s) (sh_weight s) (sh_next_start_time s) (sh_status s) (sh_duration_minutes s)
    (sh_director s) (sh_director_photo_url s) (sh_cast s) (sh_host s) (sh_host_photo_url s) (sh_performers s)
    (sh_sport s) (sh_team_a s) (sh_team_b s) (sh_venue s) (sh_match_round s) (sh_city s) created_at (sh_deleted_at s).
Definition with_created_at (t : Z) (s : show) : show :=
  Show (sh_id s) (sh_show_type s) (sh_title s) (sh_description s) (sh_tags s) (sh_category_ids s)
    (sh_poster_url s) (sh_backdrop_url s) (sh_thumbnail_url s) (sh_trailer_url s) (sh_teaser_url s)
    (sh_language s) (sh_genre s) (sh_score s) (sh_weight s) (sh_next_start_time s) (sh_status s) (sh_duration_minutes s)
    (sh_director s) (sh_director_photo_url s) (sh_cast s) (sh_host s) (sh_host_photo_url s) (sh_performers s)
    (sh_sport s) (sh_team_a s) (sh_team_b s) (sh_venue s) (sh_match_round s) (sh_city s) (Some t) (sh_deleted_at s).

(** *** As documents: the derived [Serialize] *)

Definition b_option {A} (f : A → bson) (o : option A) : bson := match o with Some a => f a | None => BNull end.
Definition b_str : option string → bson := b_option BString.
Definition b_strs (l : list string) : bson := BArray (map BString l).

Definition cast_bson (c : cast_member) : bson :=
  BDocument [("name", BString (cm_name c)); ("photo_url", BString (cm_photo_url c)); ("role", b_str (cm_role c));
             ("display_order", b_option BInt32 (cm_display_order c))].
Definition performer_bson (p : performer_info) : bson :=
  BDocument [("name", BString (pf_name p)); ("photo_url", b_str (pf_photo_url p)); ("role", b_str (pf_role p)); ("bio", b_str (pf_bio p))].
Definition team_bson (t : team_info) : bson :=
  BDocument [("name", BString (tm_name t)); ("logo_url", b_str (tm_logo_url t)); ("city", b_str (tm_city t)); ("captain", b_str (tm_captain t))].

(** The identifier and the categories are left out when there are none. *)
Definition show_document (s : show) : document :=
  match sh_id s with Some id => [("_id", BObjectId id)] | None => [] end ++
  [("show_type", BString (mongo_show_type_name (sh_show_type s))); ("title", BString (sh_title s)); ("description", b_str (sh_description s));
   ("tags", b_strs (sh_tags s))] ++
  match sh_category_ids s with Some l => [("category_ids", b_strs l)] | None => [] end ++
  [("poster_url", b_str (sh_poster_url s)); ("backdrop_url", b_str (sh_backdrop_url s)); ("thumbnail_url", b_str (sh_thumbnail_url s));
   ("trailer_url", b_str (sh_trailer_url s)); ("teaser_url", b_str (sh_teaser_url s)); ("language", b_str (sh_language s));
   ("genre", b_strs (sh_genre s)); ("score", b_option BDouble (sh_score s)); ("weight", b_option BInt32 (sh_weight s));
   ("next_start_time", b_option BDateTime (sh_next_start_time s)); ("status", BString (show_status_name (sh_status s)));
   ("duration_minutes", b_option BInt32 (sh_duration_minutes s)); ("director", b_str (sh_director s));
   ("director_photo_url", b_str (sh_director_photo_url s)); ("cast", b_option (λ l, BArray (map cast_bson l)) (sh_cast s));
   ("host", b_str (sh_host s)); ("host_photo_url", b_str (sh_host_photo_url s));
   ("performers", b_option (λ l, BArray (map performer_bson l)) (sh_performers s)); ("sport", b_str (sh_sport s));
   ("team_a", b_option team_bson (sh_team_a s)); ("team_b", b_option team_bson (sh_team_b s)); ("venue", b_str (sh_venue s));
   ("match_round", b_str (sh_match_round s)); ("city", b_str (sh_city s)); ("created_at", b_option BDateTime (sh_created_at s));
   ("deleted_at", b_option BDateTime (sh_deleted_at s))].

(** *** From documents: the derived [Deserialize]

    A field that is optional may be missing or null, one with a default may be missing.  A
    sub-document is a document. *)

Section reader.
(** [DateTime::parse_from_rfc3339] in milliseconds; the text of a double, and of an integer, as
    an [f32]; the texts and objects that [ObjectId] reads. *)
Variable parse_rfc3339 : string → option Z.
Variable f32_of_double : string → string.
Variable f32_of_int : Z → string.
Variable object_id_of : bson → option string.

Definition b_optional {A} (de : bson → option A) (o : option bson) : option (option A) :=
  match o with None | Some BNull => Some None | Some b => Some <$> de b end.
Definition b_default {A} (dflt : A) (de : bson → option A) (o : option bson) : option A :=
  match o with None => Some dflt | Some b => de b end.
Definition b_list {A} (de : bson → option A) (b : bson) : option (list A) := match b with BArray l => mapM de l | _ => None end.

Definition de_b_i32 (b : bson) : option Z := match b with BInt32 n | BInt64 n => i32_checked n | _ => None end.
Definition de_b_f32 (b : bson) : option string :=
  match b with BDouble t => Some (f32_of_double t) | BInt32 n | BInt64 n => Some (f32_of_int n) | _ => None end.
Definition de_b_object_id (b : bson) : option string := match b with BObjectId h => Some h | _ => object_id_of b end.

(** [option_chrono_datetime_as_bson_datetime::deserialize]; [null] is no date. *)
Definition de_b_datetime (b : bson) : option Z :=
  match b with
  | BDateTime ms => Some ms
  | BString s => parse_rfc3339 s
  | BDocument doc =>
      match assoc "$date" doc with
      | Some (BString s) => parse_rfc3339 s
      | Some (BInt64 ms) => Some ms
      | _ => None
      end
  | _ => None
  end.

Definition de_b_show_type (b : bson) : option mongo_show_type :=
  s ← bson_str b; snd <$> head (filter (λ p, p.1 = s) [("Movie", MMovie); ("Concert", MConcert); ("Event", MEvent); ("GameEvent", MGameEvent)]).
Definition de_b_status (b : bson) : option show_status :=
  s ← bson_str b;
  snd <$> head (filter (λ p, p.1 = s) [("comingSoon", ComingSoon); ("nowShowing", NowShowing); ("ended", Ended); ("cancelled", Cancelled)]).

Definition de_b_cast (b : bson) : option cast_member :=
  match b with
  | BDocument d =>
      name ← assoc "name" d ≫= bson_str; photo_url ← assoc "photo_url" d ≫= bson_str;
      role ← b_optional bson_str (assoc "role" d); display_order ← b_optional de_b_i32 (assoc "display_order" d);
      Some (CastMember name photo_url role display_order)
  | _ => None
  end.
Definition de_b_performer (b : bson) : option performer_info :=
  match b with
  | BDocument d =>
      name ← assoc "name" d ≫= bson_str; photo_url ← b_optional bson_str (assoc "photo_url" d);
      role ← b_optional bson_str (assoc "role" d); bio ← b_optional bson_str (assoc "bio" d);
      Some (PerformerInfo name photo_url role bio)
  | _ => None
  end.
Definition de_b_team (b : bson) : option team_info :=
  match b with
  | BDocument d =>
      name ← assoc "name" d ≫= bson_str; logo_url ← b_optional bson_str (assoc "logo_url" d);
      city ← b_optional bson_str (assoc "city" d); captain ← b_optional bson_str (assoc "captain" d);
      Some (TeamInfo name logo_url city captain)
  | _ => None
  end.

Definition show_of_document (d : document) : option show :=
  let text k := b_optional bson_str (assoc k d) in
  id ← b_optional de_b_object_id (assoc "_id" d);
  show_type ← assoc "show_type" d ≫= de_b_show_type;
  title ← assoc "title" d ≫= bson_str;
  description ← text "description";
  tags ← b_default [] (b_list bson_str) (assoc "tags" d);
  category_ids ← b_optional (b_list bson_str) (assoc "category_ids" d);
  poster_url ← text "poster_url"; backdrop_url ← text "backdrop_url"; thumbnail_url ← text "thumbnail_url";
  trailer_url ← text "trailer_url"; teaser_url ← text "teaser_url"; language ← text "language";
  genre ← b_default [] (b_list bson_str) (assoc "genre" d);
  score ← b_optional de_b_f32 (assoc "score" d);
  weight ← b_optional de_b_i32 (assoc "weight" d);
  next_start_time ← b_optional de_b_datetime (assoc "next_start_time" d);
  status ← b_default ComingSoon de_b_status (assoc "status" d);
  duration_minutes ← b_optional de_b_i32 (assoc "duration_minutes" d);
  director ← text "director"; director_photo_url ← text "director_photo_url";
  cast ← b_optional (b_list de_b_cast) (assoc "cast" d);
  host ← text "host"; host_photo_url ← text "host_photo_url";
  performers ← b_optional (b_list de_b_performer) (assoc "performers" d);
  sport ← text "sport";
  team_a ← b_optional de_b_team (assoc "team_a" d); team_b ← b_optional de_b_team (assoc "team_b" d);
  venue ← text "venue"; match_round ← text "match_round"; city ← text "city";
  created_at ← b_optional de_b_datetime (assoc "created_at" d);
  deleted_at ← b_optional de_b_datetime (assoc "deleted_at" d);
  Some (Show id show_type title description tags category_ids poster_url backdrop_url thumbnail_url trailer_url teaser_url
    language genre score weight next_start_time status duration_minutes director director_photo_url cast host host_photo_url
    performers sport team_a team_b venue match_round city created_at deleted_at).

(** A show is read back from the document it is written as. *)

Lemma b_optional_back {A} (f : A → bson) de o : (∀ a, o = Some a → f a ≠ BNull ∧ de (f a) = Some a) → b_optional de (Some (b_option f o)) = Some o.
Proof. intros H. destruct o as [a|]; [|done]. destruct (H a eq_refl) as [Hn Hd]. simpl. destruct (f a); try done; by rewrite Hd. Qed.
Lemma b_str_back o : b_optional bson_str (Some (b_str o)) = Some o.
Proof. by apply b_optional_back. Qed.
Lemma b_date_back o : b_optional de_b_datetime (Some (b_option BDateTime o)) = Some o.
Proof. by apply b_optional_back. Qed.
Lemma b_int_back o : match o with Some n => in_i32 n | None => true end = true → b_optional de_b_i32 (Some (b_option BInt32 o)) = Some o.
Proof. intros Hn. apply b_optional_back. intros n ->. split; [done|]. simpl. unfold i32_checked. by rewrite Hn. Qed.
Lemma b_list_back {A} (f : A → bson) de l : Forall (λ a, de (f a) = Some a) l → b_list de (BArray (map f l)) = Some l.
Proof. intros H. simpl. apply mapM_Some. by apply Forall2_fmap_l, Forall_Forall2_diag. Qed.
Lemma b_strs_back l : b_list bson_str (b_strs l) = Some l.
Proof. by apply b_list_back, Forall_forall. Qed.
Lemma b_strs_default l : b_default [] (b_list bson_str) (Some (b_strs l)) = Some l.
Proof. apply b_strs_back. Qed.
Lemma de_b_show_type_back t : de_b_show_type (BString (mongo_show_type_name t)) = Some t.
Proof. by destruct t. Qed.
Lemma de_b_status_back t : b_default ComingSoon de_b_status (Some (BString (show_status_name t))) = Some t.
Proof. by destruct t. Qed.

(** The integers are in range, and the score is the text of an [f32]. *)
Definition cast_ok (c : cast_member) : Prop := match cm_display_order c with Some n => in_i32 n | None => true end = true.
Record show_ok (s : show) : Prop := {
  ok_weight : match sh_weight s with Some n => in_i32 n | None => true end = true;
  ok_duration : match sh_duration_minutes s with Some n => in_i32 n | None => true end = true;
  ok_score x : sh_score s = Some x → f32_of_double x = x;
  ok_cast l : sh_cast s = Some l → Forall cast_ok l
}.

(** The fields of an explicit document, by their names. *)
Ltac entry_of k d := lazymatch d with (k, ?v) :: _ => constr:(Some v) | _ :: ?d => entry_of k d | [] => constr:(@None bson) end.
Ltac read_entries := repeat match goal with |- context [assoc ?k ?d] => let v := entry_of k d in change (assoc k d) with v end.

Ltac read_back := repeat (cbn [mbind option_bind bson_str]; first
  [rewrite b_str_back|rewrite b_date_back|rewrite b_strs_default|rewrite de_b_show_type_back|rewrite de_b_status_back
  |match goal with H : _ = Some _ |- context [b_optional _ _] => rewrite H end]).

Lemma de_b_cast_back c : cast_ok c → de_b_cast (cast_bson c) = Some c.
Proof.
  intros Hc. unfold de_b_cast, cast_bson. read_entries. cbn [mbind option_bind bson_str]. rewrite b_str_back. cbn [mbind option_bind].
  rewrite (b_int_back _ Hc). by destruct c.
Qed.
Lemma de_b_performer_back p : de_b_performer (performer_bson p) = Some p.
Proof. unfold de_b_performer, performer_bson. read_entries. read_back. by destruct p. Qed.
Lemma de_b_team_back t : de_b_team (team_bson t) = Some t.
Proof. unfold de_b_team, team_bson. read_entries. read_back. by destruct t. Qed.

Lemma b_team_back o : b_optional de_b_team (Some (b_option team_bson o)) = Some o.
Proof. apply b_optional_back. intros t _. split; [done|]. apply de_b_team_back. Qed.
Lemma b_strs_optional l : b_optional (b_list bson_str) (Some (b_strs l)) = Some (Some l).
Proof. unfold b_optional. by rewrite b_strs_back. Qed.

Theorem show_read_back s : show_ok s → show_of_document (show_document s) = Some s.
Proof.
  intros [Hw Hd Hsc Hca].
  pose proof (b_int_back _ Hw) as Hw'. pose proof (b_int_back _ Hd) as Hd'.
  assert (b_optional de_b_f32 (Some (b_option BDouble (sh_score s))) = Some (sh_score s)) as Hs.
  { apply b_optional_back. intros x Hx. split; [done|]. simpl. by rewrite (Hsc x Hx). }
  assert (b_optional (b_list de_b_cast) (Some (b_option (λ l, BArray (map cast_bson l)) (sh_cast s))) = Some (sh_cast s)) as Hc.
  { apply b_optional_back. intros l Hl. split; [done|]. apply b_list_back. eapply Forall_impl; [exact (Hca l Hl)|apply de_b_cast_back]. }
  assert (b_optional (b_list de_b_performer) (Some (b_option (λ l, BArray (map performer_bson l)) (sh_performers s))) = Some (sh_performers s)) as Hp.
  { apply b_optional_back. intros l Hl. split; [done|]. apply b_list_back, Forall_forall. intros p _. apply de_b_performer_back. }
  assert (b_optional de_b_object_id (assoc "_id" (show_document s)) = Some (sh_id s)) as Hid.
  { unfold show_document. destruct (sh_id s), (sh_category_ids s); cbn [app]; by read_entries. }
  unfold show_of_document. rewrite Hid. clear Hid. cbn [mbind option_bind]. unfold show_document.
  destruct (sh_id s) eqn:Ei, (sh_category_ids s) eqn:Ec; cbn [app]; read_entries; rewrite ?b_strs_optional.
  all: repeat (rewrite ?b_team_back; progress read_back); rewrite ?b_team_back; read_back.
  all: destruct s; simpl in *; by subst.
Qed.
End reader.
