(* ===== verification/Mongo.v ===== *)
(** * Mongo: the MongoDB collections of the catalogue and of the search outbox
    ([apps/cdc-worker/src/outbox.rs], [apps/search-server/src/outbox.rs],
    [apps/http-server/src/api/admin/shows.rs])

    The shows with the log of their changes, which the change stream reads, the outbox
    with its two unique indices, the two counters, and the two checkpoints.  A statement
    is a function on this state; [None] is its error.  MongoDB deletes outbox documents a
    week after their creation; this is not modelled. *)

From stdpp Require Import gmap strings.
From S2P Require Import Prelude Text Redis Db ShowModel.

#[local] Open Scope string_scope.
#[local] Open Scope list_scope.
#[local] Open Scope Z_scope.

Inductive operation_type := ChInsert | ChUpdate | ChReplace | ChDelete.
#[global] Instance operation_type_eq_dec : EqDecision operation_type.
Proof. solve_decision. Defined.

(** A change: the key when it is an ObjectId, and the document that an insert or a
    replacement carries. *)
Record change := Change { ch_operation : operation_type; ch_key : option string; ch_document : option document }.

Record mongo := Mongo {
  mg_shows : gmap string document;      (* "shows", by the ObjectId *)
  mg_changes : list change;             (* its changes, oldest first *)
  mg_outbox : list document;            (* "search_outbox_events" *)
  mg_lsn : option Z;                    (* "search_outbox_lsn", elasticsearch_outbox: sequence *)
  mg_sequence : option Z;               (* "search_outbox_sequence", shows: value *)
  mg_checkpoint : option string;        (* "cdc_checkpoints", shows:shows: resume_token *)
  mg_indexed : option Z;                (* "search_outbox_checkpoints", elasticsearch: last_sequence *)
  mg_categories : gmap string document  (* "categories", by the ObjectId *)
}.

Definition with_shows (f : gmap string document → gmap string document) (c : option change) (m : mongo) : mongo :=
  Mongo (f (mg_shows m)) (mg_changes m ++ match c with Some c => [c] | None => [] end) (mg_outbox m) (mg_lsn m) (mg_sequence m)
    (mg_checkpoint m) (mg_indexed m) (mg_categories m).
Definition with_events (f : list document → list document) (m : mongo) : mongo :=
  Mongo (mg_shows m) (mg_changes m) (f (mg_outbox m)) (mg_lsn m) (mg_sequence m) (mg_checkpoint m) (mg_indexed m) (mg_categories m).
Definition with_lsn (n : Z) (m : mongo) : mongo :=
  Mongo (mg_shows m) (mg_changes m) (mg_outbox m) (Some n) (mg_sequence m) (mg_checkpoint m) (mg_indexed m) (mg_categories m).
Definition with_sequence (n : Z) (m : mongo) : mongo :=
  Mongo (mg_shows m) (mg_changes m) (mg_outbox m) (mg_lsn m) (Some n) (mg_checkpoint m) (mg_indexed m) (mg_categories m).
Definition with_checkpoint (t : string) (m : mongo) : mongo :=
  Mongo (mg_shows m) (mg_changes m) (mg_outbox m) (mg_lsn m) (mg_sequence m) (Some t) (mg_indexed m) (mg_categories m).
Definition with_indexed (n : Z) (m : mongo) : mongo :=
  Mongo (mg_shows m) (mg_changes m) (mg_outbox m) (mg_lsn m) (mg_sequence m) (mg_checkpoint m) (Some n) (mg_categories m).

(** ** The shows *)

Definition insert_show (id : string) (d : document) (m : mongo) : option mongo :=
  match mg_shows m !! id with
  | Some _ => None
  | None => Some (with_shows <[id := d]> (Some (Change ChInsert (Some id) (Some d))) m)
  end.
(** [replace_one] and [update_one] do nothing when no document matches. *)
Definition replace_show (id : string) (d : document) (m : mongo) : mongo :=
  match mg_shows m !! id with
  | Some _ => with_shows <[id := d]> (Some (Change ChReplace (Some id) (Some d))) m
  | None => m
  end.
(** [$set] of one field. *)
Definition set_field (k : string) (v : bson) (d : document) : document :=
  if existsb (λ kv, bool_decide (kv.1 = k)) d then map (λ kv, if decide (kv.1 = k) then (k, v) else kv) d else d ++ [(k, v)].
Lemma assoc_set_field k v d : assoc k (set_field k v d) = Some v.
Proof.
  unfold set_field. destruct (existsb _ d) eqn:E; induction d as [|[a b] d IH]; simpl in *; [done| |by rewrite decide_True|].
  - destruct (decide (a = k)) as [->|Hk]; simpl; [by rewrite decide_True|]. rewrite decide_False by done. apply IH.
    apply orb_true_iff in E as [E%bool_decide_eq_true|E]; done.
  - apply orb_false_iff in E as [?%bool_decide_eq_false E]. rewrite decide_False by done. by apply IH.
Qed.
Definition update_show_fields (id : string) (f : document → document) (m : mongo) : mongo :=
  match mg_shows m !! id with
  | Some d => with_shows <[id := f d]> (Some (Change ChUpdate (Some id) None)) m
  | None => m
  end.
Definition remove_show (id : string) (m : mongo) : mongo :=
  match mg_shows m !! id with
  | Some _ => with_shows (delete id) (Some (Change ChDelete (Some id) None)) m
  | None => m
  end.

(** ** Counters and the outbox *)

(** [find_one_and_update] with [$inc] and upsert: the new value; an overflow is an error. *)
Definition increment (n : option Z) : option Z := let n := default 0 n + 1 in if bool_decide (in_s 64 n) then Some n else None.

Definition next_lsn (m : mongo) : option (Z * mongo) := n ← increment (mg_lsn m); Some (n, with_lsn n m).
Definition next_sequence (m : mongo) : option (Z * mongo) := n ← increment (mg_sequence m); Some (n, with_sequence n m).

(** Unique indices on [_id] and on [sequence]; a missing sequence counts as null. *)
Definition event_id (d : document) : option (string + string) :=
  match assoc "_id" d with Some (BString s) => Some (inl s) | Some (BObjectId h) => Some (inr h) | _ => None end.
Definition clashes (d e : document) : bool := bool_decide (event_id d = event_id e) || bool_decide (get_i64 "sequence" d = get_i64 "sequence" e).
Definition insert_event (d : document) (m : mongo) : option mongo :=
  if existsb (clashes d) (mg_outbox m) then None else Some (with_events (λ l, l ++ [d]) m).
Definition has_event (id : string) (m : mongo) : bool := existsb (λ e, bool_decide (event_id e = Some (inl id))) (mg_outbox m).
