(* ===== verification/Shows.v ===== *)
(** * Shows: the administration of the catalogue ([apps/http-server/src/api/admin/shows.rs])

    Creation, update and removal of a show.  Each is a MongoDB transaction that changes
    the show and files a search event under the next number of [search_outbox_lsn]; a
    statement that fails aborts it.  [oid] and [event] are the identifiers the driver
    generates. *)

From stdpp Require Import gmap strings.
From S2P Require Import Prelude Text Keys Redis SeatLock Db HttpCache HttpPayments ShowModel Mongo.

#[local] Open Scope string_scope.
#[local] Open Scope list_scope.
#[local] Open Scope Z_scope.

Class ObjectIds := {
  parse_object_id : string → option string;         (* ObjectId::parse_str and to_hex *)
  show_created_at : document → option (option Z);   (* reading a document as a Show *)
  mongo_error : string                              (* the text of a database error *)
}.

(** What a request of the administration sees. *)
Record catalog (D : Type) := Catalog { ct_site : site D; ct_mongo : mongo }.
Arguments Catalog {D}. Arguments ct_site {D}. Arguments ct_mongo {D}.

(** ** Transactions *)

Definition search_event (event : string) (sequence : Z) (show_id operation : string) (d : bson) (now : Z) : document :=
  [("_id", BObjectId event); ("sequence", BInt64 sequence); ("show_id", BString show_id); ("operation", BString operation);
   ("document", d); ("trace_context", BNull); ("created_at", BDateTime now)].

Definition file_event (event show_id operation : string) (d : bson) (now : Z) (m : mongo) : option mongo :=
  r ← next_lsn m;
  insert_event (search_event event r.1 show_id operation d now) r.2.

Definition create_show_tx (oid event : string) (s : show) (now : Z) (m : mongo) : option mongo :=
  m ← insert_show oid (("_id", BObjectId oid) :: show_document s) m;
  file_event event oid "upsert" (BDocument (show_document s)) now m.

Definition update_show_tx (oid event : string) (s : show) (now : Z) (m : mongo) : option mongo :=
  file_event event oid "upsert" (BDocument (show_document s)) now (replace_show oid (show_document s) m).

Definition delete_show_tx (oid event : string) (now : Z) (m : mongo) : option mongo :=
  file_event event oid "delete" BNull now (update_show_fields oid (set_field "deleted_at" (BDateTime now)) m).

Section handlers.
Context {D : Type} `{!RedisServer D} {HO : ObjectIds}.
Abbreviation C := (St (catalog D)).

Definition on_site {A} (m : St (site D) A) : C A := zoom ct_site (λ s c, Catalog s (ct_mongo c)) m.
Definition on_redis {A} (m : St (world D) A) : C A := on_site (redis_of m).

(** A query, and a transaction whose commit may be lost, or lost to the caller. *)
Definition mongo_query {A} (q : mongo → A) : C (option A) := λ c0,
  let '(fl, c) := on_redis draw c0 in
  (match fl with FOk => Some (q (ct_mongo c)) | _ => None end, c).
Definition mongo_run (tx : mongo → option mongo) : C bool := λ c0,
  let '(fl, c) := on_redis draw c0 in
  match fl, tx (ct_mongo c) with
  | FDown, _ | _, None => (false, c)
  | FOk, Some m => (true, Catalog (ct_site c) m)
  | FReplyLost, Some m => (false, Catalog (ct_site c) m)
  end.

Definition invalidate_lists : C unit :=
  on_redis (invalidate_async CACHE_SHOWS) ;; on_redis (invalidate_async CACHE_DASHBOARD_GRID).
Definition invalidate_show (id : string) : C unit :=
  on_redis (invalidate_async (cache_show_key id)) ;; on_redis (invalidate_async cache_schedules_active_key) ;; invalidate_lists.

(** The identifier of the new show. *)
Definition create_show (oid event : string) (body : create_show_request) : C (string + app_error) :=
  if is_empty (trim (rs_title body)) then mret (inr (bad_request "title is required"))
  else
    now ← on_redis now_ms;
    let s := with_created_at now (show_of_request body now) in
    ok ← mongo_run (create_show_tx oid event s now);
    if negb ok then mret (inr (internal mongo_error))
    else invalidate_lists ;; mret (inl oid).

Definition update_show (event : string) (id : string) (body : create_show_request) : C (unit + app_error) :=
  match parse_object_id id with
  | None => mret (inr (bad_request "Invalid show id"))
  | Some oid =>
      found ← mongo_query (λ m, d ← mg_shows m !! oid; Some (show_created_at d));
      match found with
      | None | Some (Some None) => mret (inr (internal mongo_error))
      | Some None => mret (inr (not_found "Show not found"))
      | Some (Some (Some created_at)) =>
          now ← on_redis now_ms;
          ok ← mongo_run (update_show_tx oid event (with_identity oid created_at (show_of_request body now)) now);
          if negb ok then mret (inr (internal mongo_error))
          else invalidate_show id ;; mret (inl tt)
      end
  end.

Definition delete_show (event : string) (id : string) : C (unit + app_error) :=
  match parse_object_id id with
  | None => mret (inr (bad_request "Invalid show id"))
  | Some oid =>
      now ← on_redis now_ms;
      ok ← mongo_run (delete_show_tx oid event now);
      if negb ok then mret (inr (internal mongo_error))
      else invalidate_show id ;; mret (inl tt)
  end.
End handlers.

(** The requests, with the identifiers that the driver makes. *)
Inductive admin_op :=
  | AdCreate (oid event : string) (body : create_show_request)
  | AdUpdate (event id : string) (body : create_show_request)
  | AdDelete (event id : string).

(** What a request does to MongoDB when its transaction is committed. *)
Definition admin_tx {HO : ObjectIds} (o : admin_op) (now : Z) (m : mongo) : option mongo :=
  match o with
  | AdCreate oid event body =>
      if is_empty (trim (rs_title body)) then None
      else create_show_tx oid event (with_created_at now (show_of_request body now)) now m
  | AdUpdate event id body =>
      oid ← parse_object_id id;
      created_at ← (d ← mg_shows m !! oid; show_created_at d);
      update_show_tx oid event (with_identity oid created_at (show_of_request body now)) now m
  | AdDelete event id => oid ← parse_object_id id; delete_show_tx oid event now m
  end.
