(* ===== verification/Cdc.v ===== *)
(** * Cdc: from the change stream of the shows to the search outbox
    ([apps/cdc-worker/src/stream.rs], [apps/cdc-worker/src/outbox.rs])

    Several replicas of [watch_search_outbox] may work on one database.  Each use of the
    database is one atomic step ([cdc_step]).  The resume token of a change is a text for
    its place in the log; encoding and decoding of tokens are library code. *)

From stdpp Require Import gmap strings.
From S2P Require Import Prelude Text Redis Db ShowModel Mongo.

#[local] Open Scope string_scope.
#[local] Open Scope list_scope.
#[local] Open Scope Z_scope.

Class ResumeTokens := {
  token_text : nat → string;              (* the token as JSON text *)
  token_place : string → option nat;      (* from_str::<ResumeToken> *)
  place_of_token n : token_place (token_text n) = Some n
}.

(** ** Events *)

Record search_outbox_event := SearchOutboxEvent {
  so_source_resume_token : string; so_show_id : string; so_operation : string; so_title : option string; so_city : option string;
  so_thumbnail_url : option string; so_venue : option string; so_document : option json; so_trace_context : json
}.

Definition string_field (d : document) (field : string) : option string := get_str field d.
Definition string_array_field (d : document) (field : string) : json :=
  JArr (map JStr (omap bson_str (default [] (get_array field d)))).
Definition json_string (o : option string) : json := match o with Some s => JStr s | None => JNull end.

Definition delete_event (show_id token : string) : search_outbox_event :=
  SearchOutboxEvent token show_id "delete" None None None None None JNull.

Definition search_document (show_id : string) (d : document) : json :=
  JObj [("id", JStr show_id); ("title", json_string (string_field d "title")); ("description", json_string (string_field d "description"));
        ("tags", string_array_field d "tags"); ("category_ids", string_array_field d "category_ids");
        ("show_type", json_string (string_field d "show_type")); ("city", json_string (string_field d "city"));
        ("venue", json_string (string_field d "venue")); ("thumbnail_url", json_string (string_field d "thumbnail_url"));
        ("poster_url", json_string (string_field d "poster_url"))].

(** Is a field there with another value than null. *)
Definition set_to_something (k : string) (d : document) : bool := match assoc k d with Some b => negb (is_null b) | None => false end.

Definition change_to_outbox_event (operation : operation_type) (show_id token : string) (full_document : option document) :
    search_outbox_event + string :=
  if decide (operation = ChDelete) then inl (delete_event show_id token)
  else
    match full_document with
    | None => inr "change event did not include full_document"
    | Some d =>
        if set_to_something "deleted_at" d then inl (delete_event show_id token)
        else
          match string_field d "title" with
          | None | Some EmptyString => inr "show change does not contain a title"
          | Some title =>
              inl (SearchOutboxEvent token show_id "upsert" (Some title) (string_field d "city") (string_field d "thumbnail_url")
                     (string_field d "venue") (Some (search_document show_id d)) JNull)
          end
    end.

Definition with_trace (t : json) (e : search_outbox_event) : search_outbox_event :=
  SearchOutboxEvent (so_source_resume_token e) (so_show_id e) (so_operation e) (so_title e) (so_city e) (so_thumbnail_url e)
    (so_venue e) (so_document e) t.

(** The document of a change as the stream gives it: an update is looked up when it is read. *)
Definition full_document (c : change) (m : mongo) : option document :=
  match ch_operation c with
  | ChInsert | ChReplace => ch_document c
  | ChUpdate => id ← ch_key c; mg_shows m !! id
  | ChDelete => None
  end.

Section events.
Context {HB : BsonLibs} {HT : ResumeTokens}.
(** The trace carrier of the process. *)
Variable carrier : json.

(** What the loop makes of the change at a place. *)
Definition event_at (place : nat) (c : change) (m : mongo) : option search_outbox_event :=
  show_id ← ch_key c;
  match change_to_outbox_event (ch_operation c) show_id (token_text place) (full_document c m) with
  | inl e => Some (with_trace carrier e)
  | inr _ => None
  end.

(** The document of an event; [None] when it cannot be written as BSON. *)
Definition event_document (e : search_outbox_event) (sequence now : Z) : option document :=
  trace ← to_bson (so_trace_context e);
  d ← (match so_document e with Some j => to_bson j | None => Some BNull end);
  Some [("_id", BString (so_source_resume_token e)); ("sequence", BInt64 sequence); ("show_id", BString (so_show_id e));
        ("operation", BString (so_operation e)); ("created_at", BDateTime now); ("next_attempt_at", BDateTime now);
        ("attempts", BInt32 0); ("trace_context", trace); ("title", b_str (so_title e)); ("city", b_str (so_city e));
        ("thumbnail_url", b_str (so_thumbnail_url e)); ("venue", b_str (so_venue e)); ("document", d)].

(** ** The replicas *)

(** Where a replica stands: at the start of a round, with the checkpoint it has read,
    waiting for the change at a place, and recording its event: before the search for a
    duplicate, before the next number, before the insertion, and before the checkpoint. *)
Inductive cdc_worker :=
  | CStart
  | CResume (token : option string)
  | CWatch (place : nat)
  | CRecord (place : nat) (e : search_outbox_event)
  | CAllocate (place : nat) (e : search_outbox_event)
  | CInsert (place : nat) (e : search_outbox_event) (sequence : Z)
  | CCheckpoint (place : nat) (e : search_outbox_event).

(** A failure ends the round; the next begins after five seconds. *)
Definition after (fl : fault) (w : cdc_worker) : cdc_worker := match fl with FOk => w | _ => CStart end.

Definition cdc_step (fl : fault) (now : Z) (w : cdc_worker) (m : mongo) : cdc_worker * mongo :=
  match w with
  | CStart => (after fl (CResume (mg_checkpoint m)), m)
  | CResume None => (after fl (CWatch (length (mg_changes m))), m)
  | CResume (Some token) =>
      match token_place token with
      | Some n => (after fl (CWatch (S n)), m)
      | None => (CStart, m)
      end
  | CWatch place =>
      match mg_changes m !! place with
      | None => (after fl (CWatch place), m)
      | Some c =>
          match event_at place c m with
          | Some e => (after fl (CRecord place e), m)
          | None => (CStart, m)
          end
      end
  | CRecord place e => (after fl (if has_event (so_source_resume_token e) m then CCheckpoint place e else CAllocate place e), m)
  | CAllocate place e =>
      match fl, next_sequence m with
      | FDown, _ | _, None => (CStart, m)
      | _, Some (n, m) => (after fl (CInsert place e n), m)
      end
  | CInsert place e sequence =>
      match event_document e sequence now with
      | None => (CStart, m)
      | Some d =>
          match fl, insert_event d m with
          | FDown, _ => (CStart, m)
          | _, None => (after fl (CCheckpoint place e), m)            (* E11000: taken for a duplicate *)
          | _, Some m => (after fl (CCheckpoint place e), m)
          end
      end
  | CCheckpoint place e =>
      match fl with
      | FDown => (CStart, m)
      | _ => (after fl (CWatch (S place)), with_checkpoint (so_source_resume_token e) m)
      end
  end.
End events.
