(* ===== verification/SearchIndex.v ===== *)
(** * SearchIndex: from the search outbox to Elasticsearch, and the searches
    ([apps/search-server/src/outbox.rs], [stream.rs], [api.rs], [grpc.rs])

    An instance claims the event after the checkpoint, writes it to the index and moves
    the checkpoint ([indexer_step], one atomic step per use of a database).  Elasticsearch
    accepts or refuses the body of a document; the index is a map from identifiers to
    bodies. *)

From stdpp Require Import gmap strings.
From S2P Require Import Prelude Text Redis Db ShowModel Mongo.

#[local] Open Scope string_scope.
#[local] Open Scope list_scope.
#[local] Open Scope Z_scope.

Class Elastic := { es_accepts : json → bool }.

(** ** The outbox *)

Record claimed_search_event := ClaimedSearchEvent {
  cs_sequence : Z; cs_show_id : string; cs_operation : string; cs_document : option json; cs_trace_context : json
}.

Section outbox.
Context {HB : BsonLibs}.

Definition parse_claimed_event (d : document) : option claimed_search_event :=
  let value name := default BNull (assoc name d) in
  sequence ← get_i64 "sequence" d;
  show_id ← get_str "show_id" d;
  operation ← get_str "operation" d;
  doc ← (match value "document" with BNull => Some None | v => Some <$> from_bson v end);
  Some (ClaimedSearchEvent sequence show_id operation doc (default JNull (from_bson (value "trace_context")))).

(** The first document above a sequence number, by that number. *)
Fixpoint first_above (last : Z) (l : list document) : option document :=
  match l with
  | [] => None
  | d :: l =>
      match get_i64 "sequence" d with
      | Some n =>
          if last <? n then
            match first_above last l with
            | Some d' => if default 0 (get_i64 "sequence" d') <? n then Some d' else Some d
            | None => Some d
            end
          else first_above last l
      | None => first_above last l
      end
  end.

Definition last_sequence (m : mongo) : Z := default 0 (mg_indexed m).
Definition candidate (last : Z) (m : mongo) : option document := first_above last (mg_outbox m).

(** ** The index *)

Abbreviation index := (gmap string json).

Context {HE : Elastic}.

(** What a claimed event does when Elasticsearch can be reached. *)
Definition apply_event (e : claimed_search_event) (x : index) : option index :=
  if decide (cs_operation e = "upsert") then
    doc ← cs_document e; if es_accepts doc then Some (<[cs_show_id e := doc]> x) else None
  else if decide (cs_operation e = "delete") then Some (delete (cs_show_id e) x)      (* 404 is as good *)
  else None.

Definition delay_seconds (consecutive_failures : Z) : Z := Z.min (2 ^ (Z.max 1 (Z.min consecutive_failures 8))) 300.

(** Where an instance stands: before its reading of the checkpoint, before its reading of
    the outbox, with a claimed event, with an applied one; [failures] is its counter. *)
Inductive indexer :=
  | ICheckpoint (failures : Z)
  | IClaim (failures : Z) (last : Z)
  | IApply (failures : Z) (e : claimed_search_event)
  | IMark (e : claimed_search_event).

Definition indexer_step (fl : fault) (i : indexer) (m : mongo) (x : index) : indexer * mongo * index :=
  match i with
  | ICheckpoint failures => (match fl with FOk => IClaim failures (last_sequence m) | _ => ICheckpoint failures end, m, x)
  | IClaim failures last =>
      match fl with
      | FOk =>
          match candidate last m with
          | None => (ICheckpoint 0, m, x)
          | Some d => (match parse_claimed_event d with Some e => IApply failures e | None => ICheckpoint failures end, m, x)
          end
      | _ => (ICheckpoint failures, m, x)
      end
  | IApply failures e =>
      match fl, apply_event e x with
      | FDown, _ | _, None => (ICheckpoint (failures + 1), m, x)
      | FOk, Some x => (IMark e, m, x)
      | FReplyLost, Some x => (ICheckpoint (failures + 1), m, x)
      end
  | IMark e =>
      match fl with
      | FDown => (ICheckpoint 0, m, x)
      | _ => (ICheckpoint 0, with_indexed (cs_sequence e) m, x)
      end
  end.
End outbox.

(** ** Answers to searches *)

(** The hits of an answer of Elasticsearch. *)
Definition hits_of (body : json) : list json := default [] (h ← jget "hits" body; h ← jget "hits" h; as_array h).
Definition text_of (key : string) (source : json) : json := match jget key source ≫= as_str with Some s => JStr s | None => JNull end.

(** [search_handler]: one show of the answer. *)
Definition show_of_hit (hit : json) : option json :=
  source ← jget "_source" hit;
  Some (JObj [("id", JStr (default EmptyString (jget "_id" hit ≫= as_str))); ("title", JStr (default EmptyString (jget "title" source ≫= as_str)));
              ("poster_url", text_of "poster_url" source); ("thumbnail_url", text_of "thumbnail_url" source); ("venue", text_of "venue" source);
              ("city", text_of "city" source); ("show_type", JStr (default "Event" (jget "show_type" source ≫= as_str)));
              ("tags", default (JArr []) (jget "tags" source))]).

Definition multi_match (q : string) (fields : list string) (more : list (string * json)) : json :=
  JObj [("multi_match", JObj ([("query", JStr q); ("fields", JArr (map JStr fields))] ++ more))].

Definition search_query (q : string) (city : option string) : json :=
  let query_obj := JObj [("bool", JObj [
    ("should", JArr [
      multi_match q ["title^3"; "tags^2"; "venue"; "description"; "category_ids"; "show_type"] [("fuzziness", JStr "AUTO")];
      multi_match q ["title.phonetic^2"] [("analyzer", JStr "phonetic_analyzer")]]);
    ("minimum_should_match", JNum 1)])] in
  match city with
  | Some city => JObj [("query", JObj [("bool", JObj [("must", query_obj); ("filter", JObj [("match", JObj [("city", JStr city)])])])]); ("size", JNum 20)]
  | None => JObj [("query", query_obj); ("size", JNum 20)]
  end.

(** [answer] is what Elasticsearch answers to a query, when it can be read as JSON. *)
Definition search_handler (answer : json → option json) (q : string) (city : option string) : json :=
  if is_empty (trim q) then JArr []
  else match answer (search_query q city) with
       | Some body => JArr (omap show_of_hit (hits_of body))
       | None => JArr []
       end.

(** [GrpcSearchService::search]: the shows with a schedule to come. *)
Definition active_show_ids (city : string) (now : Z) (d : db) : list string :=
  let city := trim city in
  remove_dups (map sc_mongo_show_id
    (filter (λ s, now < sc_start_time s ∧ sc_deleted_at s = None ∧
                  (is_empty city = true ∨ eq_ignore_ascii_case city "All" = true ∨ sc_venue_city s = Some city))
       (map snd (map_to_list (d_schedules d))))).

Definition grpc_query (query : string) (ids : list string) : json :=
  JObj [("query", JObj [("bool", JObj [
          ("must", JArr [multi_match query ["title^3"; "tags^2"; "venue"; "description"] [("fuzziness", JStr "AUTO")]]);
          ("filter", JArr [JObj [("terms", JObj [("_id", JArr (map JStr ids))])]]);
          ("must_not", JArr [JObj [("exists", JObj [("field", JStr "deleted_at")])]])])]);
        ("size", JNum 20)].

Definition grpc_show_of_hit (hit : json) : option json :=
  source ← jget "_source" hit;
  let field key := default JNull (jget key source) in
  Some (JObj [("id", JStr (default EmptyString (jget "_id" hit ≫= as_str))); ("title", JStr (default EmptyString (jget "title" source ≫= as_str)));
              ("image", field "poster_url"); ("poster_url", field "poster_url"); ("thumbnail_url", field "thumbnail_url");
              ("venue", field "venue"); ("city", field "city"); ("show_type", default (JStr "Event") (jget "show_type" source));
              ("tags", default (JArr []) (jget "tags" source))]).

Section grpc.
Context {D : Type}.
Definition grpc_search (answer : json → option json) (query city : string) : St (site D) (json + string) :=
  if is_empty (trim query) then mret (inl (JArr []))
  else
    conn ← db_get;
    if negb conn then mret (inr "Database error")
    else
      now ← redis_of now_ms;
      ids ← db_query (active_show_ids city now);
      match default [] ids with
      | [] => mret (inl (JArr []))
      | ids =>
          mret (inl (JArr (match answer (grpc_query query ids) with
                           | Some body => omap grpc_show_of_hit (hits_of body)
                           | None => []
                           end)))
      end.
End grpc.
