(* ===== verification/SearchSync.v ===== *)
(** * SearchSync: the administration, the change stream and the index together

    Requests of the administration, any number of replicas of the change data capture, and
    instances of the search server, over one MongoDB and one index.  The transaction of a
    request is one step, with the reading of the show that an update begins with: no request
    removes a show or changes when it was created. *)

From Stdlib Require Import Sorted.
From stdpp Require Import gmap strings.
From S2P Require Import Prelude Text Keys Redis SeatLock Db HttpCache HttpPayments ShowModel Mongo Shows Cdc SearchIndex.

#[local] Open Scope string_scope.
#[local] Open Scope list_scope.
#[local] Open Scope Z_scope.

Record search_system := SearchSystem {
  sy_mongo : mongo; sy_now : Z; sy_cdc : list cdc_worker; sy_indexers : list indexer; sy_index : gmap string json
}.

Inductive search_op :=
  | SyAdmin (o : admin_op) (fl : fault)
  | SyCdc (i : nat) (fl : fault)
  | SyCdcCrash (i : nat)
  | SyIndexer (i : nat) (fl : fault)
  | SyIndexerCrash (i : nat)
  | SyTick (ms : N).

Section system.
Context {HB : BsonLibs} {HT : ResumeTokens} {HE : Elastic} {HO : ObjectIds}.
Variable carrier : json.

Definition search_step (o : search_op) (s : search_system) : search_system :=
  match o with
  | SyAdmin o fl =>
      match fl, admin_tx o (sy_now s) (sy_mongo s) with
      | FDown, _ | _, None => s
      | _, Some m => SearchSystem m (sy_now s) (sy_cdc s) (sy_indexers s) (sy_index s)
      end
  | SyCdc i fl =>
      match sy_cdc s !! i with
      | None => s
      | Some w =>
          let '(w, m) := cdc_step carrier fl (sy_now s) w (sy_mongo s) in
          SearchSystem m (sy_now s) (<[i := w]> (sy_cdc s)) (sy_indexers s) (sy_index s)
      end
  | SyCdcCrash i => SearchSystem (sy_mongo s) (sy_now s) (<[i := CStart]> (sy_cdc s)) (sy_indexers s) (sy_index s)
  | SyIndexer i fl =>
      match sy_indexers s !! i with
      | None => s
      | Some w =>
          let '(w, m, x) := indexer_step fl w (sy_mongo s) (sy_index s) in
          SearchSystem m (sy_now s) (sy_cdc s) (<[i := w]> (sy_indexers s)) x
      end
  | SyIndexerCrash i => SearchSystem (sy_mongo s) (sy_now s) (sy_cdc s) (<[i := ICheckpoint 0]> (sy_indexers s)) (sy_index s)
  | SyTick ms => SearchSystem (sy_mongo s) (sy_now s + Z.of_N ms) (sy_cdc s) (sy_indexers s) (sy_index s)
  end.
Definition search_run (os : list search_op) (s : search_system) : search_system := fold_left (λ s o, search_step o s) os s.

(** ** Events and their documents *)

Definition event_shape (e : search_outbox_event) : Prop :=
  (so_operation e = "delete" ∧ so_document e = None) ∨
  (so_operation e = "upsert" ∧ ∃ d, so_document e = Some (search_document (so_show_id e) d)).

Lemma event_at_spec p c m e : event_at carrier p c m = Some e →
  so_source_resume_token e = token_text p ∧ ch_key c = Some (so_show_id e) ∧ event_shape e.
Proof.
  unfold event_at. destruct (ch_key c) as [id|]; [|done]. simpl. unfold change_to_outbox_event.
  destruct (decide (ch_operation c = ChDelete)) as [Hd|Hd]; [intros [= <-]; split_and!; [done|done|by left]|].
  destruct (full_document c m) as [d|]; [|done]. destruct (set_to_something "deleted_at" d); [intros [= <-]; split_and!; [done|done|by left]|].
  destruct (string_field d "title") as [[|a title]|]; try done. intros [= <-]. split_and!; [done|done|right; split; [done|by exists d]].
Qed.

Lemma plain_search_document id d : plain_json (search_document id d) = true.
Proof.
  assert (∀ f, plain_json (json_string (string_field d f)) = true) as Hs by (intros f; by destruct (string_field d f)).
  assert (∀ f, plain_json (string_array_field d f) = true) as Ha.
  { intros f. unfold string_array_field. cbn [plain_json]. generalize (omap bson_str (default [] (get_array f d))). intros l. by induction l. }
  unfold search_document. cbn [plain_json forallb fst snd]. by rewrite !Hs, !Ha.
Qed.

Definition claimed_of (e : search_outbox_event) (s : Z) (t : json) : claimed_search_event :=
  ClaimedSearchEvent s (so_show_id e) (so_operation e) (so_document e) t.

(** Reading a claimed event, by the fields of its document. *)
Lemma parse_claimed d s id op b doc :
  get_i64 "sequence" d = Some s → get_str "show_id" d = Some id → get_str "operation" d = Some op → assoc "document" d = Some b →
  (if is_null b then doc = None else ∃ j, from_bson b = Some j ∧ doc = Some j) →
  ∃ tr, parse_claimed_event d = Some (ClaimedSearchEvent s id op doc tr).
Proof.
  intros Hs Hi Ho Hb Hd. unfold parse_claimed_event. rewrite Hs, Hi, Ho, Hb. simpl.
  destruct b; simpl in Hd; try (subst doc; by eexists); destruct Hd as (j & -> & ->); by eexists.
Qed.

Lemma event_document_spec {HL : BsonLaws HB} e s t d : event_shape e → event_document e s t = Some d →
  event_id d = Some (inl (so_source_resume_token e)) ∧ get_i64 "sequence" d = Some s ∧
  ∃ tr, parse_claimed_event d = Some (claimed_of e s tr).
Proof.
  intros He. unfold event_document. destruct (to_bson (so_trace_context e)) as [tr|]; [|done]. simpl. unfold claimed_of.
  destruct He as [[Ho Hd]|[Ho [d0 Hd]]]; rewrite Hd.
  - intros [= <-]. split_and!; [reflexivity|reflexivity|]. by eapply parse_claimed.
  - destruct (to_bson_plain (search_document (so_show_id e) d0)) as (b & Hb & Hn & Hf); [apply plain_search_document|done|].
    rewrite Hb. intros [= <-]. split_and!; [reflexivity|reflexivity|]. eapply parse_claimed; [reflexivity..|]. rewrite Hn. by eexists.
Qed.

Lemma event_at_trace p c m e : event_at carrier p c m = Some e → so_trace_context e = carrier.
Proof. unfold event_at. destruct (ch_key c); [|done]. simpl. destruct (change_to_outbox_event _ _ _ _); [|done]. by intros [= <-]. Qed.

Lemma event_document_total {HL : BsonLaws HB} e n t : event_shape e → is_Some (to_bson (so_trace_context e)) → is_Some (event_document e n t).
Proof.
  intros Hs [tr Htr]. unfold event_document. rewrite Htr. simpl. destruct Hs as [[_ ->]|[_ [d ->]]]; [by eexists|].
  destruct (to_bson_plain (search_document (so_show_id e) d)) as (b & -> & _); [apply plain_search_document|done|]. by eexists.
Qed.

(** ** Steps of one replica *)

Fixpoint cdc_steps (fls : list fault) (now : Z) (w : cdc_worker) (m : mongo) : cdc_worker * mongo :=
  match fls with
  | [] => (w, m)
  | fl :: fls => let '(w, m) := cdc_step carrier fl now w m in cdc_steps fls now w m
  end.

Lemma cdc_steps_cons fl fls now w m w' m' : cdc_step carrier fl now w m = (w', m') → cdc_steps (fl :: fls) now w m = cdc_steps fls now w' m'.
Proof. simpl. by intros ->. Qed.
End system.
