(* ===== verification/SearchMirror.v ===== *)
(** * SearchMirror: the outbox of the administration and of the change data capture, and the index

    Both file their events in one outbox, with numbers of two counters and a unique index over
    them.  Whatever happens, the administration's numbers have no gaps and lie below all those of
    the change data capture; until that has overtaken the administration, the index is the
    replay of the administration's events, and these say what the shows are. *)

From stdpp Require Import gmap strings numbers.
From S2P Require Import Prelude Text Redis Db HttpPayments ShowModel Mongo Shows Cdc SearchIndex SearchSync.

#[local] Open Scope string_scope.
#[local] Open Scope list_scope.
#[local] Open Scope Z_scope.

Definition counter (m : mongo) : Z := default 0 (mg_sequence m).
Definition last_lsn (m : mongo) : Z := default 0 (mg_lsn m).

(** The driver gives the events of the administration an ObjectId, those of the change data
    capture have the text of a resume token. *)
Definition is_filed (d : document) : bool := match event_id d with Some (inr _) => true | _ => false end.
Definition about (id : string) (d : document) : bool := bool_decide (get_str "show_id" d = Some id).

(** ** Transactions of the administration *)

(** An event that says what the show is. *)
Definition says (op : string) (doc : bson) (show : option document) : Prop :=
  match show with
  | Some d =>
      if set_to_something "deleted_at" d then op = "delete" ∧ doc = BNull
      else op = "upsert" ∧ ∃ d', doc = BDocument d' ∧ (d' = d ∨ ∃ oid, d = ("_id", BObjectId oid) :: d')
  | None => op = "delete" ∧ doc = BNull
  end.

Record committed (m m' : mongo) (event id op : string) (doc : bson) (now : Z) : Prop := Committed {
  cm_lsn : last_lsn m' = last_lsn m + 1;
  cm_fresh : existsb (clashes (search_event event (last_lsn m + 1) id op doc now)) (mg_outbox m) = false;
  cm_outbox : mg_outbox m' = mg_outbox m ++ [search_event event (last_lsn m + 1) id op doc now];
  cm_changes : ∃ l, mg_changes m' = mg_changes m ++ l;
  cm_rest : mg_sequence m' = mg_sequence m ∧ mg_checkpoint m' = mg_checkpoint m ∧ mg_indexed m' = mg_indexed m;
  cm_others : ∀ id', id' ≠ id → mg_shows m' !! id' = mg_shows m !! id';
  cm_says : says op doc (mg_shows m' !! id)
}.

(** The change of the show, before its event. *)
Record show_changed (m m' : mongo) (id : string) : Prop := ShowChanged {
  sc_counters : mg_lsn m' = mg_lsn m ∧ mg_outbox m' = mg_outbox m;
  sc_changes : ∃ l, mg_changes m' = mg_changes m ++ l;
  sc_rest : mg_sequence m' = mg_sequence m ∧ mg_checkpoint m' = mg_checkpoint m ∧ mg_indexed m' = mg_indexed m;
  sc_others : ∀ id', id' ≠ id → mg_shows m' !! id' = mg_shows m !! id'
}.

Lemma with_shows_changed f c m id : (∀ id', id' ≠ id → f (mg_shows m) !! id' = mg_shows m !! id') → show_changed m (with_shows f c m) id.
Proof. intros Hf. split; try done. by eexists. Qed.
Lemma no_change m id : show_changed m m id.
Proof. split; try done. exists []. by rewrite app_nil_r. Qed.

Lemma file_event_committed event id op doc now m m1 m' : show_changed m m1 id → says op doc (mg_shows m1 !! id) →
  file_event event id op doc now m1 = Some m' → committed m m' event id op doc now.
Proof.
  intros [[Hl Ho] Hc Hr Hs] Hsay. unfold file_event, next_lsn, increment. fold (last_lsn m1).
  assert (last_lsn m1 = last_lsn m) as -> by (unfold last_lsn; by rewrite Hl). case_bool_decide; [|done]. simpl. unfold insert_event. simpl.
  rewrite Ho. destruct (existsb _ _) eqn:E; [done|]. intros [= <-]. split; simpl; try done. by rewrite Ho.
Qed.

Lemma not_removed s : sh_deleted_at s = None → set_to_something "deleted_at" (show_document s) = false.
Proof. intros H. unfold set_to_something, show_document. rewrite H. destruct (sh_id s), (sh_category_ids s); reflexivity. Qed.

Lemma admin_tx_committed {HO : ObjectIds} o now m m' : admin_tx o now m = Some m' →
  ∃ event id op doc, committed m m' event id op doc now.
Proof.
  destruct o as [oid event body|event id body|event id]; simpl.
  - destruct (is_empty _); [done|]. set (s := with_created_at now (show_of_request body now)). unfold create_show_tx, insert_show.
    destruct (mg_shows m !! oid) eqn:E; [done|]. simpl. intros H. exists event, oid, "upsert", (BDocument (show_document s)).
    eapply file_event_committed; [| |exact H].
    + apply with_shows_changed. intros id' Hne. by rewrite lookup_insert_ne.
    + cbn [with_shows mg_shows]. rewrite lookup_insert_eq. unfold says. change (set_to_something "deleted_at" (("_id", BObjectId oid) :: show_document s)) with (set_to_something "deleted_at" (show_document s)).
      rewrite not_removed by done. split; [done|]. eexists. split; [done|]. right. by exists oid.
  - destruct (parse_object_id id) as [oid|]; [|done]. simpl. destruct (mg_shows m !! oid) as [d|] eqn:E; [|done]. simpl.
    destruct (show_created_at d) as [created|]; [|done]. simpl. set (s := with_identity oid created (show_of_request body now)).
    unfold update_show_tx, replace_show. rewrite E. intros H. exists event, oid, "upsert", (BDocument (show_document s)).
    eapply file_event_committed; [| |exact H].
    + apply with_shows_changed. intros id' Hne. by rewrite lookup_insert_ne.
    + cbn [with_shows mg_shows]. rewrite lookup_insert_eq. unfold says. rewrite not_removed by done. split; [done|]. eexists. split; [done|]. by left.
  - destruct (parse_object_id id) as [oid|]; [|done]. simpl. unfold delete_show_tx, update_show_fields. intros H. exists event, oid, "delete", BNull.
    destruct (mg_shows m !! oid) as [d|] eqn:E; (eapply file_event_committed; [| |exact H]).
    + apply with_shows_changed. intros id' Hne. by rewrite lookup_insert_ne.
    + cbn [with_shows mg_shows]. rewrite lookup_insert_eq. unfold says, set_to_something. by rewrite assoc_set_field.
    + apply no_change.
    + by rewrite E.
Qed.

(** ** The outbox *)

Section outbox.
Context {HB : BsonLibs} {HL : BsonLaws HB} {HT : ResumeTokens} {HE : Elastic} {HO : ObjectIds}.
Variable carrier : json.

(** An event of the change data capture: of the change at its place, above all numbers of the
    administration. *)
Definition recorded (m : mongo) (d : document) : Prop := ∃ p c id n,
  event_id d = Some (inl (token_text p)) ∧ get_str "show_id" d = Some id ∧ get_i64 "sequence" d = Some n ∧
  mg_changes m !! p = Some c ∧ ch_key c = Some id ∧ last_lsn m < n ≤ counter m.

Definition event_of (p : nat) (e : search_outbox_event) (m : mongo) : Prop :=
  so_source_resume_token e = token_text p ∧ event_shape e ∧ ∃ c, mg_changes m !! p = Some c ∧ ch_key c = Some (so_show_id e).
Definition worker_ok (c0 : Z) (m : mongo) (w : cdc_worker) : Prop :=
  match w with
  | CRecord p e | CAllocate p e | CCheckpoint p e => event_of p e m
  | CInsert p e n => event_of p e m ∧ c0 < n ≤ counter m
  | _ => True
  end.

Record outbox_inv (c0 : Z) (old new : list document) (m : mongo) (ws : list cdc_worker) : Prop := OutboxInv {
  oi_outbox : mg_outbox m = old ++ new;
  oi_filed : get_i64 "sequence" <$> filter (λ d, is_filed d = true) new = Some <$> seqZ (c0 + 1) (last_lsn m - c0);
  oi_recorded d : d ∈ new → is_filed d = false → recorded m d;
  oi_distinct i j d d' : (i < j)%nat → (length old ≤ j)%nat → (old ++ new) !! i = Some d → (old ++ new) !! j = Some d' → clashes d' d = false;
  oi_lsn : c0 ≤ last_lsn m;
  oi_counter : c0 ≤ counter m;
  oi_workers : Forall (worker_ok c0 m) ws
}.

Lemma event_of_grows p e m m' : (∃ l, mg_changes m' = mg_changes m ++ l) → event_of p e m → event_of p e m'.
Proof.
  intros [l Hl] (H1 & H2 & c & Hc & Hk). split; [done|]. split; [done|]. exists c. split; [|done]. rewrite Hl. by apply lookup_app_l_Some.
Qed.
Lemma worker_ok_grows c0 m m' w : (∃ l, mg_changes m' = mg_changes m ++ l) → counter m ≤ counter m' → worker_ok c0 m w → worker_ok c0 m' w.
Proof.
  intros Hl Hc. destruct w as [|t|p|p e|p e|p e n|p e]; simpl; try done; try (by apply event_of_grows).
  intros [He Hn]. split; [by eapply event_of_grows|lia].
Qed.
Lemma recorded_grows m m' d : (∃ l, mg_changes m' = mg_changes m ++ l) → counter m ≤ counter m' → last_lsn m' = last_lsn m → recorded m d → recorded m' d.
Proof.
  intros [l Hl] Hc Hlsn (p & c & id & n & H1 & H2 & H3 & H4 & H5 & H6). exists p, c, id, n. split_and!; try done; try lia.
  rewrite Hl. by apply lookup_app_l_Some.
Qed.

(** A step that leaves outbox and numbers of the administration. *)
Lemma outbox_inv_grows c0 old new m m' ws ws' : mg_outbox m' = mg_outbox m → last_lsn m' = last_lsn m → counter m ≤ counter m' →
  (∃ l, mg_changes m' = mg_changes m ++ l) → Forall (worker_ok c0 m') ws' → outbox_inv c0 old new m ws → outbox_inv c0 old new m' ws'.
Proof.
  intros Ho Hl Hc Hch Hw [H1 H2 H3 H4 H5 H6 H7]. split; try done.
  - congruence.
  - by rewrite Hl.
  - intros d Hd Hf. by apply (recorded_grows m m' d Hch Hc Hl), H3.
  - lia.
  - lia.
Qed.
Lemma outbox_inv_workers c0 old new m ws i w : outbox_inv c0 old new m ws → worker_ok c0 m w → outbox_inv c0 old new m (<[i := w]> ws).
Proof. intros [H1 H2 H3 H4 H5 H6 H7] Hw. split; try done. by apply Forall_insert. Qed.

Lemma distinct_snoc (old new : list document) d : existsb (clashes d) (old ++ new) = false →
  (∀ i j x y, (i < j)%nat → (length old ≤ j)%nat → (old ++ new) !! i = Some x → (old ++ new) !! j = Some y → clashes y x = false) →
  ∀ i j x y, (i < j)%nat → (length old ≤ j)%nat → (old ++ new ++ [d]) !! i = Some x → (old ++ new ++ [d]) !! j = Some y → clashes y x = false.
Proof.
  intros Hd H i j x y Hij Hj. rewrite !app_assoc. intros Hx [Hy|[Hge Hy]]%lookup_app_Some.
  - rewrite lookup_app_l in Hx by (apply lookup_lt_Some in Hy; lia). by eapply H.
  - apply list_lookup_singleton_Some in Hy as [Hz <-]. rewrite lookup_app_l in Hx by lia.
    apply not_true_iff_false. intros Hc. apply not_true_iff_false in Hd. apply Hd. apply existsb_exists. exists x.
    split; [by eapply list_elem_of_In, list_elem_of_lookup_2|done].
Qed.

(** A transaction of the administration gets the next number: the numbers of the change data
    capture cannot be next, or it would have failed. *)
Lemma outbox_inv_admin c0 old new m m' ws event id op doc now : committed m m' event id op doc now → outbox_inv c0 old new m ws →
  outbox_inv c0 old (new ++ [search_event event (last_lsn m + 1) id op doc now]) m' ws.
Proof.
  intros [C1 C2 C3 C4 (C5 & _) _ _] [H1 H2 H3 H4 H5 H6 H7]. assert (counter m' = counter m) as Hc by (unfold counter; by rewrite C5). split.
  - by rewrite C3, H1, app_assoc.
  - rewrite filter_app, fmap_app, H2, C1. rewrite (filter_every _ [_]) by (by constructor). simpl.
    replace (last_lsn m + 1 - c0) with (last_lsn m - c0 + 1) by lia. rewrite seqZ_app by lia.
    by replace (c0 + 1 + (last_lsn m - c0)) with (last_lsn m + 1) by lia; rewrite fmap_app.
  - intros d [Hd|Hd%list_elem_of_singleton]%elem_of_app Hf; [|by subst d]. destruct (H3 d Hd Hf) as (p & c & i & n & ? & ? & Hn & ? & ? & Hlt).
    exists p, c, i, n. destruct C4 as [l Hl]. split_and!; try done; try lia; [rewrite Hl; by apply lookup_app_l_Some|].
    assert (n ≠ last_lsn m + 1); [|lia]. intros ->. apply not_true_iff_false in C2. apply C2. apply existsb_exists. exists d.
    rewrite H1. split; [by apply list_elem_of_In, elem_of_app; right|]. unfold clashes. apply orb_true_iff. right. apply bool_decide_eq_true. by rewrite Hn.
  - apply distinct_snoc; [by rewrite <-H1|done].
  - lia.
  - lia.
  - eapply Forall_impl; [exact H7|]. intros w. apply worker_ok_grows; [done|lia].
Qed.

(** A number up to those of the administration is taken. *)
Lemma number_taken_below c0 old new m ws d n : outbox_inv c0 old new m ws → c0 < n ≤ last_lsn m → get_i64 "sequence" d = Some n → insert_event d m = None.
Proof.
  intros [H1 H2 _ _ _ _ _] Hn Hd. assert (Some n ∈ get_i64 "sequence" <$> filter (λ d, is_filed d = true) new) as Hin.
  { rewrite H2. apply list_elem_of_fmap_2, elem_of_seqZ. lia. }
  apply list_elem_of_fmap in Hin as (x & Hx & [_ Hin]%list_elem_of_filter). unfold insert_event.
  rewrite (proj2 (existsb_exists _ _)); [done|]. exists x. rewrite H1. split; [by apply list_elem_of_In, elem_of_app; right|].
  unfold clashes. apply orb_true_iff. right. apply bool_decide_eq_true. congruence.
Qed.

Lemma event_document_show_id e n t d : event_document e n t = Some d → get_str "show_id" d = Some (so_show_id e).
Proof.
  unfold event_document. destruct (to_bson _); [|done]. simpl. destruct (match so_document e with Some _ => _ | None => _ end); [|done].
  by intros [= <-].
Qed.

Lemma outbox_inv_insert c0 old new m ws p e n now d m' : outbox_inv c0 old new m ws → event_of p e m → c0 < n ≤ counter m →
  event_document e n now = Some d → insert_event d m = Some m' →
  m' = with_events (λ l, l ++ [d]) m ∧ is_filed d = false ∧ outbox_inv c0 old (new ++ [d]) m' ws.
Proof.
  intros H (Ht & Hsh & c & Hc & Hk) Hn Hd Hins. destruct (event_document_spec _ _ _ _ Hsh Hd) as (Hid & Hsq & _). rewrite Ht in Hid.
  assert (last_lsn m < n) as Hlt.
  { destruct (decide (last_lsn m < n)) as [|Hge]; [done|]. rewrite (number_taken_below c0 old new m ws d n) in Hins by (done || lia). done. }
  assert (is_filed d = false) as Hf by (unfold is_filed; by rewrite Hid).
  unfold insert_event in Hins. destruct (existsb _ _) eqn:E; [done|]. injection Hins as <-. split; [done|]. split; [done|].
  destruct H as [H1 H2 H3 H4 H5 H6 H7]. split; try done.
  - simpl. by rewrite H1, app_assoc.
  - rewrite filter_app, filter_cons, Hf. simpl. by rewrite app_nil_r.
  - intros x [Hx|Hx%list_elem_of_singleton]%elem_of_app Hfx; [by apply H3|]. subst x. exists p, c, (so_show_id e), n.
    split; [done|]. split; [by apply (event_document_show_id e n now)|]. split; [done|]. split; [done|]. split; [done|].
    change (last_lsn m < n ≤ counter m). lia.
  - apply distinct_snoc; [by rewrite <-H1|done].
Qed.

(** A step of a replica: the outbox stays, or gets an event of the change data capture. *)
Lemma cdc_step_inv c0 old new m ws i w fl now : outbox_inv c0 old new m ws → ws !! i = Some w →
  let '(w', m') := cdc_step carrier fl now w m in
  ∃ add, outbox_inv c0 old (new ++ add) m' (<[i := w']> ws) ∧ (add = [] ∨ ∃ d, add = [d] ∧ is_filed d = false) ∧
    mg_shows m' = mg_shows m ∧ mg_indexed m' = mg_indexed m ∧ mg_lsn m' = mg_lsn m.
Proof.
  intros H Hi. pose proof (oi_workers _ _ _ _ _ H) as Hws. pose proof Hws as Hall. rewrite Forall_lookup in Hws. specialize (Hws _ _ Hi).
  assert (∀ w', worker_ok c0 m w' → ∃ add, outbox_inv c0 old (new ++ add) m (<[i := w']> ws) ∧ (add = [] ∨ ∃ d, add = [d] ∧ is_filed d = false) ∧
    mg_shows m = mg_shows m ∧ mg_indexed m = mg_indexed m ∧ mg_lsn m = mg_lsn m) as Hstay.
  { intros w' Hw'. exists []. rewrite app_nil_r. split; [by apply outbox_inv_workers|]. split; [by left|done]. }
  assert (∀ w' fl, worker_ok c0 m w' → worker_ok c0 m (after fl w')) as Haf by (by intros ? []).
  destruct w as [|[t|]|p|p e|p e|p e n|p e]; cbn [cdc_step]; try (by apply Hstay, Haf).
  - destruct (token_place t); [by apply Hstay, Haf|by apply Hstay].
  - destruct (mg_changes m !! p) as [c|] eqn:Hc; [|by apply Hstay, Haf]. destruct (event_at carrier p c m) as [e|] eqn:He; [|by apply Hstay].
    apply Hstay, Haf. destruct (event_at_spec _ _ _ _ _ He) as (Ht & Hk & Hs). split; [done|]. split; [done|]. by exists c.
  - apply Hstay, Haf. by destruct (has_event _ m).
  - unfold next_sequence, increment. fold (counter m).
    destruct fl; [|by apply Hstay|]; (case_bool_decide; [|by apply Hstay]); simpl; exists []; rewrite app_nil_r;
      (split; [|split; [by left|done]]); apply (outbox_inv_grows c0 old new m _ ws); try done;
      try (unfold counter; simpl; lia); try (exists []; by rewrite app_nil_r);
      (apply Forall_insert; [eapply Forall_impl; [exact Hall|]; intros w; apply worker_ok_grows; [exists []; by rewrite app_nil_r|unfold counter; simpl; lia]|]); simpl; [|done].
    split; [by eapply event_of_grows; [|exact Hws]; exists []; rewrite app_nil_r|]. pose proof (oi_counter _ _ _ _ _ H). unfold counter in *. simpl. lia.
  - destruct (event_document e n now) as [d|] eqn:Hd; [|by apply Hstay]. destruct Hws as [He Hn].
    destruct (insert_event d m) as [m'|] eqn:Hins.
    + destruct (outbox_inv_insert c0 old new m ws p e n now d m' H He Hn Hd Hins) as (-> & Hf & Hinv).
      destruct fl; [|by apply Hstay|]; exists [d]; (split; [by apply outbox_inv_workers|]); (split; [right; by exists d|done]).
    + destruct fl; [|by apply Hstay|]; by apply Hstay.
  - destruct fl; [|by apply Hstay|]; exists []; rewrite app_nil_r; (split; [|split; [by left|done]]);
      (apply outbox_inv_workers; [|done]); apply (outbox_inv_grows c0 old new m _ ws); try done; exists []; by rewrite app_nil_r.
Qed.

Lemma indexer_step_frame fl w m x : let '(_, m', _) := indexer_step fl w m x in
  mg_shows m' = mg_shows m ∧ mg_changes m' = mg_changes m ∧ mg_outbox m' = mg_outbox m ∧ mg_lsn m' = mg_lsn m ∧
  mg_sequence m' = mg_sequence m ∧ mg_checkpoint m' = mg_checkpoint m.
Proof.
  destruct w as [f|f last|f e|e]; simpl; destruct fl; try done; try (destruct (apply_event e x); done); destruct (candidate last m); try done.
Qed.

Lemma outbox_inv_indexer c0 old new m ws fl w x : outbox_inv c0 old new m ws → outbox_inv c0 old new (indexer_step fl w m x).1.2 ws.
Proof.
  intros H. pose proof (indexer_step_frame fl w m x) as Hf. destruct (indexer_step fl w m x) as [[w' m'] x']. destruct Hf as (_ & Hc & Ho & Hl & Hs & _).
  simpl. apply (outbox_inv_grows c0 old new m m' ws); try done.
  - unfold last_lsn. by rewrite Hl.
  - unfold counter. by rewrite Hs.
  - exists []. by rewrite app_nil_r.
  - eapply Forall_impl; [exact (oi_workers _ _ _ _ _ H)|]. intros v. apply worker_ok_grows; [exists []; by rewrite app_nil_r|unfold counter; by rewrite Hs].
Qed.

(** ** Runs *)

(** Both counters are at [c0], above all numbers of the outbox; the replicas have just begun. *)
Record start_ok (c0 : Z) (s : search_system) : Prop := {
  so_lsn : last_lsn (sy_mongo s) = c0;
  so_counter : counter (sy_mongo s) = c0;
  so_outbox : Forall (λ d, ∃ n, get_i64 "sequence" d = Some n ∧ n ≤ c0) (mg_outbox (sy_mongo s));
  so_cdc : Forall (λ w, w = CStart) (sy_cdc s)
}.

Lemma start_inv c0 s : start_ok c0 s → outbox_inv c0 (mg_outbox (sy_mongo s)) [] (sy_mongo s) (sy_cdc s).
Proof.
  intros [H1 H2 H3 H4]. split; try done; try lia.
  - by rewrite app_nil_r.
  - rewrite H1, Z.sub_diag. done.
  - by intros d ?%elem_of_nil.
  - intros i j d d' Hij Hj _ Hd'. rewrite app_nil_r in Hd'. apply lookup_lt_Some in Hd'. lia.
  - eapply Forall_impl; [exact H4|]. by intros w ->.
Qed.

Lemma outbox_step c0 old new s o : outbox_inv c0 old new (sy_mongo s) (sy_cdc s) →
  ∃ add, outbox_inv c0 old (new ++ add) (sy_mongo (search_step carrier o s)) (sy_cdc (search_step carrier o s)).
Proof.
  intros H. assert (outbox_inv c0 old (new ++ []) (sy_mongo s) (sy_cdc s)) as H0 by (by rewrite app_nil_r).
  destruct o as [o fl|i fl|i|i fl|i|ms]; simpl; try (by exists []).
  - destruct (admin_tx o (sy_now s) (sy_mongo s)) as [m'|] eqn:E; [|exists []; by destruct fl].
    destruct (admin_tx_committed _ _ _ _ E) as (event & id & op & doc & Hc). pose proof (outbox_inv_admin _ _ _ _ _ _ _ _ _ _ _ Hc H) as Hn.
    destruct fl; [by eexists|by exists []|by eexists].
  - destruct (sy_cdc s !! i) as [w|] eqn:Hw; [|by exists []]. pose proof (cdc_step_inv c0 old new _ _ i w fl (sy_now s) H Hw) as Hs.
    destruct (cdc_step _ _ _ _ _) as [w' m']. destruct Hs as (add & Hs & _). by exists add.
  - exists []. rewrite app_nil_r. by apply outbox_inv_workers.
  - destruct (sy_indexers s !! i) as [w|]; [|by exists []]. pose proof (outbox_inv_indexer c0 old new _ _ fl w (sy_index s) H) as Hx.
    destruct (indexer_step _ _ _ _) as [[w' m'] x']. exists []. rewrite app_nil_r. done.
Qed.

Lemma outbox_run c0 old new os s : outbox_inv c0 old new (sy_mongo s) (sy_cdc s) →
  ∃ new', outbox_inv c0 old new' (sy_mongo (search_run carrier os s)) (sy_cdc (search_run carrier os s)).
Proof.
  revert s new. induction os as [|o os IH]; intros s new H; [by exists new|]. destruct (outbox_step c0 old new s o H) as [add H1]. by eapply IH.
Qed.

(** C6: the administration and the change data capture share the outbox.  From equal counters,
    with any requests of the administration, any number of replicas and search servers, any
    faults, crashes and delays: the events of the administration, in the order in which they
    came, have the next numbers without a gap, and the last of them is its counter; any other
    new event is that of a change of the stream, for the show of the change, and has a number
    above all those of the administration; and no new event has the identifier or the number of
    an event before it. *)
Theorem search_outbox_is_numbered c0 os s : start_ok c0 s →
  let m := sy_mongo (search_run carrier os s) in
  ∃ new, mg_outbox m = mg_outbox (sy_mongo s) ++ new ∧
    get_i64 "sequence" <$> filter (λ d, is_filed d = true) new = Some <$> seqZ (c0 + 1) (last_lsn m - c0) ∧
    Forall (λ d, is_filed d = false → recorded m d) new ∧
    (∀ i j d d', (i < j)%nat → (length (mg_outbox (sy_mongo s)) ≤ j)%nat → mg_outbox m !! i = Some d → mg_outbox m !! j = Some d' →
      event_id d' ≠ event_id d ∧ get_i64 "sequence" d' ≠ get_i64 "sequence" d).
Proof.
  intros Hs m. destruct (outbox_run c0 _ [] os s (start_inv c0 s Hs)) as (new & [H1 H2 H3 H4 _ _ _]). fold m in H1, H2, H3. exists new.
  split; [done|]. split; [done|]. split; [by apply Forall_forall|]. intros i j d d' Hij Hj Hd Hd'. rewrite H1 in Hd, Hd'.
  specialize (H4 i j d d' Hij Hj Hd Hd'). unfold clashes in H4. apply orb_false_iff in H4 as [Ha Hb].
  by apply bool_decide_eq_false in Ha, Hb.
Qed.

(** ** A lone search server, as long as all new events are the administration's *)

Abbreviation index := (gmap string json).

(** What applying events one after the other makes of an index. *)
Definition replay_one (x : option index) (d : document) : option index := x ← x; e ← parse_claimed_event d; apply_event e x.
Definition replay (l : list document) (x : index) : option index := foldl replay_one (Some x) l.

Lemma replay_snoc l d x : replay (l ++ [d]) x = replay_one (replay l x) d.
Proof. apply foldl_snoc. Qed.

Lemma apply_event_again e x y : apply_event e x = Some y → apply_event e y = Some y.
Proof.
  unfold apply_event. destruct (decide (cs_operation e = "upsert")).
  - destruct (cs_document e) as [doc|]; [|done]. simpl. destruct (es_accepts doc); [|done]. intros [= <-]. by rewrite insert_insert_eq.
  - destruct (decide (cs_operation e = "delete")); [|done]. intros [= <-]. by rewrite delete_delete_eq.
Qed.

Definition numbered (c0 : Z) (l : list document) : Prop := ∀ i d, l !! i = Some d → get_i64 "sequence" d = Some (c0 + 1 + Z.of_nat i).

Lemma filed_numbered c0 old new m ws : outbox_inv c0 old new m ws → Forall (λ d, is_filed d = true) new →
  numbered c0 new ∧ Z.of_nat (length new) = last_lsn m - c0.
Proof.
  intros [_ H2 _ _ H5 _ _] Hf. rewrite (filter_every _ new Hf) in H2. split.
  - intros i d Hd. apply (f_equal (lookup i)) in H2. rewrite !list_lookup_fmap, Hd in H2. simpl in H2.
    destruct (seqZ _ _ !! i) as [n|] eqn:E; [|done]. apply lookup_seqZ in E as [-> _]. by injection H2.
  - apply (f_equal length) in H2. rewrite !length_fmap, length_seqZ in H2. lia.
Qed.

Lemma first_above_old last old l : Forall (λ d, ∃ n, get_i64 "sequence" d = Some n ∧ n ≤ last) old → first_above last (old ++ l) = first_above last l.
Proof. induction 1 as [|d old (n & Hn & Hle) _ IH]; [done|]. simpl. by rewrite Hn, (proj2 (Z.ltb_ge _ _) Hle). Qed.

Lemma first_above_numbered last l c0 : numbered c0 l → first_above last l = l !! Z.to_nat (last - c0).
Proof.
  revert c0. induction l as [|d l IH]; intros c0 Hn; [by rewrite lookup_nil|]. simpl.
  assert (get_i64 "sequence" d = Some (c0 + 1)) as -> by (rewrite (Hn 0%nat d) by done; f_equal; lia).
  assert (numbered (c0 + 1) l) as Hl by (intros i x Hx; rewrite (Hn (S i) x) by done; f_equal; lia).
  rewrite (IH _ Hl). destruct (Z.ltb_spec last (c0 + 1)).
  - replace (Z.to_nat (last - c0)) with 0%nat by lia. replace (Z.to_nat (last - (c0 + 1))) with 0%nat by lia. simpl.
    destruct (l !! 0%nat) as [x|] eqn:Hx; [|done]. rewrite (Hl 0%nat x Hx). simpl. by rewrite (proj2 (Z.ltb_ge _ _)) by lia.
  - by replace (Z.to_nat (last - c0)) with (S (Z.to_nat (last - (c0 + 1)))) by lia.
Qed.

Lemma candidate_numbered c0 old new m a : mg_outbox m = old ++ new → Forall (λ d, ∃ n, get_i64 "sequence" d = Some n ∧ n ≤ c0) old →
  numbered c0 new → last_sequence m = c0 + Z.of_nat a → candidate (last_sequence m) m = new !! a.
Proof.
  intros Ho Hold Hnum Hlast. unfold candidate.
  rewrite Ho, Hlast, first_above_old by (eapply Forall_impl; [exact Hold|]; simpl; intros d (n & ? & ?); exists n; split; [done|lia]).
  rewrite (first_above_numbered _ _ c0 Hnum). f_equal. lia.
Qed.

(** [a] events are marked and [b] are applied. *)
Definition indexer_ok (new : list document) (m : mongo) (a b : nat) (w : indexer) : Prop :=
  match w with
  | ICheckpoint _ => True
  | IClaim _ last => last = last_sequence m
  | IApply _ e => ∃ d, new !! a = Some d ∧ parse_claimed_event d = Some e
  | IMark e => b = S a ∧ ∃ d, new !! a = Some d ∧ parse_claimed_event d = Some e
  end.

Record index_inv (c0 : Z) (new : list document) (m : mongo) (x0 x : index) (w : indexer) (a b : nat) : Prop := IndexInv {
  ix_order : (a ≤ b ≤ S a)%nat ∧ (b ≤ length new)%nat;
  ix_index : replay (take b new) x0 = Some x;
  ix_last : last_sequence m = c0 + Z.of_nat a;
  ix_indexer : indexer_ok new m a b w
}.

Lemma index_inv_grows c0 new add m m' x0 x w a b : mg_indexed m' = mg_indexed m → index_inv c0 new m x0 x w a b → index_inv c0 (new ++ add) m' x0 x w a b.
Proof.
  intros Hi [[H1 H2] H3 H4 H5]. assert (last_sequence m' = last_sequence m) as Hl by (unfold last_sequence; by rewrite Hi). split.
  - rewrite length_app. lia.
  - by rewrite take_app_le.
  - congruence.
  - destruct w as [f|f l|f e|e]; simpl in *; [done|congruence| |].
    + destruct H5 as (d & Hd & He). exists d. split; [by apply lookup_app_l_Some|done].
    + destruct H5 as (-> & d & Hd & He). split; [done|]. exists d. split; [by apply lookup_app_l_Some|done].
Qed.
Lemma index_inv_checkpoint c0 new m x0 x w a b f : index_inv c0 new m x0 x w a b → index_inv c0 new m x0 x (ICheckpoint f) a b.
Proof. by intros [H1 H2 H3 _]. Qed.

Lemma claimed_number d e n : parse_claimed_event d = Some e → get_i64 "sequence" d = Some n → cs_sequence e = n ∧ get_str "show_id" d = Some (cs_show_id e) ∧
  get_str "operation" d = Some (cs_operation e).
Proof.
  unfold parse_claimed_event. intros H Hn. rewrite Hn in H. simpl in H. destruct (get_str "show_id" d); [|done]. simpl in H.
  destruct (get_str "operation" d); [|done]. simpl in H. destruct (match default BNull _ with BNull => _ | _ => _ end); [|done]. by injection H as <-.
Qed.

Lemma indexer_step_inv c0 old new m x0 x w a b fl : mg_outbox m = old ++ new → Forall (λ d, ∃ n, get_i64 "sequence" d = Some n ∧ n ≤ c0) old →
  numbered c0 new → index_inv c0 new m x0 x w a b →
  let '(w', m', x') := indexer_step fl w m x in ∃ a' b', index_inv c0 new m' x0 x' w' a' b'.
Proof.
  intros Ho Hold Hnum Hix. pose proof Hix as [[Hab Hb] Hplay Hlast Hw].
  assert (∀ w', indexer_ok new m a b w' → ∃ a' b', index_inv c0 new m x0 x w' a' b') as Hstay by (intros w' Hw'; by exists a, b).
  destruct w as [f|f last|f e|e]; cbn [indexer_step].
  - by destruct fl; apply Hstay.
  - simpl in Hw. subst last. destruct fl; try by apply Hstay.
    rewrite (candidate_numbered c0 old new m a) by done.
    destruct (new !! a) as [d|] eqn:Hd; [|by apply Hstay]. destruct (parse_claimed_event d) as [e|] eqn:He; [|by apply Hstay].
    apply Hstay. by exists d.
  - destruct Hw as (d & Hd & He). destruct (apply_event e x) as [x'|] eqn:Hap; [|by destruct fl; apply Hstay].
    assert (replay (take (S a) new) x0 = Some x') as Hx'.
    { rewrite (take_S_r _ _ _ Hd), replay_snoc. assert (b = a ∨ b = S a) as [->| ->] by lia.
      - rewrite Hplay. unfold replay_one. simpl. by rewrite He.
      - rewrite (take_S_r _ _ _ Hd), replay_snoc in Hplay. destruct (replay (take a new) x0) as [y|]; [|done]. unfold replay_one in *. simpl in *.
        rewrite He in *. simpl in *. rewrite Hplay. apply apply_event_again in Hplay. congruence. }
    assert (∀ w', indexer_ok new m a (S a) w' → ∃ a' b', index_inv c0 new m x0 x' w' a' b') as Hdone.
    { intros w' Hw'. exists a, (S a). split; try done. apply lookup_lt_Some in Hd. lia. }
    destruct fl; [|by apply Hstay|]; apply Hdone; [|done]. split; [done|]. by exists d.
  - destruct Hw as (-> & d & Hd & He). pose proof (Hnum a d Hd) as Hn. destruct (claimed_number d e _ He Hn) as (Hs & _).
    destruct fl; [|by apply Hstay|]; exists (S a), (S a); (split; [lia|done| |done]); unfold last_sequence; simpl; lia.
Qed.

(** *** What the replay holds of a show *)

Definition outcome (d : document) : option json :=
  e ← parse_claimed_event d; if decide (cs_operation e = "upsert") then cs_document e else None.
Definition last_about (id : string) (l : list document) : option document := last (filter (λ d, about id d = true) l).

Lemma last_about_snoc id l d : last_about id (l ++ [d]) = if about id d then Some d else last_about id l.
Proof.
  unfold last_about. rewrite filter_app. destruct (about id d) eqn:E.
  - by rewrite filter_cons_True, filter_nil, last_snoc.
  - by rewrite filter_cons_False, filter_nil, app_nil_r by congruence.
Qed.

Lemma claimed_show d e : parse_claimed_event d = Some e → get_str "show_id" d = Some (cs_show_id e).
Proof. intros H. destruct (get_i64 "sequence" d) as [n|] eqn:Hn; [by apply (claimed_number d e n)|]. unfold parse_claimed_event in H. by rewrite Hn in H. Qed.

Lemma replay_lookup l x0 x id : replay l x0 = Some x → x !! id = match last_about id l with Some d => outcome d | None => x0 !! id end.
Proof.
  revert x. induction l as [|d l IH] using rev_ind; intros x; [by intros [= ->]|]. rewrite replay_snoc, last_about_snoc.
  destruct (replay l x0) as [y|]; [|done]. unfold replay_one. simpl. destruct (parse_claimed_event d) as [e|] eqn:He; [|done]. simpl.
  specialize (IH y eq_refl). unfold about. rewrite (claimed_show d e He). case_bool_decide as E.
  - injection E as <-. unfold outcome, apply_event. rewrite He. simpl. destruct (decide (cs_operation e = "upsert")).
    + destruct (cs_document e) as [doc|]; [|done]. simpl. destruct (es_accepts doc); [|done]. intros [= <-]. by rewrite lookup_insert_eq.
    + destruct (decide (cs_operation e = "delete")); [|done]. intros [= <-]. by rewrite lookup_delete_eq.
  - rewrite <-IH. unfold apply_event. destruct (decide (cs_operation e = "upsert")).
    + destruct (cs_document e) as [doc|]; [|done]. simpl. destruct (es_accepts doc); [|done]. intros [= <-]. by rewrite lookup_insert_ne by congruence.
    + destruct (decide (cs_operation e = "delete")); [|done]. intros [= <-]. by rewrite lookup_delete_ne by congruence.
Qed.

(** What the administration's events say of the shows. *)
Definition catalogue_inv (shows : gmap string document) (new : list document) (m : mongo) : Prop := ∀ id,
  match last_about id new with
  | Some d => ∃ op doc, get_str "operation" d = Some op ∧ assoc "document" d = Some doc ∧ says op doc (mg_shows m !! id)
  | None => mg_shows m !! id = shows !! id
  end.

Lemma catalogue_inv_admin shows new m m' event id op doc now : committed m m' event id op doc now → catalogue_inv shows new m →
  catalogue_inv shows (new ++ [search_event event (last_lsn m + 1) id op doc now]) m'.
Proof.
  intros [_ _ _ _ _ Hothers Hsays] H id'. rewrite last_about_snoc. unfold about at 1. change (get_str "show_id" (search_event _ _ _ _ _ _)) with (Some id).
  case_bool_decide as E; [injection E as <-; by exists op, doc|]. rewrite Hothers by congruence. apply H.
Qed.

(** ** The system *)

(** The change data capture has filed an event. *)
Definition overtaken (new : list document) : Prop := ∃ d, d ∈ new ∧ is_filed d = false.

Definition mirror_inv (c0 : Z) (old : list document) (shows : gmap string document) (x0 : index) (s : search_system) : Prop := ∃ new,
  outbox_inv c0 old new (sy_mongo s) (sy_cdc s) ∧
  (overtaken new ∨ Forall (λ d, is_filed d = true) new ∧ catalogue_inv shows new (sy_mongo s) ∧
    ∃ w a b, sy_indexers s = [w] ∧ index_inv c0 new (sy_mongo s) x0 (sy_index s) w a b).

Lemma overtaken_app new add : overtaken new → overtaken (new ++ add).
Proof. intros (d & Hd & Hf). exists d. split; [apply elem_of_app; by left|done]. Qed.

Lemma mirror_step c0 old shows x0 s o : Forall (λ d, ∃ n, get_i64 "sequence" d = Some n ∧ n ≤ c0) old →
  mirror_inv c0 old shows x0 s → mirror_inv c0 old shows x0 (search_step carrier o s).
Proof.
  intros Hold (new & H & [Hover|(Hf & Hcat & w & a & b & Hw & Hx)]).
  { destruct (outbox_step c0 old new s o H) as [add Hadd]. exists (new ++ add). split; [done|]. left. by apply overtaken_app. }
  assert (mirror_inv c0 old shows x0 s) as Hsame by (exists new; split; [done|]; right; split; [done|]; split; [done|]; by exists w, a, b).
  destruct o as [o fl|i fl|i|i fl|i|ms]; simpl; try done.
  - destruct (admin_tx o (sy_now s) (sy_mongo s)) as [m'|] eqn:E; [|by destruct fl].
    destruct (admin_tx_committed _ _ _ _ E) as (event & id & op & doc & Hc).
    assert (mirror_inv c0 old shows x0 (SearchSystem m' (sy_now s) (sy_cdc s) (sy_indexers s) (sy_index s))) as Hn; [|by destruct fl].
    exists (new ++ [search_event event (last_lsn (sy_mongo s) + 1) id op doc (sy_now s)]). split; [by apply (outbox_inv_admin _ _ _ _ _ _ _ _ _ _ _ Hc)|].
    right. split; [apply Forall_app; split; [done|by constructor]|]. split; [by apply catalogue_inv_admin|].
    exists w, a, b. split; [done|]. apply (index_inv_grows c0 new _ (sy_mongo s)); [|done]. by apply (cm_rest _ _ _ _ _ _ _ Hc).
  - destruct (sy_cdc s !! i) as [v|] eqn:Hv; [|done]. pose proof (cdc_step_inv c0 old new _ _ i v fl (sy_now s) H Hv) as Hs.
    destruct (cdc_step _ _ _ _ _) as [v' m']. destruct Hs as (add & Hs & [-> | (d & -> & Hd)] & Hsh & Hi & _).
    + exists new. rewrite app_nil_r in Hs. split; [done|]. right. split; [done|]. split; [intros id; specialize (Hcat id); simpl; by rewrite Hsh|].
      exists w, a, b. split; [done|]. apply (index_inv_grows c0 new [] (sy_mongo s) m') in Hx; [|exact Hi]. by rewrite app_nil_r in Hx.
    + exists (new ++ [d]). split; [done|]. left. exists d. split; [apply elem_of_app; right; by left|done].
  - exists new. split; [by apply outbox_inv_workers|]. right. split; [done|]. split; [done|]. by exists w, a, b.
  - rewrite Hw. destruct i as [|i]; simpl; [|done].
    pose proof (outbox_inv_indexer c0 old new _ _ fl w (sy_index s) H) as Ho. pose proof (indexer_step_frame fl w (sy_mongo s) (sy_index s)) as Hfr.
    destruct (filed_numbered _ _ _ _ _ H Hf) as [Hnum _].
    pose proof (indexer_step_inv c0 old new _ x0 _ w a b fl (oi_outbox _ _ _ _ _ H) Hold Hnum Hx) as Hstep.
    destruct (indexer_step fl w (sy_mongo s) (sy_index s)) as [[w' m'] x']. destruct Hfr as (Hsh & _). destruct Hstep as (a' & b' & Hx').
    exists new. split; [done|]. right. split; [done|]. split; [intros id; specialize (Hcat id); simpl; by rewrite Hsh|]. by exists w', a', b'.
  - exists new. split; [done|]. right. split; [done|]. split; [done|]. rewrite Hw. destruct i as [|i]; simpl; [|by exists w, a, b].
    exists (ICheckpoint 0), a, b. split; [done|]. by eapply index_inv_checkpoint.
Qed.

Lemma mirror_run c0 old shows x0 os s : Forall (λ d, ∃ n, get_i64 "sequence" d = Some n ∧ n ≤ c0) old →
  mirror_inv c0 old shows x0 s → mirror_inv c0 old shows x0 (search_run carrier os s).
Proof. intros Hold. revert s. induction os as [|o os IH]; intros s H; [done|]. by apply IH, mirror_step. Qed.

Lemma mirror_start c0 s w : start_ok c0 s → sy_indexers s = [w] → (∃ f, w = ICheckpoint f) → last_sequence (sy_mongo s) = c0 →
  mirror_inv c0 (mg_outbox (sy_mongo s)) (mg_shows (sy_mongo s)) (sy_index s) s.
Proof.
  intros Hs Hi [f ->] Hl. exists []. split; [by apply start_inv|]. right. split; [done|]. split; [by intros id|].
  exists (ICheckpoint f), 0%nat, 0%nat. split; [done|]. split; [simpl; lia|done|lia|done].
Qed.

(** What the index should hold of a show: the extended JSON of the document that the
    administration has written (without the identifier that the driver gave it). *)
Definition mirrored (show : option document) (entry : option json) : Prop :=
  match show with
  | Some d =>
      if set_to_something "deleted_at" d then entry = None
      else ∃ d' j, (d' = d ∨ ∃ oid, d = ("_id", BObjectId oid) :: d') ∧ from_bson (BDocument d') = Some j ∧ entry = Some j
  | None => entry = None
  end.

Lemma replay_parsed l x0 x d : replay l x0 = Some x → d ∈ l → is_Some (parse_claimed_event d).
Proof.
  revert x. induction l as [|d' l IH] using rev_ind; intros x; [by intros _ ?%elem_of_nil|]. rewrite replay_snoc.
  destruct (replay l x0) as [y|]; [|done]. unfold replay_one. simpl. destruct (parse_claimed_event d') as [e|] eqn:He; [|done]. simpl.
  intros _ [Hd|Hd%list_elem_of_singleton]%elem_of_app; [by apply (IH y)|by subst; exists e].
Qed.

Lemma outcome_mirrors d e op doc show : parse_claimed_event d = Some e → get_str "operation" d = Some op → assoc "document" d = Some doc →
  says op doc show → mirrored show (outcome d).
Proof.
  intros He Hop Hdoc Hsay. unfold outcome. rewrite He. simpl.
  assert (cs_operation e = op ∧ (doc = BNull ∨ ∃ j, from_bson doc = Some j ∧ cs_document e = Some j)) as [-> Hd].
  { unfold parse_claimed_event in He. rewrite Hop, Hdoc in He. destruct (get_i64 "sequence" d), (get_str "show_id" d); simpl in He; try done.
    destruct doc; simpl in He; first [by injection He as <-; split; [done|left]|
      apply bind_Some in He as (? & (j & Hj & ->)%fmap_Some & [= <-]); split; [done|]; right; by exists j]. }
  unfold says in Hsay. unfold mirrored. destruct show as [sd|]; [destruct (set_to_something "deleted_at" sd)|]; destruct Hsay as [-> Hsay].
  - done.
  - destruct Hsay as (d' & -> & Hd'). destruct Hd as [?|(j & Hj & ->)]; [done|]. by exists d', j.
  - done.
Qed.

(** An event that is not above the checkpoint is in the index. *)
Lemma last_about_marked c0 id new n : numbered c0 new → (∀ d k, d ∈ new → get_str "show_id" d = Some id → get_i64 "sequence" d = Some k → k ≤ c0 + Z.of_nat n) →
  last_about id (take n new) = last_about id new.
Proof.
  intros Hnum H. rewrite <-(take_drop n new) at 2. unfold last_about. rewrite filter_app.
  enough (filter (λ d, about id d = true) (drop n new) = []) as -> by (by rewrite app_nil_r).
  apply filter_no, Forall_lookup. intros i d Hd Ha. rewrite lookup_drop in Hd. specialize (Hnum _ _ Hd).
  unfold about in Ha. apply bool_decide_eq_true in Ha. specialize (H d _ (list_elem_of_lookup_2 _ _ _ Hd) Ha Hnum). lia.
Qed.

Lemma mirror_inv_index c0 old shows x0 s id : Forall (λ d, ∃ n, get_i64 "sequence" d = Some n ∧ n ≤ c0) old → mirror_inv c0 old shows x0 s →
  let m := sy_mongo s in
  counter m ≤ last_lsn m →
  (∀ d n, d ∈ mg_outbox m → get_str "show_id" d = Some id → get_i64 "sequence" d = Some n → n ≤ last_sequence m) →
  mirrored (mg_shows m !! id) (sy_index s !! id) ∨
  (∀ d n, d ∈ mg_outbox m → get_str "show_id" d = Some id → get_i64 "sequence" d = Some n → n ≤ c0) ∧
    mg_shows m !! id = shows !! id ∧ sy_index s !! id = x0 !! id.
Proof.
  intros Hold (new & H & Hcase) m Hc Hall. fold m in H, Hcase. pose proof (oi_outbox _ _ _ _ _ H) as Ho.
  destruct Hcase as [(d & Hd & Hnf)|(Hf & Hcat & w & a & b & _ & [Hab Hplay Hlast _])].
  { destruct (oi_recorded _ _ _ _ _ H d Hd Hnf) as (p & c & i & n & _ & _ & _ & _ & _ & Hn). lia. }
  destruct (filed_numbered _ _ _ _ _ H Hf) as [Hnum Hlen].
  assert (last_about id (take b new) = last_about id new) as Hla.
  { apply (last_about_marked c0); [done|]. intros d k Hd Hid Hk. specialize (Hall d k). rewrite Ho in Hall.
    specialize (Hall ltac:(apply elem_of_app; by right) Hid Hk). lia. }
  rewrite (replay_lookup _ _ _ id Hplay), Hla. specialize (Hcat id). destruct (last_about id new) as [d|] eqn:E.
  - left. destruct Hcat as (op & doc & Hop & Hdoc & Hsay).
    assert (d ∈ take b new) as Hd.
    { unfold last_about in Hla. by apply last_Some_elem_of, list_elem_of_filter in Hla as [_ ?]. }
    destruct (replay_parsed _ _ _ d Hplay Hd) as [e He]. by eapply outcome_mirrors.
  - right. split; [|done]. intros d n. rewrite Ho. intros [Hd|Hd]%elem_of_app Hid Hn.
    + rewrite Forall_forall in Hold. destruct (Hold d Hd) as (k & Hk & Hle). rewrite Hn in Hk. by injection Hk as ->.
    + exfalso. unfold last_about in E. apply last_None in E. apply (filter_nil_not_elem_of _ _ d E); [|done].
      unfold about. by rewrite Hid, bool_decide_true.
Qed.

(** C5: the index mirrors the catalogue.  One search server, the administration and any number
    of replicas of the change data capture share the outbox; the counters start equal, at the
    checkpoint.  After any requests of the administration, steps, faults, crashes and delays, as
    long as the change data capture has not drawn more numbers than the administration has filed
    events (a number that it draws is then taken, and it drops its event for a duplicate): a
    show none of whose events is above the checkpoint is in the index with the document of its
    last creation or update, and is not there after its removal; a show without new events is as
    it was. *)
Theorem search_index_mirrors_catalogue c0 f os s id : start_ok c0 s → sy_indexers s = [ICheckpoint f] → last_sequence (sy_mongo s) = c0 →
  let s' := search_run carrier os s in let m := sy_mongo s' in
  counter m ≤ last_lsn m →
  (∀ d n, d ∈ mg_outbox m → get_str "show_id" d = Some id → get_i64 "sequence" d = Some n → n ≤ last_sequence m) →
  mirrored (mg_shows m !! id) (sy_index s' !! id) ∨
  (∀ d n, d ∈ mg_outbox m → get_str "show_id" d = Some id → get_i64 "sequence" d = Some n → n ≤ c0) ∧
    mg_shows m !! id = mg_shows (sy_mongo s) !! id ∧ sy_index s' !! id = sy_index s !! id.
Proof.
  intros Hs Hi Hl. pose proof (so_outbox _ _ Hs) as Hold. eapply mirror_inv_index; [exact Hold|].
  eapply mirror_run; [exact Hold|]. eapply mirror_start; [done|exact Hi|by eexists|done].
Qed.
End outbox.
