(* ===== verification/SearchProps.v ===== *)
(** * SearchProps: concrete runs of the search pipeline *)

From stdpp Require Import gmap strings.
From S2P Require Import Prelude Text Redis RedisMem SeatLock Db HttpPayments ShowModel Mongo Shows Cdc SearchIndex SearchSync SearchMirror.

#[local] Open Scope string_scope.
#[local] Open Scope list_scope.
#[local] Open Scope Z_scope.

(** ** Concrete libraries *)

Fixpoint json_of_bson (b : bson) : json :=
  match b with
  | BNull => JNull
  | BBool b => JBool b
  | BInt32 n | BInt64 n => JNum n
  | BDouble t => JFloat t
  | BString s => JStr s
  | BDateTime ms => JObj [("$date", JObj [("$numberLong", JStr (show_Z ms))])]
  | BObjectId h => JObj [("$oid", JStr h)]
  | BArray l => JArr (map json_of_bson l)
  | BDocument l => JObj (map (λ kv, (kv.1, json_of_bson kv.2)) l)
  end.
Fixpoint bson_of_json (j : json) : bson :=
  match j with
  | JNull => BNull
  | JBool b => BBool b
  | JNum n => BInt64 n
  | JFloat t => BDouble t
  | JStr s => BString s
  | JArr l => BArray (map bson_of_json l)
  | JObj l => BDocument (map (λ kv, (kv.1, bson_of_json kv.2)) l)
  end.

Lemma json_of_bson_of_json : ∀ j, json_of_bson (bson_of_json j) = j.
Proof.
  intros j. induction j as [| | | | |l IH|l IH] using json_rect_nested; simpl; try done; f_equal.
  - induction IH as [|j l Hj _ IHl]; simpl; [done|]. by rewrite Hj, IHl.
  - induction IH as [|[k j] l Hj _ IHl]; simpl in *; [done|]. by rewrite Hj, IHl.
Qed.

#[export] Instance plain_bson : BsonLibs := { from_bson b := Some (json_of_bson b); to_bson j := Some (bson_of_json j) }.
#[export] Instance plain_bson_laws : BsonLaws plain_bson.
Proof.
  split.
  - intros l j [= <-]. eexists. split; [reflexivity|]. rewrite map_map. by apply map_ext.
  - intros j _ Hj. exists (bson_of_json j). split_and!; [done| |by rewrite <-(json_of_bson_of_json j) at 2]. by destruct j.
Qed.

#[export] Instance plain_tokens_of_places : ResumeTokens.
Proof.
  refine {| token_text n := show_Z (Z.of_nat n); token_place s := Z.to_nat <$> parse_Z s |}.
  intros n. rewrite parse_show_Z. simpl. by rewrite Nat2Z.id.
Defined.

(** Elasticsearch refuses the metadata fields in a body. *)
Definition no_metadata (j : json) : bool := match j with JObj l => negb (existsb (λ kv, starts_with "_" kv.1) l) | _ => true end.
#[export] Instance plain_elastic : Elastic := { es_accepts := no_metadata }.

Lemma plain_accepts_shows id d : es_accepts (search_document id d) = true.
Proof. reflexivity. Qed.

#[export] Instance plain_object_ids : ObjectIds := {
  parse_object_id s := if is_empty s then None else Some s;
  show_created_at d := match assoc "created_at" d with None | Some BNull => Some None | Some (BDateTime t) => Some (Some t) | _ => None end;
  mongo_error := "mongo"
}.

(** ** A run of the administration, two replicas and one indexer *)

Definition film (title : string) : document := [("title", BString title); ("city", BString "Pune"); ("tags", BArray [BString "live"])].

(** The form with a title and nothing else. *)
Definition form (title : string) : create_show_request :=
  CreateShowRequest MConcert title None None None None None None None None None None None None None None None None None None None None
    None None None None None None.

(** Show s0 has been recorded as change 0 under number 4, and indexed. *)
Definition catalogue : mongo :=
  Mongo {["s0" := film "Old"]} [Change ChInsert (Some "s0") (Some (film "Old"))] [] (Some 4) (Some 4) (Some (token_text 0)) (Some 4) ∅.
Definition two_replicas : search_system :=
  SearchSystem catalogue 1000 [CStart; CStart] [ICheckpoint 0] {["s0" := search_document "s0" (film "Old")]}.

Definition cdc_rounds (i n : nat) : list search_op := repeat (SyCdc i FOk) n.

(** A show is created and one removed, and one is created and updated, with a lost reply. Both
    replicas take up the creation; one crashes. The index stops before the update. *)
Definition busy_day : list search_op :=
  [SyAdmin (AdCreate "s1" "e5" (form "New")) FOk; SyAdmin (AdDelete "e6" "s0") FOk] ++
  cdc_rounds 0 5 ++ cdc_rounds 1 4 ++ [SyAdmin (AdCreate "s2" "e7" (form "Third")) FReplyLost; SyTick 5; SyCdc 1 FReplyLost; SyCdcCrash 0] ++
  [SyAdmin (AdUpdate "e8" "s2" (form "Fourth")) FOk; SyAdmin (AdCreate "s3" "e9" (form "")) FOk] ++ cdc_rounds 0 3 ++
  [SyIndexer 0 FOk; SyIndexer 0 FOk; SyIndexer 0 FReplyLost] ++ repeat (SyIndexer 0 FOk) 24.
Abbreviation busy_end := (search_run JNull busy_day two_replicas).

Lemma two_replicas_start : start_ok 4 two_replicas.
Proof. split; [reflexivity|reflexivity|constructor|repeat constructor]. Qed.

Lemma search_outbox_is_numbered_witness :
  ∃ new, mg_outbox (sy_mongo busy_end) = new ∧
    get_i64 "sequence" <$> filter (λ d, is_filed d = true) new = [Some 5; Some 6; Some 7; Some 8].
Proof.
  destruct (search_outbox_is_numbered JNull 4 busy_day two_replicas two_replicas_start) as (new & H1 & H2 & _).
  exists new. split; [exact H1|]. etransitivity; [exact H2|]. vm_compute. reflexivity.
Defined.

Lemma jget_json_of_bson key l : jget key (json_of_bson (BDocument l)) = json_of_bson <$> assoc key l.
Proof. simpl. induction l as [|[k b] l IH]; [done|]. simpl. case_decide || case_bool_decide; [done|exact IH]. Qed.

Lemma mirrored_title d entry title : mirrored (Some d) entry → set_to_something "deleted_at" d = false →
  assoc "title" d = Some (BString title) → assoc "title" (tail d) = Some (BString title) →
  ∃ j, entry = Some j ∧ jget "title" j = Some (JStr title).
Proof.
  unfold mirrored. intros H Hdel Ht Ht'. rewrite Hdel in H. destruct H as (d' & j & Hd' & [= <-] & ->). eexists. split; [done|].
  assert (assoc "title" d' = Some (BString title)) as Hd by (destruct Hd' as [->|[oid ->]]; done). pose proof (jget_json_of_bson "title" d') as Hj. rewrite Hd in Hj. exact Hj.
Qed.
Lemma mirrored_removed d entry : mirrored (Some d) entry → set_to_something "deleted_at" d = true → entry = None.
Proof. unfold mirrored. intros H Hdel. by rewrite Hdel in H. Qed.

(** No event of the show is above the checkpoint. *)
Definition all_marked (id : string) (last : Z) (l : list document) : bool :=
  forallb (λ d, negb (about id d) || (default 0 (get_i64 "sequence" d) <=? last)) l.
Lemma all_marked_spec id last l : all_marked id last l = true →
  ∀ d n, d ∈ l → get_str "show_id" d = Some id → get_i64 "sequence" d = Some n → n ≤ last.
Proof.
  unfold all_marked. rewrite forallb_forall. intros H d n Hd%list_elem_of_In Hid Hn. specialize (H d Hd). unfold about in H.
  rewrite Hid, Hn, bool_decide_true in H by done. by apply Z.leb_le in H.
Qed.

Lemma search_index_mirrors_catalogue_witness :
  (∃ entry, sy_index busy_end !! "s1" = Some entry ∧ jget "title" entry = Some (JStr "New")) ∧ sy_index busy_end !! "s0" = None.
Proof.
  assert (∀ id, id ∈ ["s0"; "s1"] → all_marked id (last_sequence (sy_mongo busy_end)) (mg_outbox (sy_mongo busy_end)) = true) as Hm.
  { apply Forall_forall. apply Forall_cons. split; [vm_compute; reflexivity|]. apply Forall_singleton. vm_compute. reflexivity. }
  pose proof (Hm "s0" ltac:(by left)) as H0. pose proof (Hm "s1" ltac:(right; by left)) as H1.
  assert (counter (sy_mongo busy_end) ≤ last_lsn (sy_mongo busy_end)) as Hc by (vm_compute; discriminate).
  pose proof (search_index_mirrors_catalogue JNull 4 0 busy_day two_replicas "s0" two_replicas_start eq_refl eq_refl Hc (all_marked_spec _ _ _ H0)) as M0.
  pose proof (search_index_mirrors_catalogue JNull 4 0 busy_day two_replicas "s1" two_replicas_start eq_refl eq_refl Hc (all_marked_spec _ _ _ H1)) as M1.
  split.
  - destruct M1 as [M1|(_ & M1 & _)]; [|by vm_compute in M1].
    assert (∃ d, mg_shows (sy_mongo busy_end) !! "s1" = Some d ∧ set_to_something "deleted_at" d = false ∧ assoc "title" d = Some (BString "New") ∧
      assoc "title" (tail d) = Some (BString "New")) as (d & Hd & Hdel & Ht & Ht') by (eexists; split_and!; vm_compute; reflexivity).
    rewrite Hd in M1. by apply (mirrored_title d).
  - destruct M0 as [M0|(_ & M0 & _)]; [|by vm_compute in M0].
    assert (∃ d, mg_shows (sy_mongo busy_end) !! "s0" = Some d ∧ set_to_something "deleted_at" d = true) as (d & Hd & Hdel)
      by (eexists; split; vm_compute; reflexivity).
    rewrite Hd in M0. by apply (mirrored_removed d).
Defined.
