(* ===== verification/SearchLive.v ===== *)
(** * SearchLive: the index catches up *)

From stdpp Require Import gmap strings.
From S2P Require Import Prelude Text Redis Db ShowModel Mongo Shows Cdc SearchIndex SearchSync SearchMirror SearchProps.

#[local] Open Scope string_scope.
#[local] Open Scope list_scope.
#[local] Open Scope Z_scope.

Section live.
Context {HB : BsonLibs} {HL : BsonLaws HB} {HT : ResumeTokens} {HE : Elastic} {HO : ObjectIds}.
Variable carrier : json.

Fixpoint indexer_steps (n : nat) (w : indexer) (m : mongo) (x : gmap string json) : indexer * mongo * gmap string json :=
  match n with
  | O => (w, m, x)
  | S n => let '(w, m, x) := indexer_step FOk w m x in indexer_steps n w m x
  end.

(** An event that the search server reads and Elasticsearch accepts. *)
Definition acceptable (d : document) : Prop := ∃ e, parse_claimed_event d = Some e ∧
  (cs_operation e = "delete" ∨ cs_operation e = "upsert" ∧ ∃ doc, cs_document e = Some doc ∧ es_accepts doc = true).

Lemma acceptable_applied d : acceptable d → ∃ e, parse_claimed_event d = Some e ∧ ∀ x, is_Some (apply_event e x).
Proof.
  intros (e & He & H). exists e. split; [done|]. intros x. unfold apply_event. destruct H as [-> | (-> & doc & -> & Hdoc)]; simpl; [by eexists|].
  rewrite Hdoc. by eexists.
Qed.

Lemma indexer_steps_inv n c0 old new m x0 x w a b : mg_outbox m = old ++ new → Forall (λ d, ∃ n, get_i64 "sequence" d = Some n ∧ n ≤ c0) old →
  numbered c0 new → index_inv c0 new m x0 x w a b →
  let '(w', m', x') := indexer_steps n w m x in (∃ a' b', index_inv c0 new m' x0 x' w' a' b') ∧ mg_outbox m' = old ++ new.
Proof.
  intros Ho Hold Hnum. revert w m x a b Ho. induction n as [|n IH]; intros w m x a b Ho Hx; simpl; [split; [by exists a, b|done]|].
  pose proof (indexer_step_inv c0 old new m x0 x w a b FOk Ho Hold Hnum Hx) as Hs. pose proof (indexer_step_frame FOk w m x) as Hf.
  destruct (indexer_step FOk w m x) as [[w1 m1] x1]. destruct Hs as (a1 & b1 & Hx1). destruct Hf as (_ & _ & Hf & _).
  apply (IH w1 m1 x1 a1 b1); [congruence|done].
Qed.

Lemma indexer_steps_plus n1 n2 w m x : indexer_steps (n1 + n2) w m x = let '(w, m, x) := indexer_steps n1 w m x in indexer_steps n2 w m x.
Proof. revert w m x. induction n1 as [|n1 IH]; intros w m x; simpl; [done|]. destruct (indexer_step FOk w m x) as [[w1 m1] x1]. apply IH. Qed.

(** Four steps for an event. *)
Lemma index_one c0 old new m x0 x f a b d : mg_outbox m = old ++ new → Forall (λ d, ∃ n, get_i64 "sequence" d = Some n ∧ n ≤ c0) old →
  numbered c0 new → index_inv c0 new m x0 x (ICheckpoint f) a b → new !! a = Some d → acceptable d →
  ∃ m' x', indexer_steps 4 (ICheckpoint f) m x = (ICheckpoint 0, m', x') ∧ mg_outbox m' = old ++ new ∧
    ∃ b', index_inv c0 new m' x0 x' (ICheckpoint 0) (S a) b'.
Proof.
  intros Ho Hold Hnum Hx Hd (e & He & Hap)%acceptable_applied. pose proof (indexer_steps_inv 4 _ _ _ _ _ _ _ _ _ Ho Hold Hnum Hx) as Hi.
  pose proof (ix_last _ _ _ _ _ _ _ _ Hx) as Hlast. destruct (Hap x) as [x' Hx'].
  assert (indexer_steps 4 (ICheckpoint f) m x = (ICheckpoint 0, with_indexed (cs_sequence e) m, x')) as H4.
  { cbn [indexer_steps indexer_step]. rewrite (candidate_numbered c0 old new m a) by done. rewrite Hd, He. cbn [indexer_step]. by rewrite Hx'. }
  rewrite H4 in *. destruct Hi as ((a' & b' & Hx2) & Ho2). eexists _, _. split; [done|]. split; [done|]. exists b'.
  pose proof (ix_last _ _ _ _ _ _ _ _ Hx2) as Hl2. destruct (claimed_number d e _ He (Hnum a d Hd)) as (Hs & _).
  unfold last_sequence in Hl2. simpl in Hl2. by replace (S a) with a' by lia.
Qed.

Lemma index_all l c0 old new m x0 x f a b : mg_outbox m = old ++ new → Forall (λ d, ∃ n, get_i64 "sequence" d = Some n ∧ n ≤ c0) old →
  numbered c0 new → index_inv c0 new m x0 x (ICheckpoint f) a b → Forall acceptable (drop a new) → (a + l)%nat = length new →
  let '(_, m', _) := indexer_steps (4 * l) (ICheckpoint f) m x in last_sequence m' = c0 + Z.of_nat (length new).
Proof.
  intros Ho Hold Hnum. revert m x f a b Ho. induction l as [|l IH]; intros m x f a b Ho Hx Hacc Hl.
  - simpl. rewrite (ix_last _ _ _ _ _ _ _ _ Hx). lia.
  - destruct (lookup_lt_is_Some_2 new a) as [d Hd]; [lia|]. rewrite (drop_S _ _ _ Hd) in Hacc. apply Forall_cons in Hacc as [Hd1 Hacc].
    destruct (index_one _ _ _ _ _ _ _ _ _ _ Ho Hold Hnum Hx Hd Hd1) as (m1 & x1 & H4 & Ho1 & b1 & Hx1).
    replace (4 * S l)%nat with (4 + 4 * l)%nat by lia. rewrite indexer_steps_plus, H4. apply (IH m1 x1 0 (S a) b1); try done. lia.
Qed.

Lemma run_indexer_rounds n s w : sy_indexers s = [w] →
  let '(w', m', x') := indexer_steps n w (sy_mongo s) (sy_index s) in
  search_run carrier (repeat (SyIndexer 0 FOk) n) s = SearchSystem m' (sy_now s) (sy_cdc s) [w'] x'.
Proof.
  revert s w. induction n as [|n IH]; intros s w Hw; simpl; [by destruct s; simpl in *; subst|].
  rewrite Hw. simpl. destruct (indexer_step FOk w (sy_mongo s) (sy_index s)) as [[w1 m1] x1].
  apply (IH (SearchSystem m1 (sy_now s) (sy_cdc s) [w1] x1) w1 eq_refl).
Qed.
Lemma indexer_steps_frame n w m x : let '(_, m', _) := indexer_steps n w m x in
  mg_shows m' = mg_shows m ∧ mg_outbox m' = mg_outbox m ∧ mg_lsn m' = mg_lsn m ∧ mg_sequence m' = mg_sequence m.
Proof.
  revert w m x. induction n as [|n IH]; intros w m x; simpl; [done|]. pose proof (indexer_step_frame FOk w m x) as Hf.
  destruct (indexer_step FOk w m x) as [[w1 m1] x1]. specialize (IH w1 m1 x1). destruct (indexer_steps n w1 m1 x1) as [[w2 m2] x2].
  destruct Hf as (?&?&?&?&?&?), IH as (?&?&?&?). split_and!; congruence.
Qed.

(** A restart of the search server, and four steps for every event above the checkpoint. *)
Definition recovery (m : mongo) : list search_op :=
  SyIndexerCrash 0 :: repeat (SyIndexer 0 FOk) (4 * Z.to_nat (last_lsn m - last_sequence m)).

Lemma recovers c0 old shows x0 s : Forall (λ d, ∃ n, get_i64 "sequence" d = Some n ∧ n ≤ c0) old → mirror_inv c0 old shows x0 s →
  let m := sy_mongo s in let s' := search_run carrier (recovery m) s in
  counter m ≤ last_lsn m →
  (∀ d n, d ∈ mg_outbox m → get_i64 "sequence" d = Some n → last_sequence m < n → acceptable d) →
  mg_shows (sy_mongo s') = mg_shows m ∧ mg_outbox (sy_mongo s') = mg_outbox m ∧ last_sequence (sy_mongo s') = last_lsn m ∧
  counter (sy_mongo s') ≤ last_lsn (sy_mongo s') ∧ Forall (λ d, ∃ n, get_i64 "sequence" d = Some n ∧ n ≤ last_lsn m) (mg_outbox m).
Proof.
  intros Hold (new & H & Hcase) m s' Hc Hacc. fold m in H, Hcase. pose proof (oi_outbox _ _ _ _ _ H) as Ho.
  destruct Hcase as [(d & Hd & Hnf)|(Hf & _ & w & a & b & Hw & Hx)].
  { destruct (oi_recorded _ _ _ _ _ H d Hd Hnf) as (p & c & i & n & _ & _ & _ & _ & _ & Hn). lia. }
  destruct (filed_numbered _ _ _ _ _ H Hf) as [Hnum Hlen]. pose proof (ix_last _ _ _ _ _ _ _ _ Hx) as Hlast.
  pose proof (ix_order _ _ _ _ _ _ _ _ Hx) as Hab.
  apply (index_inv_checkpoint _ _ _ _ _ _ _ _ 0) in Hx. set (l := (length new - a)%nat).
  assert (Forall acceptable (drop a new)) as Hdrop.
  { apply Forall_lookup. intros i d Hd. rewrite lookup_drop in Hd. apply (Hacc d (c0 + 1 + Z.of_nat (a + i))); [|by apply Hnum|lia].
    rewrite Ho. apply elem_of_app. right. by eapply list_elem_of_lookup_2. }
  pose proof (index_all l c0 old new m _ _ 0 a b Ho Hold Hnum Hx Hdrop ltac:(unfold l; lia)) as Hall.
  set (s0 := SearchSystem m (sy_now s) (sy_cdc s) [ICheckpoint 0] (sy_index s)).
  pose proof (run_indexer_rounds (4 * l) s0 _ eq_refl) as Hrun. pose proof (indexer_steps_frame (4 * l) (ICheckpoint 0) m (sy_index s)) as Hfr.
  simpl sy_mongo in Hrun. simpl sy_index in Hrun. destruct (indexer_steps (4 * l) _ _ _) as [[w' m'] x'].
  assert (s' = SearchSystem m' (sy_now s) (sy_cdc s) [w'] x') as ->.
  { unfold s', recovery. replace (Z.to_nat (last_lsn m - last_sequence m)) with l by (unfold l; lia).
    change (search_run carrier (?o :: ?os) ?t) with (search_run carrier os (search_step carrier o t)). simpl search_step. by rewrite Hw. }
  destruct Hfr as (Hsh & Hout & Hlsn & Hsq). simpl. split; [done|]. split; [done|]. split; [lia|]. split.
  - unfold counter, last_lsn. by rewrite Hsq, Hlsn.
  - rewrite Ho. apply Forall_app. split.
    + eapply Forall_impl; [exact Hold|]. intros d (n & Hn & Hle). exists n. split; [done|lia].
    + apply Forall_lookup. intros i d Hd. eexists. split; [by apply Hnum|]. apply lookup_lt_Some in Hd. lia.
Qed.

(** C7: the index catches up with the administration.  In the system of
    [search_index_mirrors_catalogue], after any run in which the change data capture has not
    drawn more numbers than the administration has filed events: if the search server can read
    the events above its checkpoint and Elasticsearch accepts their documents, a restart of the
    search server and four steps without faults for each of these events bring every show of the
    index to the catalogue. *)
Theorem search_catches_up c0 f os s : start_ok c0 s → sy_indexers s = [ICheckpoint f] → last_sequence (sy_mongo s) = c0 →
  let s1 := search_run carrier os s in let m := sy_mongo s1 in
  counter m ≤ last_lsn m →
  (∀ d n, d ∈ mg_outbox m → get_i64 "sequence" d = Some n → last_sequence m < n → acceptable d) →
  let s2 := search_run carrier (recovery m) s1 in
  mg_shows (sy_mongo s2) = mg_shows m ∧ last_sequence (sy_mongo s2) = last_lsn m ∧
  ∀ id, mirrored (mg_shows m !! id) (sy_index s2 !! id) ∨
    (∀ d n, d ∈ mg_outbox m → get_str "show_id" d = Some id → get_i64 "sequence" d = Some n → n ≤ c0) ∧
      mg_shows m !! id = mg_shows (sy_mongo s) !! id ∧ sy_index s2 !! id = sy_index s !! id.
Proof.
  intros Hs Hi Hl s1 m Hc Hacc s2. pose proof (so_outbox _ _ Hs) as Hold.
  assert (mirror_inv c0 (mg_outbox (sy_mongo s)) (mg_shows (sy_mongo s)) (sy_index s) s1) as H1.
  { eapply mirror_run; [exact Hold|]. eapply mirror_start; [done|exact Hi|by eexists|done]. }
  destruct (recovers _ _ _ _ _ Hold H1 Hc Hacc) as (Hsh & Hout & Hlast & Hcl & Hbelow). split; [done|]. split; [done|].
  pose proof (mirror_run carrier c0 _ _ _ (recovery m) s1 Hold H1) as H2. intros id.
  pose proof (mirror_inv_index c0 _ _ _ _ id Hold H2 Hcl) as H3. fold m s1 s2 in Hsh, Hout, Hlast, Hbelow, H3. rewrite Hsh, Hout in H3. apply H3.
  intros d n Hd _ Hn. rewrite Forall_forall in Hbelow. destruct (Hbelow d Hd) as (k & Hk & Hle). rewrite Hn in Hk. injection Hk as ->.
  change (k ≤ last_sequence (sy_mongo s2)). by rewrite Hlast.
Qed.
End live.

(** ** A concrete run *)

Definition one_of_each : search_system :=
  SearchSystem catalogue 1000 [CStart] [ICheckpoint 0] {["s0" := search_document "s0" (film "Old")]}.

(** A show is created, one removed, one created in a transaction whose reply is lost; the search
    server loses a reply of Elasticsearch, and crashes. *)
Definition rough_day : list search_op :=
  [SyAdmin (AdCreate "s1" "e5" (form "New")) FOk; SyAdmin (AdDelete "e6" "s0") FOk] ++ cdc_rounds 0 4 ++
  [SyIndexer 0 FOk; SyIndexer 0 FOk; SyIndexer 0 FReplyLost; SyCdcCrash 0; SyIndexerCrash 0; SyIndexer 0 FDown;
   SyAdmin (AdCreate "s2" "e7" (form "Third")) FReplyLost].
Abbreviation rough_end := (search_run JNull rough_day one_of_each).

Lemma one_of_each_start : start_ok 4 one_of_each.
Proof. split; [reflexivity|reflexivity|constructor|repeat constructor]. Qed.

Definition acceptableb (d : document) : bool :=
  match parse_claimed_event d with
  | Some e => bool_decide (cs_operation e = "delete") ||
      bool_decide (cs_operation e = "upsert") && match cs_document e with Some doc => es_accepts doc | None => false end
  | None => false
  end.
Lemma acceptableb_spec l : forallb acceptableb l = true → ∀ d, d ∈ l → acceptable d.
Proof.
  rewrite forallb_forall. intros H d Hd%list_elem_of_In. specialize (H d Hd). unfold acceptableb in H.
  destruct (parse_claimed_event d) as [e|] eqn:He; [|done]. exists e. split; [done|].
  apply orb_true_iff in H as [H%bool_decide_eq_true|[Hop%bool_decide_eq_true H]%andb_true_iff]; [by left|right].
  split; [done|]. destruct (cs_document e) as [doc|]; [|done]. by exists doc.
Qed.

Lemma search_catches_up_witness :
  let s2 := search_run JNull (recovery (sy_mongo rough_end)) rough_end in
  last_sequence (sy_mongo s2) = 7 ∧ sy_index s2 !! "s0" = None ∧
  ∃ entry, sy_index s2 !! "s2" = Some entry ∧ jget "title" entry = Some (JStr "Third").
Proof.
  intros s2. assert (counter (sy_mongo rough_end) ≤ last_lsn (sy_mongo rough_end)) as Hc by (vm_compute; discriminate).
  assert (forallb acceptableb (mg_outbox (sy_mongo rough_end)) = true) as Ha by (vm_compute; reflexivity).
  destruct (search_catches_up JNull 4 0 rough_day one_of_each one_of_each_start eq_refl eq_refl Hc (λ d _ Hd _ _, acceptableb_spec _ Ha d Hd))
    as (_ & Hl & Hm). fold s2 in Hl, Hm.
  split; [rewrite Hl; vm_compute; reflexivity|]. split.
  - destruct (Hm "s0") as [M|(_ & M & _)]; [|by vm_compute in M].
    assert (∃ d, mg_shows (sy_mongo rough_end) !! "s0" = Some d ∧ set_to_something "deleted_at" d = true) as (d & Hd & Hdel)
      by (eexists; split; vm_compute; reflexivity).
    rewrite Hd in M. by apply (mirrored_removed d).
  - destruct (Hm "s2") as [M|(_ & M & _)]; [|by vm_compute in M].
    assert (∃ d, mg_shows (sy_mongo rough_end) !! "s2" = Some d ∧ set_to_something "deleted_at" d = false ∧ assoc "title" d = Some (BString "Third") ∧
      assoc "title" (tail d) = Some (BString "Third")) as (d & Hd & Hdel & Ht & Ht') by (eexists; split_and!; vm_compute; reflexivity).
    rewrite Hd in M. by apply (mirrored_title d).
Defined.
