(* ===== verification/SearchBlocks.v ===== *)
(** * SearchBlocks: what stops the search pipeline, and the administration with it *)

From Stdlib Require Import Sorted.
From stdpp Require Import gmap strings.
From S2P Require Import Prelude Text Redis RedisMem SeatLock Db HttpPayments ShowModel Mongo Shows Cdc SearchIndex SearchSync SearchMirror SearchProps.

#[local] Open Scope string_scope.
#[local] Open Scope list_scope.
#[local] Open Scope Z_scope.

(** ** An untitled show *)

Section untitled.
Context {HB : BsonLibs} {HL : BsonLaws HB} {HT : ResumeTokens} {HE : Elastic} {HO : ObjectIds}.
Variable carrier : json.

(** A replacement by a document that makes no event. *)
Definition untitled_at (p : nat) (m : mongo) : Prop :=
  ∃ id d, mg_changes m !! p = Some (Change ChReplace (Some id) (Some d)) ∧
    (string_field d "title" = None ∨ string_field d "title" = Some EmptyString) ∧ set_to_something "deleted_at" d = false.

Lemma untitled_no_event p m c : untitled_at p m → mg_changes m !! p = Some c → event_at carrier p c m = None.
Proof.
  intros (id & d & Hp & Ht & Hd). rewrite Hp. intros [= <-]. unfold event_at, change_to_outbox_event. simpl. rewrite Hd.
  by destruct Ht as [-> | ->].
Qed.

(** Nobody is past the place. *)
Definition before_place (p : nat) (w : cdc_worker) : Prop :=
  match w with
  | CStart => True
  | CResume t => ∃ q, t = Some (token_text q) ∧ (q < p)%nat
  | CWatch r => (r ≤ p)%nat
  | CRecord r e | CAllocate r e | CInsert r e _ | CCheckpoint r e => (r < p)%nat ∧ so_source_resume_token e = token_text r
  end.

Definition event_before (p : nat) (d : document) : Prop := ∃ r, event_id d = Some (inl (token_text r)) ∧ (r < p)%nat.

Record stopped_at (p : nat) (out : list document) (m : mongo) (ws : list cdc_worker) : Prop := {
  sp_change : untitled_at p m;
  sp_checkpoint : ∃ q, mg_checkpoint m = Some (token_text q) ∧ (q < p)%nat;
  sp_workers : Forall (before_place p) ws;
  sp_outbox : Forall (λ d, d ∈ out ∨ event_before p d ∨ is_filed d = true) (mg_outbox m)
}.

Lemma untitled_same p m m' : mg_changes m' = mg_changes m → untitled_at p m → untitled_at p m'.
Proof. unfold untitled_at. by intros ->. Qed.

Lemma event_document_id e n t d : event_document e n t = Some d → event_id d = Some (inl (so_source_resume_token e)).
Proof.
  unfold event_document. destruct (to_bson _); [|done]. simpl. destruct (match so_document e with Some _ => _ | None => _ end); [|done].
  by intros [= <-].
Qed.

Lemma stopped_step p out m ws i w fl now : stopped_at p out m ws → ws !! i = Some w →
  let '(w', m') := cdc_step carrier fl now w m in stopped_at p out m' (<[i := w']> ws).
Proof.
  intros [H1 H2 H3 H4] Hi. pose proof H3 as Hw. rewrite Forall_lookup in Hw. specialize (Hw _ _ Hi).
  assert (∀ w', before_place p w' → stopped_at p out m (<[i := w']> ws)) as Hstay by (intros w' Hw'; split; try done; by apply Forall_insert).
  assert (∀ w' fl, before_place p w' → before_place p (after fl w')) as Haf by (by intros ? []).
  destruct w as [|[t|]|r|r e|r e|r e n|r e]; cbn [cdc_step].
  - apply Hstay, Haf. simpl. destruct H2 as (q & -> & Hq). by exists q.
  - destruct Hw as (q & [= ->] & Hq). rewrite place_of_token. apply Hstay, Haf. simpl. lia.
  - by destruct Hw as (q & ? & _).
  - simpl in Hw. destruct (mg_changes m !! r) as [c|] eqn:Hc; [|by apply Hstay, Haf].
    destruct (event_at carrier r c m) as [e|] eqn:He; [|by apply Hstay]. apply Hstay, Haf. simpl.
    destruct (decide (r = p)) as [->|]; [by rewrite (untitled_no_event p m c) in He|]. split; [lia|]. by apply event_at_spec in He as [-> _].
  - apply Hstay, Haf. by destruct (has_event _ m).
  - unfold next_sequence. destruct fl, (increment (mg_sequence m)) as [n|]; simpl; try (by apply Hstay);
      (split; [by apply (untitled_same p m)|done|by apply Forall_insert|done]).
  - destruct (event_document e n now) as [d|] eqn:Hd; [|by apply Hstay].
    assert (event_before p d) as Hb by (exists r; destruct Hw as [Hr <-]; split; [by apply event_document_id in Hd|done]).
    unfold insert_event. destruct (existsb (clashes d) (mg_outbox m)), fl; simpl; try (by apply Hstay);
      (split; [by apply (untitled_same p m)|done|by apply Forall_insert|]); apply Forall_app; (split; [done|constructor; [by right; left|done]]).
  - destruct Hw as [Hr He]. destruct fl; simpl; [|by apply Hstay|];
      (split; [by apply (untitled_same p m)| |apply Forall_insert; simpl; [done|lia || done]|done]); exists r; simpl; by rewrite He.
Qed.

Lemma stopped_admin p out m m' ws o now : admin_tx o now m = Some m' → stopped_at p out m ws → stopped_at p out m' ws.
Proof.
  intros (event & id & op & doc & [_ _ C3 [l C4] (_ & C5 & _) _ _])%admin_tx_committed [H1 H2 H3 H4]. split; [| |done|].
  - destruct H1 as (id0 & d & Hp & Hd). exists id0, d. split; [|done]. rewrite C4. by apply lookup_app_l_Some.
  - by rewrite C5.
  - rewrite C3. apply Forall_app. split; [done|]. constructor; [by right; right|done].
Qed.

Lemma stopped_run p out os s : stopped_at p out (sy_mongo s) (sy_cdc s) →
  stopped_at p out (sy_mongo (search_run carrier os s)) (sy_cdc (search_run carrier os s)).
Proof.
  revert s. induction os as [|o os IH]; intros s H; [done|]. apply IH. clear IH. destruct o as [o fl|i fl|i|i fl|i|ms]; simpl; try done.
  - destruct (admin_tx o (sy_now s) (sy_mongo s)) as [m'|] eqn:E; [|by destruct fl].
    assert (stopped_at p out m' (sy_cdc s)) as Hn by (by eapply stopped_admin). by destruct fl.
  - destruct (sy_cdc s !! i) as [w|] eqn:Hw; [|done]. pose proof (stopped_step _ _ _ _ _ _ fl (sy_now s) H Hw) as Hs.
    by destruct (cdc_step _ _ _ _ _).
  - destruct H as [H1 H2 H3 H4]. split; try done. by apply Forall_insert.
  - destruct (sy_indexers s !! i) as [w|]; [|done]. pose proof (indexer_step_frame fl w (sy_mongo s) (sy_index s)) as Hf.
    destruct (indexer_step _ _ _ _) as [[w' m'] x']. destruct Hf as (_ & Hs & Ho & _ & _ & Hq). simpl. destruct H as [H1 H2 H3 H4].
    split; rewrite ?Hq, ?Ho; try done. by apply (untitled_same p (sy_mongo s)).
Qed.

(** One update without a title stops the change data capture for good.  The administration
    does not ask for a title when it updates a show; after such an update, whatever the
    administration and the replicas do, no replica ever records that change or a later one: the
    checkpoint stays before it, and so do all the events that are added to the outbox, those of
    the administration apart. *)
Theorem untitled_update_stops_stream oid event s now m m' s0 os q :
  update_show_tx oid event s now m = Some m' → is_Some (mg_shows m !! oid) → sh_title s = EmptyString → sh_deleted_at s = None →
  mg_checkpoint m = Some (token_text q) → (q < length (mg_changes m))%nat →
  sy_mongo s0 = m' → Forall (λ w, w = CStart) (sy_cdc s0) →
  let p := length (mg_changes m) in
  let m1 := sy_mongo (search_run carrier os s0) in
  (∃ q', mg_checkpoint m1 = Some (token_text q') ∧ (q' < p)%nat) ∧ Forall (λ d, d ∈ mg_outbox m' ∨ event_before p d ∨ is_filed d = true) (mg_outbox m1).
Proof.
  intros Htx [d Hd] Ht Hdel Hq Hqp <- Hw p.
  assert (untitled_at p (sy_mongo s0) ∧ mg_checkpoint (sy_mongo s0) = mg_checkpoint m) as [H1 H2].
  { revert Htx. unfold update_show_tx, file_event, next_lsn, replace_show. rewrite Hd. destruct (increment _) as [n|]; [|done]. simpl.
    unfold insert_event. destruct (existsb _ _); [done|]. intros [= <-]. split; [|done]. exists oid, (show_document s). split; [|split].
    - simpl. by rewrite lookup_app_r, Nat.sub_diag by done.
    - right. unfold string_field, get_str, show_document. destruct (sh_id s); simpl; by rewrite Ht.
    - unfold set_to_something, show_document. rewrite Hdel. destruct (sh_id s), (sh_category_ids s); reflexivity. }
  assert (stopped_at p (mg_outbox (sy_mongo s0)) (sy_mongo s0) (sy_cdc s0)) as H.
  { split; [done|rewrite H2; by exists q| |]; [eapply Forall_impl; [exact Hw|]; by intros w ->|].
    apply Forall_forall. intros d0 Hd0. by left. }
  destruct (stopped_run p _ os s0 H) as [_ H3 _ H4]. done.
Qed.
End untitled.

(** ** Two counters for one unique index *)

(** The next number of the administration is taken. *)
Definition number_taken (m : mongo) : Prop := ∃ d, d ∈ mg_outbox m ∧ get_i64 "sequence" d = Some (default 0 (mg_lsn m) + 1).

Lemma file_event_taken event oid op d now m m0 : number_taken m → mg_outbox m0 = mg_outbox m → mg_lsn m0 = mg_lsn m →
  file_event event oid op d now m0 = None.
Proof.
  intros (x & Hx & Hs) Ho Hl. unfold file_event, next_lsn, increment. rewrite Hl. case_bool_decide; [|done]. simpl.
  unfold insert_event. rewrite (proj2 (existsb_exists _ _)); [done|]. exists x. simpl. rewrite Ho. split; [by apply list_elem_of_In|].
  unfold clashes. apply orb_true_iff. right. apply bool_decide_eq_true. rewrite Hs. done.
Qed.

Section administration.
Context {D : Type} `{!RedisServer D} {HO : ObjectIds}.

(** Was the request answered with success. *)
Definition admin_run (o : admin_op) : St (catalog D) bool :=
  match o with
  | AdCreate oid event body => r ← create_show oid event body; mret (match r with inl _ => true | inr _ => false end)
  | AdUpdate event id body => r ← update_show event id body; mret (match r with inl _ => true | inr _ => false end)
  | AdDelete event id => r ← delete_show event id; mret (match r with inl _ => true | inr _ => false end)
  end.
Fixpoint admin_requests (os : list admin_op) : St (catalog D) (list bool) :=
  match os with
  | [] => mret []
  | o :: os => ok ← admin_run o; oks ← admin_requests os; mret (ok :: oks)
  end.

Definition mongo_is (m : mongo) (c : catalog D) : Prop := ct_mongo c = m.

Lemma keeps_on_redis {A} m (f : St (world D) A) : keeps (mongo_is m) (on_redis f).
Proof. intros c Hc. unfold on_redis, on_site, zoom. by destruct (redis_of f (ct_site c)). Qed.

Lemma hoare_refused m tx : tx m = None → hoare (mongo_is m) (mongo_run tx) (λ ok c, ok = false ∧ mongo_is m c).
Proof.
  intros Htx c Hc. unfold mongo_run. pose proof (keeps_on_redis m draw c Hc) as H. destruct (on_redis draw c) as [fl c1].
  unfold mongo_is in *. simpl in H. rewrite H, Htx. by destruct fl.
Qed.
Lemma keeps_mongo_query {A} m (q : mongo → A) : keeps (mongo_is m) (mongo_query q).
Proof. intros c Hc. unfold mongo_query. pose proof (keeps_on_redis m draw c Hc) as H. by destruct (on_redis draw c). Qed.

(** A transaction that is refused ends its request with an error. *)
Lemma hoare_refused_then {A} m tx (k : St (catalog D) (A + app_error)) e : tx m = None →
  hoare (mongo_is m) (ok ← mongo_run tx; if negb ok then mret (inr e) else k) (λ r c, (∃ e, r = inr e) ∧ mongo_is m c).
Proof.
  intros Htx. eapply hoare_bind; [by apply hoare_refused|]. intros ok. apply hoare_pure. intros ->. simpl.
  intros c Hc. split; [by exists e|done].
Qed.

Lemma hoare_mongo_query {A} m (q : mongo → A) : hoare (mongo_is m) (mongo_query q) (λ r c, (r = None ∨ r = Some (q m)) ∧ mongo_is m c).
Proof.
  intros c Hc. unfold mongo_query. pose proof (keeps_on_redis m draw c Hc) as H. destruct (on_redis draw c) as [fl c1].
  unfold mongo_is in *. simpl in H. rewrite H. destruct fl; simpl; auto.
Qed.
Lemma lists_keep_mongo m : keeps (mongo_is m) invalidate_lists.
Proof. apply keeps_bind; [apply keeps_on_redis|]. intros _. apply keeps_on_redis. Qed.
Lemma show_keeps_mongo m id : keeps (mongo_is m) (invalidate_show id).
Proof. do 2 (apply keeps_bind; [apply keeps_on_redis|]; intros _). apply lists_keep_mongo. Qed.

(** A handler commits the transaction of its request, or nothing; it answers with success only
    after the commit. *)
Definition committed_or_not (m : mongo) (tx : Z → option mongo) (ok : bool) (c : catalog D) : Prop :=
  (ok = false ∧ mongo_is m c) ∨ ∃ now, tx now = Some (ct_mongo c).

Lemma hoare_mongo_commit {A B} m tx now (k : St (catalog D) A) (a : B) e : (∀ m', keeps (mongo_is m') k) →
  hoare (mongo_is m) (ok ← mongo_run (λ m, tx now m); if negb ok then mret (inr (internal e)) else k ;; mret (inl a))
    (λ r c, committed_or_not m (λ now, tx now m) (match r with inl _ => true | inr _ => false end) c).
Proof.
  intros Hk. eapply (hoare_bind _ (λ ok c, (ok = false ∧ mongo_is m c) ∨ tx now m = Some (ct_mongo c))).
  - intros c Hc. unfold mongo_run. pose proof (keeps_on_redis m draw c Hc) as H. destruct (on_redis draw c) as [fl c1].
    unfold mongo_is in *. simpl in H. rewrite H. destruct fl, (tx now m) as [m'|]; simpl; auto.
  - intros ok c [[-> Hc]|Hc]; simpl; [by left|]. destruct ok; simpl; [|by right; exists now].
    pose proof (Hk (ct_mongo c) c eq_refl) as H. unfold mbind, St_bind. destruct (k c) as [x c1]. simpl in *. right. exists now. by rewrite H.
Qed.

Lemma admin_run_commits m o : hoare (mongo_is m) (admin_run o) (committed_or_not m (λ now, admin_tx o now m)).
Proof.
  assert (∀ {A} (h : St (catalog D) (A + app_error)) tx, hoare (mongo_is m) h (λ r c, committed_or_not m tx (match r with inl _ => true | inr _ => false end) c) →
    hoare (mongo_is m) (r ← h; mret (match r with inl _ => true | inr _ => false end)) (committed_or_not m tx)) as Hans.
  { intros A h tx Hh. eapply hoare_bind; [exact Hh|]. by intros r c Hc. }
  assert (∀ {A} (e : A + app_error) tx, (∃ x, e = inr x) → hoare (mongo_is m) (mret e) (λ r c, committed_or_not m tx (match r with inl _ => true | inr _ => false end) c)) as Hrefuse.
  { intros A e tx [x ->] c Hc. by left. }
  destruct o as [oid event body|event id body|event id]; apply Hans; cbn [admin_tx].
  - unfold create_show. destruct (is_empty _) eqn:E; [by apply Hrefuse; eexists|].
    eapply hoare_bind; [apply keeps_on_redis|]. intros now. eapply hoare_conseq; [done| |eapply (hoare_mongo_commit m (λ now m, create_show_tx oid event (with_created_at now (show_of_request body now)) now m))]; [done|].
    intros m'. apply lists_keep_mongo.
  - unfold update_show. destruct (parse_object_id id) as [oid|] eqn:Ei; [|by apply Hrefuse; eexists].
    eapply hoare_bind; [apply hoare_mongo_query|]. intros found. apply hoare_pure. intros [-> | ->]; [by apply Hrefuse; eexists|].
    destruct (mg_shows m !! oid) as [d|] eqn:Hd; simpl; [|by apply Hrefuse; eexists].
    destruct (show_created_at d) as [created_at|] eqn:Hcr; [|by apply Hrefuse; eexists].
    eapply hoare_bind; [apply keeps_on_redis|]. intros now.
    eapply hoare_conseq; [done| |eapply (hoare_mongo_commit m (λ now m, update_show_tx oid event (with_identity oid created_at (show_of_request body now)) now m))].
    + intros r c [Hc|[now' Hc]]; [by left|right]. exists now'. simpl. rewrite Hd. simpl. by rewrite Hcr.
    + intros m'. apply show_keeps_mongo.
  - unfold delete_show. destruct (parse_object_id id) as [oid|] eqn:Ei; [|by apply Hrefuse; eexists].
    eapply hoare_bind; [apply keeps_on_redis|]. intros now.
    eapply hoare_conseq; [done| |eapply (hoare_mongo_commit m (λ now m, delete_show_tx oid event now m))]; [done|]. intros m'. apply show_keeps_mongo.
Qed.

Lemma admin_refused m o : number_taken m → hoare (mongo_is m) (admin_run o) (λ ok c, ok = false ∧ mongo_is m c).
Proof.
  intros Hm. assert (∀ {A} (h : St (catalog D) (A + app_error)), hoare (mongo_is m) h (λ r c, (∃ e, r = inr e) ∧ mongo_is m c) →
    hoare (mongo_is m) (r ← h; mret (match r with inl _ => true | inr _ => false end)) (λ ok c, ok = false ∧ mongo_is m c)) as Hans.
  { intros A h Hh. eapply hoare_bind; [exact Hh|]. intros r. apply hoare_pure. by intros [e ->] c Hc. }
  destruct o as [oid event body|event id body|event id]; apply Hans.
  - unfold create_show. destruct (is_empty _); [intros c Hc; split; [by eexists|done]|].
    eapply hoare_bind; [apply keeps_on_redis|]. intros now. apply hoare_refused_then.
    unfold create_show_tx, insert_show. destruct (mg_shows m !! oid); [done|]. simpl. by apply (file_event_taken _ _ _ _ _ m).
  - unfold update_show. destruct (parse_object_id id) as [oid|]; [|intros c Hc; split; [by eexists|done]].
    eapply hoare_bind; [apply keeps_mongo_query|]. intros [[[created_at|]|]|]; try (intros c Hc; split; [by eexists|done]).
    eapply hoare_bind; [apply keeps_on_redis|]. intros now. apply hoare_refused_then.
    unfold update_show_tx, replace_show. by destruct (mg_shows m !! oid); apply (file_event_taken _ _ _ _ _ m).
  - unfold delete_show. destruct (parse_object_id id) as [oid|]; [|intros c Hc; split; [by eexists|done]].
    eapply hoare_bind; [apply keeps_on_redis|]. intros now. apply hoare_refused_then.
    unfold delete_show_tx, update_show_fields. by destruct (mg_shows m !! oid); apply (file_event_taken _ _ _ _ _ m).
Qed.

Lemma admin_all_refused m os : number_taken m →
  hoare (mongo_is m) (admin_requests os) (λ oks c, Forall (λ ok, ok = false) oks ∧ mongo_is m c).
Proof.
  intros Hm. induction os as [|o os IH]; [by intros c Hc; split; [constructor|]|]. simpl.
  eapply hoare_bind; [by apply admin_refused|]. intros ok. apply hoare_pure. intros ->.
  eapply hoare_bind; [exact IH|]. intros oks. apply hoare_pure. intros Hoks c Hc. split; [by constructor|done].
Qed.
End administration.

Section burnt.
Context {HB : BsonLibs} {HL : BsonLaws HB} {HT : ResumeTokens} {D : Type} `{!RedisServer D} {HO : ObjectIds}.
Variable carrier : json.

(** A lost reply, and the next round up to the insertion. *)
Definition lost_number : list fault := [FReplyLost; FOk; FOk; FOk; FOk; FOk; FOk].

Lemma has_no_event id m : (∀ d, d ∈ mg_outbox m → event_id d ≠ Some (inl id)) → has_event id m = false.
Proof.
  intros H. apply not_true_iff_false. intros (d & Hd%list_elem_of_In & He%bool_decide_eq_true)%existsb_exists. by apply (H d).
Qed.

Lemma insert_fresh d m id n : event_id d = Some id → get_i64 "sequence" d = Some n →
  (∀ x, x ∈ mg_outbox m → event_id x ≠ Some id ∧ ∃ k, get_i64 "sequence" x = Some k ∧ k < n) →
  insert_event d m = Some (with_events (λ l, l ++ [d]) m).
Proof.
  intros Hid Hn H. unfold insert_event. destruct (existsb _ _) eqn:E; [|done]. exfalso.
  apply existsb_exists in E as (x & Hx%list_elem_of_In & Hc). destruct (H x Hx) as (He & k & Hk & Hlt).
  unfold clashes in Hc. rewrite Hid, Hn, Hk in Hc. apply orb_true_iff in Hc as [Hc%bool_decide_eq_true|Hc%bool_decide_eq_true]; [congruence|].
  injection Hc as ->. lia.
Qed.

(** A lost reply ends the administration of the shows.  The administration and the change data
    capture number their events with two counters, in one outbox where numbers are unique.
    Suppose that they are in step: the administration has filed number [n], the replica is
    about to take number [n] for the same change.  If the reply with that number is lost, the
    replica takes the next one in its next round, and from then on every creation, update and
    removal of a show, over any network, is answered with an error and changes nothing. *)
Theorem lost_number_ends_administration m n p c e now os cat :
  mg_lsn m = Some n → mg_sequence m = Some (n - 1) → 0 < n → n < 2 ^ 62 →
  (∀ d, d ∈ mg_outbox m → event_id d ≠ Some (inl (token_text (S p))) ∧ ∃ k, get_i64 "sequence" d = Some k ∧ k ≤ n) →
  mg_checkpoint m = Some (token_text p) → mg_changes m !! S p = Some c → event_at carrier (S p) c m = Some e →
  is_Some (to_bson carrier) →
  ct_mongo cat = (cdc_steps carrier lost_number now (CAllocate (S p) e) m).2 →
  let '(oks, cat') := admin_requests os cat in Forall (λ ok, ok = false) oks ∧ ct_mongo cat' = ct_mongo cat.
Proof.
  intros Hl Hq H0 Hn Hout Hck Hc He Htr Hcat. destruct (event_at_spec _ _ _ _ _ He) as (Htok & _ & Hsh).
  set (m1 := with_sequence n m). set (m2 := with_sequence (n + 1) m1).
  assert (next_sequence m = Some (n, m1)) as Hn1.
  { unfold next_sequence, increment. rewrite Hq. simpl. replace (n - 1 + 1) with n by lia. by rewrite bool_decide_true by (unfold in_s; lia). }
  assert (next_sequence m1 = Some (n + 1, m2)) as Hn2.
  { unfold next_sequence, increment. simpl. by rewrite bool_decide_true by (unfold in_s; lia). }
  assert (event_at carrier (S p) c m1 = Some e) as He1 by done.
  destruct (event_document_total e (n + 1) now Hsh) as [d Hd]; [by rewrite (event_at_trace _ _ _ _ _ He)|].
  destruct (event_document_spec _ _ _ _ Hsh Hd) as (Hid & Hseq & _). rewrite Htok in Hid.
  assert (insert_event d m2 = Some (with_events (λ l, l ++ [d]) m2)) as Hins.
  { apply (insert_fresh _ _ _ _ Hid Hseq). intros x Hx. destruct (Hout x Hx) as (? & k & ? & ?). split; [done|]. exists k. split; [done|lia]. }
  assert (number_taken (with_events (λ l, l ++ [d]) m2)) as Htaken.
  { exists d. split; [apply elem_of_app; right; by left|]. rewrite Hseq. simpl. by rewrite Hl. }
  unfold lost_number in Hcat. rewrite (cdc_steps_cons _ _ _ _ _ _ CStart m1) in Hcat by (cbn [cdc_step]; by rewrite Hn1).
  rewrite (cdc_steps_cons _ _ _ _ _ _ (CResume (Some (token_text p))) m1) in Hcat by (simpl; by rewrite Hck).
  rewrite (cdc_steps_cons _ _ _ _ _ _ (CWatch (S p)) m1) in Hcat by (simpl; by rewrite place_of_token).
  rewrite (cdc_steps_cons _ _ _ _ _ _ (CRecord (S p) e) m1) in Hcat by (cbn [cdc_step m1 with_sequence mg_changes]; by rewrite Hc, He1).
  rewrite (cdc_steps_cons _ _ _ _ _ _ (CAllocate (S p) e) m1) in Hcat
    by (cbn [cdc_step]; rewrite Htok, has_no_event by (intros x Hx; by apply Hout); done).
  rewrite (cdc_steps_cons _ _ _ _ _ _ (CInsert (S p) e (n + 1)) m2) in Hcat by (cbn [cdc_step]; by rewrite Hn2).
  rewrite (cdc_steps_cons _ _ _ _ _ _ (CCheckpoint (S p) e) (with_events (λ l, l ++ [d]) m2)) in Hcat by (cbn [cdc_step]; by rewrite Hd, Hins).
  cbn [cdc_steps snd] in Hcat. pose proof (admin_all_refused _ os Htaken cat Hcat) as H. destruct (admin_requests os cat) as [oks cat'].
  simpl in H. rewrite Hcat. exact H.
Qed.

End burnt.

(** ** A document with its identifier *)

Section metadata.
Context {HB : BsonLibs} {HL : BsonLaws HB} {HT : ResumeTokens} {HE : Elastic} {HO : ObjectIds}.
Variable carrier : json.

Definition number (d : document) : Z := default 0 (get_i64 "sequence" d).

Lemma first_above_snoc last l d n : get_i64 "sequence" d = Some n → last < n →
  first_above last (l ++ [d]) =
    match first_above last l with None => Some d | Some z => if n <? number z then Some d else Some z end.
Proof.
  intros Hd Hn. assert (number d = n) as Hnum by (unfold number; by rewrite Hd).
  induction l as [|y l IH]; simpl; [by rewrite Hd, (proj2 (Z.ltb_lt _ _))|].
  destruct (get_i64 "sequence" y) as [k|] eqn:Hy; [|done]. destruct (last <? k); [|done]. rewrite IH. clear IH.
  assert (number y = k) as Hyn by (unfold number; by rewrite Hy).
  destruct (first_above last l) as [z|]; fold (number d); [|by rewrite Hnum, Hyn].
  fold (number z). destruct (n <? number z) eqn:E1; fold (number d); fold (number z);
    destruct (number z <? k) eqn:E2; rewrite ?Hnum, ?Hyn, ?E1; try done.
  - by rewrite (proj2 (Z.ltb_lt _ _)) by lia.
  - by rewrite (proj2 (Z.ltb_ge _ _)) by lia.
Qed.

Lemma first_above_in last l d : first_above last l = Some d → d ∈ l ∧ ∃ n, get_i64 "sequence" d = Some n ∧ last < n.
Proof.
  revert d. induction l as [|y l IH]; simpl; [done|]. intros d. destruct (get_i64 "sequence" y) as [k|] eqn:Hy.
  - destruct (last <? k) eqn:Hk; [|intros [??]%IH; split; [by right|done]]. apply Z.ltb_lt in Hk.
    destruct (first_above last l) as [z|]; [|intros [= <-]; split; [by left|by exists k]].
    destruct (_ <? k); intros [= <-]; [destruct (IH z eq_refl); split; [by right|done]|split; [by left|by exists k]].
  - intros [??]%IH. split; [by right|done].
Qed.

(** The event that is never applied stays the next one. *)
Definition number_from (n : Z) (w : cdc_worker) : Prop := match w with CInsert _ _ k => n ≤ k | _ => True end.
Definition before_apply (last : Z) (d : document) (i : indexer) : Prop :=
  match i with
  | ICheckpoint _ => True
  | IClaim _ l => l = last
  | IApply _ e => parse_claimed_event d = Some e
  | IMark _ => False
  end.

Record index_stopped (d : document) (n last : Z) (x : gmap string json) (s : search_system) : Prop := {
  is_candidate : candidate last (sy_mongo s) = Some d;
  is_number : get_i64 "sequence" d = Some n;
  is_last_sequence : last_sequence (sy_mongo s) = last;
  is_counter : n - 1 ≤ counter (sy_mongo s);
  is_lsn : n ≤ last_lsn (sy_mongo s);
  is_cdc : Forall (number_from n) (sy_cdc s);
  is_indexers : Forall (before_apply last d) (sy_indexers s);
  is_index : sy_index s = x
}.

Lemma stopped_insert d n last d' k m m' : candidate last m = Some d → get_i64 "sequence" d = Some n →
  get_i64 "sequence" d' = Some k → n ≤ k → insert_event d' m = Some m' →
  candidate last m' = Some d ∧ mg_sequence m' = mg_sequence m ∧ mg_indexed m' = mg_indexed m ∧ mg_lsn m' = mg_lsn m.
Proof.
  intros Hc Hn Hk Hle. destruct (first_above_in _ _ _ Hc) as [Hin (n' & Hn' & Hlt)]. assert (n' = n) as -> by congruence.
  unfold insert_event. destruct (existsb (clashes d') (mg_outbox m)) eqn:E; [done|]. intros [= <-].
  assert (k ≠ n) as Hne.
  { intros ->. apply not_true_iff_false in E. apply E. apply existsb_exists. exists d. split; [by apply list_elem_of_In|].
    unfold clashes. apply orb_true_iff. right. apply bool_decide_eq_true. congruence. }
  split; [|done]. unfold candidate in *. simpl. rewrite (first_above_snoc _ _ _ k) by (done || lia). rewrite Hc.
  unfold number. rewrite Hn. simpl. by rewrite (proj2 (Z.ltb_ge _ _)) by lia.
Qed.

Lemma event_document_number e n t d : event_document e n t = Some d → get_i64 "sequence" d = Some n.
Proof.
  unfold event_document. destruct (to_bson _); [|done]. simpl. destruct (match so_document e with Some _ => _ | None => _ end); [|done].
  by intros [= <-].
Qed.

(** What a replica does to the candidate, the counter and its own number. *)
Lemma stopped_cdc d n last m w fl now : candidate last m = Some d → get_i64 "sequence" d = Some n → n - 1 ≤ counter m → number_from n w →
  let '(w', m') := cdc_step carrier fl now w m in
  candidate last m' = Some d ∧ n - 1 ≤ counter m' ∧ mg_indexed m' = mg_indexed m ∧ mg_lsn m' = mg_lsn m ∧ number_from n w'.
Proof.
  intros Hc Hn Hcn Hw.
  assert (∀ w', number_from n w' → candidate last m = Some d ∧ n - 1 ≤ counter m ∧ mg_indexed m = mg_indexed m ∧ mg_lsn m = mg_lsn m ∧ number_from n w') as Hstay by done.
  assert (∀ w' fl, number_from n w' → number_from n (after fl w')) as Haf by (by intros ? []).
  destruct w as [|[t|]|r|r e|r e|r e k|r e]; cbn [cdc_step]; try (by apply Hstay, Haf).
  - destruct (token_place t); [by apply Hstay, Haf|by apply Hstay].
  - destruct (mg_changes m !! r) as [c|]; [|by apply Hstay, Haf]. destruct (event_at _ _ _ _); [by apply Hstay, Haf|by apply Hstay].
  - apply Hstay, Haf. by destruct (has_event _ m).
  - unfold next_sequence, increment. fold (counter m). destruct fl; [|by apply Hstay|]; (case_bool_decide; [|by apply Hstay]); simpl;
      unfold counter in *; simpl; (split; [done|]); (split; [lia|]); (split; [done|]); (split; [done|]); [lia|done].
  - destruct (event_document e k now) as [d'|] eqn:Hd; [|by apply Hstay]. simpl in Hw.
    destruct (insert_event d' m) as [m'|] eqn:Hins.
    + destruct (stopped_insert d n last d' k m m' Hc Hn (event_document_number _ _ _ _ Hd) Hw Hins) as (H1 & H2 & H3 & H4).
      destruct fl; [|by apply Hstay|]; unfold counter in *; rewrite H2; split_and!; done.
    + destruct fl; [|by apply Hstay|]; by apply Hstay.
  - by destruct fl; split_and!.
Qed.

Lemma index_stopped_step d n last x s o :
  (∀ e x, parse_claimed_event d = Some e → apply_event e x = None) →
  index_stopped d n last x s → index_stopped d n last x (search_step carrier o s).
Proof.
  intros Hap H. pose proof H as [H1 H2 H3 H4 H8 H5 H6 H7]. destruct o as [o fl|i fl|i|i fl|i|ms]; simpl; try done.
  - destruct (admin_tx o (sy_now s) (sy_mongo s)) as [m'|] eqn:E; [|by destruct fl].
    assert (index_stopped d n last x (SearchSystem m' (sy_now s) (sy_cdc s) (sy_indexers s) (sy_index s))) as Hn; [|by destruct fl].
    apply admin_tx_committed in E as (event & id & op & doc & [C1 C2 C3 _ (C4 & _ & C5) _ _]).
    set (m2 := with_events (λ l, l ++ [search_event event (last_lsn (sy_mongo s) + 1) id op doc (sy_now s)]) (sy_mongo s)).
    assert (insert_event (search_event event (last_lsn (sy_mongo s) + 1) id op doc (sy_now s)) (sy_mongo s) = Some m2) as Hins
      by (unfold insert_event; by rewrite C2).
    destruct (stopped_insert d n last (search_event event (last_lsn (sy_mongo s) + 1) id op doc (sy_now s)) (last_lsn (sy_mongo s) + 1)
      (sy_mongo s) m2 H1 H2 eq_refl ltac:(lia) Hins) as (Hcand & _).
    split; simpl; try done.
    + unfold candidate. by rewrite C3.
    + unfold last_sequence. by rewrite C5.
    + unfold counter. by rewrite C4.
    + lia.
  - destruct (sy_cdc s !! i) as [w|] eqn:Hw; [|done]. pose proof H5 as Hn. rewrite Forall_lookup in Hn. specialize (Hn _ _ Hw).
    pose proof (stopped_cdc d n last (sy_mongo s) w fl (sy_now s) H1 H2 H4 Hn) as Hs. destruct (cdc_step _ _ _ _ _) as [w' m'].
    destruct Hs as (? & ? & Hm & Hl & ?).
    split; simpl; try done; [by unfold last_sequence; rewrite Hm|by unfold last_lsn; rewrite Hl|by apply Forall_insert].
  - split; simpl; try done. by apply Forall_insert.
  - destruct (sy_indexers s !! i) as [w|] eqn:Hw; [|done]. pose proof H6 as Hn. rewrite Forall_lookup in Hn. specialize (Hn _ _ Hw).
    assert (∀ w', before_apply last d w' → index_stopped d n last x (SearchSystem (sy_mongo s) (sy_now s) (sy_cdc s) (<[i:=w']> (sy_indexers s)) (sy_index s))) as Hstay.
    { intros w' Hw'. split; simpl; try done. by apply Forall_insert. }
    destruct w as [f|f l|f e|e]; simpl in *; [by destruct fl; apply Hstay| |rewrite (Hap e) by done; by destruct fl; apply Hstay|done].
    subst l. rewrite H1. destruct fl; try by apply Hstay. destruct (parse_claimed_event d) eqn:E; by apply Hstay.
  - split; simpl; try done. by apply Forall_insert.
Qed.

Lemma search_event_claimed event n oid l now e : parse_claimed_event (search_event event n oid "upsert" (BDocument l) now) = Some e →
  cs_operation e = "upsert" ∧ ∃ j, from_bson (BDocument l) = Some j ∧ cs_document e = Some j.
Proof.
  unfold parse_claimed_event. change (assoc "document" (search_event event n oid "upsert" (BDocument l) now)) with (Some (BDocument l)).
  simpl. destruct (from_bson (BDocument l)) as [j|]; [|done]. simpl. intros [= <-]. split; [done|]. by exists j.
Qed.

(** The first update of a show stops the index.  The event that an update files holds the
    show with its identifier as the field [_id], which Elasticsearch does not allow in a
    document.  When that event is the next one, no instance of the search server, whatever
    happens, changes the index or the checkpoint any more. *)
Theorem update_of_show_stops_index oid event sh created_at now m m' s os :
  (∀ l, "_id" ∈ map fst l → es_accepts (JObj l) = false) →
  update_show_tx oid event (with_identity oid created_at sh) now m = Some m' →
  Forall (λ d, number d ≤ last_sequence m) (mg_outbox m) → last_sequence m ≤ default 0 (mg_lsn m) ≤ counter m →
  sy_mongo s = m' → Forall (λ w, w = CStart) (sy_cdc s) → Forall (λ i, i = ICheckpoint 0) (sy_indexers s) →
  let s' := search_run carrier os s in
  sy_index s' = sy_index s ∧ last_sequence (sy_mongo s') = last_sequence (sy_mongo s).
Proof.
  intros Href Htx Hall Hl <- Hcdc Hidx s'. set (sh' := with_identity oid created_at sh) in *. set (n := default 0 (mg_lsn m) + 1).
  set (d := search_event event n oid "upsert" (BDocument (show_document sh')) now).
  set (m0 := replace_show oid (show_document sh') m) in *.
  assert (mg_outbox m0 = mg_outbox m ∧ mg_lsn m0 = mg_lsn m ∧ counter m0 = counter m ∧ mg_indexed m0 = mg_indexed m) as (Ho & Hlsn & Hc & Hix)
    by (unfold m0, replace_show; by destruct (mg_shows m !! oid)).
  assert (sy_mongo s = with_events (λ l, l ++ [d]) (with_lsn n m0)) as Hm.
  { revert Htx. unfold update_show_tx, file_event, next_lsn, increment. fold m0. rewrite Hlsn. case_bool_decide; [|done]. simpl.
    unfold insert_event. destruct (existsb _ _); [done|]. by intros [= <-]. }
  assert (last_sequence (sy_mongo s) = last_sequence m) as Hls by (rewrite Hm; unfold last_sequence; simpl; by rewrite Hix).
  assert (index_stopped d n (last_sequence m) (sy_index s) s) as H.
  { split; try done.
    - rewrite Hm. unfold candidate. simpl. rewrite Ho, (first_above_snoc _ _ _ n) by (done || (unfold n; lia)).
      destruct (first_above _ (mg_outbox m)) as [z|] eqn:Hz; [|done]. destruct (first_above_in _ _ _ Hz) as [Hin (k & Hk & Hlt)].
      rewrite Forall_forall in Hall. specialize (Hall z Hin). unfold number in Hall. rewrite Hk in Hall. simpl in Hall. lia.
    - rewrite Hm. change (n - 1 ≤ counter m0). rewrite Hc. unfold n. lia.
    - rewrite Hm. unfold last_lsn. simpl. lia.
    - eapply Forall_impl; [exact Hcdc|]. by intros w ->.
    - eapply Forall_impl; [exact Hidx|]. by intros w ->. }
  assert (∀ e x, parse_claimed_event d = Some e → apply_event e x = None) as Hap.
  { intros e x (Hop & j & Hj & Hdoc)%search_event_claimed. unfold apply_event. rewrite decide_True, Hdoc by done. simpl.
    destruct (from_bson_keys _ _ Hj) as (l' & -> & Hk). rewrite Href; [done|]. rewrite Hk. unfold show_document. simpl. by left. }
  assert (∀ os t, index_stopped d n (last_sequence m) (sy_index s) t → index_stopped d n (last_sequence m) (sy_index s) (search_run carrier os t)) as Hrun.
  { clear -Hap HL. intros os. induction os as [|o os IH]; intros t Ht; [done|]. apply IH. by apply index_stopped_step. }
  destruct (Hrun os s H) as [_ _ Hl' _ _ _ _ Hx']. split; [done|]. unfold s'. by rewrite Hl', Hls.
Qed.
End metadata.

(** ** Concrete runs *)

(** Show s0 is number 4; a replica and an indexer are up to date. *)
Definition retitled (title : string) : option mongo :=
  update_show_tx "s0" "e5" (with_identity "s0" (Some 1) (show_of_request (form title) 2000)) 2000 catalogue.
Definition after_update (title : string) : search_system := SearchSystem (default catalogue (retitled title)) 3000 [CStart] [ICheckpoint 0] ∅.

(** The administration gives the show its title back and creates another; nothing moves any more. *)
Definition long_wait : list search_op :=
  cdc_rounds 0 20 ++ [SyAdmin (AdUpdate "e6" "s0" (form "Named")) FOk; SyAdmin (AdCreate "s1" "e7" (form "Next")) FOk; SyCdcCrash 0] ++
  cdc_rounds 0 20 ++ repeat (SyIndexer 0 FOk) 20.

Lemma untitled_update_stops_stream_witness :
  ∃ q, mg_checkpoint (sy_mongo (search_run JNull long_wait (after_update EmptyString))) = Some (token_text q) ∧ (q < 1)%nat.
Proof.
  pose proof (untitled_update_stops_stream JNull "s0" "e5" (with_identity "s0" (Some 1) (show_of_request (form EmptyString) 2000)) 2000 catalogue
    (default catalogue (retitled EmptyString)) (after_update EmptyString) long_wait 0 eq_refl ltac:(vm_compute; by eexists) eq_refl eq_refl eq_refl
    ltac:(vm_compute; lia) eq_refl ltac:(repeat constructor)) as [H _].
  exact H.
Defined.

Lemma no_metadata_refuses l : "_id" ∈ map fst l → es_accepts (JObj l) = false.
Proof.
  intros (kv & Hk & Hin)%list_elem_of_fmap. unfold es_accepts, plain_elastic, no_metadata. apply negb_false_iff.
  apply existsb_exists. exists kv. split; [by apply list_elem_of_In|]. by rewrite <-Hk.
Qed.

Lemma update_of_show_stops_index_witness :
  sy_index (search_run JNull long_wait (after_update "Better")) = ∅ ∧
  last_sequence (sy_mongo (search_run JNull long_wait (after_update "Better"))) = 4.
Proof.
  pose proof (update_of_show_stops_index JNull "s0" "e5" (show_of_request (form "Better") 2000) (Some 1) 2000 catalogue
    (default catalogue (retitled "Better")) (after_update "Better") long_wait no_metadata_refuses eq_refl ltac:(constructor)
    ltac:(vm_compute; split; discriminate) eq_refl ltac:(repeat constructor) ltac:(repeat constructor)) as [H1 H2].
  split; [exact H1|]. rewrite H2. vm_compute. reflexivity.
Defined.

(** The administration has created s1 as number 5, and the replica is about to number its change. *)
Definition in_step : mongo :=
  Mongo {["s0" := film "Old"; "s1" := film "New"]} [Change ChInsert (Some "s0") (Some (film "Old")); Change ChInsert (Some "s1") (Some (film "New"))]
    [search_event "e5" 5 "s1" "upsert" (BDocument (film "New")) 1500] (Some 5) (Some 4) (Some (token_text 0)) (Some 5) ∅.
Definition replica_event : search_outbox_event :=
  SearchOutboxEvent (token_text 1) "s1" "upsert" (Some "New") (Some "Pune") None None (Some (search_document "s1" (film "New"))) JNull.
Definition no_rows : db := Db [] [] [] [] [] [] ∅ ∅ [] 1 1 ∅ 1 1 1.
Definition administration (m : mongo) : catalog mem_redis := Catalog (Site no_rows (mem_world 1 5000) (λ k, Z.of_nat k) 0) m.
Definition stuck : mongo := (cdc_steps JNull lost_number 5000 (CAllocate 1 replica_event) in_step).2.
Definition requests : list admin_op := [AdCreate "s2" "e6" (form "Another"); AdUpdate "e7" "s0" (form "Better"); AdDelete "e8" "s1"].

Lemma lost_number_ends_administration_witness :
  let '(oks, c) := admin_requests requests (administration stuck) in Forall (λ ok, ok = false) oks ∧ ct_mongo c = stuck.
Proof.
  pose proof (lost_number_ends_administration JNull in_step 5 0 (Change ChInsert (Some "s1") (Some (film "New"))) replica_event 5000 requests
    (administration stuck) eq_refl eq_refl ltac:(lia) ltac:(lia)) as H.
  refine (H _ eq_refl eq_refl eq_refl ltac:(by eexists) eq_refl).
  intros d [-> | Hd]%elem_of_cons; [|by apply elem_of_nil in Hd]. split; [discriminate|]. exists 5. split; [reflexivity|lia].
Defined.
