(* ===== verification/Layouts.v ===== *)
(** * Layouts: the seat layouts of the administration
    ([apps/http-server/src/api/admin/layouts.rs])

    The values of a hash map come in an order of its own: [order] rearranges a list. *)

From stdpp Require Import gmap sorting.
From S2P Require Import Prelude Text Redis RedisMem SeatLock Db HttpPayments Schedules SchedulesPlans.

#[local] Open Scope string_scope.
#[local] Open Scope list_scope.
#[local] Open Scope Z_scope.

Record create_layout_request := CreateLayoutRequest {
  cl_name : string; cl_show_type : show_type; cl_description : option string; cl_layout_shape : string
}.
Record seat_input := SeatInput {
  si_row_letter : string; si_seat_number : Z; si_seat_class : seat_class; si_x_pos : option Z; si_y_pos : option Z;
  si_block_name : option string
}.
Record update_layout_request := UpdateLayoutRequest {
  ul_name : option string; ul_description : option string; ul_seats : option (list seat_input)
}.

(** ** Statements *)

Definition set_layout (f : layout_row → layout_row) (id : Z) (d : db) : db := with_layouts (alter f id) d.
Definition set_name (n : string) (r : layout_row) : layout_row :=
  SeatLayout (ly_id r) n (ly_show_type r) (ly_description r) (ly_created_at r) (ly_deleted_at r) (ly_layout_shape r).
Definition set_description (t : string) (r : layout_row) : layout_row :=
  SeatLayout (ly_id r) (ly_name r) (ly_show_type r) (Some t) (ly_created_at r) (ly_deleted_at r) (ly_layout_shape r).
Definition set_deleted_at (t : Z) (r : layout_row) : layout_row :=
  SeatLayout (ly_id r) (ly_name r) (ly_show_type r) (ly_description r) (ly_created_at r) (Some t) (ly_layout_shape r).

Definition insert_layout (body : create_layout_request) (now : Z) (d : db) : option (layout_row * db) :=
  let '(id, d) := next_layout_id d in
  if negb (varchar 120 (cl_name body)) || negb (varchar 50 (cl_layout_shape body)) then None
  else
    let r := SeatLayout id (cl_name body) (cl_show_type body) (cl_description body) now None (cl_layout_shape body) in
    Some (r, with_layouts <[id := r]> d).

(** The statement touches no row when there is no such layout; a name that is too long
    fails it when there is. *)
Definition update_name (id : Z) (name : string) (d : db) : option (unit * db) :=
  if bool_decide (id ∈ dom (d_layouts d)) && negb (varchar 120 name) then None else Some (tt, set_layout (set_name name) id d).
Definition update_description (id : Z) (t : string) (d : db) : option (unit * db) := Some (tt, set_layout (set_description t) id d).
Definition delete_layout_stmt (id now : Z) (d : db) : option (unit * db) := Some (tt, set_layout (set_deleted_at now) id d).

(** The unique constraint [seat_layout_seats_unique_seat]: a seat without a block clashes with
    none. *)
Definition layout_seat_conflict (layout_id : Z) (s : seat_input) (r : layout_seat_row) : bool :=
  (ls_layout_id r =? layout_id) && bool_decide (is_Some (si_block_name s)) && bool_decide (ls_block_name r = si_block_name s) &&
  bool_decide (ls_row_letter r = si_row_letter s) && (ls_seat_number r =? si_seat_number s).

Definition insert_layout_seat (layout_id : Z) (s : seat_input) (d : db) : option (list layout_seat_row * db) :=
  if negb (varchar 4 (si_row_letter s)) || negb (opt_varchar 100 (si_block_name s)) || negb (bool_decide (layout_id ∈ dom (d_layouts d)))
  then None
  else
    let '(id, d) := next_layout_seat_id d in
    if existsb (layout_seat_conflict layout_id s) (d_layout_seats d) then Some ([], d)
    else
      let r := LayoutSeatRow id layout_id (si_row_letter s) (si_seat_number s) (si_seat_class s) (si_x_pos s) (si_y_pos s) (si_block_name s) in
      Some ([r], with_layout_seats (λ l, l ++ [r]) d).

(** [INSERT .. ON CONFLICT DO NOTHING RETURNING *]. *)
Fixpoint insert_layout_seats (layout_id : Z) (ss : list seat_input) (d : db) : option (list layout_seat_row * db) :=
  match ss with
  | [] => Some ([], d)
  | s :: ss =>
      '(r, d) ← insert_layout_seat layout_id s d;
      '(rs, d) ← insert_layout_seats layout_id ss d;
      Some (r ++ rs, d)
  end.

(** [ON DELETE SET NULL] of [schedule_seats]. *)
Definition forget_layout_seat (gone : Z → bool) (r : seat_row) : seat_row :=
  match sp_layout_seat_id (ss_place r) with
  | Some l =>
      if gone l then
        let p := ss_place r in
        SeatRow (ss_id r) (ss_schedule_id r) (ss_status r) (ss_price r)
          (SeatPlace (sp_seat_index p) None (sp_source p) (sp_row_letter p) (sp_seat_number p) (sp_seat_class p))
      else r
  | None => r
  end.
Definition delete_layout_seats (layout_id : Z) (d : db) : db :=
  let gone l := existsb (λ r, (ls_id r =? l) && (ls_layout_id r =? layout_id)) (d_layout_seats d) in
  with_seats (map (forget_layout_seat gone)) (with_layout_seats (filter (λ r, ls_layout_id r ≠ layout_id)) d).

(** ** The handlers *)

(** The hash map from block, row and number to the last seat there. *)
Definition input_key (s : seat_input) : option string * string * Z := (si_block_name s, si_row_letter s, si_seat_number s).
Definition unique_seats (seats : list seat_input) : gmap (option string * string * Z) seat_input :=
  foldl (λ m s, <[input_key s := s]> m) ∅ seats.
Definition distinct_seats (order : list seat_input → list seat_input) (seats : list seat_input) : list seat_input :=
  order (map snd (map_to_list (unique_seats seats))).

Definition replace_seats_tx (order : list seat_input → list seat_input) (layout_id : Z) (seats : list seat_input) (d : db) : option (unit * db) :=
  let d := delete_layout_seats layout_id d in
  match distinct_seats order seats with
  | [] => Some (tt, d)
  | ss => '(_, d) ← insert_layout_seats layout_id ss d; Some (tt, d)
  end.

Definition newest (a b : layout_row) : Prop := ly_created_at b ≤ ly_created_at a.
#[export] Instance newest_dec a b : Decision (newest a b).
Proof. unfold newest. apply _. Defined.
Definition by_row_and_number (a b : layout_seat_row) : Prop :=
  match String.compare (ls_row_letter a) (ls_row_letter b) with Lt => True | Gt => False | Eq => ls_seat_number a ≤ ls_seat_number b end.
#[export] Instance by_row_and_number_dec a b : Decision (by_row_and_number a b).
Proof. unfold by_row_and_number. destruct (String.compare _ _); apply _. Defined.

Definition parse_show_type (s : string) : option show_type :=
  if decide (s = "Movie") then Some Movie else if decide (s = "Concert") then Some Concert
  else if decide (s = "Event") then Some Event else if decide (s = "GameEvent") then Some GameEvent else None.

Section handlers.
Context {D : Type} {HS : ScheduleLibs}.
Variable order : list seat_input → list seat_input.
Abbreviation S := (St (site D)).

Definition connected : S (unit + app_error) := conn ← db_get; check conn (internal sql_error).
Definition query {A} (q : db → A) : S (A + app_error) := or_err (internal sql_error) (db_query q).
Definition execute {A} (tx : db → option (A * db)) : S (A + app_error) := or_err (internal sql_error) (db_run tx).

Definition list_layouts (show_type : option string) : S (list layout_row + app_error) :=
  _ ←? connected;
  parsed ←? mret (match show_type with
                  | None => inl None
                  | Some st => match parse_show_type st with Some t => inl (Some t) | None => inr (bad_request "Invalid show_type") end
                  end);
  query (λ d, merge_sort newest (filter (λ r, ly_deleted_at r = None ∧ (parsed = None ∨ parsed = Some (ly_show_type r)))
                                   (map snd (map_to_list (d_layouts d))))).

(** A query that fails is answered like a layout that is not there. *)
Definition find_layout (layout_id : Z) : S (layout_row + app_error) :=
  found ← db_query (λ d, d_layouts d !! layout_id);
  mret (match default None found with Some r => inl r | None => inr (not_found "Layout not found") end).

Definition get_layout (layout_id : Z) : S (layout_row + app_error) := _ ←? connected; find_layout layout_id.

Definition get_layout_seats (layout_id : Z) : S (layout_row * list layout_seat_row + app_error) :=
  _ ←? connected;
  layout ←? find_layout layout_id;
  seats ←? query (λ d, merge_sort by_row_and_number (filter (λ r, ls_layout_id r = layout_id) (d_layout_seats d)));
  mret (inl (layout, seats)).

Definition create_layout (body : create_layout_request) : S (layout_row + app_error) :=
  if is_empty (trim (cl_name body)) then mret (inr (bad_request "name is required"))
  else
    _ ←? connected;
    now ← redis_of now_ms;
    execute (insert_layout body now).

Definition add_seats_to_layout (layout_id : Z) (seats : list seat_input) : S (list layout_seat_row + app_error) :=
  if bool_decide (seats = []) then mret (inr (bad_request "seats array must not be empty"))
  else
    _ ←? connected;
    _ ←? find_layout layout_id;
    execute (insert_layout_seats layout_id (distinct_seats order seats)).

Definition delete_layout (layout_id : Z) : S (unit + app_error) :=
  _ ←? connected;
  now ← redis_of now_ms;
  execute (delete_layout_stmt layout_id now).

Definition update_layout (layout_id : Z) (body : update_layout_request) : S (unit + app_error) :=
  _ ←? connected;
  _ ←? (match ul_name body with Some name => execute (update_name layout_id name) | None => mret (inl tt) end);
  _ ←? (match ul_description body with Some t => execute (update_description layout_id t) | None => mret (inl tt) end);
  match ul_seats body with
  | Some seats => execute (replace_seats_tx order layout_id seats)
  | None => mret (inl tt)
  end.
End handlers.

(** * Properties: what an update leaves *)

(** ** The distinct seats of a request *)

Definition input_of (r : layout_seat_row) : seat_input :=
  SeatInput (ls_row_letter r) (ls_seat_number r) (ls_seat_class r) (ls_x_pos r) (ls_y_pos r) (ls_block_name r).
Definition input_ok (s : seat_input) : bool := varchar 4 (si_row_letter s) && opt_varchar 100 (si_block_name s).

(** The last seat of a request at a key. *)
Fixpoint last_at (k : option string * string * Z) (seats : list seat_input) : option seat_input :=
  match seats with
  | [] => None
  | s :: seats => match last_at k seats with Some t => Some t | None => if decide (input_key s = k) then Some s else None end
  end.

Lemma unique_seats_lookup seats k : unique_seats seats !! k = last_at k seats.
Proof.
  unfold unique_seats. assert (∀ m : gmap _ _, foldl (λ m s, <[input_key s := s]> m) m seats !! k =
    match last_at k seats with Some t => Some t | None => m !! k end) as H.
  { induction seats as [|s seats IH]; intros m; simpl; [done|]. rewrite IH. destruct (last_at k seats); [done|].
    case_decide as Hk; [subst k; by rewrite lookup_insert_eq|by rewrite lookup_insert_ne]. }
  rewrite H. by destruct (last_at k seats).
Qed.

Lemma last_at_spec k seats s : last_at k seats = Some s → input_key s = k ∧ s ∈ seats.
Proof.
  induction seats as [|t seats IH]; simpl; [done|]. destruct (last_at k seats) as [t'|].
  - intros [= ->]. destruct (IH eq_refl). split; [done|by right].
  - case_decide; [|done]. intros [= <-]. split; [done|by left].
Qed.

Lemma unique_keys seats : NoDup (map input_key (map snd (map_to_list (unique_seats seats)))).
Proof.
  assert (map input_key (map snd (map_to_list (unique_seats seats))) = map fst (map_to_list (unique_seats seats))) as ->.
  { rewrite map_map. apply map_ext_in. intros [k s] Hin%list_elem_of_In%elem_of_map_to_list. simpl.
    rewrite unique_seats_lookup in Hin. by apply last_at_spec in Hin as [-> _]. }
  apply NoDup_fst_map_to_list.
Qed.

Lemma unique_in seats s : s ∈ map snd (map_to_list (unique_seats seats)) → s ∈ seats.
Proof.
  intros ([k t] & -> & Hin%elem_of_map_to_list)%list_elem_of_fmap. rewrite unique_seats_lookup in Hin.
  by apply last_at_spec in Hin as [_ ?].
Qed.

(** ** Insertions *)

(** The rows that a layout gets; nothing else changes but the sequence. *)
Definition rows_added (rows : list layout_seat_row) (d d' : db) : Prop :=
  d_layout_seats d' = d_layout_seats d ++ rows ∧ d_seats d' = d_seats d ∧ d_layouts d' = d_layouts d ∧ d_schedules d' = d_schedules d.

Lemma insert_distinct layout_id ss d : ss = [] ∨ layout_id ∈ dom (d_layouts d) → Forall (λ s, input_ok s = true) ss → NoDup (map input_key ss) →
  Forall (λ r, ls_layout_id r = layout_id → input_key (input_of r) ∉ map input_key ss) (d_layout_seats d) →
  ∃ rows d', insert_layout_seats layout_id ss d = Some (rows, d') ∧ rows_added rows d d' ∧ map input_of rows = ss ∧
    Forall (λ r, ls_layout_id r = layout_id) rows.
Proof.
  intros Hl Hok. revert d Hl. induction Hok as [|s ss Hs Hok IH]; intros d Hl Hnd Hfree; simpl.
  { exists [], d. unfold rows_added. by rewrite app_nil_r. }
  apply andb_true_iff in Hs as [H1 H2]. apply NoDup_cons in Hnd as [Hn Hnd]. destruct Hl as [|Hl]; [done|].
  unfold insert_layout_seat. rewrite H1, H2, bool_decide_true by done.
  cbn [negb orb next_layout_seat_id d_layout_seats].
  assert (existsb (layout_seat_conflict layout_id s) (d_layout_seats d) = false) as ->.
  { apply not_true_iff_false. intros (r & Hr%list_elem_of_In & Hc)%existsb_exists. rewrite Forall_forall in Hfree.
    unfold layout_seat_conflict in Hc. rewrite !andb_true_iff, !bool_decide_eq_true, !Z.eqb_eq in Hc. destruct Hc as [[[[Hid _] Hb] Hrow] Hno].
    apply (Hfree r Hr Hid). unfold input_key, input_of. simpl. rewrite Hb, Hrow, Hno. by left. }
  set (r := LayoutSeatRow (d_layout_seat_seq d) layout_id (si_row_letter s) (si_seat_number s) (si_seat_class s) (si_x_pos s) (si_y_pos s) (si_block_name s)).
  match goal with |- context [with_layout_seats _ ?x] => set (d1 := with_layout_seats (λ l, l ++ [r]) x) end.
  assert (input_of r = s) as Hrs by (by destruct s).
  destruct (IH d1) as (rows & d' & Hi & (Ha1 & Ha2 & Ha3 & Ha4) & Hm & Hall); [by right|done| |].
  { simpl. apply Forall_app. split.
    - eapply Forall_impl; [exact Hfree|]. simpl. intros r0 H0 Hid Hin. apply (H0 Hid). by right.
    - constructor; [|done]. intros _. by rewrite Hrs. }
  exists (r :: rows), d'. simpl. rewrite Hi. simpl. split; [done|]. split; [|by rewrite Hrs, Hm; split; [|constructor]].
  split; [rewrite Ha1; simpl; by rewrite <-app_assoc|]. done.
Qed.

(** What the rows must have to be inserted. *)
Lemma insert_needs layout_id ss d rows d' : insert_layout_seats layout_id ss d = Some (rows, d') →
  ss = [] ∨ layout_id ∈ dom (d_layouts d) ∧ Forall (λ s, input_ok s = true) ss.
Proof.
  revert d rows d'. induction ss as [|s ss IH]; intros d rows d' H; [by left|right]. simpl in H.
  destruct (insert_layout_seat layout_id s d) as [[r d1]|] eqn:Hs; [|done]. simpl in H.
  destruct (insert_layout_seats layout_id ss d1) as [[rs d2]|] eqn:Hss; [|done].
  unfold insert_layout_seat in Hs. fold (input_ok s) in Hs.
  destruct (varchar 4 (si_row_letter s)) eqn:H1, (opt_varchar 100 (si_block_name s)) eqn:H2; try done.
  case_bool_decide as Hl; [|done]. simpl in Hs. assert (d_layouts d1 = d_layouts d) as E by (destruct (existsb _ _); by injection Hs as <- <-).
  split; [done|]. constructor; [unfold input_ok; by rewrite H1, H2|]. destruct (IH _ _ _ Hss) as [->|[_ ?]]; [constructor|done].
Qed.

(** ** An update *)

(** The seats of schedules are what they were, but for the reference to the layout. *)
Definition same_but_reference (a b : seat_row) : Prop :=
  ss_id a = ss_id b ∧ ss_schedule_id a = ss_schedule_id b ∧ ss_status a = ss_status b ∧ ss_price a = ss_price b ∧
  sp_seat_index (ss_place a) = sp_seat_index (ss_place b) ∧ sp_source (ss_place a) = sp_source (ss_place b) ∧
  sp_row_letter (ss_place a) = sp_row_letter (ss_place b) ∧ sp_seat_number (ss_place a) = sp_seat_number (ss_place b) ∧
  sp_seat_class (ss_place a) = sp_seat_class (ss_place b).

Lemma forget_same gone r : same_but_reference r (forget_layout_seat gone r).
Proof. unfold forget_layout_seat. destruct (sp_layout_seat_id (ss_place r)) as [l|]; [destruct (gone l)|]; done. Qed.

Definition layout_seats (id : Z) (d : db) : list layout_seat_row := filter (λ r, ls_layout_id r = id) (d_layout_seats d).

(** The rows of a layout after an update, and what the database asks of one. *)
Definition revised (body : update_layout_request) (r : layout_row) : layout_row :=
  let r := match ul_name body with Some n => set_name n r | None => r end in
  match ul_description body with Some t => set_description t r | None => r end.
Definition seats_accepted (id : Z) (seats : list seat_input) (d : db) : Prop :=
  seats = [] ∨ id ∈ dom (d_layouts d) ∧ Forall (λ s, input_ok s = true) seats.
Definition update_accepted (id : Z) (body : update_layout_request) (d : db) : Prop :=
  (∀ n, ul_name body = Some n → id ∈ dom (d_layouts d) → varchar 120 n = true) ∧
  ∀ seats, ul_seats body = Some seats → seats_accepted id seats d.

(** The seats of the layout are the last ones of a request at each block, row and number. *)
Definition seats_replaced (id : Z) (seats : list seat_input) (d : db) : Prop :=
  map input_of (layout_seats id d) ≡ₚ map snd (map_to_list (unique_seats seats)).

(** Nothing else is touched: other layouts and their seats, schedules; seats of schedules may
    lose their reference. *)
Record rest_kept (id : Z) (d d' : db) : Prop := RestKept {
  rk_layouts : ∀ id', id' ≠ id → d_layouts d' !! id' = d_layouts d !! id';
  rk_seats : ∀ id', id' ≠ id → layout_seats id' d' = layout_seats id' d;
  rk_copies : Forall2 same_but_reference (d_seats d) (d_seats d');
  rk_schedules : d_schedules d' = d_schedules d
}.

Lemma same_refl l : Forall2 same_but_reference l l.
Proof. apply Forall_Forall2_diag, Forall_forall. done. Qed.
Lemma rest_kept_refl id d : rest_kept id d d.
Proof. split; try done. apply same_refl. Qed.
Lemma rest_kept_layouts f id d : rest_kept id d (set_layout f id d).
Proof. split; try done; [|apply same_refl]. intros id' H. simpl. by rewrite lookup_alter_ne. Qed.
Lemma rest_kept_trans id d d1 d2 : rest_kept id d d1 → rest_kept id d1 d2 → rest_kept id d d2.
Proof.
  intros [A1 A2 A3 A4] [B1 B2 B3 B4]. split.
  - intros id' H. by rewrite B1, A1.
  - intros id' H. by rewrite B2, A2.
  - refine (Forall2_trans _ _ _ _ _ _ _ A3 B3). unfold same_but_reference. intuition congruence.
  - congruence.
Qed.

Section update.
Context {D : Type} {HS : ScheduleLibs}.
Variable order : list seat_input → list seat_input.
Hypothesis order_perm : ∀ l, order l ≡ₚ l.

Lemma last_at_in s seats : s ∈ seats → is_Some (last_at (input_key s) seats).
Proof.
  induction seats as [|t seats IH]; [by intros []%elem_of_nil|]. intros [<-|Hin]%elem_of_cons; simpl.
  - destruct (last_at _ _); [by eexists|]. by rewrite decide_True by done.
  - by destruct (IH Hin) as [x ->].
Qed.

(** A seat is acceptable when the one that replaces it is: both have the same texts. *)
Lemma distinct_accepted id seats d : seats_accepted id (distinct_seats order seats) d ↔ seats_accepted id seats d.
Proof.
  assert (distinct_seats order seats ≡ₚ map snd (map_to_list (unique_seats seats))) as Hp by apply order_perm.
  assert (∀ s, s ∈ distinct_seats order seats → s ∈ seats) as Hsub by (intros s; rewrite Hp; apply unique_in).
  assert (∀ s, s ∈ seats → ∃ t, t ∈ distinct_seats order seats ∧ input_key t = input_key s) as Hback.
  { intros s Hs. destruct (last_at_in s seats Hs) as [t Ht]. exists t. split; [|by apply last_at_spec in Ht as [? _]].
    rewrite Hp. rewrite <-unique_seats_lookup in Ht. apply list_elem_of_fmap. by exists (input_key s, t); rewrite elem_of_map_to_list. }
  unfold seats_accepted. rewrite !Forall_forall. split; (intros [Hnil|[Hd Hok]]; [left|right]).
  - destruct seats as [|s seats]; [done|]. destruct (Hback s ltac:(left)) as (t & Ht & _). rewrite Hnil in Ht. by apply elem_of_nil in Ht.
  - split; [done|]. intros s Hs. destruct (Hback s Hs) as (t & Ht & [= E1 E2 _]). specialize (Hok t Ht). unfold input_ok in *. by rewrite <-E1, <-E2.
  - destruct (distinct_seats order seats) as [|t l]; [done|]. specialize (Hsub t ltac:(left)). rewrite Hnil in Hsub. by apply elem_of_nil in Hsub.
  - split; [done|]. intros t Ht. by apply Hok, Hsub.
Qed.

Lemma replace_seats id seats d :
  match replace_seats_tx order id seats d with
  | Some (_, d') => seats_accepted id seats d ∧ seats_replaced id seats d' ∧ rest_kept id d d' ∧ d_layouts d' = d_layouts d
  | None => ¬ seats_accepted id seats d
  end.
Proof.
  set (d1 := delete_layout_seats id d). pose proof (distinct_accepted id seats d) as Hd. set (ss := distinct_seats order seats) in *.
  assert (ss ≡ₚ map snd (map_to_list (unique_seats seats))) as Hss by apply order_perm.
  assert (replace_seats_tx order id seats d = ('(_, d) ← insert_layout_seats id ss d1; Some (tt, d))) as ->
    by (unfold replace_seats_tx; fold ss d1; by destruct ss).
  assert (seats_accepted id ss d → ∃ rows d', insert_layout_seats id ss d1 = Some (rows, d') ∧ rows_added rows d1 d' ∧ map input_of rows = ss ∧
    Forall (λ r, ls_layout_id r = id) rows) as Hins.
  { intros Hacc. apply insert_distinct.
    - destruct Hacc as [?|[? _]]; auto.
    - destruct Hacc as [->|[_ ?]]; [constructor|done].
    - rewrite Hss. apply unique_keys.
    - apply Forall_forall. by intros r [Hne _]%list_elem_of_filter Hr. }
  destruct (insert_layout_seats id ss d1) as [[rows d']|] eqn:E; simpl.
  2: { intros Hacc%Hd. destruct (Hins Hacc) as (? & ? & ? & _). done. }
  assert (seats_accepted id ss d) as Hacc by (by apply insert_needs in E).
  split; [by apply Hd|]. destruct (Hins Hacc) as (rows' & d'' & [= <- <-] & (Ha & Hb & Hc & He) & Hm & Hall).
  unfold seats_replaced, layout_seats. rewrite Ha. change (d_layout_seats d1) with (filter (λ r, ls_layout_id r ≠ id) (d_layout_seats d)).
  split; [|split; [split|done]].
  - rewrite filter_app, (filter_no _ (filter _ _)), (filter_every _ rows) by (done || (apply Forall_forall; by intros r [? _]%list_elem_of_filter)).
    simpl. by rewrite Hm, Hss.
  - intros id' _. by rewrite Hc.
  - intros id' Hne. unfold layout_seats. rewrite Ha, filter_app. change (d_layout_seats d1) with (filter (λ r, ls_layout_id r ≠ id) (d_layout_seats d)).
    rewrite list_filter_filter_l by congruence.
    rewrite (filter_no _ rows), app_nil_r; [done|]. eapply Forall_impl; [exact Hall|]. simpl. congruence.
  - rewrite Hb. unfold d1, delete_layout_seats. simpl. apply Forall2_fmap_r, Forall_Forall2_diag, Forall_forall. intros r _. apply forget_same.
  - done.
Qed.

(** An answer says that the statement was executed; an error may come after it. *)
Lemma executed {A} (tx : db → option (A * db)) (st : site D) : let '(r, st') := execute tx st in
  match r with inl a => tx (s_db st) = Some (a, s_db st') | inr _ => s_db st' = s_db st ∨ ∃ a, tx (s_db st) = Some (a, s_db st') end ∧
  (w_faults (s_world st) = [] → w_faults (s_world st') = [] ∧ ((∃ a, r = inl a) ↔ is_Some (tx (s_db st)))).
Proof.
  destruct st as [d [ns t fl lg] us n]. unfold execute, or_err, mbind, St_bind, db_run, redis_of, zoom. destruct fl as [|x fl]; simpl.
  - destruct (tx d) as [[a d']|]; simpl; (split; [auto|intros _; split; [done|]]); [by split; eauto|]. by split; [intros [? ?]|intros [? ?]].
  - destruct x, (tx d) as [[a d']|]; simpl; (split; [eauto|done]).
Qed.

Lemma executed_if {X} (o : option X) (f : X → db → option (unit * db)) (st : site D) :
  let '(r, st') := match o with Some x => execute (f x) | None => mret (inl tt) end st in
  let tx := match o with Some x => f x | None => λ d, Some (tt, d) end in
  match r with inl a => tx (s_db st) = Some (a, s_db st') | inr _ => s_db st' = s_db st ∨ ∃ a, tx (s_db st) = Some (a, s_db st') end ∧
  (w_faults (s_world st) = [] → w_faults (s_world st') = [] ∧ ((∃ a, r = inl a) ↔ is_Some (tx (s_db st)))).
Proof.
  destruct o as [x|]; [exact (executed (f x) st)|]. simpl. split; [done|]. intros H. split; [done|]. split; [by eexists|by exists tt].
Qed.

(** The row of the layout is rewritten, its seats are not touched. *)
Definition row_revised (f : layout_row → layout_row) (id : Z) (d d' : db) : Prop :=
  d_layouts d' = alter f id (d_layouts d) ∧ d_layout_seats d' = d_layout_seats d ∧ rest_kept id d d'.

Lemma row_not_revised id d : row_revised (λ r, r) id d d.
Proof. split; [|split; [done|apply rest_kept_refl]]. symmetry. apply map_eq. intros i. rewrite lookup_alter. case_decide; [|done]. subst. by destruct (d_layouts d !! i). Qed.

Lemma row_revised_twice f g id d d1 d2 : row_revised f id d d1 → row_revised g id d1 d2 → row_revised (λ r, g (f r)) id d d2.
Proof.
  intros (A1 & A2 & A3) (B1 & B2 & B3). split; [|split; [congruence|by eapply rest_kept_trans]]. rewrite B1, A1. apply alter_alter_eq.
Qed.

Definition name_tx (id : Z) (body : update_layout_request) : db → option (unit * db) :=
  match ul_name body with Some n => update_name id n | None => λ d, Some (tt, d) end.
Definition description_tx (id : Z) (body : update_layout_request) : db → option (unit * db) :=
  match ul_description body with Some t => update_description id t | None => λ d, Some (tt, d) end.
Definition seats_tx (id : Z) (body : update_layout_request) : db → option (unit * db) :=
  match ul_seats body with Some seats => replace_seats_tx order id seats | None => λ d, Some (tt, d) end.

Lemma name_tx_spec id body d :
  match name_tx id body d with
  | Some (_, d') => row_revised (λ r, match ul_name body with Some n => set_name n r | None => r end) id d d'
  | None => ∃ n, ul_name body = Some n ∧ id ∈ dom (d_layouts d) ∧ varchar 120 n = false
  end ∧
  (is_Some (name_tx id body d) ↔ ∀ n, ul_name body = Some n → id ∈ dom (d_layouts d) → varchar 120 n = true).
Proof.
  unfold name_tx. destruct (ul_name body) as [n|]; [|split; [apply row_not_revised|split; [done|by eexists]]]. unfold update_name.
  case_bool_decide as Hd; simpl.
  - destruct (varchar 120 n) eqn:E; simpl.
    + split; [split; [done|split; [done|apply rest_kept_layouts]]|]. split; [intros _ ? [= <-] _; exact E|by eexists].
    + split; [by exists n|]. split; [by intros [? ?]|intros H]. specialize (H n eq_refl Hd). congruence.
  - split; [split; [done|split; [done|apply rest_kept_layouts]]|]. split; [done|by eexists].
Qed.

Lemma description_tx_spec id body d : ∃ d', description_tx id body d = Some (tt, d') ∧
  row_revised (λ r, match ul_description body with Some t => set_description t r | None => r end) id d d'.
Proof.
  unfold description_tx. destruct (ul_description body) as [t|]; (eexists; split; [done|]); [|apply row_not_revised].
  split; [done|split; [done|apply rest_kept_layouts]].
Qed.

Lemma seats_tx_spec id body d :
  match seats_tx id body d with
  | Some (_, d') => d_layouts d' = d_layouts d ∧ rest_kept id d d' ∧
      match ul_seats body with Some seats => seats_replaced id seats d' | None => d_layout_seats d' = d_layout_seats d end
  | None => True
  end ∧
  (is_Some (seats_tx id body d) ↔ ∀ seats, ul_seats body = Some seats → seats_accepted id seats d).
Proof.
  unfold seats_tx. destruct (ul_seats body) as [seats|]; [|split; [split; [done|split; [apply rest_kept_refl|done]]|split; [done|by eexists]]].
  pose proof (replace_seats id seats d) as H. destruct (replace_seats_tx order id seats d) as [[u d']|].
  - destruct H as (Ha & Hr & Hk & Hl). split; [done|]. split; [by intros _ ? [= <-]|by eexists].
  - split; [done|]. split; [by intros [? ?]|]. intros Hs. exfalso. by apply H, Hs.
Qed.

Lemma seats_accepted_dom id seats d d' : dom (d_layouts d') = dom (d_layouts d) → seats_accepted id seats d' ↔ seats_accepted id seats d.
Proof. unfold seats_accepted. by intros ->. Qed.

Lemma connected_any (st : site D) : let '(r, st') := connected st in s_db st' = s_db st ∧ (w_faults (s_world st) = [] → r = inl tt ∧ st' = st).
Proof.
  destruct st as [d [ns t fl lg] us n]. unfold connected, check, db_get, mbind, St_bind, redis_of, zoom. destruct fl as [|x fl]; simpl; [done|].
  by destruct x.
Qed.

Lemma row_untouched (f : layout_row → layout_row) id d d' (tx : db → option (unit * db)) : d' = d ∨ (∃ a, tx d = Some (a, d')) →
  (∀ a d', tx d = Some (a, d') → row_revised f id d d') → d_layout_seats d' = d_layout_seats d ∧ rest_kept id d d'.
Proof. intros [->|[a H]] Htx; [split; [done|apply rest_kept_refl]|]. by destruct (Htx a d' H) as (_ & ? & ?). Qed.

(** C11: an update of a layout.  An answer says that the database accepted the name and the
    seats, that the layout has the name and the description of the request where it names them,
    and that its seats are exactly the last ones of the request at each block, row and number,
    or what they were when it names none.  Whatever the answer and the network, the seats are
    not half replaced, other layouts and their seats are as they were, and the seats of
    schedules too, but that those copied from the layout may no longer refer to it.  Without
    faults the update is answered exactly when the database accepts it. *)
Theorem update_replaces_layout_seats id body (st : site D) :
  let '(r, st') := update_layout order id body st in
  (r = inl tt → update_accepted id body (s_db st) ∧ d_layouts (s_db st') = alter (revised body) id (d_layouts (s_db st)) ∧
    match ul_seats body with
    | Some seats => seats_replaced id seats (s_db st') ∧ ∀ k, unique_seats seats !! k = last_at k seats
    | None => d_layout_seats (s_db st') = d_layout_seats (s_db st)
    end) ∧
  (d_layout_seats (s_db st') = d_layout_seats (s_db st) ∨ ∃ seats, ul_seats body = Some seats ∧ seats_replaced id seats (s_db st')) ∧
  rest_kept id (s_db st) (s_db st') ∧
  (w_faults (s_world st) = [] → r = inl tt ↔ update_accepted id body (s_db st)).
Proof.
  unfold update_layout, and_then, mbind, St_bind, mret, St_ret.
  pose proof (connected_any st) as H0. destruct (connected st) as [[[]|e0] st0]; destruct H0 as [Hd0 Hf0].
  2: { rewrite Hd0. split; [done|]. split; [by left|]. split; [apply rest_kept_refl|]. by intros [? _]%Hf0. }
  assert (w_faults (s_world st) = [] → w_faults (s_world st0) = []) as Hq0 by (intros Hf; by destruct (Hf0 Hf) as [_ ->]).
  rewrite <-Hd0. set (d := s_db st0) in *.
  pose proof (executed_if (ul_name body) (update_name id) st0) as H1. cbn zeta in H1. fold (name_tx id body) d in H1.
  pose proof (name_tx_spec id body d) as [Hn Hn']. unfold mret, St_ret in H1.
  match type of H1 with match ?m with _ => _ end => destruct m as [[[]|e1] st1] end; destruct H1 as [H1 Hf1].
  assert (is_Some (name_tx id body d) → ∃ d1, name_tx id body d = Some (tt, d1) ∧ row_revised _ id d d1) as Hrow
    by (intros [[[] d1] E]; rewrite E in Hn; by exists d1).
  2: { destruct (row_untouched _ id d _ (name_tx id body) H1 ltac:(intros a d' E; rewrite E in Hn; exact Hn)) as [Hs Hr].
       split; [done|]. split; [by left|]. split; [done|]. intros Hf. split; [done|]. intros [Hacc _].
       destruct (Hf1 (Hq0 Hf)) as [_ H]. by destruct (proj2 H (proj2 Hn' Hacc)) as [? ?]. }
  rewrite H1 in Hn. assert (∀ n, ul_name body = Some n → id ∈ dom (d_layouts d) → varchar 120 n = true) as Hname by (apply Hn'; by eexists).
  pose proof (executed_if (ul_description body) (update_description id) st1) as H2. cbn zeta in H2. fold (description_tx id body) in H2.
  destruct (description_tx_spec id body (s_db st1)) as (d2 & Ed & Hd2). unfold mret, St_ret in H2.
  match type of H2 with match ?m with _ => _ end => destruct m as [[[]|e2] st2] end; destruct H2 as [H2 Hf2].
  2: { destruct (row_untouched _ id _ _ (description_tx id body) H2 ltac:(intros a d' E; rewrite E in Ed; injection Ed as -> ->; exact Hd2)) as [Hs Hr].
       destruct Hn as (_ & Hs1 & Hr1). split; [done|]. split; [left; congruence|]. split; [by eapply rest_kept_trans|]. intros Hf.
       destruct (Hf1 (Hq0 Hf)) as [Hq1 _]. destruct (Hf2 Hq1) as [_ H]. by destruct (proj2 H (mk_is_Some _ _ Ed)) as [? ?]. }
  rewrite H2 in Ed. injection Ed as <-. pose proof (row_revised_twice _ _ _ _ _ _ Hn Hd2) as (Hl & Hs & Hr).
  assert (dom (d_layouts (s_db st2)) = dom (d_layouts d)) as Hdom by (rewrite Hl; apply dom_alter_L).
  pose proof (executed_if (ul_seats body) (replace_seats_tx order id) st2) as H3. cbn zeta in H3. fold (seats_tx id body) in H3.
  pose proof (seats_tx_spec id body (s_db st2)) as [Hx Hx']. unfold mret, St_ret in H3.
  setoid_rewrite (seats_accepted_dom id _ d (s_db st2) Hdom) in Hx'.
  assert (w_faults (s_world st) = [] → w_faults (s_world st2) = []) as Hq2 by (intros Hf; by apply Hf2, Hf1, Hq0).
  match type of H3 with match ?m with _ => _ end => destruct m as [r st3] end; destruct H3 as [H3 Hf3].
  assert (s_db st3 = s_db st2 ∨ ∃ a, seats_tx id body (s_db st2) = Some (a, s_db st3)) as Hor by (destruct r; [right; by eexists|done]).
  split; [|split; [|split]].
  - intros ->. split; [split; [exact Hname|apply Hx'; by eexists]|]. rewrite H3 in Hx. destruct Hx as (Hxl & _ & Hxs).
    split; [by rewrite Hxl, Hl|]. destruct (ul_seats body); [split; [done|apply unique_seats_lookup]|congruence].
  - destruct Hor as [->|[a E]]; [by left|]. rewrite E in Hx. destruct Hx as (_ & _ & Hxs). destruct (ul_seats body) as [seats|]; [right; by exists seats|left; congruence].
  - destruct Hor as [->|[a E]]; [done|]. rewrite E in Hx. by eapply rest_kept_trans; [exact Hr|apply Hx].
  - intros Hf. destruct (Hf3 (Hq2 Hf)) as [_ Hiff]. split; [intros ->; split; [exact Hname|apply Hx'; by eexists]|].
    intros [_ Hacc]. by destruct (proj2 Hiff (proj2 Hx' Hacc)) as [[] ->].
Qed.
End update.
(** ** Three seats for a layout of four *)

Definition three_seats : list seat_input :=
  [SeatInput "A" 1 Standard None None (Some "L"); SeatInput "A" 1 Vip None None (Some "R"); SeatInput "A" 1 Premium None None (Some "L")].

Definition renaming : update_layout_request := UpdateLayoutRequest (Some "Small hall") (Some "Two seats") (Some three_seats).
Definition too_long_name : update_layout_request := UpdateLayoutRequest (Some (String.concat "" (repeat "ten bytes " 13))) None (Some three_seats).

(** An accepted update with all its parts, and one whose name is too long. *)
Example updates_of_hall :
  let '(r, st') := update_layout id 1 renaming empty_site in
  let '(r2, st2) := update_layout id 1 too_long_name st' in
  r = inl tt ∧ map input_of (layout_seats 1 (s_db st')) = [SeatInput "A" 1 Vip None None (Some "R"); SeatInput "A" 1 Premium None None (Some "L")] ∧
  (λ l, (ly_name l, ly_description l)) <$> d_layouts (s_db st') !! 1 = Some ("Small hall", Some "Two seats") ∧
  r2 = inr (internal sql_error) ∧ s_db st2 = s_db st'.
Proof. vm_compute. done. Qed.

Lemma update_replaces_layout_seats_witness :
  let '(r, st') := update_layout id 1 renaming empty_site in
  r = inl tt ∧ d_layouts (s_db st') = alter (revised renaming) 1 (d_layouts empty_db) ∧ seats_replaced 1 three_seats (s_db st') ∧
  rest_kept 1 empty_db (s_db st').
Proof.
  assert (r_ok : (update_layout id 1 renaming empty_site).1 = inl tt) by (vm_compute; reflexivity).
  pose proof (update_replaces_layout_seats id (λ l, Permutation_refl l) 1 renaming empty_site) as H. revert r_ok H.
  destruct (update_layout _ _ _ _) as [r st']. intros r_ok (H & _ & Hk & _). simpl in r_ok. destruct (H r_ok) as (_ & Hl & Hs & _).
  split; [exact r_ok|]. split; [exact Hl|]. split; [exact Hs|exact Hk].
Defined.
