(* ===== verification/ScheduleJson.v ===== *)
(** * ScheduleJson: schedules as JSON texts ([Schedule] of [packages/db/src/models.rs])

    The public lists cache the rows of schedules with what serde derives for the type: an
    object with a field per column, an [Option] field also readable when it is missing, a
    unit variant as its name.  The texts of times and dates are those of chrono. *)

From S2P Require Import Prelude Text RedisMem Db Events.

#[local] Open Scope string_scope.
#[local] Open Scope list_scope.
#[local] Open Scope Z_scope.

(** Third-party code: times in ms and dates in days as texts. *)
Class ChronoText := {
  time_text : Z → string;
  time_of_text : string → option Z;
  date_text : Z → string;
  date_of_text : string → option Z
}.
Class ChronoLaws (L : ChronoText) := {
  time_of_time_text t : time_of_text (time_text t) = Some t;
  date_of_date_text d : date_of_text (date_text d) = Some d
}.

(** ** Decoders *)

Definition de_opt {A} (de : json → option A) (j : json) : option (option A) :=
  match j with JNull => Some None | _ => Some <$> de j end.

(** A unit variant: its name, or an object with its name and null. *)
Definition de_unit (j : json) : option string :=
  match j with JStr s | JObj [(s, JNull)] => Some s | _ => None end.
Definition one_of {A} (names : list (string * A)) (j : json) : option A := s ← de_unit j; assoc s names.

(** The fields of a struct; [true] marks an [Option]. *)
Definition opt_field (l : list (string * json)) (k : string * bool) : option json :=
  match filter (λ kv, kv.1 = k.1) l with
  | [] => if k.2 then Some JNull else None
  | [(_, v)] => Some v
  | _ => None
  end.
Definition opt_struct_fields (names : list (string * bool)) (j : json) : option (list json) :=
  match j with
  | JObj l => mapM (opt_field l) names
  | JArr l => if bool_decide (length l = length names) then Some l else None
  | _ => None
  end.

(** ** The enumerations *)

Definition show_types : list (string * show_type) := [("Movie", Movie); ("Concert", Concert); ("Event", Event); ("GameEvent", GameEvent)].
Definition show_type_text (t : show_type) : string :=
  match t with Movie => "Movie" | Concert => "Concert" | Event => "Event" | GameEvent => "GameEvent" end.
Definition lifecycle_states : list (string * lifecycle_state) := [("scheduled", Scheduled); ("open", Open); ("closed", Closed)].
Definition lifecycle_text (t : lifecycle_state) : string :=
  match t with Scheduled => "scheduled" | Open => "open" | Closed => "closed" end.
Definition time_slots : list (string * time_slot) := [("Morning", Morning); ("Afternoon", Afternoon); ("Evening", Evening); ("Night", Night)].
Definition time_slot_text (t : time_slot) : string :=
  match t with Morning => "Morning" | Afternoon => "Afternoon" | Evening => "Evening" | Night => "Night" end.

(** ** Schedules *)

Definition opt_json {A} (f : A → json) (o : option A) : json := match o with Some a => f a | None => JNull end.

Section json.
Context {HC : ChronoText}.

Definition schedule_fields : list (string * bool) :=
  [("id", false); ("mongo_show_id", false); ("show_type", false); ("layout_id", true); ("start_time", false); ("booking_open_at", false);
   ("lifecycle_state", false); ("created_at", false); ("deleted_at", true); ("venue_name", true); ("venue_address", true);
   ("venue_city", true); ("venue_state", true); ("date", false); ("slot", false); ("end_time", false)].

Definition time_json (t : Z) : json := JStr (time_text t).

Definition schedule_json (s : schedule_row) : json :=
  JObj [("id", JNum (sc_id s)); ("mongo_show_id", JStr (sc_mongo_show_id s)); ("show_type", JStr (show_type_text (sc_show_type s)));
        ("layout_id", opt_json JNum (sc_layout_id s)); ("start_time", time_json (sc_start_time s));
        ("booking_open_at", time_json (sc_booking_open_at s)); ("lifecycle_state", JStr (lifecycle_text (sc_lifecycle_state s)));
        ("created_at", time_json (sc_created_at s)); ("deleted_at", opt_json time_json (sc_deleted_at s));
        ("venue_name", opt_json JStr (sc_venue_name s)); ("venue_address", opt_json JStr (sc_venue_address s));
        ("venue_city", opt_json JStr (sc_venue_city s)); ("venue_state", opt_json JStr (sc_venue_state s));
        ("date", JStr (date_text (sc_date s))); ("slot", JStr (time_slot_text (sc_slot s))); ("end_time", time_json (sc_end_time s))].

Definition de_time (j : json) : option Z := de_str j ≫= time_of_text.

Definition de_schedule (j : json) : option schedule_row :=
  fs ← opt_struct_fields schedule_fields j;
  match fs with
  | [id; show; ty; layout; start; open_at; state; created; deleted; name; address; city; region; date; slot; end_] =>
      id ← de_i32 id; show ← de_str show; ty ← one_of show_types ty; layout ← de_opt de_i32 layout; start ← de_time start;
      open_at ← de_time open_at; state ← one_of lifecycle_states state; created ← de_time created; deleted ← de_opt de_time deleted;
      name ← de_opt de_str name; address ← de_opt de_str address; city ← de_opt de_str city; region ← de_opt de_str region;
      date ← de_str date ≫= date_of_text; slot ← one_of time_slots slot; end_ ← de_time end_;
      Some (Schedule id show ty layout start open_at state created deleted name address city region date slot end_)
  | _ => None
  end.

Definition schedules_json (l : list schedule_row) : json := JArr (map schedule_json l).
Definition de_schedules : json → option (list schedule_row) := de_vec de_schedule.

(** ** Round trips *)

Definition schedule_fits (s : schedule_row) : bool := in_i32 (sc_id s) && default true (in_i32 <$> sc_layout_id s).

Context {HL : ChronoLaws HC}.

Lemma de_time_json t : de_time (time_json t) = Some t.
Proof. apply time_of_time_text. Qed.
Lemma de_opt_json {A} (f : A → json) (de : json → option A) o : (∀ a, f a ≠ JNull) → (∀ a, o = Some a → de (f a) = Some a) →
  de_opt de (opt_json f o) = Some o.
Proof. intros Hf Hd. destruct o as [a|]; [|done]. simpl. unfold de_opt. rewrite (Hd a eq_refl). simpl. specialize (Hf a). by destruct (f a). Qed.
Lemma one_of_show_type t : one_of show_types (JStr (show_type_text t)) = Some t.
Proof. by destruct t. Qed.
Lemma one_of_lifecycle t : one_of lifecycle_states (JStr (lifecycle_text t)) = Some t.
Proof. by destruct t. Qed.
Lemma one_of_slot t : one_of time_slots (JStr (time_slot_text t)) = Some t.
Proof. by destruct t. Qed.

Lemma de_schedule_json s : schedule_fits s = true → de_schedule (schedule_json s) = Some s.
Proof.
  intros [Hid Hl]%andb_true_iff. unfold de_schedule.
  assert (∀ o, de_opt de_time (opt_json time_json o) = Some o) as Ht by (intros o; apply de_opt_json; [done|intros; apply de_time_json]).
  assert (∀ o, de_opt de_str (opt_json JStr o) = Some o) as Hs by (intros o; by apply de_opt_json).
  assert (de_opt de_i32 (opt_json JNum (sc_layout_id s)) = Some (sc_layout_id s)) as Hy.
  { apply de_opt_json; [done|]. intros a Ha. rewrite Ha in Hl. by apply de_i32_num. }
  assert (opt_struct_fields schedule_fields (schedule_json s) =
    Some [JNum (sc_id s); JStr (sc_mongo_show_id s); JStr (show_type_text (sc_show_type s)); opt_json JNum (sc_layout_id s);
          time_json (sc_start_time s); time_json (sc_booking_open_at s); JStr (lifecycle_text (sc_lifecycle_state s));
          time_json (sc_created_at s); opt_json time_json (sc_deleted_at s); opt_json JStr (sc_venue_name s);
          opt_json JStr (sc_venue_address s); opt_json JStr (sc_venue_city s); opt_json JStr (sc_venue_state s);
          JStr (date_text (sc_date s)); JStr (time_slot_text (sc_slot s)); time_json (sc_end_time s)]) as -> by reflexivity.
  cbn [mbind option_bind]. rewrite de_i32_num by done. cbn [mbind option_bind de_str].
  rewrite one_of_show_type, Hy, !de_time_json, one_of_lifecycle, Ht, !Hs. cbn [mbind option_bind].
  rewrite date_of_date_text. cbn [mbind option_bind]. rewrite one_of_slot. by destruct s.
Qed.

Lemma de_schedules_json l : Forall (λ s, schedule_fits s = true) l → de_schedules (schedules_json l) = Some l.
Proof.
  intros Hl. unfold de_schedules, schedules_json, de_vec. apply mapM_Some. apply Forall2_fmap_l, Forall_Forall2_diag.
  eapply Forall_impl; [exact Hl|]. simpl. apply de_schedule_json.
Qed.

(** The text of rows is one that can be read back. *)
Lemma schedule_json_ok d s : schedule_fits s = true → json_ok_at (Datatypes.S d) (schedule_json s) = true.
Proof.
  intros [Hid Hl]%andb_true_iff. simpl.
  assert (∀ z, in_i32 z = true → (- 2 ^ 63 <=? z) && (z <? 2 ^ 64) = true) as Hz.
  { intros z Hz%in_i32_true. unfold i32_min, i32_max in Hz. apply andb_true_iff. rewrite Z.leb_le, Z.ltb_lt. lia. }
  assert (∀ {A} (f : A → json) o, (∀ a, o = Some a → json_ok_at d (f a) = true) → json_ok_at d (opt_json f o) = true) as Ho.
  { intros A f [a|] H; [by apply H|by destruct d]. }
  assert (∀ t, json_ok_at d (JStr t) = true) as Hs by (by destruct d).
  assert (∀ z, in_i32 z = true → json_ok_at d (JNum z) = true) as Hn by (destruct d; simpl; by apply Hz).
  rewrite (Ho _ JNum (sc_layout_id s)) by (intros a Ha; rewrite Ha in Hl; by apply Hn).
  rewrite !(Ho _ JStr) by (intros; apply Hs). rewrite !(Ho _ time_json) by (intros; apply Hs).
  unfold time_json. by rewrite Hn, !Hs.
Qed.

Lemma schedules_json_ok l : Forall (λ s, schedule_fits s = true) l → json_ok (schedules_json l) = true.
Proof.
  intros Hl. unfold json_ok. simpl. apply forallb_forall. intros j (s & <- & Hs%list_elem_of_In)%in_map_iff.
  rewrite Forall_forall in Hl. apply (schedule_json_ok 14). by apply Hl.
Qed.
End json.
