(* ===== verification/PublicSchedules.v ===== *)
(** * PublicSchedules: what the public sees of schedules
    ([apps/http-server/src/api/user/schedules_v2.rs])

    The lists of upcoming schedules, the details of one, its seat map, and the seats that
    a user has locked.  Rows and seat counts are read through the cache.  The reads that
    [join_all] runs side by side are taken in their order.  What MongoDB answers about
    shows is an argument: the documents found, none when the query fails. *)

From stdpp Require Import gmap sorting.
From S2P Require Import Prelude Text Keys Redis RedisMem SeatLock SeatBitmap Events Db HttpPayments HttpCache Schedules Layouts ScheduleJson.

#[local] Open Scope string_scope.
#[local] Open Scope list_scope.
#[local] Open Scope Z_scope.

(** [selected_city]. *)
Definition selected_city (city : option string) : option string :=
  match trim <$> city with
  | Some c => if negb (is_empty c) && negb (eq_ignore_ascii_case c "All") then Some c else None
  | None => None
  end.

Definition status_text (s : seat_status) : string :=
  match s with Available => "Available" | Locked => "Locked" | Booked => "Booked" end.

(** [num_seconds] of a difference of times. *)
Definition seconds_until (t now : Z) : Z := Z.quot (t - now) 1000.

(** ** Queries *)

Definition upcoming (now : Z) (s : schedule_row) : bool :=
  bool_decide (sc_deleted_at s = None) && bool_decide (sc_lifecycle_state s ≠ Closed) && (now <? sc_start_time s).

Definition starts_before (a b : schedule_row) : Prop := sc_start_time a ≤ sc_start_time b.
#[export] Instance starts_before_dec a b : Decision (starts_before a b).
Proof. unfold starts_before. apply _. Defined.

Definition active_rows (now : Z) (d : db) : list schedule_row :=
  merge_sort starts_before (filter (λ s, upcoming now s = true) (map snd (map_to_list (d_schedules d)))).

Definition show_rows (now : Z) (show_id : string) (city : option string) (d : db) : list schedule_row :=
  merge_sort starts_before
    (filter (λ s, sc_mongo_show_id s = show_id ∧ upcoming now s = true ∧ (city = None ∨ sc_venue_city s = city))
       (map snd (map_to_list (d_schedules d)))).

(** [GROUP BY schedule_id] with [COUNT( * )], over the seats of some schedules. *)
Definition grouped_counts (p : seat_row → bool) (ids : list Z) (d : db) : gmap Z Z :=
  foldr (λ r m, if bool_decide (ss_schedule_id r ∈ ids) && p r
                then <[ss_schedule_id r := default 0 (m !! ss_schedule_id r) + 1]> m else m) ∅ (d_seats d).
Definition is_available (r : seat_row) : bool := bool_decide (ss_status r = Available).

(** ** Answers *)

(** An entry of a list: the columns of the row, and what is computed for it. *)
Record listed_schedule := ListedSchedule {
  li_schedule : schedule_row; li_booking_open : bool; li_seconds_until_booking_open : Z; li_total_seats : Z;
  li_available_seats : Z; li_show : option json
}.
Record schedule_details := ScheduleDetails {
  de_schedule_row : schedule_row; de_booking_open : bool; de_seconds_until_booking_open : Z; de_show : json
}.
Record seat_view := SeatView { sv_seat : seat_row; sv_status : string; sv_locked_by : option Z }.
Record seat_map := SeatMap { sm_schedule_id : Z; sm_lifecycle_state : lifecycle_state; sm_booking_open : bool; sm_seats : list seat_view }.

Definition booking_open (s : schedule_row) : bool := bool_decide (sc_lifecycle_state s = Open).

Section handlers.
Context {D : Type} `{!RedisServer D} {HJ : JsonText} {HS : ScheduleLibs} {HC : ChronoText}.
Abbreviation S := (St (site D)).

Definition cached {T} (de : json → option T) (key : string) : S (option T) := redis_of (get_async_cached de key).
Definition cache (key : string) (j : json) (ttl : Z) : S unit := redis_of (set_async_cached key j ttl).

(** *** Seat counts *)

Abbreviation counts := (gmap Z Z * gmap Z Z)%type.

Fixpoint read_counts (ids : list Z) (found : counts) (missing : list Z) : S (counts * list Z) :=
  match ids with
  | [] => mret (found, missing)
  | id :: ids =>
      total ← cached de_i64 (cache_schedule_total_seats_key id);
      available ← cached de_i64 (cache_schedule_available_seats_key id);
      match total, available with
      | Some t, Some a => read_counts ids (<[id := t]> found.1, <[id := a]> found.2) missing
      | _, _ => read_counts ids found (missing ++ [id])
      end
  end.

Definition insert_all (from : gmap Z Z) (ids : list Z) (m : gmap Z Z) : gmap Z Z :=
  foldl (λ m id, <[id := default 0 (from !! id)]> m) m ids.

Definition write_counts (from : counts) (id : Z) : S unit :=
  cache (cache_schedule_total_seats_key id) (JNum (default 0 (from.1 !! id))) TTL_SCHEDULE_SEAT_COUNTS ;;
  cache (cache_schedule_available_seats_key id) (JNum (default 0 (from.2 !! id))) TTL_SCHEDULE_SEAT_COUNTS.

Definition load_schedule_seat_counts (ids : list Z) : S (counts + app_error) :=
  if bool_decide (ids = []) then mret (inl (∅, ∅))
  else
    read ← read_counts ids (∅, ∅) [];
    let '(found, missing) := read in
    if bool_decide (missing = []) then mret (inl found)
    else
      _ ←? connected;
      totals ←? query (grouped_counts (λ _, true) missing);
      available ←? query (grouped_counts is_available missing);
      for_each missing (write_counts (totals, available)) ;;
      mret (inl (insert_all totals missing found.1, insert_all available missing found.2)).

(** *** Lists *)

(** The rows of a list: those of the cache, or those of the database, which are cached. *)
Definition cached_rows (key : string) (rows : db → list schedule_row) : S (list schedule_row + app_error) :=
  hit ← cached de_schedules key;
  match hit with
  | Some rows => mret (inl rows)
  | None =>
      _ ←? connected;
      loaded ←? query rows;
      cache key (schedules_json loaded) TTL_SHOW_SCHEDULES ;;
      mret (inl loaded)
  end.

Fixpoint entries (show_of : schedule_row → option json) (c : counts) (rows : list schedule_row) : S (list listed_schedule) :=
  match rows with
  | [] => mret []
  | s :: rows =>
      now ← redis_of now_ms;
      rest ← entries show_of c rows;
      mret (ListedSchedule s (booking_open s) (seconds_until (sc_booking_open_at s) now) (default 0 (c.1 !! sc_id s))
              (default 0 (c.2 !! sc_id s)) (show_of s) :: rest)
  end.

Definition list_active_schedules (find_shows : list string → gmap string json) : S (list listed_schedule + app_error) :=
  now ← redis_of now_ms;
  rows ←? cached_rows cache_schedules_active_key (active_rows now);
  let rows := filter (λ s, upcoming now s = true) rows in
  c ←? load_schedule_seat_counts (map sc_id rows);
  let shows := match filter (λ i, object_id_ok i = true) (map sc_mongo_show_id rows) with [] => ∅ | ids => find_shows ids end in
  listed ← entries (λ s, shows !! sc_mongo_show_id s) c rows;
  mret (inl listed).

Definition get_schedules_for_show (show_id : string) (city : option string) : S (list listed_schedule + app_error) :=
  now ← redis_of now_ms;
  let city := selected_city city in
  rows ←? cached_rows (cache_show_schedules_key show_id city) (show_rows now show_id city);
  let rows := filter (λ s, upcoming now s = true) rows in
  c ←? load_schedule_seat_counts (map sc_id rows);
  listed ← entries (λ _, None) c rows;
  mret (inl listed).

(** *** One schedule *)

Definition get_schedule_details (find_show : string → option json) (id : Z) : S (schedule_details + app_error) :=
  let cache_key := cache_schedule_key id in
  hit ← cached de_schedule cache_key;
  schedule ←? (match hit with
               | Some s => mret (inl s)
               | None =>
                   _ ←? connected;
                   found ←? query (λ d, d_schedules d !! id);
                   loaded ←? or_err (not_found "Schedule not found") (mret found);
                   cache cache_key (schedule_json loaded) TTL_SHOW_SCHEDULES ;;
                   mret (inl loaded)
               end);
  if bool_decide (is_Some (sc_deleted_at schedule)) then mret (inr (not_found "Schedule deleted"))
  else
    let show := if object_id_ok (sc_mongo_show_id schedule) then default JNull (find_show (sc_mongo_show_id schedule)) else JNull in
    now ← redis_of now_ms;
    mret (inl (ScheduleDetails schedule (booking_open schedule) (seconds_until (sc_booking_open_at schedule) now) show)).

(** The state in the bitmap goes before that of the row; the locker of a locked seat is asked
    of its lock key. *)
Fixpoint seat_views (conn : bool) (bitmap : option (list Z)) (schedule_id : Z) (seats : list seat_row) : S (list seat_view) :=
  match seats with
  | [] => mret []
  | seat :: seats =>
      let status := default (status_text (ss_status seat)) (b ← bitmap; bitmap_seat_status b (ss_id seat)) in
      locked_by ← (if bool_decide (status = "Locked") && conn
                   then r ← redis_of (node_cmd 0 (cmd_get_i32 (seat_lock_key schedule_id (ss_id seat)))); mret (default None r)
                   else mret None);
      rest ← seat_views conn bitmap schedule_id seats;
      mret (SeatView seat status locked_by :: rest)
  end.

Definition get_schedule_seats_public (id : Z) : S (seat_map + app_error) :=
  _ ←? connected;
  schedule ←? or_err (not_found "Schedule not found") (found ← db_query (λ d, d_schedules d !! id); mret (default None found));
  seats ←? query (λ d, merge_sort index_le (plan_of id d));
  conn ← redis_of (pool_get 0);
  snapshot ← (if (conn : bool) then redis_of (node_cmd 0 (cmd_get (schedule_seat_bitmap id))) else mret None);
  views ← seat_views conn (bytes_of <$> default None snapshot) id seats;
  mret (inl (SeatMap id (sc_lifecycle_state schedule) (booking_open schedule) views)).

(** *** The seats of a user *)

Definition get_my_locked_seats `{TokenDecoder} {HSL : SeatLock D} (jwt_secret : string) (schedule_id : Z) (authorization : option string) :
    S (Z * Z * list Z + app_error) :=
  match authenticated_user authorization jwt_secret with
  | inr e => mret (inr e)
  | inl user_id =>
      locked_seat_ids ← redis_of (get_user_locked_seats schedule_id user_id);
      mret (inl (schedule_id, user_id, locked_seat_ids))
  end.
End handlers.
