(* ===== verification/PublicLists.v ===== *)
(** * PublicLists: the caches of the public lists keep up with the database

    Each list of schedules has a key in the cache.  [caches_ok B]: but for the keys in
    [B], a cached list is what the query of the key finds.  A handler that changes a
    schedule spoils the keys that list it, before or after, and takes these out of the
    cache. *)

From Stdlib Require Import Ascii Sorted.
From stdpp Require Import gmap sorting.
From S2P Require Import Prelude Text Keys Redis RedisMem SeatLock Events Db HttpPayments HttpCache Schedules Layouts SchedulesProps SchedulesPlans.
From S2P Require Import ScheduleJson PublicSchedules.

#[local] Open Scope string_scope.
#[local] Open Scope list_scope.
#[local] Open Scope Z_scope.

(** ** The keys *)

(** Identifiers of shows are hexadecimal digits; cities are as [selected_city] leaves them. *)
Definition plain_id (s : string) : bool := all_chars (λ a, negb (Ascii.eqb a ":"%char)) s.

Inductive list_key := KeyActive | KeyShow (show_id : string) (city : option string).
Definition list_key_ok (K : list_key) : Prop :=
  match K with KeyActive => True | KeyShow id city => plain_id id = true ∧ city_filter city = city end.
Definition list_key_text (K : list_key) : string :=
  match K with KeyActive => cache_schedules_active_key | KeyShow id city => cache_show_schedules_key id city end.
Definition listed_in (K : list_key) (s : schedule_row) : Prop :=
  match K with KeyActive => True | KeyShow id city => sc_mongo_show_id s = id ∧ (city = None ∨ sc_venue_city s = city) end.
Definition rows_of (K : list_key) (now : Z) : db → list schedule_row :=
  match K with KeyActive => active_rows now | KeyShow id city => show_rows now id city end.

Lemma show_key_id id c id' c' : plain_id id = true → plain_id id' = true →
  cache_show_schedules_key id c = cache_show_schedules_key id' c' → id = id'.
Proof.
  intros H H'. unfold cache_show_schedules_key. intros E. apply string_app_inj_l in E.
  by apply (app_sep_inj (λ a, negb (Ascii.eqb a ":"%char)) ":"%char) in E as [-> _].
Qed.

Lemma list_key_text_inj K K' : list_key_ok K → list_key_ok K' → list_key_text K = list_key_text K' → K = K'.
Proof.
  destruct K as [|id c], K' as [|id' c']; simpl; [done|discriminate|discriminate|].
  intros [Hi Hc] [Hi' Hc'] E. pose proof (show_key_id _ _ _ _ Hi Hi' E) as ->.
  apply show_schedules_key_by_city in E. by rewrite <-Hc, <-Hc', E.
Qed.

Lemma list_key_text_head K : String.prefix "cache:sh" (list_key_text K) = true ∨ list_key_text K = "cache:schedules:active".
Proof. destruct K; [by right|by left]. Qed.
Lemma list_key_ne K k : String.prefix "cache:sh" k = false → k ≠ "cache:schedules:active" → k ≠ list_key_text K.
Proof. intros H1 H2 ->. destruct (list_key_text_head K) as [H|H]; congruence. Qed.
Lemma schedule_key_ne K id : cache_schedule_key id ≠ list_key_text K.
Proof. apply list_key_ne; [done|discriminate]. Qed.
Lemma total_key_ne K id : cache_schedule_total_seats_key id ≠ list_key_text K.
Proof. apply list_key_ne; [done|discriminate]. Qed.
Lemma available_key_ne K id : cache_schedule_available_seats_key id ≠ list_key_text K.
Proof. apply list_key_ne; [done|discriminate]. Qed.
Lemma closed_key_ne K id : schedule_closed_key id ≠ list_key_text K.
Proof. apply list_key_ne; [done|discriminate]. Qed.

(** ** What a list is to hold *)

(** A seat that came with the creation of the schedule. *)
Definition seated (i : Z) (d : db) : Prop := Exists (λ r, sp_source (ss_place r) = Base) (plan_of i d).

Record rows_exact (K : list_key) (t : Z) (d : db) (rows : list schedule_row) : Prop := RowsExact {
  re_nodup : NoDup rows;
  re_sorted : StronglySorted starts_before rows;
  re_sound s : s ∈ rows → d_schedules d !! sc_id s = Some s ∧ listed_in K s;
  re_complete i s : d_schedules d !! i = Some s → upcoming t s = true → listed_in K s → seated i d → s ∈ rows
}.

Definition rows_fit (N : nat) (d : db) : Prop :=
  map_Forall (λ i r, sc_id r = i ∧ schedule_fits r = true ∧ i < d_schedule_seq d) (d_schedules d) ∧
  Forall (λ r, ss_schedule_id r ∈ dom (d_schedules d)) (d_seats d) ∧ 0 ≤ d_schedule_seq d ∧ d_schedule_seq d + Z.of_nat N ≤ 2 ^ 31.

#[export] Instance starts_before_trans : Transitive starts_before.
Proof. intros a b c. unfold starts_before. lia. Qed.
#[export] Instance starts_before_total : Total starts_before.
Proof. intros a b. unfold starts_before. lia. Qed.

Lemma upcoming_earlier t t' s : t ≤ t' → upcoming t' s = true → upcoming t s = true.
Proof. unfold upcoming. rewrite !andb_true_iff, !Z.ltb_lt. intros H [? ?]. split; [done|lia]. Qed.

Lemma elem_of_values {A} (m : gmap Z A) x : x ∈ map snd (map_to_list m) ↔ ∃ i, m !! i = Some x.
Proof.
  rewrite list_elem_of_fmap. split.
  - intros ([i y] & -> & H%elem_of_map_to_list). by exists i.
  - intros [i H]. exists (i, x). split; [done|]. by apply elem_of_map_to_list.
Qed.

Lemma rows_nodup N d : rows_fit N d → NoDup (map snd (map_to_list (d_schedules d))).
Proof.
  intros [Hd _]. assert (map sc_id (map snd (map_to_list (d_schedules d))) = map fst (map_to_list (d_schedules d))) as H.
  { rewrite map_map. apply map_ext_in. intros [i s] Hi%list_elem_of_In%elem_of_map_to_list. simpl. by destruct (Hd _ _ Hi). }
  apply (NoDup_fmap_1 sc_id). fold (map sc_id). change (sc_id <$> ?l) with (map sc_id l). rewrite H. apply NoDup_fst_map_to_list.
Qed.

Lemma rows_of_exact N K t d : rows_fit N d → rows_exact K t d (rows_of K t d).
Proof.
  intros Hd. pose proof (rows_nodup N d Hd) as Hnd.
  assert (∀ (P : schedule_row → Prop) `{∀ s, Decision (P s)}, (∀ s, P s ↔ listed_in K s ∧ upcoming t s = true) →
    rows_exact K t d (merge_sort starts_before (filter P (map snd (map_to_list (d_schedules d)))))) as H.
  { intros P HP Hspec. split.
    - rewrite merge_sort_Permutation. by apply NoDup_filter.
    - apply (StronglySorted_merge_sort starts_before). 
    - intros s. rewrite merge_sort_Permutation, list_elem_of_filter, elem_of_values. intros [[Hl _]%Hspec [i Hi]].
      destruct Hd as [Hr _]. destruct (Hr _ _ Hi) as [-> _]. done.
    - intros i s Hi Hu Hl _. rewrite merge_sort_Permutation, list_elem_of_filter, elem_of_values. split; [by apply Hspec|by exists i]. }
  destruct K as [|id c]; simpl; unfold active_rows, show_rows; apply H; intros s; simpl; tauto.
Qed.

Lemma rows_of_fit N K t d : rows_fit N d → Forall (λ s, schedule_fits s = true) (rows_of K t d).
Proof.
  intros Hd. apply Forall_forall. intros s Hs. destruct (rows_of_exact N K t d Hd) as [_ _ H _]. destruct (H s Hs) as [Hi _].
  destruct Hd as [Hr _]. by destruct (Hr _ _ Hi) as (_ & ? & _).
Qed.

(** ** The invariant *)

Section caches.
Context {D : Type} `{!RedisServer D} `{!RedisLaws D} {HJ : JsonText} {HS : ScheduleLibs} {HC : ChronoText} {HCL : ChronoLaws HC}.
Implicit Types (st : site D).

Definition key_ok (K : list_key) (t : Z) (d : db) (n : D) : Prop :=
  ∀ raw rows, r_get n t (list_key_text K) = Some raw → (json_parse raw ≫= de_schedules) = Some rows → rows_exact K t d rows.

Record caches_ok (N : nat) (B : list_key → Prop) st : Prop := CachesOk {
  ca_quiet : w_faults (s_world st) = [];
  ca_rows : rows_fit N (s_db st);
  ca_keys : ∃ n, w_nodes (s_world st) !! 0%nat = Some n ∧
    ∀ K, list_key_ok K → ¬ B K → key_ok K (w_now (s_world st)) (s_db st) n
}.

Definition nothing (K : list_key) : Prop := False.

Lemma caches_weaken N N' B (B' : list_key → Prop) st : (N' ≤ N)%nat → (∀ K, list_key_ok K → B K → B' K) → caches_ok N B st → caches_ok N' B' st.
Proof.
  intros HN HB [H1 (R1 & R2 & R3 & R4) (n & Hn & Hk)]. split; [done| |].
  - split_and!; [done|done|done|lia].
  - exists n. split; [done|]. intros K HK HB'. apply Hk; [done|]. intros HBK. by apply HB', HB.
Qed.

Lemma rows_exact_time K t t' d rows : t ≤ t' → rows_exact K t d rows → rows_exact K t' d rows.
Proof. intros Ht [H1 H2 H3 H4]. split; [done..|]. intros i s Hi Hu. apply H4; [done|]. by eapply upcoming_earlier. Qed.

(** Nothing but the server, at a key that is no list, and the log. *)
Lemma caches_other N B st n n' lg us k : caches_ok N B st → w_nodes (s_world st) !! 0%nat = Some n →
  (∀ K t, r_get n' t (list_key_text K) = r_get n t (list_key_text K)) →
  caches_ok N B (Site (s_db st) (World (<[0%nat := n']> (w_nodes (s_world st))) (w_now (s_world st)) (w_faults (s_world st)) lg) us k).
Proof.
  intros [H1 H2 (n0 & Hn & Hk)] Hn0 Hg. split; [done|done|]. exists n'. simpl. split; [apply list_lookup_insert_eq; by eapply lookup_lt_Some|].
  intros K HK HB raw rows. rewrite Hg. rewrite Hn0 in Hn. injection Hn as <-. by apply Hk.
Qed.

(** *** Commands *)

Lemma node_cmd_quiet {R} (f : D → Z → D * option R) st n : w_faults (s_world st) = [] → w_nodes (s_world st) !! 0%nat = Some n →
  redis_of (node_cmd 0 f) st =
    ((f n (w_now (s_world st))).2,
     Site (s_db st) (World (<[0%nat := (f n (w_now (s_world st))).1]> (w_nodes (s_world st))) (w_now (s_world st)) [] (w_log (s_world st)))
       (s_uuids st) (s_drawn st)).
Proof. destruct st as [d [ns t fl lg] us k]. simpl. intros -> Hn. unfold redis_of, zoom. simpl. by rewrite (node_cmd_ok 0 f ns t lg n Hn). Qed.

Lemma hoare_other {R} N B (f : D → Z → D * option R) :
  (∀ n t K t', r_get (f n t).1 t' (list_key_text K) = r_get n t' (list_key_text K)) →
  keeps (caches_ok N B) (redis_of (node_cmd 0 f)).
Proof.
  intros Hf st Hst. destruct (ca_keys _ _ _ Hst) as (n & Hn & _). rewrite (node_cmd_quiet f st n (ca_quiet _ _ _ Hst) Hn).
  pose proof (caches_other N B st n (f n (w_now (s_world st))).1 (w_log (s_world st)) (s_uuids st) (s_drawn st) Hst Hn) as H.
  rewrite (ca_quiet _ _ _ Hst) in H. apply H. intros K t. apply Hf.
Qed.

(** One attempt is enough. *)
Lemma quiet_get key st n : w_faults (s_world st) = [] → w_nodes (s_world st) !! 0%nat = Some n →
  (get_loop key retry_pauses (s_world st)).1 = r_get n (w_now (s_world st)) key ∧
  redis_of (get_loop key retry_pauses) st = redis_of (r ← node_cmd 0 (cmd_get key); mret (default None r)) st.
Proof.
  destruct st as [d [ns t fl lg] us k]. simpl. intros -> Hn. unfold redis_of, zoom, mbind, St_bind. simpl.
  by rewrite (node_cmd_ok 0 (cmd_get key) ns t lg n Hn).
Qed.

Lemma cached_step {T} (de : json → option T) key st n : w_faults (s_world st) = [] → w_nodes (s_world st) !! 0%nat = Some n →
  cached de key st = (raw ← r_get n (w_now (s_world st)) key; j ← json_parse raw; de j, st).
Proof.
  destruct st as [d [ns t fl lg] us k]. simpl. intros -> Hn. unfold cached, redis_of, zoom, get_async_cached, mbind, St_bind. simpl.
  unfold mbind, St_bind. rewrite (node_cmd_ok 0 (cmd_get key) ns t lg n Hn). simpl. by rewrite list_insert_id.
Qed.

Lemma cache_step key j ttl st n : w_faults (s_world st) = [] → w_nodes (s_world st) !! 0%nat = Some n → r_px_ok (ttl * 1000) = true →
  cache key j ttl st =
    (tt, Site (s_db st) (World (<[0%nat := r_set_px n (w_now (s_world st)) key (json_print j) (ttl * 1000)]> (w_nodes (s_world st)))
      (w_now (s_world st)) [] (w_log (s_world st))) (s_uuids st) (s_drawn st)).
Proof.
  destruct st as [d [ns t fl lg] us k]. simpl. intros -> Hn Hp. unfold cache, redis_of, zoom, set_async_cached, mbind, St_bind. simpl.
  unfold mbind, St_bind. rewrite (node_cmd_ok 0 _ ns t lg n Hn). unfold cmd_setex. by rewrite Hp.
Qed.

Lemma day_ok ttl : 0 < ttl ≤ TTL_24_HOURS → r_px_ok (ttl * 1000) = true.
Proof. intros H. apply px_ok_range. unfold TTL_24_HOURS in H. lia. Qed.

Lemma invalidate_step key st n : w_faults (s_world st) = [] → w_nodes (s_world st) !! 0%nat = Some n →
  redis_of (invalidate_async key) st =
    (tt, Site (s_db st) (World (<[0%nat := r_del n key]> (w_nodes (s_world st))) (w_now (s_world st)) [] (w_log (s_world st))) (s_uuids st) (s_drawn st)).
Proof.
  destruct st as [d [ns t fl lg] us k]. simpl. intros -> Hn. unfold redis_of, zoom, invalidate_async. simpl. unfold mbind, St_bind.
  by rewrite (node_cmd_ok 0 (cmd_del key) ns t lg n Hn).
Qed.

(** An invalidated key holds nothing, so nothing wrong. *)
Lemma hoare_invalidate N B key :
  hoare (caches_ok N B) (redis_of (invalidate_async key)) (λ _, caches_ok N (λ K, B K ∧ list_key_text K ≠ key)).
Proof.
  intros st Hst. destruct (ca_keys _ _ _ Hst) as (n & Hn & Hk). rewrite (invalidate_step key st n (ca_quiet _ _ _ Hst) Hn). simpl.
  split; [done|apply Hst|]. exists (r_del n key). simpl. split; [apply list_lookup_insert_eq; by eapply lookup_lt_Some|].
  intros K HK HB raw rows. rewrite get_del. case_decide as Hkey; [done|]. apply Hk; [done|]. intros HBK. apply HB. by split.
Qed.

Lemma hoare_invalidate_each N B keys :
  hoare (caches_ok N B) (for_each keys (λ key, redis_of (invalidate_async key))) (λ _, caches_ok N B).
Proof.
  change (keeps (caches_ok N B) (for_each keys (λ key, redis_of (invalidate_async key)))). apply keeps_for_each. intros key _.
  eapply hoare_conseq; [| |apply hoare_invalidate]; [done|]. intros [] st. apply caches_weaken; [done|]. by intros K _ [? _].
Qed.

Lemma listed_in_keys K s : list_key_ok K → listed_in K s →
  list_key_text K = cache_schedules_active_key ∨ list_key_text K = cache_show_schedules_key (sc_mongo_show_id s) (sc_venue_city s) ∨
  list_key_text K = cache_show_schedules_key (sc_mongo_show_id s) None.
Proof.
  destruct K as [|id c]; simpl; [by left|]. intros _ [-> [->| <-]]; right; [by right|by left].
Qed.

Lemma hoare_invalidations N B s :
  hoare (caches_ok N B) (invalidate_show_schedule_caches s) (λ _, caches_ok N (λ K, B K ∧ ¬ listed_in K s)).
Proof.
  unfold invalidate_show_schedule_caches.
  eapply hoare_bind; [apply hoare_invalidate|intros []]. eapply hoare_bind; [apply hoare_invalidate|intros []].
  eapply hoare_bind; [apply hoare_invalidate|intros []].
  eapply hoare_conseq; [| |apply hoare_invalidate_each]; [done|]. intros [] st. apply caches_weaken; [done|].
  intros K HK [[[HB H1] H2] H3]. split; [done|]. intros Hl. destruct (listed_in_keys K s HK Hl) as [?|[?|?]]; done.
Qed.

Lemma hoare_lifecycle_caches N B s :
  hoare (caches_ok N B) (invalidate_schedule_lifecycle_caches s) (λ _, caches_ok N (λ K, B K ∧ ¬ listed_in K s)).
Proof.
  eapply (hoare_bind _ (λ _, caches_ok N B)); [|intros _; apply hoare_invalidations].
  eapply hoare_conseq; [| |apply hoare_invalidate]; [done|]. intros [] st. apply caches_weaken; [done|]. by intros K _ [? _].
Qed.

Lemma hoare_announce N B e s id : e = ScheduleOpened id ∨ e = ScheduleClosed id →
  hoare (caches_ok N B) (announce e s) (λ _, caches_ok N (λ K, B K ∧ ¬ listed_in K s)).
Proof.
  intros He. unfold announce.
  eapply (hoare_bind _ (λ r st, r = inl tt ∧ caches_ok N B st)).
  - intros st Hst. destruct (ca_keys _ _ _ Hst) as (n & Hn & _). pose proof (ca_quiet _ _ _ Hst) as Hf.
    unfold publish_schedule_lifecycle. destruct He as [E|E]; rewrite E.
    all: rewrite (bind_step _ _ _ _ _ (node_cmd_quiet _ st n Hf Hn)); destruct st as [d [ns t fl lg] us k]; simpl in *; subst fl; split; [done|].
    + apply (caches_other N B _ n (r_del n (schedule_closed_key id)) _ us k Hst Hn). intros K t'. rewrite get_del, decide_False; [done|].
      apply closed_key_ne.
    + apply (caches_other N B _ n (r_set n (schedule_closed_key id) "1") _ us k Hst Hn). intros K t'. rewrite get_set, decide_False; [done|].
      apply closed_key_ne.
  - intros r. apply hoare_pure. intros ->. eapply hoare_bind; [apply hoare_lifecycle_caches|]. intros []. by apply hoare_ret.
Qed.
End caches.
