(* ===== verification/PublicCoherence.v ===== *)
(** * PublicCoherence: the public lists show the schedules of the database

    Any history of administration and public requests, one after the other, over a network
    without faults. *)

From Stdlib Require Import Ascii Sorted.
From stdpp Require Import gmap sorting.
From S2P Require Import Prelude Text Keys Redis RedisMem SeatLock Events Db HttpPayments HttpCache Schedules Layouts SchedulesProps SchedulesPlans SchedulesRaces.
From S2P Require Import ScheduleJson PublicSchedules PublicLists.

#[local] Open Scope string_scope.
#[local] Open Scope list_scope.
#[local] Open Scope Z_scope.

Section admin.
Context {D : Type} `{!RedisServer D} `{!RedisLaws D} {HJ : JsonText} {HS : ScheduleLibs} {HC : ChronoText} {HCL : ChronoLaws HC}.
Implicit Types (st : site D).

(** ** Changes of the database *)

Lemma caches_db N N' B B' st d' us k :
  caches_ok N B st → rows_fit N' d' → (∀ K, B K → B' K) →
  (∀ K i r, ¬ B' K → d_schedules (s_db st) !! i = Some r → listed_in K r → d_schedules d' !! i = Some r) →
  (∀ K i r, ¬ B' K → d_schedules d' !! i = Some r → listed_in K r → seated i d' → d_schedules (s_db st) !! i = Some r ∧ seated i (s_db st)) →
  caches_ok N' B' (Site d' (s_world st) us k).
Proof.
  intros [H1 H2 (n & Hn & Hk)] Hd HB Hold Hnew. split; [done|done|]. exists n. split; [done|].
  intros K HK HB' raw rows Hg Hde. assert (¬ B K) as HBK by (intros H; by apply HB', HB).
  destruct (Hk K HK HBK raw rows Hg Hde) as [E1 E2 E3 E4]. simpl. split; [done..| |].
  - intros s Hs. destruct (E3 s Hs) as [Hs1 Hs2]. split; [|done]. by apply (Hold K).
  - intros i s Hi Hu Hl Hb. destruct (Hnew K i s HB' Hi Hl Hb) as [Hi' Hb']. by eapply E4.
Qed.

(** Seats only, and no new ones of a layout. *)
Lemma caches_seats N B st d' us k :
  caches_ok N B st → rows_fit N d' → d_schedules d' = d_schedules (s_db st) → (∀ i, seated i d' → seated i (s_db st)) →
  caches_ok N B (Site d' (s_world st) us k).
Proof.
  intros Hst Hd Hs Hb. eapply caches_db; [exact Hst|exact Hd|done|by rewrite Hs|]. intros K i r _. rewrite Hs. intros Hi _ Hi'. split; [done|by apply Hb].
Qed.

(** One row: the keys that listed it, or list it now. *)
Definition spoilt (x y : schedule_row) (K : list_key) : Prop := listed_in K x ∨ listed_in K y.

Lemma rows_fit_row N d s x y : rows_fit N d → d_schedules d !! s = Some x → sc_id y = sc_id x → sc_layout_id y = sc_layout_id x →
  rows_fit N (with_schedules <[s := y]> d).
Proof.
  intros (R1 & R2 & R3 & R4) Hx Hid Hl. split_and!; simpl; [|by rewrite dom_insert_lookup_L|done|done].
  apply map_Forall_insert_2; [|done]. rewrite Hid. unfold schedule_fits. rewrite Hid, Hl. by apply R1.
Qed.

Lemma caches_row N st s x y us k :
  caches_ok N nothing st → d_schedules (s_db st) !! s = Some x → sc_id y = sc_id x → sc_layout_id y = sc_layout_id x →
  caches_ok N (spoilt x y) (Site (with_schedules <[s := y]> (s_db st)) (s_world st) us k).
Proof.
  intros Hst Hx Hid Hl. eapply caches_db; [exact Hst| |done| |].
  - apply (rows_fit_row _ _ _ x); [by eapply ca_rows|done..].
  - simpl. intros K i r Hn Hi Hr. rewrite lookup_insert_ne; [done|]. intros <-. apply Hn. left. congruence.
  - simpl. intros K i r Hn Hi Hr Hb. assert (i ≠ s) as Hne.
    { intros ->. rewrite lookup_insert_eq in Hi. injection Hi as <-. apply Hn. by right. }
    rewrite lookup_insert_ne in Hi by done. by split.
Qed.

Lemma rows_fit_mono N N' d : (N' ≤ N)%nat → rows_fit N d → rows_fit N' d.
Proof. intros HN (R1 & R2 & R3 & R4). split_and!; [done..|lia]. Qed.

Lemma seated_same d d' i : same_plans d d' → seated i d' → seated i d.
Proof.
  intros H0. pose proof (same_plan_of i _ _ H0) as H. unfold seated. rewrite !Exists_exists. intros (r' & Hr' & Hb).
  apply list_elem_of_lookup in Hr' as [j Hj]. destruct (Forall2_lookup_r _ _ _ _ _ H Hj) as (r & Hr & _ & Hp).
  exists r. split; [by eapply list_elem_of_lookup_2|]. by rewrite <-Hp.
Qed.

Lemma refs_same d d' : same_plans d d' → d_schedules d' = d_schedules d →
  Forall (λ r, ss_schedule_id r ∈ dom (d_schedules d)) (d_seats d) → Forall (λ r, ss_schedule_id r ∈ dom (d_schedules d')) (d_seats d').
Proof.
  intros H%same_plans_forall2 ->. generalize (dom (d_schedules d)). intros X. induction H as [|r r' l l' (_ & E & _) _ IH]; [done|].
  intros [? ?]%Forall_cons. constructor; [by rewrite E|by apply IH].
Qed.

Lemma caches_same_plans N B st d' us k : caches_ok N B st → same_plans (s_db st) d' → d_schedules d' = d_schedules (s_db st) →
  d_schedule_seq d' = d_schedule_seq (s_db st) → caches_ok N B (Site d' (s_world st) us k).
Proof.
  intros Hst Hp Hs Hq. apply caches_seats; [done| |done|by intros i; apply seated_same].
  destruct (ca_rows _ _ _ Hst) as (R1 & R2 & R3 & R4). split_and!; rewrite ?Hs, ?Hq; [done| |done|done]. rewrite <-Hs. by apply (refs_same (s_db st)).
Qed.

(** ** Inserted seats *)

Lemma insert_seats_rows nf skip ns d rs d' : insert_seats nf skip ns d = Some (rs, d') →
  d_schedules d' = d_schedules d ∧ d_schedule_seq d' = d_schedule_seq d ∧ d_seats d' = d_seats d ++ rs ∧
  Forall (λ r, ss_schedule_id r ∈ dom (d_schedules d) ∧ ∃ n, n ∈ ns ∧ ss_schedule_id r = ns_schedule_id n ∧ ss_place r = ns_place n) rs.
Proof.
  revert d rs d'. induction ns as [|n ns IH]; intros d rs d' H; simpl in H.
  { injection H as <- <-. by rewrite app_nil_r. }
  unfold insert_seat in H. destruct (_ || _) eqn:Hc; [done|]. cbn [next_seat_id d_seats] in H.
  apply orb_false_iff in Hc as [[_ Hdom%negb_false_iff%bool_decide_eq_true]%orb_false_iff _].
  destruct (existsb _ _).
  - destruct skip; [|done]. simpl in H. destruct (insert_seats nf true ns _) as [[rs1 d1]|] eqn:E; [|done]. simpl in H. injection H as <- <-.
    destruct (IH _ _ _ E) as (A1 & A2 & A3 & A4). split_and!; [done..|]. eapply Forall_impl; [exact A4|]. simpl.
    intros r (? & n' & ? & ?). split; [done|]. exists n'. split; [by right|done].
  - simpl in H. destruct (insert_seats nf skip ns _) as [[rs1 d1]|] eqn:E; [|done]. simpl in H. injection H as <- <-.
    destruct (IH _ _ _ E) as (A1 & A2 & A3 & A4). split_and!; [done|done|by rewrite A3; simpl; rewrite <-app_assoc|]. constructor.
    + split; [done|]. exists n. split; [by left|done].
    + eapply Forall_impl; [exact A4|]. simpl. intros r (? & n' & ? & ?). split; [done|]. exists n'. split; [by right|done].
Qed.

Lemma extra_seats_extra s seats keys next acc out : extra_seats s seats keys next acc = inl out →
  Forall (λ n, sp_source (ns_place n) = Extra) acc → Forall (λ n, sp_source (ns_place n) = Extra) out.
Proof.
  revert keys next acc. induction seats as [|x seats IH]; intros keys next acc; simpl; [by intros [= ->]|].
  case_bool_decide; [by apply IH|]. destruct (decimal_of _); [|done]. destruct (i32_checked _); [|done].
  intros Hx Ha. apply (IH _ _ _ Hx). apply Forall_app. by split; [|constructor].
Qed.

Lemma copy_seats_of s prices seats seen acc out : copy_seats s prices seats seen acc = Some out →
  Forall (λ n, ns_schedule_id n = s) acc → Forall (λ n, ns_schedule_id n = s) out.
Proof.
  revert seen acc. induction seats as [|x seats IH]; intros seen acc; simpl; [by intros [= ->]|].
  case_bool_decide; [by apply IH|]. destruct (i32_checked _); [|done]. simpl.
  intros Hx Ha. apply (IH _ _ Hx). apply Forall_app. by split; [|constructor].
Qed.

Lemma extra_tx_rows s seats d r d' : extra_seats_tx s seats d = Some (r, d') →
  d_schedules d' = d_schedules d ∧ d_schedule_seq d' = d_schedule_seq d ∧
  ∃ rs, d_seats d' = d_seats d ++ rs ∧ Forall (λ r, ss_schedule_id r ∈ dom (d_schedules d) ∧ sp_source (ss_place r) = Extra) rs.
Proof.
  assert (∀ d0 : db, d0 = d → d_schedules d0 = d_schedules d ∧ d_schedule_seq d0 = d_schedule_seq d ∧
    ∃ rs, d_seats d0 = d_seats d ++ rs ∧ Forall (λ r, ss_schedule_id r ∈ dom (d_schedules d) ∧ sp_source (ss_place r) = Extra) rs) as Hsame.
  { intros d0 ->. split_and!; [done..|]. exists []. by rewrite app_nil_r. }
  unfold extra_seats_tx. destruct (active_schedule s d); [|intros [= _ <-]; by apply Hsame].
  case_bool_decide; [intros [= _ <-]; by apply Hsame|]. destruct (i32_checked _); [|intros [= _ <-]; by apply Hsame].
  destruct (extra_seats _ _ _ _ _) as [[|n ns]|] eqn:Hx; [intros [= _ <-]; by apply Hsame| |intros [= _ <-]; by apply Hsame].
  destruct (insert_seats _ _ _ _) as [[rs d1]|] eqn:Hi; [|done]. intros [= _ <-].
  apply insert_seats_rows in Hi as (A1 & A2 & A3 & A4). split_and!; [done..|]. exists rs. split; [done|].
  eapply Forall_impl; [exact A4|]. simpl. intros r0 (? & n0 & Hn & _ & ->). split; [done|].
  eapply extra_seats_extra in Hx; [|constructor]. rewrite Forall_forall in Hx. by apply Hx.
Qed.

Lemma seated_added d d' rs i : d_seats d' = d_seats d ++ rs → (∀ r, r ∈ rs → ss_schedule_id r = i → sp_source (ss_place r) ≠ Base) →
  seated i d' → seated i d.
Proof.
  intros Hs Hrs. unfold seated, plan_of. rewrite Hs, filter_app, Exists_app. intros [H|H]; [done|]. exfalso.
  apply Exists_exists in H as (r & [Hi Hr]%list_elem_of_filter & Hb). by apply (Hrs r Hr Hi).
Qed.

(** ** The handlers of the administration *)

Lemma insert_schedule_fits N show city times now body d r d' : rows_fit (Datatypes.S N) d → in_i32 (cs_layout_id body) = true →
  insert_schedule show city times now body d = Some (r, d') → rows_fit N d' ∧ d_schedules d !! sc_id r = None.
Proof.
  intros (R1 & R2 & R3 & R4) Hl Hi. pose proof (insert_schedule_row _ _ _ _ _ _ _ _ Hi) as (_ & _ & _ & _ & _ & E1 & E2 & E3 & _ & E4).
  assert (sc_layout_id r = Some (cs_layout_id body)) as Hlay.
  { revert Hi. unfold insert_schedule, put_schedule. destruct times as [[[? ?] ?] ?]. cbn [next_schedule_id]. destruct (negb _); [done|].
    destruct (schedule_row_ok _ _); [|done]. simpl. by intros [= <- _]. }
  assert (d_schedules d !! sc_id r = None) as Hnew.
  { destruct (d_schedules d !! sc_id r) as [x|] eqn:Hx; [|done]. destruct (R1 _ _ Hx) as (_ & _ & Hlt). rewrite E1 in Hlt. lia. }
  split; [|done]. split_and!; rewrite ?E2, ?E3, ?E4; [|rewrite dom_insert_L; eapply Forall_impl; [exact R2|set_solver]|lia|lia].
  apply map_Forall_insert_2; [|intros i x Hx; destruct (R1 _ _ Hx) as (? & ? & ?); split_and!; [done..|lia]].
  split_and!; [done| |lia]. unfold schedule_fits. rewrite Hlay. simpl. rewrite Hl, andb_true_r.
  apply in_i32_true. rewrite E1. unfold i32_min, i32_max. lia.
Qed.

Lemma store_keeps N show city times body : in_i32 (cs_layout_id body) = true →
  hoare (caches_ok (Datatypes.S N) nothing) (store_schedule (D:=D) show city times body) (λ _, caches_ok N nothing).
Proof.
  intros Hl st Hst. pose proof (ca_quiet _ _ _ Hst) as Hf. destruct st as [d [ns t fl lg] us k]. simpl in Hf. subst fl.
  assert (caches_ok N nothing (Site d (World ns t [] lg) us k)) as Hless by (eapply caches_weaken; [|done|exact Hst]; lia).
  unfold store_schedule. unfold mbind at 1, St_bind at 1. rewrite db_get_ok by done. cbn [negb].
  unfold mbind at 1, St_bind at 1. rewrite db_query_ok by done. cbn [s_db]. destruct (filter _ (d_layout_seats d)) as [|x seats]; [done|].
  rewrite (bind_step _ _ _ t (Site d (World ns t [] lg) us k)) by reflexivity.
  unfold mbind at 1, St_bind at 1. rewrite db_run_ok by done. cbn [s_db s_world s_uuids s_drawn].
  destruct (insert_schedule _ _ _ _ _ _) as [[r d1]|] eqn:Hi; [|done].
  pose proof (insert_schedule_row _ _ _ _ _ _ _ _ Hi) as (_ & _ & _ & _ & _ & _ & E2 & E3 & _).
  destruct (insert_schedule_fits N _ _ _ _ _ _ _ _ (ca_rows _ _ _ Hst) Hl Hi) as [Hfit Hnew]. cbn [s_db] in Hnew.
  assert (seated (sc_id r) d1 → False) as Hno.
  { intros (x0 & [Hx1 Hx2]%list_elem_of_filter & _)%Exists_exists. rewrite E3 in Hx2.
    destruct (ca_rows _ _ _ Hst) as (_ & R2 & _). rewrite Forall_forall in R2. specialize (R2 _ Hx2). simpl in R2.
    rewrite Hx1 in R2. by apply not_elem_of_dom in Hnew. }
  assert (caches_ok N nothing (Site d1 (World ns t [] lg) us k)) as H1.
  { eapply (caches_db _ _ _ _ _ d1 us k Hst); [done|done| |].
    - simpl. intros K i x0 _ Hx _. rewrite E2, lookup_insert_ne; [done|]. intros <-. by rewrite Hnew in Hx.
    - simpl. intros K i x0 _ Hx _ Hb. rewrite E2 in Hx. assert (i ≠ sc_id r) as Hne by (intros ->; by apply Hno).
      rewrite lookup_insert_ne in Hx by done. split; [done|]. unfold seated, plan_of in *. by rewrite <-E3. }
  destruct (copy_seats _ _ _ _ _) as [news|] eqn:Hc; [|done].
  unfold mbind at 1, St_bind at 1. rewrite db_run_ok by done. cbn [s_db s_world s_uuids s_drawn].
  destruct (insert_seats _ _ _ _) as [[rs d2]|] eqn:Hs; [|done].
  apply insert_seats_rows in Hs as (A1 & A2 & A3 & A4). apply copy_seats_of in Hc; [|constructor]. rewrite Forall_forall in Hc. rewrite Forall_forall in A4.
  assert (caches_ok N (λ K, listed_in K r) (Site d2 (World ns t [] lg) us k)) as H2.
  { eapply (caches_db _ _ _ _ _ d2 us k H1); simpl; [|done|by rewrite A1|].
    - destruct Hfit as (R1 & R2 & R3 & R4). split_and!; rewrite ?A1, ?A2, ?A3; [done| |done|done]. apply Forall_app. split; [done|].
      apply Forall_forall. intros x0 Hx. by destruct (A4 _ Hx).
    - intros K i x0 Hn Hx Hlx Hb. rewrite A1 in Hx. split; [done|]. eapply seated_added; [exact A3| |exact Hb].
      intros x1 Hx1 Hi1. destruct (A4 _ Hx1) as (_ & n & Hn1 & Hn2 & _). rewrite Hn2, (Hc _ Hn1) in Hi1. subst i.
      rewrite E2, lookup_insert_eq in Hx. by injection Hx as ->. }
  pose proof (hoare_invalidations N _ r _ H2) as H3. unfold mbind, St_bind. destruct (invalidate_show_schedule_caches r _) as [[] st'].
  simpl in *. eapply caches_weaken; [done| |exact H3]. intros K _ [Ha Hb]. by apply Hb.
Qed.

Lemma create_keeps N mongo body : in_i32 (cs_layout_id body) = true →
  hoare (caches_ok (Datatypes.S N) nothing) (create_schedule (D:=D) mongo body) (λ _, caches_ok N nothing).
Proof.
  intros Hl. assert (∀ e : app_error, hoare (caches_ok (Datatypes.S N) nothing) (mret (inr e)) (λ (_ : schedule_created + app_error) st, caches_ok (D:=D) N nothing st)) as Hret.
  { intros e. apply hoare_ret. intros st. apply caches_weaken; [lia|done]. }
  unfold create_schedule. destruct (is_empty _); [apply Hret|]. destruct (negb _); [apply Hret|]. destruct mongo as [[ty|]|]; [|apply Hret..].
  destruct (negb _); [apply Hret|]. destruct (request_times body); [by apply store_keeps|apply Hret].
Qed.

Lemma hoare_pair {A} P (m : St (site D) A) (Q : A → site D → Prop) : (∀ s, P s → let '(a, s') := m s in Q a s') → hoare P m Q.
Proof. intros H s Hs. specialize (H s Hs). by destruct (m s). Qed.

(** A first half leaves at most the keys of the row it answers with. *)
Definition half_done N (r : schedule_row + app_error) st : Prop :=
  match r with inl y => caches_ok N (λ K, listed_in K y) st | inr _ => caches_ok N nothing st end.

Lemma announced_keeps N e s (first : St (site D) (schedule_row + app_error)) : e = ScheduleOpened s ∨ e = ScheduleClosed s →
  hoare (caches_ok N nothing) first (half_done N) → keeps (caches_ok N nothing) (then_announce e first).
Proof.
  intros He Hfirst. unfold then_announce. eapply hoare_bind; [exact Hfirst|]. intros [y|err]; [|by apply hoare_ret].
  eapply hoare_conseq; [| |apply (hoare_announce N (λ K, listed_in K y) e y s He)]; [done|].
  intros r st. apply caches_weaken; [done|]. by intros K _ [? ?].
Qed.

Lemma half_row N st s x y us k : caches_ok N nothing st → d_schedules (s_db st) !! s = Some x → sc_id y = sc_id x →
  sc_layout_id y = sc_layout_id x → sc_mongo_show_id y = sc_mongo_show_id x → sc_venue_city y = sc_venue_city x →
  ∀ z, sc_mongo_show_id z = sc_mongo_show_id x → sc_venue_city z = sc_venue_city x →
  half_done N (inl z) (Site (with_schedules <[s := y]> (s_db st)) (s_world st) us k).
Proof.
  intros Hst Hx H1 H2 H3 H4 z Hz1 Hz2. simpl. eapply caches_weaken; [done| |by apply (caches_row N st s x y us k)].
  intros K _. unfold spoilt. destruct K as [|id c]; simpl; [tauto|]. rewrite H3, H4, Hz1, Hz2. tauto.
Qed.

Lemma half_same N st y : caches_ok N nothing st → half_done N (inl y) st.
Proof. apply caches_weaken; [done|]. by intros K _ []. Qed.

Lemma with_schedules_alter s f d x : d_schedules d !! s = Some x → with_schedules (alter f s) d = with_schedules <[s := f x]> d.
Proof. intros Hx. unfold with_schedules. f_equal. apply map_eq. intros i. destruct (decide (i = s)) as [->|Hne].
  - by rewrite lookup_alter_eq, Hx, lookup_insert_eq.
  - by rewrite lookup_alter_ne, lookup_insert_ne by done.
Qed.

Lemma start_half N s : hoare (caches_ok N nothing) (lifecycle_tx (D:=D) start_tx s) (half_done N).
Proof.
  intros st Hst. rewrite (lifecycle_tx_ok _ _ _ (ca_quiet _ _ _ Hst)). unfold start_tx, set_row.
  destruct (active_schedule s (s_db st)) as [x|] eqn:Hx; [|by destruct st]. apply active_schedule_some in Hx as [Hx _].
  destruct (sc_lifecycle_state x); [|by destruct st; apply half_same|by destruct st].
  destruct (venue_city_required _); [by apply (half_row N st s x)|done].
Qed.

Lemma close_half N s : hoare (caches_ok N nothing) (lifecycle_tx (D:=D) close_tx s) (half_done N).
Proof.
  intros st Hst. rewrite (lifecycle_tx_ok _ _ _ (ca_quiet _ _ _ Hst)). unfold close_tx, set_row.
  destruct (active_schedule s (s_db st)) as [x|] eqn:Hx; [|by destruct st]. apply active_schedule_some in Hx as [Hx _].
  destruct (sc_lifecycle_state x); [| |by destruct st; apply half_same];
    (destruct (venue_city_required _); [by apply (half_row N st s x)|done]).
Qed.

Lemma delete_half N s : hoare (caches_ok N nothing) (delete_rows (D:=D) s) (half_done N).
Proof.
  apply hoare_pair. intros st Hst. pose proof (ca_quiet _ _ _ Hst) as Hf. destruct st as [d [ns t fl lg] us k]. simpl in Hf. subst fl. unfold delete_rows.
  unfold mbind at 1, St_bind at 1. rewrite db_get_ok by done. cbn [negb].
  unfold mbind at 1, St_bind at 1. rewrite db_query_ok by done. cbn [s_db].
  destruct (active_schedule s d) as [x|] eqn:Hx; [|exact Hst]. apply active_schedule_some in Hx as [Hx _].
  rewrite (bind_step _ _ _ t (Site d (World ns t [] lg) us k)) by reflexivity.
  unfold mbind at 1, St_bind at 1. rewrite db_run_ok by done. cbn [s_db s_world s_uuids s_drawn].
  unfold delete_stmt. destruct (negb _); [exact Hst|]. rewrite (with_schedules_alter s _ d x Hx).
  by apply (half_row N (Site d (World ns t [] lg) us k) s x (set_lifecycle Closed (set_deleted t x)) us k).
Qed.

Lemma extra_keeps N s seats : keeps (caches_ok N nothing) (add_extra_seats (D:=D) s seats).
Proof.
  intros st Hst. pose proof (ca_quiet _ _ _ Hst) as Hf. unfold add_extra_seats. case_bool_decide; [done|].
  unfold mbind at 1, St_bind at 1. rewrite db_get_ok by done. cbn [negb].
  unfold mbind at 1, St_bind at 1. rewrite db_run_ok by done.
  destruct (extra_seats_tx s seats (s_db st)) as [[r d']|] eqn:Hx; [|done].
  apply extra_tx_rows in Hx as (E1 & E2 & rs & E3 & E4). rewrite Forall_forall in E4.
  assert (caches_ok N nothing (Site d' (s_world st) (s_uuids st) (s_drawn st))) as H1.
  { destruct (ca_rows _ _ _ Hst) as (R1 & R2 & R3 & R4). apply caches_seats; [done| |done|].
    - split_and!; rewrite ?E1, ?E2, ?E3; [done| |done|done]. apply Forall_app. split; [done|]. apply Forall_forall. intros r0 Hr0. by destruct (E4 _ Hr0).
    - intros i. apply (seated_added _ _ rs); [done|]. intros r0 Hr0 _. destruct (E4 _ Hr0) as [_ ->]. done. }
  destruct r as [rows|e]; [|done]. revert H1. generalize (Site d' (s_world st) (s_uuids st) (s_drawn st)).
  change (keeps (caches_ok N nothing) (redis_of (invalidate_async (cache_schedule_key s)) ;;
    redis_of (invalidate_async cache_schedules_active_key) ;; mret (inl rows : list seat_row + app_error))).
  assert (∀ key, keeps (caches_ok N nothing) (redis_of (invalidate_async key))) as Hi.
  { intros key. eapply hoare_conseq; [| |apply hoare_invalidate]; [done|]. intros [] st0. apply caches_weaken; [done|]. by intros K _ [? _]. }
  apply keeps_bind; [apply Hi|]. intros _. apply keeps_bind; [apply Hi|]. intros _. apply keeps_ret.
Qed.

(** A statement on the seats. *)
Lemma seats_stmt_keeps {A} N B (tx : db → option (A * db)) :
  (∀ d a d', tx d = Some (a, d') → same_plans d d' ∧ d_schedules d' = d_schedules d ∧ d_schedule_seq d' = d_schedule_seq d) →
  keeps (caches_ok (D:=D) N B) (db_run tx).
Proof.
  intros Htx st Hst. rewrite db_run_ok by apply Hst. destruct (tx (s_db st)) as [[a d']|] eqn:E; [|done].
  destruct (Htx _ _ _ E) as (H1 & H2 & H3). by apply caches_same_plans.
Qed.

Lemma update_seats_keeps N B s l : keeps (caches_ok (D:=D) N B) (Schedules.update_seats s l).
Proof.
  assert (∀ t p, keeps (caches_ok (D:=D) N B) (db_run (price_stmt s t p))) as Hp.
  { intros t p. apply seats_stmt_keeps. unfold price_stmt. intros d a d'. destruct (_ && _); [done|]. intros [= _ <-].
    split; [by apply same_plans_update|done]. }
  assert (∀ t x, keeps (caches_ok (D:=D) N B) (db_run (status_stmt s t x))) as Hs.
  { intros t p. apply seats_stmt_keeps. unfold status_stmt. intros d a d' [= _ <-]. split; [by apply same_plans_update|done]. }
  induction l as [|x l IH]; simpl; [apply keeps_ret|]. keeps_tac; eauto.
Qed.

Lemma invalidate_keeps N B key : keeps (caches_ok (D:=D) N B) (redis_of (invalidate_async key)).
Proof.
  eapply hoare_conseq; [| |apply hoare_invalidate]; [done|]. intros [] st. apply caches_weaken; [done|]. by intros K _ [? _].
Qed.

Lemma update_schedule_seats_keeps N s l : keeps (caches_ok (D:=D) N nothing) (update_schedule_seats s l).
Proof.
  pose proof (update_seats_keeps N nothing s l). pose proof (invalidate_keeps N nothing (cache_schedule_key s)).
  assert (∀ b : bool, hoare (caches_ok (D:=D) N nothing) db_get (λ _, caches_ok N nothing)) as Hget.
  { intros _ st Hst. by rewrite db_get_ok by apply Hst. }
  assert (∀ A (q : db → A), keeps (caches_ok (D:=D) N nothing) (db_query q)) as Hq.
  { intros A q st Hst. by rewrite db_query_ok by apply Hst. }
  unfold update_schedule_seats. case_bool_decide; [apply keeps_ret|]. apply keeps_bind; [by apply (Hget true)|]. intros conn.
  destruct (negb conn); [apply keeps_ret|]. apply keeps_bind; [apply Hq|]. intros [[x|]|]; [|apply keeps_ret..].
  apply keeps_bind; [done|]. intros [?|?]; [|apply keeps_ret]. apply keeps_bind; [done|]. intros _. apply keeps_ret.
Qed.

Lemma put_schedule_some r d d' : put_schedule r d = Some d' → d' = with_schedules <[sc_id r := r]> d.
Proof. unfold put_schedule. destruct (schedule_row_ok r d); [by intros [= <-]|done]. Qed.

Lemma update_keeps N s body : keeps (caches_ok (D:=D) N nothing) (update_schedule s body).
Proof.
  intros st Hst. pose proof (ca_quiet _ _ _ Hst) as Hf. unfold update_schedule. case_bool_decide; [exact Hst|].
  unfold mbind at 1, St_bind at 1. rewrite db_get_ok by done. cbn [negb].
  unfold mbind at 1, St_bind at 1. rewrite db_query_ok by done.
  destruct (active_schedule s (s_db st)) as [x|] eqn:Hx; [|exact Hst]. apply active_schedule_some in Hx as [Hx _].
  destruct (changes_of body) as [c|e]; [|exact Hst].
  unfold mbind at 1, St_bind at 1. rewrite db_run_ok by done. unfold update_stmt. rewrite Hx. destruct (no_changes c); [exact Hst|].
  destruct (put_schedule _ _) as [d'|] eqn:Hp; [|exact Hst]. apply put_schedule_some in Hp. cbn [mbind option_bind].
  destruct (ca_rows _ _ _ Hst) as (R1 & _). destruct (R1 _ _ Hx) as (Hid & _). set (y := apply_changes c x) in *.
  assert (sc_id y = s) as Hy by done. rewrite Hy in Hp. subst d'.
  assert (caches_ok N (spoilt x y) (Site (with_schedules <[s := y]> (s_db st)) (s_world st) (s_uuids st) (s_drawn st))) as H1
    by (by apply caches_row).
  set (st1 := Site (with_schedules <[s := y]> (s_db st)) (s_world st) (s_uuids st) (s_drawn st)) in *.
  destruct (ca_keys _ _ _ H1) as (n & Hn & _).
  pose proof (invalidate_keeps N (spoilt x y) (cache_schedule_key s) st1 H1) as H2. cbv beta in H2.
  unfold mbind at 1, St_bind at 1. rewrite (invalidate_step (cache_schedule_key s) st1 n Hf Hn) in *. cbn [fst snd] in H2.
  match goal with |- context [(db_query _ ≫= _) ?x] => set (st2 := x) in * end.
  unfold mbind at 1, St_bind at 1. rewrite db_query_ok by done.
  assert (d_schedules (s_db st2) !! s = Some y) as -> by (simpl; by rewrite lookup_insert_eq). cbn [default from_option id].
  clearbody st2. revert st2 H2. change (hoare (caches_ok (D:=D) N (spoilt x y)) (invalidate_show_schedule_caches x ;;
    when (bool_decide (sc_venue_city x ≠ sc_venue_city y)) (invalidate_show_schedule_caches y) ;; mret (inl y : schedule_row + app_error))
    (λ _, caches_ok N nothing)).
  eapply hoare_bind; [apply hoare_invalidations|]. intros []. case_bool_decide as Hc; simpl.
  - eapply hoare_bind; [apply hoare_invalidations|]. intros []. apply hoare_ret. intros st2. apply caches_weaken; [done|].
    intros K _ [[[?|?] ?] ?]; done.
  - eapply hoare_bind; [apply (keeps_ret (caches_ok N (λ K, spoilt x y K ∧ ¬ listed_in K x)))|]. intros []. apply hoare_ret.
    intros st2. apply caches_weaken; [done|]. intros K _ [[Hl|Hl] Hn']; apply Hn'; [exact Hl|]. revert Hl.
    destruct K as [|id city]; [done|]. simpl. intros [Hi Hv]. rewrite Hc. split; [exact Hi|exact Hv].
Qed.

Definition request_fits (o : admin_op) : bool := match o with AdCreate _ body => in_i32 (cs_layout_id body) | _ => true end.

Lemma admin_keeps N o : request_fits o = true →
  hoare (caches_ok (D:=D) (Datatypes.S N) nothing) (admin_run o) (λ _, caches_ok N nothing).
Proof.
  intros Ho. assert (∀ A (m : St (site D) A), hoare (caches_ok (Datatypes.S N) nothing) m (λ _, caches_ok N nothing) →
    hoare (caches_ok (Datatypes.S N) nothing) (m ;; mret tt) (λ _, caches_ok N nothing)) as Hdrop.
  { intros A m Hm. eapply hoare_bind; [exact Hm|]. intros a. by apply hoare_ret. }
  assert (∀ A (m : St (site D) A), keeps (caches_ok N nothing) m →
    hoare (caches_ok (Datatypes.S N) nothing) (m ;; mret tt) (λ _, caches_ok N nothing)) as Hkeep.
  { intros A m Hm. apply Hdrop. eapply hoare_conseq; [| |exact Hm]; [|done]. intros st. apply caches_weaken; [lia|done]. }
  destruct o as [mongo body|s seats|s seats|s|s|s|s body|p x]; simpl.
  - by apply Hdrop, create_keeps.
  - apply Hkeep, extra_keeps.
  - apply Hkeep, update_schedule_seats_keeps.
  - apply Hkeep, (announced_keeps _ _ s); [by left|apply start_half].
  - apply Hkeep, (announced_keeps _ _ s); [by right|apply close_half].
  - apply Hkeep, (announced_keeps _ _ s); [by right|apply delete_half].
  - apply Hkeep, update_keeps.
  - apply Hkeep. apply seats_stmt_keeps. intros d a d' [= _ <-]. split; [by apply same_plans_update|done].
Qed.
End admin.

(** ** The public *)

Section public.
Context {D : Type} `{!RedisServer D} `{!RedisLaws D} {HJ : JsonText} {HS : ScheduleLibs} {HC : ChronoText} {HCL : ChronoLaws HC}.
Implicit Types (st : site D).
Variable B : list_key → Prop.

(** What the requests of the public leave as it is. *)
Definition calm N (d : db) (t : Z) st : Prop := caches_ok N B st ∧ s_db st = d ∧ w_now (s_world st) = t.

Lemma calm_cached {T} N d t (de : json → option T) key : keeps (calm N d t) (cached de key).
Proof.
  intros st (Hst & Hd & Ht). destruct (ca_keys _ _ _ Hst) as (n & Hn & _). by rewrite (cached_step de key st n (ca_quiet _ _ _ Hst) Hn).
Qed.

(** What is cached under the key of a list is to be right. *)
Lemma calm_cache_rows N d t key j ttl : 0 < ttl ≤ TTL_24_HOURS →
  (∀ K rows, list_key_ok K → key = list_key_text K → (json_parse (json_print j) ≫= de_schedules) = Some rows → rows_exact K t d rows) →
  keeps (calm N d t) (cache key j ttl).
Proof.
  intros Httl Hkey st (Hst & Hd & Ht). destruct (ca_keys _ _ _ Hst) as (n & Hn & Hk). pose proof (ca_quiet _ _ _ Hst) as Hf.
  pose proof (ca_rows _ _ _ Hst) as Hrows. rewrite (cache_step key j ttl st n Hf Hn (day_ok ttl Httl)).
  subst d t. split; [|done]. split; [done|done|]. simpl. eexists. split; [apply list_lookup_insert_eq; by eapply lookup_lt_Some|].
  intros K HK HB raw rows. rewrite get_set_px by done. case_decide as Hc; [|by apply Hk].
  destruct (_ <? _); [|done]. intros [= <-]. by apply Hkey.
Qed.

Lemma calm_cache N d t key j ttl : (∀ K, key ≠ list_key_text K) → 0 < ttl ≤ TTL_24_HOURS → keeps (calm N d t) (cache key j ttl).
Proof. intros Hkey Httl. apply calm_cache_rows; [done|]. intros K rows _ HK. by destruct (Hkey K). Qed.

Lemma calm_connected N d t : hoare (calm N d t) (connected (D:=D)) (λ r st, r = inl tt ∧ calm N d t st).
Proof.
  intros st Hst. unfold connected. unfold mbind at 1 2, St_bind at 1 2. rewrite db_get_ok by apply Hst. done.
Qed.
Lemma calm_rows {A} N d t (q : db → A) : hoare (calm N d t) (query q) (λ r st, r = inl (q d) ∧ calm N d t st).
Proof.
  intros st Hst. unfold query, or_err. unfold mbind at 1 2, St_bind at 1 2. rewrite db_query_ok by apply Hst. destruct Hst as (? & <- & ?). done.
Qed.

Lemma hoare_and_then {A A' E} P (Q : A → site D → Prop) (R : A' + E → site D → Prop) (m : St (site D) (A + E)) (f : A → St (site D) (A' + E)) :
  hoare P m (λ r st, ∃ a, r = inl a ∧ Q a st) → (∀ a, hoare (Q a) (f a) R) → hoare P (and_then m f) R.
Proof.
  intros Hm Hf. eapply hoare_bind; [exact Hm|]. intros r st (a & -> & Ha). by apply Hf.
Qed.

Lemma day_counts : 0 < TTL_SCHEDULE_SEAT_COUNTS ≤ TTL_24_HOURS.
Proof. by vm_compute. Qed.

Lemma calm_read_counts N d t ids found missing : keeps (calm N d t) (read_counts ids found missing).
Proof.
  revert found missing. induction ids as [|i ids IH]; intros found missing; simpl; [apply keeps_ret|].
  apply keeps_bind; [apply calm_cached|]. intros total. apply keeps_bind; [apply calm_cached|]. intros available.
  destruct total, available; apply IH.
Qed.

Lemma calm_counts N d t ids : hoare (calm N d t) (load_schedule_seat_counts ids) (λ r st, ∃ c, r = inl c ∧ calm N d t st).
Proof.
  unfold load_schedule_seat_counts. case_bool_decide; [apply hoare_ret; intros st Hst; by eexists|].
  eapply hoare_bind; [apply calm_read_counts|]. intros [found missing].
  case_bool_decide; [apply hoare_ret; intros st Hst; by eexists|].
  eapply (hoare_and_then _ (λ _, calm N d t)); [eapply hoare_conseq; [| |apply calm_connected]; [done|]; intros r st [-> ?]; by eexists|intros _].
  do 2 (eapply (hoare_and_then _ (λ _, calm N d t)); [eapply hoare_conseq; [| |apply calm_rows]; [done|]; intros r st [-> ?]; by eexists|intros ?]).
  eapply (hoare_bind _ (λ _, calm N d t)); [|intros _; apply hoare_ret; intros st Hst; by eexists].
  apply keeps_for_each. intros i _. unfold write_counts.
  apply keeps_bind; [|intros _]; apply calm_cache; try apply day_counts; intros K; [apply total_key_ne|apply available_key_ne].
Qed.

(** ** Lists *)

Lemma hoare_given {A} N d t (m : St (site D) A) Q : (rows_fit N d → hoare (calm N d t) m Q) → hoare (calm N d t) m Q.
Proof. intros H st Hst. apply H; [|done]. destruct Hst as (Hst & <- & _). by eapply ca_rows. Qed.

Lemma cached_rows_exact N d t K : list_key_ok K → ¬ B K →
  hoare (calm N d t) (cached_rows (list_key_text K) (rows_of K t)) (λ r st, ∃ rows, r = inl rows ∧ rows_exact K t d rows ∧ calm N d t st).
Proof.
  intros HK HB. unfold cached_rows. eapply (hoare_bind _ (λ hit st, (∀ rows, hit = Some rows → rows_exact K t d rows) ∧ calm N d t st)).
  - intros st (Hst & Hd & Ht). destruct (ca_keys _ _ _ Hst) as (n & Hn & Hk).
    rewrite (cached_step de_schedules _ st n (ca_quiet _ _ _ Hst) Hn). split; [|done]. intros rows Hrows.
    destruct (r_get n (w_now (s_world st)) (list_key_text K)) as [raw|] eqn:Hg; [|done]. subst d t. by apply (Hk K HK HB raw rows).
  - intros [rows|]; [apply hoare_ret; intros st [Hr Hst]; exists rows; auto|].
    eapply (hoare_and_then _ (λ _, calm N d t)).
    { eapply hoare_conseq; [| |apply calm_connected]; [by intros st [_ ?]|]. intros r st [-> ?]. by eexists. }
    intros _. eapply (hoare_and_then _ (λ rows st, rows = rows_of K t d ∧ calm N d t st)).
    { eapply hoare_conseq; [| |apply calm_rows]; [done|]. intros r st [-> ?]. by eexists. }
    intros rows. apply hoare_pure. intros ->. apply hoare_given. intros Hfit.
    eapply (hoare_bind _ (λ _, calm N d t)).
    + apply calm_cache_rows; [done|]. intros K' rows HK' Ht. apply list_key_text_inj in Ht as <-; [|done..].
      rewrite json_parse_print by (by apply schedules_json_ok, (rows_of_fit N)). cbn [mbind option_bind]. rewrite de_schedules_json by by apply (rows_of_fit N).
      intros [= <-]. by apply (rows_of_exact N).
    + intros _. apply hoare_ret. intros st Hst. exists (rows_of K t d). split_and!; [done|by apply (rows_of_exact N)|done].
Qed.

Lemma entries_rows show_of c rows : ∀ st, ∃ ls, entries (D:=D) show_of c rows st = (ls, st) ∧ map li_schedule ls = rows ∧
  Forall (λ e, li_booking_open e = booking_open (li_schedule e)) ls.
Proof.
  induction rows as [|s rows IH]; intros st; [by exists []|]. destruct (IH st) as (ls & E & H & Ho). simpl.
  rewrite (bind_step _ _ _ (w_now (s_world st)) st) by (by destruct st). rewrite (bind_step _ _ _ ls st) by done.
  eexists. split_and!; [done|simpl; by rewrite H|by constructor].
Qed.

(** What both lists make of the rows. *)
Definition listed t (key : string) (rows : db → list schedule_row) (show_of : list schedule_row → schedule_row → option json) :
    St (site D) (list listed_schedule + app_error) :=
  rows ←? cached_rows key rows;
  let rows := filter (λ s, upcoming t s = true) rows in
  c ←? load_schedule_seat_counts (map sc_id rows);
  listed ← entries (show_of rows) c rows; mret (inl listed).

Lemma listed_rows N d t key rows show_of (P : site D → Prop) (good : list schedule_row → Prop) :
  hoare P (cached_rows key rows) (λ r st, ∃ rs, r = inl rs ∧ good rs ∧ calm N d t st) →
  hoare P (listed t key rows show_of) (λ r st, ∃ rs ls, r = inl ls ∧ good rs ∧ map li_schedule ls = filter (λ s, upcoming t s = true) rs ∧
    Forall (λ e, li_booking_open e = booking_open (li_schedule e)) ls ∧ calm N d t st).
Proof.
  intros Hc. unfold listed. eapply (hoare_and_then _ (λ rs st, good rs ∧ calm N d t st)).
  { eapply hoare_conseq; [| |exact Hc]; [done|]. intros r st (rs & -> & H1 & H2). by exists rs. }
  intros rs. apply hoare_pure. intros Hrs. eapply (hoare_and_then _ (λ _, calm N d t)).
  { eapply hoare_conseq; [| |apply calm_counts]; [done|]. intros r st (c & -> & H). by exists c. }
  intros c st Hst. destruct (entries_rows (show_of (filter (λ s, upcoming t s = true) rs)) c (filter (λ s, upcoming t s = true) rs) st) as (ls & E & H & Ho).
  rewrite (bind_step _ _ _ _ _ E). by exists rs, ls.
Qed.
End public.
