(* ===== verification/PublicHistory.v ===== *)
(** * PublicHistory: any history of administration and public requests

    The requests come one after the other, over a network without faults; time may pass
    between them.  The lists of schedules show the rows of the database. *)

From Stdlib Require Import Ascii Sorted.
From stdpp Require Import gmap sorting.
From S2P Require Import Prelude Text Keys Redis RedisMem SeatLock SeatBitmap Events Db HttpPayments HttpCache Schedules Layouts SchedulesProps SchedulesPlans.
From S2P Require Import ScheduleJson PublicSchedules PublicLists PublicCoherence.

#[local] Open Scope string_scope.
#[local] Open Scope list_scope.
#[local] Open Scope Z_scope.

(** ** Requests *)

Inductive list_query := QActive | QShow (show_id : string) (city : option string).
Definition query_key (q : list_query) : list_key :=
  match q with QActive => KeyActive | QShow id city => KeyShow id (selected_city city) end.
Definition query_ok (q : list_query) : bool := match q with QActive => true | QShow id _ => plain_id id end.

Inductive public_op :=
  | PoAdmin (o : admin_op)
  | PoList (q : list_query)
  | PoDetails (schedule_id : Z)
  | PoSeats (schedule_id : Z)
  | PoTick (ms : N).

Definition public_ok (o : public_op) : bool :=
  match o with PoAdmin o => request_fits o | PoList q => query_ok q | _ => true end.

(** What a list is to show of the database at a time. *)
Record list_shows (K : list_key) (t : Z) (d : db) (rows : list schedule_row) : Prop := ListShows {
  ls_nodup : NoDup rows;
  ls_sorted : StronglySorted starts_before rows;
  ls_entry s : s ∈ rows → d_schedules d !! sc_id s = Some s ∧ listed_in K s ∧ upcoming t s = true;
  ls_all i s : d_schedules d !! i = Some s → upcoming t s = true → listed_in K s → seated i d → s ∈ rows
}.

Section run.
Context {D : Type} `{!RedisServer D} {HJ : JsonText} {HS : ScheduleLibs} {HC : ChronoText}.
Variables (find_shows : list string → gmap string json) (find_show : string → option json).
Abbreviation S := (St (site D)).

Definition list_for (q : list_query) : S (list listed_schedule + app_error) :=
  match q with QActive => list_active_schedules find_shows | QShow id city => get_schedules_for_show id city end.

Definition public_run (o : public_op) : S unit :=
  match o with
  | PoAdmin o => admin_run o
  | PoList q => list_for q ;; mret tt
  | PoDetails id => get_schedule_details find_show id ;; mret tt
  | PoSeats id => get_schedule_seats_public id ;; mret tt
  | PoTick ms => redis_of (advance ms)
  end.
Definition public_history (os : list public_op) : S unit := for_each os public_run.
End run.

Lemma strongly_sorted_filter {A} (R : A → A → Prop) (P : A → Prop) `{∀ x, Decision (P x)} l :
  StronglySorted R l → StronglySorted R (filter P l).
Proof.
  induction 1 as [|x l Hl IH Hx]; [constructor|]. rewrite filter_cons. case_decide; [|done].
  constructor; [done|]. rewrite Forall_forall in *. intros y [_ Hy]%list_elem_of_filter. by apply Hx.
Qed.

Lemma exact_shows K t d rows : rows_exact K t d rows → list_shows K t d (filter (λ s, upcoming t s = true) rows).
Proof.
  intros [H1 H2 H3 H4]. split.
  - by apply NoDup_filter.
  - by apply strongly_sorted_filter.
  - intros s [Hu Hs]%list_elem_of_filter. by destruct (H3 s Hs).
  - intros i s Hi Hu Hl Hb. apply list_elem_of_filter. split; [done|]. by apply (H4 i).
Qed.

Lemma query_key_ok q : query_ok q = true → list_key_ok (query_key q).
Proof.
  destruct q as [|id city]; [done|]. simpl. intros Hid. split; [done|].
  assert (∀ c, selected_city c = city_filter c) as -> by (by intros [c|]). unfold city_filter. destruct city as [c|]; [|done]. simpl. destruct (negb _ && _) eqn:E; [|done]. by rewrite trim_trim, E.
Qed.

Section history.
Context {D : Type} `{!RedisServer D} `{!RedisLaws D} {HJ : JsonText} {HS : ScheduleLibs} {HC : ChronoText} {HCL : ChronoLaws HC}.
Variables (find_shows : list string → gmap string json) (find_show : string → option json).
Implicit Types (st : site D).

Lemma calm_now_ms N d t : hoare (calm nothing N d t) (redis_of (D:=D) now_ms) (λ now st, now = t ∧ calm nothing N d t st).
Proof. intros st Hst. assert (redis_of now_ms st = (w_now (s_world st), st)) as -> by (by destruct st). by destruct Hst as (? & ? & ?). Qed.

Lemma listed_shows N d t K show_of : list_key_ok K →
  hoare (calm nothing N d t) (listed t (list_key_text K) (rows_of K t) show_of)
    (λ r st, ∃ ls, r = inl ls ∧ list_shows K t d (map li_schedule ls) ∧
      Forall (λ e, li_booking_open e = booking_open (li_schedule e)) ls ∧ calm nothing N d t st).
Proof.
  intros HK. eapply hoare_conseq; [| |apply (listed_rows nothing N d t _ _ show_of _ (rows_exact K t d)); apply cached_rows_exact; [done|by intros []]]; [done|].
  intros r st (rs & ls & -> & Hrs & H & Ho & Hst). exists ls. split_and!; [done| |done|done]. rewrite H. by apply exact_shows.
Qed.

Lemma list_for_shows N d t q : query_ok q = true →
  hoare (calm nothing N d t) (list_for (D:=D) find_shows q)
    (λ r st, ∃ ls, r = inl ls ∧ list_shows (query_key q) t d (map li_schedule ls) ∧
      Forall (λ e, li_booking_open e = booking_open (li_schedule e)) ls ∧ calm nothing N d t st).
Proof.
  intros Hq%query_key_ok. destruct q as [|id city]; simpl.
  - eapply hoare_bind; [apply calm_now_ms|]. intros now. apply hoare_pure. intros ->.
    apply (listed_shows N d t KeyActive (λ rows s, (match filter (λ i, object_id_ok i = true) (map sc_mongo_show_id rows) with
      [] => ∅ | ids => find_shows ids end : gmap string json) !! sc_mongo_show_id s)). done.
  - eapply hoare_bind; [apply calm_now_ms|]. intros now. apply hoare_pure. intros ->.
    apply (listed_shows N d t (KeyShow id (selected_city city)) (λ _ _, None)). done.
Qed.

(** *** The other requests *)

Lemma keeps_connected N d t : keeps (calm nothing N d t) (connected (D:=D)).
Proof. eapply hoare_conseq; [| |apply calm_connected]; [done|]. by intros r st [_ ?]. Qed.
Lemma keeps_query {A} N d t (q : db → A) : keeps (calm (D:=D) nothing N d t) (query q).
Proof. eapply hoare_conseq; [| |apply calm_rows]; [done|]. by intros r st [_ ?]. Qed.

Lemma keeps_read {R} N d t (f : D → Z → D * option R) : (∀ n t, (f n t).1 = n) → keeps (calm nothing N d t) (redis_of (node_cmd 0 f)).
Proof.
  intros Hf st (Hst & Hd & Ht). destruct (ca_keys _ _ _ Hst) as (n & Hn & _). rewrite (node_cmd_quiet f st n (ca_quiet _ _ _ Hst) Hn).
  rewrite Hf, list_insert_id by done. split; [|done]. destruct Hst as [H1 H2 (n' & H3 & H4)]. split; [done|done|]. exists n'. by split.
Qed.
Lemma keeps_pool N d t i : keeps (calm nothing N d t) (redis_of (D:=D) (pool_get i)).
Proof.
  intros st Hst. assert (redis_of (pool_get i) st = (true, st)) as ->; [|done].
  destruct Hst as (Hst & _). pose proof (ca_quiet _ _ _ Hst) as Hf. destruct st as [d0 [ns t0 fl lg] us k]. simpl in Hf. by subst fl.
Qed.

Lemma details_calm N d t id : keeps (calm nothing N d t) (get_schedule_details (D:=D) find_show id).
Proof.
  unfold get_schedule_details. apply keeps_bind; [apply calm_cached|]. intros hit. apply keeps_and_then.
  - destruct hit as [s|]; [apply keeps_ret|]. apply keeps_and_then; [apply keeps_connected|]. intros _.
    apply keeps_and_then; [apply keeps_query|]. intros found. apply keeps_and_then; [apply keeps_or_err, keeps_ret|]. intros s.
    apply keeps_bind; [|intros; apply keeps_ret]. apply calm_cache; [intros K; apply schedule_key_ne|by vm_compute].
  - intros s. case_bool_decide; [apply keeps_ret|]. apply keeps_bind; [|intros; apply keeps_ret].
    eapply hoare_conseq; [| |apply calm_now_ms]; [done|]. by intros r st [_ ?].
Qed.

Lemma seat_views_calm N d t conn bitmap id seats : keeps (calm nothing N d t) (seat_views (D:=D) conn bitmap id seats).
Proof.
  induction seats as [|x seats IH]; simpl; [apply keeps_ret|]. apply keeps_bind.
  - destruct (_ && _); [|apply keeps_ret]. apply keeps_bind; [by apply keeps_read|]. intros; apply keeps_ret.
  - intros l. apply keeps_bind; [exact IH|]. intros; apply keeps_ret.
Qed.

Lemma seats_calm N d t id : keeps (calm nothing N d t) (get_schedule_seats_public (D:=D) id).
Proof.
  unfold get_schedule_seats_public. apply keeps_and_then; [apply keeps_connected|]. intros _. apply keeps_and_then.
  { apply keeps_or_err, keeps_bind; [|intros; apply keeps_ret]. intros st Hst. by rewrite db_query_ok by apply Hst. }
  intros s. apply keeps_and_then; [apply keeps_query|]. intros seats. apply keeps_bind; [apply keeps_pool|]. intros conn.
  apply keeps_bind; [destruct conn; [by apply keeps_read|apply keeps_ret]|]. intros snapshot.
  apply keeps_bind; [apply seat_views_calm|]. intros; apply keeps_ret.
Qed.

(** *** A step of the history *)

Lemma caches_calm {A} N (m : St (site D) A) :
  (∀ d t, keeps (calm nothing N d t) m) → hoare (caches_ok (Datatypes.S N) nothing) (m ;; mret tt) (λ _, caches_ok N nothing).
Proof.
  intros Hm. apply (hoare_bind _ (λ _, caches_ok N nothing)); [|intros _; by apply hoare_ret]. intros st Hst.
  assert (caches_ok N nothing st) as Hst' by (eapply caches_weaken; [|done|exact Hst]; lia).
  specialize (Hm (s_db st) (w_now (s_world st)) st (conj Hst' (conj eq_refl eq_refl))). by destruct (m st) as [a st'], Hm.
Qed.

Lemma tick_caches N ms : hoare (caches_ok (D:=D) (Datatypes.S N) nothing) (redis_of (advance ms)) (λ _, caches_ok N nothing).
Proof.
  intros [d [ns t fl lg] us k] Hst. destruct Hst as [H1 (R1 & R2 & R3 & R4) (n & Hn & Hk)]. simpl in *. split; simpl; [done| |].
  - split_and!; [done..|lia].
  - exists n. split; [done|]. intros K HK HB raw rows Hg Hr. apply (rows_exact_time K t); [lia|].
    destruct (get_expire n t (t + Z.of_N ms) (list_key_text K)) as [E|E]; [lia| |congruence].
    apply (Hk K HK HB raw rows); [|done]. by rewrite <-E.
Qed.

Lemma public_step N o : public_ok o = true →
  hoare (caches_ok (D:=D) (Datatypes.S N) nothing) (public_run find_shows find_show o) (λ _, caches_ok N nothing).
Proof.
  intros Ho. destruct o as [o|q|id|id|ms]; simpl.
  - by apply admin_keeps.
  - apply caches_calm. intros d t. eapply hoare_conseq; [| |by apply list_for_shows]; [done|]. by intros r st (ls & _ & _ & _ & ?).
  - apply caches_calm. intros d t. apply details_calm.
  - apply caches_calm. intros d t. apply seats_calm.
  - apply tick_caches.
Qed.

Lemma public_steps os : forallb public_ok os = true →
  hoare (caches_ok (D:=D) (length os) nothing) (public_history find_shows find_show os) (λ _, caches_ok 0 nothing).
Proof.
  induction os as [|o os IH]; simpl; [intros _; by apply hoare_ret|]. intros [Ho Hos]%andb_true_iff.
  eapply hoare_bind; [by apply public_step|]. intros []. by apply IH.
Qed.

(** C12: Without faults and from empty list caches, after any requests of the administration
    and of the public, one after the other, and with time passing, a list of schedules answers
    with rows of the database as they are: without repetition, by starting time, upcoming, of the show and city asked
    for, said open for booking when they are; and every such row that has a seat of its
    layout is in the list.  ([late_reader_offers_closed_schedule] has two requests that overlap,
    for which this fails.) *)
Theorem public_lists_follow_database os q st n :
  w_faults (s_world st) = [] → w_nodes (s_world st) !! 0%nat = Some n →
  (∀ K t, r_get n t (list_key_text K) = None) → rows_fit (length os) (s_db st) →
  forallb public_ok os = true → query_ok q = true →
  let st1 := (public_history find_shows find_show os st).2 in
  let '(answer, st2) := list_for find_shows q st1 in
  ∃ ls, answer = inl ls ∧ list_shows (query_key q) (w_now (s_world st1)) (s_db st1) (map li_schedule ls) ∧
    Forall (λ e, li_booking_open e = booking_open (li_schedule e)) ls ∧ s_db st2 = s_db st1.
Proof.
  intros Hf Hn Hcold Hd Hos Hq st1.
  assert (caches_ok (length os) nothing st) as Hst.
  { split; [done|done|]. exists n. split; [done|]. intros K _ _ raw rows. by rewrite Hcold. }
  pose proof (public_steps os Hos st Hst) as H1. fold st1 in H1.
  assert (caches_ok 0 nothing st1) as Hst1 by (unfold st1; by destruct (public_history find_shows find_show os st)).
  pose proof (list_for_shows 0 (s_db st1) (w_now (s_world st1)) q Hq st1 (conj Hst1 (conj eq_refl eq_refl))) as H2.
  destruct (list_for find_shows q st1) as [answer st2]. simpl in H2. destruct H2 as (ls & -> & Hs & Ho & _ & Hdb & _). by exists ls.
Qed.
End history.

(** ** A history: two shows announced, the lists read, one show closed, a day goes by *)

#[export] Instance plain_chrono : ChronoText :=
  {| time_text := show_Z; time_of_text := parse_Z; date_text := show_Z; date_of_text := parse_Z |}.
#[export] Instance plain_chrono_laws : ChronoLaws plain_chrono := {| time_of_time_text := parse_show_Z; date_of_date_text := parse_show_Z |}.

Definition the_show : string := "64b000000000000000000001".
Definition later_show : create_schedule_request :=
  CreateScheduleRequest the_show Movie 1 "20001" Evening None "99000000" "500" {["Standard" := "100"; "VIP" := "400"]} None None "Delhi" None.
Definition sooner_show : create_schedule_request :=
  CreateScheduleRequest the_show Movie 1 "20000" Evening (Some "88000000") "99000000" "500" {["Standard" := "100"; "VIP" := "400"]} None None " Pune " None.
Definition public_requests : list public_op :=
  [PoAdmin (AdCreate (Some (Some Movie)) later_show); PoList QActive; PoAdmin (AdCreate (Some (Some Movie)) sooner_show);
   PoList (QShow the_show (Some " Pune")); PoList (QShow the_show None); PoAdmin (AdStart 1); PoSeats 1; PoDetails 2;
   PoTick 80000000].
Definition public_answer (q : list_query) (os : list public_op) : list (Z * Z * bool * Z) :=
  match (list_for (HJ := mem_json) (λ _, ∅) q (public_history (HJ := mem_json) (λ _, ∅) (λ _, None) os empty_site).2).1 with
  | inl ls => map (λ e, (sc_id (li_schedule e), sc_start_time (li_schedule e), li_booking_open e, li_available_seats e)) ls
  | inr _ => []
  end.

Lemma public_lists_follow_database_witness :
  public_answer QActive public_requests = [(2, 88000000, false, 3); (1, 1728151200000, true, 3)] ∧
  public_answer (QShow the_show (Some "Pune")) public_requests = [(2, 88000000, false, 3)] ∧
  public_answer (QShow the_show (Some "Pune")) (public_requests ++ [PoAdmin (AdClose 2)]) = [] ∧
  public_answer QActive (public_requests ++ [PoTick 80000000]) = [(1, 1728151200000, true, 3)] ∧
  let st1 := (public_history (HJ := mem_json) (λ _, ∅) (λ _, None) public_requests empty_site).2 in
  let '(answer, st2) := list_for (HJ := mem_json) (λ _, ∅) (QShow the_show (Some "Pune")) st1 in
  ∃ ls, answer = inl ls ∧
    list_shows (KeyShow the_show (selected_city (Some "Pune"))) (w_now (s_world st1)) (s_db st1) (map li_schedule ls) ∧
    Forall (λ e, li_booking_open e = booking_open (li_schedule e)) ls ∧ s_db st2 = s_db st1.
Proof.
  split_and!; [vm_compute; reflexivity..|].
  assert (∀ K t, r_get mem_empty t (list_key_text K) = None) as Hcold by (by intros [|]).
  assert (rows_fit (length public_requests) (s_db empty_site)) as Hd by (split_and!; [apply map_Forall_empty|constructor|done|done]).
  pose proof (public_lists_follow_database (HJ := mem_json) (λ _, ∅) (λ _, None) public_requests (QShow the_show (Some "Pune")) empty_site mem_empty
    eq_refl eq_refl Hcold Hd eq_refl eq_refl) as H.
  exact H.
Defined.
