(* ===== verification/PublicStale.v ===== *)
(** * PublicStale: what the caches of the public do not keep up with

    A reader whose query ran before a schedule closed caches what it found after the
    schedule closed; and a change of the seats by the administration leaves the cached
    counts as they are. *)

From Stdlib Require Import Ascii Sorted.
From stdpp Require Import gmap sorting.
From S2P Require Import Prelude Text Keys Redis RedisMem SeatLock SeatBitmap Events Db HttpPayments HttpCache Schedules Layouts SchedulesProps SchedulesPlans SchedulesRaces.
From S2P Require Import ScheduleJson PublicSchedules PublicLists PublicCoherence PublicHistory.

#[local] Open Scope string_scope.
#[local] Open Scope list_scope.
#[local] Open Scope Z_scope.

Section stale.
Context {D : Type} `{!RedisServer D} `{!RedisLaws D} {HJ : JsonText} {HS : ScheduleLibs} {HC : ChronoText} {HCL : ChronoLaws HC}.
Variable find_shows : list string → gmap string json.
Implicit Types (st : site D).

Definition anything (K : list_key) : Prop := True.

(** A list that is in the cache is what the public gets, whatever the database holds. *)
Lemma cached_list_answered st n raw rows :
  w_faults (s_world st) = [] → w_nodes (s_world st) !! 0%nat = Some n → rows_fit 0 (s_db st) →
  r_get n (w_now (s_world st)) cache_schedules_active_key = Some raw → (json_parse raw ≫= de_schedules) = Some rows →
  let '(answer, st') := list_active_schedules find_shows st in
  ∃ ls, answer = inl ls ∧ map li_schedule ls = filter (λ s, upcoming (w_now (s_world st)) s = true) rows ∧
    Forall (λ e, li_booking_open e = booking_open (li_schedule e)) ls ∧ s_db st' = s_db st.
Proof.
  intros Hf Hn Hd Hg Hr.
  assert (calm anything 0 (s_db st) (w_now (s_world st)) st) as Hst.
  { split_and!; [|done..]. split; [done|done|]. exists n. split; [done|]. by intros K _ []. }
  unfold list_active_schedules. rewrite (bind_step _ _ _ (w_now (s_world st)) st) by (by destruct st).
  pose proof (listed_rows anything 0 (s_db st) (w_now (s_world st)) cache_schedules_active_key (active_rows (w_now (s_world st)))
    (λ rows s, (match filter (λ i, object_id_ok i = true) (map sc_mongo_show_id rows) with
      [] => ∅ | ids => find_shows ids end : gmap string json) !! sc_mongo_show_id s) (λ st0, st0 = st) (λ rs, rs = rows)) as H.
  unfold listed in H. match type of H with _ → hoare _ ?m _ => set (m0 := m) in * end.
  assert (hoare (λ st0, st0 = st) (cached_rows cache_schedules_active_key (active_rows (w_now (s_world st))))
    (λ r st0, ∃ rs, r = inl rs ∧ rs = rows ∧ calm anything 0 (s_db st) (w_now (s_world st)) st0)) as Hc.
  { intros st0 ->. pose proof (cached_step de_schedules cache_schedules_active_key st n Hf Hn) as Hs. rewrite Hg in Hs.
    change (cached de_schedules cache_schedules_active_key st = (json_parse raw ≫= de_schedules, st)) in Hs. rewrite Hr in Hs.
    unfold cached_rows. rewrite (bind_step _ _ _ _ _ Hs). by exists rows. }
  specialize (H Hc st eq_refl). fold m0. destruct (m0 st) as [answer st']. simpl in H. destruct H as (rs & ls & -> & -> & Hm & Ho & _ & Hdb & _).
  by exists ls.
Qed.

(** A reader that is late with what it found shows a closed schedule as open.  When a
    request has read the open, upcoming schedules of the database, and caches them after
    another request has closed one, the list offers the closed schedule for booking until
    it starts or the entry expires, a day later. *)
Theorem late_reader_offers_closed_schedule s x st n ms :
  w_faults (s_world st) = [] → w_nodes (s_world st) !! 0%nat = Some n → rows_fit 0 (s_db st) →
  d_schedules (s_db st) !! s = Some x → sc_lifecycle_state x = Open → upcoming (w_now (s_world st)) x = true →
  venue_city_required x = true → Z.of_N ms < TTL_24_HOURS * 1000 →
  let loaded := active_rows (w_now (s_world st)) (s_db st) in
  let '(closed, st1) := close_schedule s st in
  let '(_, st2) := cache cache_schedules_active_key (schedules_json loaded) TTL_SHOW_SCHEDULES st1 in
  let '(_, st3) := redis_of (advance ms) st2 in
  let '(answer, st4) := list_active_schedules find_shows st3 in
  closed = inl tt ∧ d_schedules (s_db st4) !! s = Some (set_lifecycle Closed x) ∧
  (upcoming (w_now (s_world st3)) x = true → ∃ ls e, answer = inl ls ∧ e ∈ ls ∧ li_schedule e = x ∧ li_booking_open e = true).
Proof.
  intros Hf Hn Hd Hx Ho Hu Hv Hms loaded. unfold close_schedule, then_announce. unfold mbind at 1, St_bind at 1. rewrite lifecycle_tx_ok by done.
  assert (x ∈ loaded) as Hin.
  { unfold loaded, active_rows. rewrite merge_sort_Permutation, list_elem_of_filter, elem_of_values. split; [done|by exists s]. }
  assert (Forall (λ r, schedule_fits r = true) loaded) as Hfit by (by apply (rows_of_fit 0 KeyActive)).
  assert (sc_deleted_at x = None) as Hdel by (unfold upcoming in Hu; rewrite !andb_true_iff, bool_decide_eq_true in Hu; tauto).
  unfold close_tx, active_schedule. rewrite Hx. cbn [mbind option_bind]. rewrite decide_True by done. rewrite Ho, (set_row_ok s x) by done.
  set (row := set_lifecycle Closed x). set (st0 := Site _ _ _ _).
  destruct (announce_effect (ScheduleClosed s) s row st0 n (or_intror eq_refl) Hf Hn) as [Ha [Q1 Q2 _ (n1 & Hn1 & _)]].
  destruct (announce _ _ st0) as [closed st1]. simpl in Ha, Q1, Q2, Hn1. subst closed.
  rewrite (cache_step _ _ _ st1 n1 Q2 Hn1) by (by apply day_ok; vm_compute).
  destruct st1 as [d1 [ns1 t1 fl1 lg1] us1 k1]. simpl in Q1, Q2, Hn1. subst d1 fl1.
  unfold redis_of, zoom, advance. cbn [s_db s_world s_uuids s_drawn w_nodes w_now w_faults w_log].
  set (st3 := Site _ _ us1 k1). set (n3 := r_set_px _ _ _ _ _) in st3.
  assert (r_get n3 (w_now (s_world st3)) cache_schedules_active_key = Some (json_print (schedules_json loaded))) as Hg.
  { simpl. unfold n3. rewrite get_set_px by lia. rewrite decide_True by done.
    assert ((t1 + Z.of_N ms <? t1 + TTL_SHOW_SCHEDULES * 1000) = true) as -> by (apply Z.ltb_lt; unfold TTL_SHOW_SCHEDULES; lia). done. }
  assert (rows_fit 0 (s_db st3)) as Hd3 by (by apply (rows_fit_row _ _ _ x)).
  pose proof (cached_list_answered st3 n3 _ loaded eq_refl (list_lookup_insert_eq _ _ _ (lookup_lt_Some _ _ _ Hn1)) Hd3 Hg) as H.
  rewrite json_parse_print in H by by apply schedules_json_ok. specialize (H (de_schedules_json _ Hfit)).
  destruct (list_active_schedules find_shows st3) as [answer st4]. destruct H as (ls & -> & Hm & Hb & Hdb).
  split_and!; [done|rewrite Hdb; simpl; by rewrite lookup_insert_eq|]. intros Hu3.
  assert (x ∈ map li_schedule ls) as (e & -> & He)%list_elem_of_fmap by (rewrite Hm; by apply list_elem_of_filter).
  rewrite Forall_forall in Hb. exists ls, e. split_and!; [done..|]. rewrite (Hb e He). unfold booking_open. by apply bool_decide_eq_true_2.
Qed.

(** *** Counts *)

(** A key of the cache with its value. *)
Definition holds (key raw : string) st : Prop :=
  w_faults (s_world st) = [] ∧ ∃ n, w_nodes (s_world st) !! 0%nat = Some n ∧ r_get n (w_now (s_world st)) key = Some raw.

Lemma holds_db_get key raw : keeps (holds key raw) (db_get (D:=D)).
Proof. intros st Hst. by rewrite db_get_ok by apply Hst. Qed.
Lemma holds_db_query {A} key raw (q : db → A) : keeps (holds key raw) (db_query (D:=D) q).
Proof. intros st Hst. by rewrite db_query_ok by apply Hst. Qed.
Lemma holds_db_run {A} key raw (tx : db → option (A * db)) : keeps (holds key raw) (db_run (D:=D) tx).
Proof. intros st Hst. rewrite db_run_ok by apply Hst. by destruct (tx _) as [[]|]. Qed.
Lemma holds_invalidate key raw key' : key' ≠ key → keeps (holds key raw) (redis_of (invalidate_async key')).
Proof.
  intros Hne st (Hf & n & Hn & Hg). rewrite (invalidate_step key' st n Hf Hn). split; [done|]. exists (r_del n key').
  split; [apply list_lookup_insert_eq; by eapply lookup_lt_Some|]. simpl. by rewrite get_del, decide_False.
Qed.
#[local] Hint Resolve holds_db_get holds_db_query holds_db_run holds_invalidate : keeps.

(** The changes of the seats of a schedule. *)
Inductive seats_change := ExtraSeats (seats : list extra_seat_input) | SeatUpdates (l : list update_seat_input).
Definition run_change (s : Z) (c : seats_change) : St (site D) unit :=
  match c with
  | ExtraSeats seats => add_extra_seats s seats ;; mret tt
  | SeatUpdates l => update_schedule_seats s l ;; mret tt
  end.

Lemma holds_change key raw s c : cache_schedule_key s ≠ key → cache_schedules_active_key ≠ key → keeps (holds key raw) (run_change s c).
Proof.
  intros H1 H2. destruct c as [seats|l]; simpl.
  - unfold add_extra_seats. keeps_tac.
  - assert (keeps (holds key raw) (Schedules.update_seats (D:=D) s l)) by (induction l as [|x l IH]; simpl; keeps_tac).
    unfold update_schedule_seats. keeps_tac.
Qed.

Lemma holds_cached {T} (de : json → option T) key j v st : holds key (json_print j) st → json_ok j = true → de j = Some v →
  cached de key st = (Some v, st).
Proof.
  intros (Hf & n & Hn & Hg) Hj Hv. rewrite (cached_step de key st n Hf Hn), Hg. simpl. rewrite json_parse_print by done. simpl. by rewrite Hv.
Qed.

(** The cached counts of a schedule do not follow the administration.  When both
    counts are in the cache, adding seats to the schedule or updating its seats leaves them
    there, and a list still shows them afterwards. *)
Theorem seat_changes_leave_cached_counts s cs (total available : Z) st :
  let total_key := cache_schedule_total_seats_key s in
  let available_key := cache_schedule_available_seats_key s in
  json_ok (JNum total) = true → de_i64 (JNum total) = Some total →
  json_ok (JNum available) = true → de_i64 (JNum available) = Some available →
  holds total_key (json_print (JNum total)) st → holds available_key (json_print (JNum available)) st →
  let st' := (for_each cs (run_change s) st).2 in
  (load_schedule_seat_counts [s] st').1 = inl ({[s := total]}, {[s := available]}).
Proof.
  intros tk ak Ht1 Ht2 Ha1 Ha2 Ht Ha st'.
  assert (∀ key raw, cache_schedule_key s ≠ key → cache_schedules_active_key ≠ key → holds key raw st → holds key raw st') as H.
  { intros key raw H1 H2 H3. pose proof (keeps_for_each (holds key raw) cs (run_change s) (λ c _, holds_change key raw s c H1 H2) st H3) as H4.
    unfold st'. by destruct (for_each cs (run_change s) st). }
  apply H in Ht; [|unfold tk; key_ne|done]. apply H in Ha; [|unfold ak; key_ne|done].
  unfold load_schedule_seat_counts. rewrite bool_decide_false by done.
  rewrite (bind_step _ _ _ (({[s := total]}, {[s := available]}, []) : gmap Z Z * gmap Z Z * list Z) st'); [by rewrite bool_decide_true|].
  cbn [read_counts]. rewrite (bind_step _ _ _ _ _ (holds_cached de_i64 tk (JNum total) total st' Ht Ht1 Ht2)).
  by rewrite (bind_step _ _ _ _ _ (holds_cached de_i64 ak (JNum available) available st' Ha Ha1 Ha2)).
Qed.
End stale.

(** ** Runs *)

Definition open_schedule : schedule_row :=
  Schedule 7 the_show Movie (Some 1) 2000000 0 Open 0 None None None (Some "Pune") None 20000 Evening 3000000.
Definition open_db : db :=
  Db [SeatRow 1 7 Available "100" some_place] [] [] [] [] [] ∅ {[7 := open_schedule]} two_blocks 8 2 {[1 := some_layout]} 1 2 5.
Definition open_site : site mem_redis := Site open_db (mem_world 1 1000) (λ k, Z.of_nat k) 0.

Lemma open_rows_fit N : (N ≤ 1000)%nat → rows_fit N open_db.
Proof.
  intros HN. split_and!; [|constructor; [simpl; set_solver|constructor]|simpl; lia|simpl; lia].
  intros i r Hi. change (({[7 := open_schedule]} : gmap Z schedule_row) !! i = Some r) in Hi.
  apply lookup_singleton_Some in Hi as [<- <-]. by split_and!.
Qed.

Lemma late_reader_offers_closed_schedule_witness :
  let loaded := active_rows 1000 open_db in
  let '(closed, st1) := close_schedule 7 open_site in
  let '(_, st2) := cache (HJ := mem_json) cache_schedules_active_key (schedules_json loaded) TTL_SHOW_SCHEDULES st1 in
  let '(_, st3) := redis_of (advance 60000) st2 in
  let '(answer, st4) := list_active_schedules (HJ := mem_json) (λ _, ∅) st3 in
  closed = inl tt ∧ d_schedules (s_db st4) !! 7 = Some (set_lifecycle Closed open_schedule) ∧
  (upcoming (w_now (s_world st3)) open_schedule = true →
     ∃ ls e, answer = inl ls ∧ e ∈ ls ∧ li_schedule e = open_schedule ∧ li_booking_open e = true).
Proof.
  assert (w_nodes (s_world open_site) !! 0%nat = Some mem_empty) as Hn by reflexivity.
  assert (d_schedules (s_db open_site) !! 7 = Some open_schedule) as Hx by reflexivity.
  assert (0 ≤ 1000)%nat as H0 by lia.
  pose proof (late_reader_offers_closed_schedule (HJ := mem_json) (λ _, ∅) 7 open_schedule open_site mem_empty 60000
    eq_refl Hn (open_rows_fit 0 H0) Hx eq_refl eq_refl eq_refl eq_refl) as H.
  exact H.
Defined.

(** A second seat is added; the list goes on saying that there is one. *)
Definition counted_db : db := with_schedules (alter (set_lifecycle Scheduled) 7) open_db.
Definition counted_site : site mem_redis :=
  (load_schedule_seat_counts (HJ := mem_json) [7] (Site counted_db (mem_world 1 1000) (λ k, Z.of_nat k) 0)).2.
Definition one_more : list seats_change := [ExtraSeats [ExtraSeatInput "D" 1 Standard "5"]].

Lemma seat_changes_leave_cached_counts_witness :
  let st' := (for_each one_more (run_change 7) counted_site).2 in
  length (plan_of 7 (s_db st')) = 2%nat ∧ (load_schedule_seat_counts (HJ := mem_json) [7] st').1 = inl ({[7 := 1]}, {[7 := 1]}).
Proof.
  split; [vm_compute; reflexivity|].
  assert (holds (cache_schedule_total_seats_key 7) (json_print (JsonText := mem_json) (JNum 1)) counted_site) as Ht
    by (split; [vm_compute; reflexivity|eexists; split; vm_compute; reflexivity]).
  assert (holds (cache_schedule_available_seats_key 7) (json_print (JsonText := mem_json) (JNum 1)) counted_site) as Ha
    by (split; [vm_compute; reflexivity|eexists; split; vm_compute; reflexivity]).
  pose proof (seat_changes_leave_cached_counts (HJ := mem_json) 7 one_more 1 1 counted_site eq_refl eq_refl eq_refl eq_refl Ht Ha) as H.
  exact H.
Defined.
