(* ===== verification/GatewayProxy.v ===== *)
(** * GatewayProxy: requests the gateway passes on
    ([apps/gateway-keeper/src/proxy.rs], [service_busy_response] of [circuit_breaker.rs],
    [inject_headers] of [packages/telemetry/src/propagation.rs])

    A handler asks the breaker of its service, calls the service, and tells the breaker what
    came of it.  It is a program of single steps: a connection or a command of Redis, a look
    at the clock, a call.  Requests of all gateways run side by side, one step at a time, on one
    Redis server and one clock. *)

From Stdlib Require Import Ascii.
From stdpp Require Import gmap.
From S2P Require Import Prelude Text Keys Redis RedisMem SeatLock CircuitBreaker.

#[local] Open Scope string_scope.
#[local] Open Scope list_scope.
#[local] Open Scope Z_scope.

(** ** Services and their breakers *)

Inductive service := HttpServer | SearchServer.
#[export] Instance service_eq_dec : EqDecision service.
Proof. solve_decision. Defined.
Definition service_name (s : service) : string := match s with HttpServer => "http-server" | SearchServer => "search-server" end.

(** ** Messages *)

Abbreviation headers := (list (string * string)).

(** Names of headers are lower-case; the path and query of a URI begin with a slash. *)
Record http_request := HttpRequest { hq_method : string; hq_uri : string; hq_headers : headers; hq_body : string }.
Record http_response := HttpResponse { hr_status : Z; hr_headers : headers; hr_body : string }.

(** What [execute] gives: a response of any status; an error in connecting or a timeout;
    another error. *)
Inductive http_outcome := Answered (r : http_response) | Unreachable | OtherFailure.
(** What the gRPC client gives. *)
Inductive search_outcome := NotConnected | SearchResults (json : string) | SearchStatus.

Inductive call := HttpCall (r : http_request) | SearchCall (query city : string).

(** ** Headers *)

Definition header (name : string) (hs : headers) : option string := snd <$> head (filter (λ h, h.1 = name) hs).

(** [HeaderValue::to_str]: visible characters and tabs. *)
Definition visible (a : ascii) : bool := let n := N_of_ascii a in ((32 <=? n) && (n <? 127) || (n =? 9))%N.
Fixpoint to_str_ok (s : string) : bool := match s with EmptyString => true | String a s => visible a && to_str_ok s end.
Definition to_str (s : string) : option string := if to_str_ok s then Some s else None.

Definition has_bearer_token (hs : headers) : bool :=
  match (header "authorization" hs ≫= to_str) ≫= strip_prefix "Bearer " with
  | Some token => negb (is_empty (trim token))
  | None => false
  end.

Definition forwarded (h : string * string) : bool := bool_decide (h.1 ≠ "host") && bool_decide (h.1 ≠ "connection").
Definition returned (h : string * string) : bool :=
  bool_decide (h.1 ≠ "transfer-encoding") && bool_decide (h.1 ≠ "connection") && negb (starts_with "access-control-" (string_lower h.1)).

(** [HeaderMap::insert]. *)
Definition insert_header (hs : headers) (h : string * string) : headers := filter (λ h', h'.1 ≠ h.1) hs ++ [h].
Definition inject_headers (trace hs : headers) : headers := foldl insert_header hs trace.

(** ** Answers of the gateway itself *)

Section answers.
Context {HJ : JsonText}.
Definition json_response (status : Z) (j : json) : http_response := HttpResponse status [("content-type", "application/json")] (json_print j).
Definition text_response (status : Z) (s : string) : http_response := HttpResponse status [("content-type", "text/plain; charset=utf-8")] s.
Definition service_busy_response : http_response :=
  json_response 503 (JObj [("message", JStr "Service Not Available"); ("code", JStr "CIRCUIT_OPEN")]).
Definition upstream_proxy_error_response : http_response :=
  json_response 502 (JObj [("message", JStr "The upstream response could not be processed."); ("code", JStr "UPSTREAM_ERROR")]).
Definition missing_token_response : http_response := json_response 401 (JObj [("error", JStr "Missing Authorization header")]).
End answers.

(** ** Programs *)

(** [Act] is one step on the world [W]; [AskHttp] and [AskSearch] wait for a service. *)
Inductive prog (W A : Type) :=
  | Ret (a : A)
  | Act {R : Type} (m : St W R) (k : R → prog W A)
  | AskHttp (q : http_request) (k : http_outcome → prog W A)
  | AskSearch (query city : string) (k : search_outcome → prog W A).
Arguments Ret {W A}. Arguments Act {W A R}. Arguments AskHttp {W A}. Arguments AskSearch {W A}.

Fixpoint prog_bind {W A B} (f : A → prog W B) (p : prog W A) : prog W B :=
  match p with
  | Ret a => f a
  | Act m k => Act m (λ r, prog_bind f (k r))
  | AskHttp q k => AskHttp q (λ o, prog_bind f (k o))
  | AskSearch query city k => AskSearch query city (λ o, prog_bind f (k o))
  end.
#[export] Instance prog_ret W : MRet (prog W) := λ A, Ret.
#[export] Instance prog_mbind W : MBind (prog W) := λ A B, prog_bind.
#[export] Instance prog_actions W : Actions W (prog W) := λ A m, Act m Ret.

(** ** The handlers *)

(** The routes below [/api]: with the check of the token or without, and the search. *)
Inductive route_request := ToHttp (r : http_request) | ToAuthenticated (r : http_request) | ToSearch (params : gmap string string).

(** The base URL, what [build] accepts, and the trace headers of the moment. *)
Record front_config := FrontConfig { base_url : string; buildable : http_request → bool; trace : headers }.

Section proxy.
Context {D : Type} `{!RedisServer D} {HJ : JsonText}.
Variable cfg : front_config.
Abbreviation P := (prog (world D)).

Definition outgoing (q : http_request) : http_request :=
  HttpRequest (hq_method q) (trim_end_slashes (base_url cfg) +:+ hq_uri q) (filter (λ h, forwarded h = true) (hq_headers q)) (hq_body q).

Definition proxy_request (q : http_request) : P http_response :=
  allowed ← allow_request (service_name HttpServer);
  if negb (allowed : bool) then mret service_busy_response
  else
    let req := outgoing q in
    if negb (buildable cfg req) then mret (text_response 500 "Internal Gateway Error")
    else
      outcome ← AskHttp (HttpRequest (hq_method req) (hq_uri req) (inject_headers (trace cfg) (hq_headers req)) (hq_body req)) mret;
      match outcome with
      | Answered res =>
          record_success (service_name HttpServer) ;;
          mret (HttpResponse (hr_status res) (filter (λ h, returned h = true) (hr_headers res)) (hr_body res))
      | Unreachable => record_failure gateway_cb (service_name HttpServer) ;; mret service_busy_response
      | OtherFailure => mret upstream_proxy_error_response
      end.

Definition proxy_to_http_server (q : http_request) : P http_response := proxy_request q.
Definition proxy_to_authenticated_http_server (q : http_request) : P http_response :=
  if negb (has_bearer_token (hq_headers q)) then mret missing_token_response else proxy_request q.

(** Connecting and calling are one outcome. *)
Definition proxy_to_search_server (params : gmap string string) : P http_response :=
  allowed ← allow_request (service_name SearchServer);
  if negb (allowed : bool) then mret service_busy_response
  else
    outcome ← AskSearch (default "" (params !! "q")) (default "" (params !! "city")) mret;
    match outcome with
    | SearchResults json =>
        record_success (service_name SearchServer) ;; mret (HttpResponse 200 [("content-type", "application/json")] json)
    | NotConnected | SearchStatus => record_failure gateway_cb (service_name SearchServer) ;; mret service_busy_response
    end.

Definition route (r : route_request) : P http_response :=
  match r with
  | ToHttp q => proxy_to_http_server q
  | ToAuthenticated q => proxy_to_authenticated_http_server q
  | ToSearch params => proxy_to_search_server params
  end.
Definition route_service (r : route_request) : service := match r with ToSearch _ => SearchServer | _ => HttpServer end.

(** ** Requests side by side *)

(** What happened to a request, and when.  [Failed]: the service could not be reached, or the
    search failed in any way. *)
Inductive event := Asked (c : call) | Failed | Replied (r : http_response) | Gone.
Record entry := Entry { en_at : Z; en_request : nat; en_service : service; en_event : event }.

Record front := Front {
  fr_world : world D;
  fr_running : gmap nat (service * P http_response);
  fr_next : nat;
  fr_log : list entry
}.

(** A request comes, does its next step, gets the outcome of its call, or is dropped because
    the client has gone; time passes. *)
Inductive front_step :=
  | Begin (r : route_request) | Run (k : nat) | EndHttp (k : nat) (o : http_outcome) | EndSearch (k : nat) (o : search_outcome)
  | Leave (k : nat) | Pass (ms : N).

Definition http_fails (o : http_outcome) : bool := match o with Unreachable => true | _ => false end.
Definition search_fails (o : search_outcome) : bool := match o with SearchResults _ => false | _ => true end.

Definition note (k : nat) (s : service) (e : event) (f : front) : front :=
  Front (fr_world f) (fr_running f) (fr_next f) (fr_log f ++ [Entry (w_now (fr_world f)) k s e]).
Definition keep (k : nat) (s : service) (p : P http_response) (f : front) : front :=
  Front (fr_world f) (<[k := (s, p)]> (fr_running f)) (fr_next f) (fr_log f).
Definition finish (k : nat) (f : front) : front := Front (fr_world f) (delete k (fr_running f)) (fr_next f) (fr_log f).

(** The answer is given and the call made without waiting. *)
Definition settle (k : nat) (s : service) (p : P http_response) (f : front) : front :=
  match p with
  | Ret r => finish k (note k s (Replied r) f)
  | AskHttp q _ => keep k s p (note k s (Asked (HttpCall q)) f)
  | AskSearch query city _ => keep k s p (note k s (Asked (SearchCall query city)) f)
  | Act _ _ => keep k s p f
  end.

Definition front_run (f : front) (x : front_step) : front :=
  match x with
  | Begin r => settle (fr_next f) (route_service r) (route r) (Front (fr_world f) (fr_running f) (S (fr_next f)) (fr_log f))
  | Run k =>
      match fr_running f !! k with
      | Some (s, Act m go) => let '(r, w) := m (fr_world f) in settle k s (go r) (Front w (fr_running f) (fr_next f) (fr_log f))
      | _ => f
      end
  | EndHttp k o =>
      match fr_running f !! k with
      | Some (s, AskHttp _ go) => settle k s (go o) (if http_fails o then note k s Failed f else f)
      | _ => f
      end
  | EndSearch k o =>
      match fr_running f !! k with
      | Some (s, AskSearch _ _ go) => settle k s (go o) (if search_fails o then note k s Failed f else f)
      | _ => f
      end
  | Leave k => match fr_running f !! k with Some (s, _) => finish k (note k s Gone f) | None => f end
  | Pass ms => Front (advance ms (fr_world f)).2 (fr_running f) (fr_next f) (fr_log f)
  end.
Definition front_history (xs : list front_step) (f : front) : front := foldl front_run f xs.
Definition front_new (w : world D) : front := Front w ∅ 0 [].
End proxy.

(** ** A program that nothing interrupts *)

(** The result of a program without calls. *)
Fixpoint alone {W A} (p : prog W A) (w : W) : option (A * W) :=
  match p with Ret a => Some (a, w) | Act m k => let '(r, w) := m w in alone (k r) w | _ => None end.
