(* ===== verification/GatewayProxyProps.v ===== *)
(** * GatewayProxyProps: why the proxy refuses a request

    A request is a program; [wp] says what it needs and leaves at each of its steps, when other
    requests run in between.  Whatever runs, the end of an open period in Redis has a culprit:
    a request whose call failed. *)

From Stdlib Require Import Ascii.
From stdpp Require Import gmap.
From S2P Require Import Prelude Text Keys Redis RedisMem SeatLock CircuitBreaker GatewayProxy.

#[local] Open Scope string_scope.
#[local] Open Scope list_scope.
#[local] Open Scope Z_scope.

(** ** Breaker calls that nothing interrupts *)

Section alone.
Context {D : Type} `{!RedisServer D}.
Implicit Types (w : world D).

Lemma alone_bind {A B} (p : prog (world D) A) (f : A → prog (world D) B) w :
  alone (p ≫= f) w = match alone p w with Some (a, w) => alone (f a) w | None => None end.
Proof. revert w. induction p as [a|R m k IH|q k IH|q c k IH]; intros w; simpl; try done. destruct (m w) as [r w']. apply IH. Qed.

(** They are then the functions whose state machine [CircuitBreaker] has. *)
Theorem breaker_calls_alone cb s w :
  alone (allow_request s) w = Some (allow_request (M := St (world D)) s w) ∧
  alone (record_success s) w = Some (record_success (M := St (world D)) s w) ∧
  alone (record_failure cb s) w = Some (record_failure (M := St (world D)) cb s w).
Proof.
  split_and!; unfold allow_request, record_success, record_failure, cb_read_state, act, at_once, prog_actions, mbind, prog_mbind, St_bind,
    mret, prog_ret, St_ret; simpl; destruct (pool_get 0 w) as [[] w1]; simpl; try done;
    destruct (node_cmd 0 (cmd_get (cb_state_key s)) w1) as [st w2]; simpl.
  - destruct (bool_decide _); [|done]. simpl. destruct (node_cmd 0 (cmd_get_i64 _) w2) as [u w3]. simpl. destruct (_ <? _); [done|]. simpl.
    by destruct (node_cmd _ _ _).
  - destruct (node_cmd _ _ w2) as [u w3]. simpl. by destruct (node_cmd _ _ w3).
  - destruct (node_cmd _ _ w2) as [u w3]. simpl. destruct (_ || _); [|done]. simpl. destruct (node_cmd _ _ w3) as [u' w4]. simpl.
    by destruct (node_cmd _ _ w4).
Qed.
End alone.

(** ** Steps of one request among others *)

Definition over (e : event) : bool := match e with Replied _ | Gone => true | _ => false end.

Section safety.
Context {D : Type} `{!RedisServer D} `{!RedisLaws D} {HJ : JsonText}.
Variable cfg : front_config.
Variable start : Z.
Hypothesis start_pos : 0 ≤ start.
Implicit Types (w : world D) (log : list entry).

(** A call of service [s] failed, and its request still runs or ended less than thirty seconds
    before [t]. *)
Definition culprit log (s : service) (t : Z) : Prop :=
  ∃ k t0, Entry t0 k s Failed ∈ log ∧ ∀ t1 e, Entry t1 k s e ∈ log → over e = true → t < t1 + 30000.

(** Who set the end [n] of an open period. *)
Definition accounted log (now : Z) (s : service) (n : Z) : Prop :=
  n * 1000 ≤ start ∨
  ∃ k t0 tn, Entry t0 k s Failed ∈ log ∧ tn ≤ now ∧ n = tn / 1000 + 30 ∧ ∀ t1 e, Entry t1 k s e ∈ log → over e = true → tn ≤ t1.

Definition until_key (s : service) : string := cb_until_key (service_name s).
(** What every step preserves. *)
Definition shared log w : Prop := start ≤ w_now w ∧
  ∀ s d t x n, w_nodes w !! 0%nat = Some d → w_now w ≤ t → r_get d t (until_key s) = Some x → parse_Z x = Some n → accounted log (w_now w) s n.

Definition later (now : Z) (extra : list entry) : Prop := Forall (λ e, now ≤ en_at e) extra.

Lemma accounted_grows log now s n extra now' : now ≤ now' → later now extra → accounted log now s n → accounted (log ++ extra) now' s n.
Proof.
  intros Hn He [H|(k & t0 & tn & H1 & H2 & H3 & H4)]; [by left|right]. exists k, t0, tn. split; [apply elem_of_app; by left|]. split; [lia|]. split; [done|].
  intros t1 e [Hin|Hin]%elem_of_app Ho; [by eapply H4|]. unfold later in He. rewrite Forall_forall in He. specialize (He _ Hin). simpl in He. lia.
Qed.

(** Knowledge of request [k] about the log and the clock, which steps of others keep. *)
Definition knowledge := list entry → Z → Prop.
Definition stable (k : nat) (P : knowledge) : Prop := ∀ log now extra now',
  P log now → now ≤ now' → later now extra → Forall (λ e, en_request e ≠ k) extra → P (log ++ extra) now'.

(** A step from [P] leaves what is shared and, with its result, [Q]. *)
Definition step_ok {R} (m : St (world D) R) (P : knowledge) (Q : R → knowledge) : Prop := ∀ w log,
  shared log w → P log (w_now w) → let '(r, w') := m w in shared log w' ∧ w_now w' = w_now w ∧ Q r log (w_now w).

Fixpoint wp {A} (k : nat) (s : service) (p : prog (world D) A) (P : knowledge) (Φ : A → knowledge) : Prop :=
  match p with
  | Ret a => ∀ log now, P log now → Φ a log now
  | Act m go => ∃ P' Q, (∀ log now, P log now → P' log now) ∧ stable k P' ∧ step_ok m P' Q ∧ ∀ r, wp k s (go r) (Q r) Φ
  | AskHttp q go => ∃ P', (∀ log now, P log now → P' (log ++ [Entry now k s (Asked (HttpCall q))]) now) ∧ stable k P' ∧
      ∀ o, wp k s (go o) (λ log now, if http_fails o then ∃ log', log = log' ++ [Entry now k s Failed] ∧ P' log' now else P' log now) Φ
  | AskSearch q c go => ∃ P', (∀ log now, P log now → P' (log ++ [Entry now k s (Asked (SearchCall q c))]) now) ∧ stable k P' ∧
      ∀ o, wp k s (go o) (λ log now, if search_fails o then ∃ log', log = log' ++ [Entry now k s Failed] ∧ P' log' now else P' log now) Φ
  end.

Lemma wp_weaken {A} k s (p : prog (world D) A) P P' Φ Φ' : (∀ log now, P' log now → P log now) → (∀ a log now, Φ a log now → Φ' a log now) →
  wp k s p P Φ → wp k s p P' Φ'.
Proof.
  intros HP HΦ. revert P P' HP. induction p as [a|R m go IH|q go IH|q c go IH]; intros P P' HP; simpl.
  - intros H log now Hp. by apply HΦ, H, HP.
  - intros (P1 & Q & H1 & H2 & H3 & H4). exists P1, Q. split_and!; try done; [intros; by apply H1, HP|]. intros r. by eapply (IH r); [|apply H4].
  - intros (P1 & H1 & H2 & H3). exists P1. split_and!; try done; [intros; by apply H1, HP|]. intros o. by eapply (IH o); [|apply H3].
  - intros (P1 & H1 & H2 & H3). exists P1. split_and!; try done; [intros; by apply H1, HP|]. intros o. by eapply (IH o); [|apply H3].
Qed.

Lemma wp_bind {A B} k s (p : prog (world D) A) (f : A → prog (world D) B) P Ψ Φ :
  wp k s p P Ψ → (∀ a, wp k s (f a) (Ψ a) Φ) → wp k s (p ≫= f) P Φ.
Proof.
  intros Hp Hf. revert P Hp. induction p as [a|R m go IH|q go IH|q c go IH]; intros P; simpl.
  - intros H. by eapply wp_weaken; [exact H| |apply Hf].
  - intros (P1 & Q & H1 & H2 & H3 & H4). exists P1, Q. split_and!; try done. intros r. by apply IH.
  - intros (P1 & H1 & H2 & H3). exists P1. split_and!; try done. intros o. by apply IH.
  - intros (P1 & H1 & H2 & H3). exists P1. split_and!; try done. intros o. by apply IH.
Qed.

Lemma wp_act {R} k s (m : St (world D) R) P Q : stable k P → step_ok m P Q → wp k s (act m) P Q.
Proof. intros Hs Hm. exists P, Q. split_and!; [done|done|done|by intros r log now]. Qed.

(** *** The steps of the breaker *)

Lemma stable_and k P P' : stable k P → stable k P' → stable k (λ log now, P log now ∧ P' log now).
Proof. intros H H' log now extra now' [H1 H2] ???. by split; [eapply H|eapply H']. Qed.
Lemma stable_accounted k s n : stable k (λ log now, accounted log now s n).
Proof. intros log now extra now' H ? ? _. by apply (accounted_grows _ now). Qed.
Lemma stable_later k (t : Z) : stable k (λ _ now, t ≤ now).
Proof. intros log now extra now' H ? _ _. lia. Qed.

Definition server_ok log (now : Z) (d : D) : Prop := ∀ s t x n,
  now ≤ t → r_get d t (until_key s) = Some x → parse_Z x = Some n → accounted log now s n.

Lemma until_key_inj s s' : until_key s = until_key s' → s = s'.
Proof. by destruct s, s'. Qed.
Lemma state_apart s s' : cb_state_key (service_name s) ≠ until_key s'.
Proof. destruct s, s'; discriminate. Qed.
Lemma failures_apart s s' : cb_failures_key (service_name s) ≠ until_key s'.
Proof. destruct s, s'; discriminate. Qed.

Lemma server_set_other log now d k v : (∀ s, k ≠ until_key s) → server_ok log now d → server_ok log now (r_set d k v).
Proof. intros Hk H s t x n Ht Hg. rewrite get_set, decide_False in Hg by done. by eapply H. Qed.
Lemma server_del_other log now d k : (∀ s, k ≠ until_key s) → server_ok log now d → server_ok log now (r_del d k).
Proof. intros Hk H s t x n Ht Hg. rewrite get_del, decide_False in Hg by done. by eapply H. Qed.
Lemma server_incr_other log now d k : (∀ s, k ≠ until_key s) → server_ok log now d → server_ok log now (r_incrby d now k 1).1.
Proof. intros Hk H s t x n Ht Hg. rewrite get_incrby_ne in Hg by done. by eapply H. Qed.
Lemma server_set_until log now d s v m : parse_Z v = Some m → accounted log now s m → server_ok log now d → server_ok log now (r_set d (until_key s) v).
Proof.
  intros Hm Ha H s' t x n Ht Hg Hx. rewrite get_set in Hg. case_decide as E; [|by eapply H]. apply until_key_inj in E as <-. congruence.
Qed.

(** A command: what it does to the server and to what the request knows. *)
Lemma step_node {R} (f : D → Z → D * option R) P Q :
  (∀ log now d, start ≤ now → P log now → server_ok log now d → server_ok log now (f d now).1 ∧ Q (f d now).2 log now) →
  (∀ log now, start ≤ now → P log now → Q None log now) → step_ok (node_cmd 0 f) P Q.
Proof.
  intros Hf Hn w log [Hs Hw] Hp. destruct (w_nodes w !! 0%nat) as [d|] eqn:Hd.
  - destruct (Hf log (w_now w) d Hs Hp) as [Hk Hq]; [intros s t x n; by apply Hw|].
    assert (∀ d', <[0%nat := (f d (w_now w)).1]> (w_nodes w) !! 0%nat = Some d' → d' = (f d (w_now w)).1) as Hins.
    { intros d'. destruct (w_nodes w) as [|d0 ns]; [done|]. by intros [= <-]. }
    destruct (node_cmd_cases 0 f w d Hd) as ([] & l & _ & ->); simpl; (split; [split; [done|]|split; [done|auto]]); simpl; intros s d' t x n E;
      [apply Hins in E as ->; by apply Hk|rewrite Hd in E; by apply Hw|apply Hins in E as ->; by apply Hk].
  - unfold node_cmd. destruct (draw_eq w) as (fl & l & -> & _). simpl. rewrite Hd. split; [split; [done|]|split; [done|auto]].
    intros s d' t x n E. simpl in E. by rewrite Hd in E.
Qed.

(** One that neither writes an end nor teaches anything. *)
Lemma step_quiet {R} (f : D → Z → D * option R) P : (∀ log now d, server_ok log now d → server_ok log now (f d now).1) →
  step_ok (node_cmd 0 f) P (λ _ : option R, P).
Proof. intros Hf. apply step_node; [|done]. intros log now d _ Hp Hd. by split; [apply Hf|]. Qed.
Lemma step_pool P : step_ok (pool_get 0) P (λ _ : bool, P).
Proof. intros w log [Hs Hw] Hp. destruct (pool_get_cases 0 w) as (b & l & -> & _). simpl. by split_and!. Qed.
Lemma step_now P : step_ok now_secs P (λ n log now, (P log now ∧ start ≤ now) ∧ n = now / 1000).
Proof. intros w log [Hs Hw] Hp. simpl. by split_and!. Qed.

Lemma wp_read_state k s P : stable k P → wp k s (cb_read_state (service_name s)) P (λ _ : string, P).
Proof.
  intros Hs. apply (wp_bind _ _ _ _ _ (λ _, P)); [apply wp_act; [done|by apply step_quiet]|]. by intros r log now.
Qed.

Lemma wp_allow k s P : stable k P → wp k s (allow_request (service_name s)) P (λ (b : bool) log (now : Z), if b then P log now else culprit log s now).
Proof.
  intros Hs. unfold allow_request. apply (wp_bind _ _ _ _ _ (λ _, P)); [apply wp_act; [done|by apply step_pool]|].
  intros [|]; [|by intros log now]. apply (wp_bind _ _ _ _ _ (λ _, P)); [by apply wp_read_state|]. intros st.
  case_bool_decide; [|by intros log now].
  set (Pn := λ (m : Z) log (now : Z), (P log now ∧ start ≤ now) ∧ accounted log now s m).
  assert (∀ m, stable k (Pn m)) as Hpn by (intros m; apply stable_and; [apply stable_and; [done|apply stable_later]|apply stable_accounted]).
  apply (wp_bind _ _ _ _ _ (λ r, Pn (default 0 (default (Some 0) r)))).
  { apply wp_act; [done|]. apply step_node.
    - intros log now d Hn Hp Hd. simpl. split; [done|]. split; [done|]. change (cb_until_key (service_name s)) with (until_key s).
      destruct (r_get d now (until_key s)) as [x|] eqn:Hx; [|left; simpl; lia]. destruct (parse_Z x) as [n|] eqn:Hp'; [|left; simpl; lia].
      destruct (_ && _); [|left; simpl; lia]. simpl. by eapply Hd; [..|exact Hx|].
    - intros log now Hn Hp. split; [done|]. left. simpl. lia. }
  intros r. set (m := default 0 (default (Some 0) r)).
  apply (wp_bind _ _ _ _ _ (λ n log now, (Pn m log now ∧ start ≤ now) ∧ n = now / 1000)); [apply wp_act; [done|apply step_now]|].
  intros n. destruct (n <? m) eqn:Hlt.
  - intros log now [[[[Hp _] Hacc] Hn] ->]. apply Z.ltb_lt in Hlt. destruct Hacc as [Hold|(k' & t0 & tn & H1 & H2 & -> & H4)].
    + exfalso. pose proof (Z.div_lt_upper_bound now 1000 m). pose proof (Z.mod_pos_bound now 1000). pose proof (Z.div_mod now 1000). lia.
    + exists k', t0. split; [done|]. intros t1 e Hin Ho. specialize (H4 t1 e Hin Ho).
      pose proof (Z.mod_pos_bound now 1000). pose proof (Z.div_mod now 1000). pose proof (Z.mod_pos_bound tn 1000). pose proof (Z.div_mod tn 1000). lia.
  - apply (wp_weaken _ _ _ P _ (λ (b : bool) log (now : Z), if b then P log now else culprit log s now)); [by intros log now [[[[? _] _] _] _]|done|].
    apply (wp_bind _ _ _ _ _ (λ _, P)); [|by intros u log now]. apply wp_act; [done|]. apply step_quiet. intros log now d. apply server_set_other, state_apart.
Qed.

Lemma wp_success k s P : stable k P → wp k s (record_success (service_name s)) P (λ _ : unit, P).
Proof.
  intros Hs. unfold record_success. apply (wp_bind _ _ _ _ _ (λ _, P)); [apply wp_act; [done|by apply step_pool]|].
  intros [|]; [|by intros log now]. apply (wp_bind _ _ _ _ _ (λ _, P)); [by apply wp_read_state|]. intros st.
  apply (wp_bind _ _ _ _ _ (λ _, P)).
  { apply wp_act; [done|]. apply step_quiet. intros log now d. apply server_del_other, failures_apart. }
  intros u. apply (wp_bind _ _ _ _ _ (λ _, P)); [|by intros u' log now].
  apply wp_act; [done|]. apply step_quiet. intros log now d. apply server_set_other, state_apart.
Qed.

(** The request is not over, and its call failed. *)
Definition failing (k : nat) (s : service) log : Prop :=
  (∃ t, Entry t k s Failed ∈ log) ∧ ∀ t e, Entry t k s e ∈ log → over e = false.

Lemma wp_failure k s P : stable k P → (∀ log now, P log now → failing k s log) →
  wp k s (record_failure gateway_cb (service_name s)) P (λ _ : unit, P).
Proof.
  intros Hs Hfail. unfold record_failure. apply (wp_bind _ _ _ _ _ (λ _, P)); [apply wp_act; [done|by apply step_pool]|].
  intros [|]; [|by intros log now]. apply (wp_bind _ _ _ _ _ (λ _, P)); [by apply wp_read_state|]. intros st.
  apply (wp_bind _ _ _ _ _ (λ _, P)).
  { apply wp_act; [done|]. apply step_quiet. intros log now d H. unfold cmd_incr_u32.
    pose proof (server_incr_other log now d _ (failures_apart s) H) as Hi. by destruct (r_incrby d now _ 1). }
  intros n. destruct (_ || _); [|by intros log now].
  set (Pt := λ (n : Z) log (now : Z), P log now ∧ ∃ tn, tn ≤ now ∧ n = tn / 1000).
  assert (∀ n, stable k (Pt n)) as Hpt.
  { intros m. apply stable_and; [done|]. intros log now extra now' (tn & ? & ?) ? _ _. exists tn. by split; [lia|]. }
  apply (wp_bind _ _ _ _ _ Pt).
  { apply wp_act; [done|]. intros w log Hw Hp. simpl. split; [done|]. split; [done|]. split; [done|]. by exists (w_now w). }
  intros m. apply (wp_bind _ _ _ _ _ (λ _, Pt m)).
  { apply wp_act; [done|]. apply step_quiet. intros log now d. apply server_set_other, state_apart. }
  intros u. apply (wp_bind _ _ _ _ _ (λ _, Pt m)); [|by intros u' log now [? _]].
  apply wp_act; [done|]. apply step_node; [|done]. intros log now d _ [Hp (tn & Htn & ->)] Hd. split; [|split; [done|by exists tn]].
  simpl. apply (server_set_until _ _ _ _ _ (tn / 1000 + open_ttl_secs gateway_cb)); [apply parse_show_Z| |done]. right.
  destruct (Hfail _ _ Hp) as [[t0 Hin] Halive]. exists k, t0, tn. split_and!; try done. intros t1 e He Ho. rewrite (Halive _ _ He) in Ho. done.
Qed.

(** *** Requests *)

(** A refusal without a call has a culprit. *)
Definition explained (k : nat) (s : service) (r : http_response) : knowledge := λ log now,
  r = service_busy_response → (∀ t s' c, Entry t k s' (Asked c) ∉ log) → culprit log s now.
Definition alive (k : nat) log : Prop := ∀ t s e, Entry t k s e ∈ log → over e = false.
Definition asked (k : nat) log : Prop := ∃ t s c, Entry t k s (Asked c) ∈ log.

Lemma stable_alive k : stable k (λ log _, alive k log).
Proof.
  intros log now extra now' H _ _ Hk t s e [Hin|Hin]%elem_of_app; [by eapply H|]. rewrite Forall_forall in Hk. by specialize (Hk _ Hin).
Qed.
Lemma stable_asked k : stable k (λ log _, asked k log).
Proof. intros log now extra now' (t & s & c & H) _ _ _. exists t, s, c. apply elem_of_app. by left. Qed.
Lemma stable_failing k s : stable k (λ log _, failing k s log).
Proof.
  intros log now extra now' [[t H1] H2] _ _ Hk. split; [exists t; apply elem_of_app; by left|].
  intros t' e [Hin|Hin]%elem_of_app; [by eapply H2|]. rewrite Forall_forall in Hk. by specialize (Hk _ Hin).
Qed.

Lemma alive_app k log e : alive k log → over (en_event e) = false → alive k (log ++ [e]).
Proof. intros H He t s e' [Hin|Hin%list_elem_of_singleton]%elem_of_app; [by eapply H|by subst e]. Qed.
Lemma alive_failing k s log now : alive k log → failing k s (log ++ [Entry now k s Failed]).
Proof.
  intros H. split; [exists now; apply elem_of_app; right; by left|]. intros t e Hin.
  by eapply (alive_app k log (Entry now k s Failed)).
Qed.
Lemma asked_app k log e : asked k log → asked k (log ++ [e]).
Proof. intros (t & s & c & H). exists t, s, c. apply elem_of_app. by left. Qed.
Lemma asked_now k log now s c : asked k (log ++ [Entry now k s (Asked c)]).
Proof. exists now, s, c. apply elem_of_app. right. by left. Qed.
Lemma asked_explained k s r log now : asked k log → explained k s r log now.
Proof. intros (t & s' & c & H) _ Hno. by destruct (Hno t s' c). Qed.

(** What a request knows when its call has come back. *)
Definition called (k : nat) (s : service) (fails : bool) : knowledge := λ log _, asked k log ∧ (fails = true → failing k s log).

Lemma wp_ask_http k s q : wp k s (AskHttp q mret) (λ log _, alive k log) (λ o, called k s (http_fails o)).
Proof.
  exists (λ log _, alive k log ∧ asked k log). split_and!.
  - intros log now H. by split; [apply alive_app|apply asked_now].
  - apply stable_and; [apply stable_alive|apply stable_asked].
  - intros o log now. destruct (http_fails o); [|by intros [_ ?]]. intros (log' & -> & Hal & Has). by split; [apply asked_app|intros _; apply alive_failing].
Qed.
Lemma wp_ask_search k s q c : wp k s (AskSearch q c mret) (λ log _, alive k log) (λ o, called k s (search_fails o)).
Proof.
  exists (λ log _, alive k log ∧ asked k log). split_and!.
  - intros log now H. by split; [apply alive_app|apply asked_now].
  - apply stable_and; [apply stable_alive|apply stable_asked].
  - intros o log now. destruct (search_fails o); [|by intros [_ ?]]. intros (log' & -> & Hal & Has). by split; [apply asked_app|intros _; apply alive_failing].
Qed.

Lemma wp_report_success k s r : wp k s (record_success (service_name s) ;; mret r) (called k s false) (explained k s).
Proof.
  apply (wp_weaken _ _ _ (λ log _, asked k log) _ (explained k s)); [by intros log now [? _]|done|].
  eapply wp_bind; [apply wp_success, stable_asked|]. intros _ log now. apply asked_explained.
Qed.
Lemma wp_report_failure k s r : wp k s (record_failure gateway_cb (service_name s) ;; mret r) (called k s true) (explained k s).
Proof.
  apply (wp_weaken _ _ _ (λ log _, asked k log ∧ failing k s log) _ (explained k s)); [intros log now [? Hf]; auto|done|].
  eapply wp_bind; [apply wp_failure|].
  - apply stable_and; [apply stable_asked|apply stable_failing].
  - by intros log now [_ ?].
  - intros _ log now [? _]. by apply asked_explained.
Qed.

Lemma wp_proxy_request k q : wp k HttpServer (proxy_request cfg q) (λ log _, alive k log) (explained k HttpServer).
Proof.
  unfold proxy_request. eapply wp_bind; [apply wp_allow, stable_alive|]. intros [|]; [|by intros log now H _ _].
  destruct (negb (buildable cfg (outgoing cfg q))); [by intros log now _ ?|]. eapply wp_bind; [apply wp_ask_http|].
  intros [res| |]; [apply wp_report_success|apply wp_report_failure|]. intros log now [? _]. by apply asked_explained.
Qed.
Lemma wp_search k params : wp k SearchServer (proxy_to_search_server params) (λ log _, alive k log) (explained k SearchServer).
Proof.
  unfold proxy_to_search_server. eapply wp_bind; [apply wp_allow, stable_alive|]. intros [|]; [|by intros log now H _ _].
  eapply wp_bind; [apply wp_ask_search|]. intros [|json|]; [apply wp_report_failure|apply wp_report_success|apply wp_report_failure].
Qed.
Lemma wp_route k r : wp k (route_service r) (route cfg r) (λ log _, alive k log) (explained k (route_service r)).
Proof.
  destruct r as [q|q|params]; [apply wp_proxy_request| |apply wp_search]. simpl. unfold proxy_to_authenticated_http_server.
  destruct (negb _); [|apply wp_proxy_request]. by intros log now _ ?.
Qed.

(** ** All requests together *)

Abbreviation request := (prog (world D) http_response).

(** A program that waits, with what it knows. *)
Definition rests (k : nat) (s : service) (p : request) (P : knowledge) : Prop := stable k P ∧
  match p with
  | Ret _ => False
  | Act m go => ∃ Q, step_ok m P Q ∧ ∀ r, wp k s (go r) (Q r) (explained k s)
  | AskHttp q go => ∀ o, wp k s (go o) (λ log now, if http_fails o then ∃ log', log = log' ++ [Entry now k s Failed] ∧ P log' now else P log now) (explained k s)
  | AskSearch q c go => ∀ o, wp k s (go o) (λ log now, if search_fails o then ∃ log', log = log' ++ [Entry now k s Failed] ∧ P log' now else P log now) (explained k s)
  end.

Definition now_of (f : front (D := D)) : Z := w_now (fr_world f).
Definition explained_all log : Prop := ∀ l1 t k s r l2, log = l1 ++ Entry t k s (Replied r) :: l2 → explained k s r l1 t.
Record front_inv (busy : nat → Prop) (f : front (D := D)) : Prop := FrontInv {
  fi_shared : shared (fr_log f) (fr_world f);
  fi_rests : ∀ k s p, fr_running f !! k = Some (s, p) → ¬ busy k → ∃ P, rests k s p P ∧ P (fr_log f) (now_of f);
  fi_known : ∀ e, e ∈ fr_log f → (en_request e < fr_next f)%nat;
  fi_next : ∀ k s p, fr_running f !! k = Some (s, p) → (k < fr_next f)%nat;
  fi_explained : explained_all (fr_log f)
}.

Lemma explained_snoc log e : explained_all log →
  (∀ r, en_event e = Replied r → explained (en_request e) (en_service e) r log (en_at e)) → explained_all (log ++ [e]).
Proof.
  intros H He l1 t k s r l2 E. destruct (decide (l2 = [])) as [->|Hne].
  - apply app_inj_tail in E as [-> ->]. by apply (He r).
  - destruct (exists_last Hne) as (l & x & ->). rewrite app_comm_cons, app_assoc in E. apply app_inj_tail in E as [-> _]. by eapply H.
Qed.

Lemma shared_snoc log w e : en_at e = w_now w → shared log w → shared (log ++ [e]) w.
Proof.
  intros He [H1 H2]. split; [done|]. intros s d t x n Hd Ht Hg Hx. apply (accounted_grows _ (w_now w)); [done| |by eapply H2].
  constructor; [lia|constructor].
Qed.

(** Request [k] writes into the log. *)
Lemma noted k s e f : (k < fr_next f)%nat → (∀ r, e = Replied r → explained k s r (fr_log f) (now_of f)) →
  front_inv (λ x, x = k) f → front_inv (λ x, x = k) (note k s e f).
Proof.
  intros Hk He [H1 H2 H3 H4 H5]. split; simpl.
  - by apply shared_snoc.
  - intros k' s' p Hp Hne. destruct (H2 k' s' p Hp Hne) as (P & Hr & HP). exists P. split; [done|]. apply (proj1 Hr (fr_log f) (now_of f)); [done|done| |].
    + constructor; [done|constructor].
    + constructor; [done|constructor].
  - intros e' [Hin|Hin%list_elem_of_singleton]%elem_of_app; [by apply H3|by subst e'].
  - done.
  - apply explained_snoc; [done|]. intros r. apply He.
Qed.

Lemma kept k s p P f : (k < fr_next f)%nat → rests k s p P → P (fr_log f) (now_of f) → front_inv (λ x, x = k) f → front_inv (λ _, False) (keep k s p f).
Proof.
  intros Hk Hr HP [H1 H2 H3 H4 H5]. split; simpl; try done.
  - intros k' s' p' Hl _. destruct (decide (k' = k)) as [->|Hne].
    + rewrite lookup_insert_eq in Hl. injection Hl as <- <-. by exists P.
    + rewrite lookup_insert_ne in Hl by done. by apply H2.
  - intros k' s' p' Hl. destruct (decide (k' = k)) as [->|Hne]; [done|]. rewrite lookup_insert_ne in Hl by done. by eapply H4.
Qed.
Lemma finished k f : front_inv (λ x, x = k) f → front_inv (λ _, False) (finish k f).
Proof.
  intros [H1 H2 H3 H4 H5]. split; simpl; try done.
  - intros k' s' p' [Hne Hl]%lookup_delete_Some _. by eapply H2; [|intros ->].
  - intros k' s' p' [Hne Hl]%lookup_delete_Some. by eapply H4.
Qed.

Lemma settled k s p P f : (k < fr_next f)%nat → wp k s p P (explained k s) → P (fr_log f) (now_of f) → front_inv (λ x, x = k) f →
  front_inv (λ _, False) (settle k s p f).
Proof.
  intros Hk Hwp HP Hf. destruct p as [r|R m go|q go|q c go]; simpl in *.
  - apply finished, noted; [done| |done]. intros r' [= <-]. by apply Hwp.
  - destruct Hwp as (P' & Q & H1 & H2 & H3 & H4). apply (kept _ _ _ P'); [done| |by apply H1|done]. split; [done|by exists Q].
  - destruct Hwp as (P' & H1 & H2 & H3). apply (kept _ _ _ P'); [done|by split|by apply H1|]. by apply noted.
  - destruct Hwp as (P' & H1 & H2 & H3). apply (kept _ _ _ P'); [done|by split|by apply H1|]. by apply noted.
Qed.

Lemma one_busy k f : front_inv (λ _, False) f → front_inv (λ x, x = k) f.
Proof. intros [H1 H2 H3 H4 H5]. split; try done. intros k' s p Hp _. apply (H2 k' s p Hp). by intros []. Qed.

Lemma front_run_inv f x : front_inv (λ _, False) f → front_inv (λ _, False) (front_run cfg f x).
Proof.
  intros Hf. pose proof Hf as [H1 H2 H3 H4 H5]. destruct x as [r|k|k o|k o|k|ms]; simpl.
  - set (k := fr_next f). apply (settled _ _ _ (λ log _, alive k log)); [simpl; lia|apply wp_route| |].
    + intros t s e Hin. specialize (H3 _ Hin). simpl in H3. lia.
    + split; simpl; try done; [intros k1 s1 p1 Hl _; apply (H2 k1 s1 p1 Hl); by intros []|intros e Hin; specialize (H3 e Hin); lia|intros k' s p Hl; specialize (H4 k' s p Hl); lia].
  - destruct (fr_running f !! k) as [[s [|R m go|q go|q c go]]|] eqn:Hk; try done.
    destruct (H2 k s _ Hk) as (P & (Hst & Q & Hm & Hgo) & HP); [by intros []|].
    specialize (Hm (fr_world f) (fr_log f) H1 HP). destruct (m (fr_world f)) as [r w]. destruct Hm as (Hs & Hn & HQ).
    apply (settled _ _ _ (Q r)); [by eapply H4|done|unfold now_of; simpl; by rewrite Hn|].
    split; simpl; try done. intros k' s' p' Hl _. unfold now_of. simpl. rewrite Hn. apply (H2 k' s' p' Hl). by intros [].
  - destruct (fr_running f !! k) as [[s [|R m go|q go|q c go]]|] eqn:Hk; try done.
    destruct (H2 k s _ Hk) as (P & (Hst & Hgo) & HP); [by intros []|]. pose proof (H4 _ _ _ Hk) as Hlt. eapply settled; [by destruct (http_fails o)|apply Hgo| |].
    + destruct (http_fails o); [|done]. by exists (fr_log f).
    + destruct (http_fails o); [|by apply one_busy]. by apply noted, one_busy.
  - destruct (fr_running f !! k) as [[s [|R m go|q go|q c go]]|] eqn:Hk; try done.
    destruct (H2 k s _ Hk) as (P & (Hst & Hgo) & HP); [by intros []|]. pose proof (H4 _ _ _ Hk) as Hlt. eapply settled; [by destruct (search_fails o)|apply Hgo| |].
    + destruct (search_fails o); [|done]. by exists (fr_log f).
    + destruct (search_fails o); [|by apply one_busy]. by apply noted, one_busy.
  - destruct (fr_running f !! k) as [[s p]|] eqn:Hk; [|done]. apply finished, noted; [by eapply H4|done|by apply one_busy].
  - split; simpl; try done.
    + destruct H1 as [Hs Hw]. split; simpl; [lia|]. intros s d t x n Hd Ht Hg Hx. rewrite <-(app_nil_r (fr_log f)).
      apply (accounted_grows _ (now_of f)); [unfold now_of; lia|constructor|]. eapply Hw; [done| |done|done]. lia.
    + intros k s p Hl _. destruct (H2 k s p Hl) as (P & Hr & HP); [by intros []|]. exists P. split; [done|]. rewrite <-(app_nil_r (fr_log f)).
      apply (proj1 Hr (fr_log f) (now_of f)); [done|unfold now_of; simpl; lia|constructor|constructor].
Qed.

Lemma history_inv xs f : front_inv (λ _, False) f → front_inv (λ _, False) (front_history cfg xs f).
Proof. revert f. induction xs as [|x xs IH]; intros f Hf; [done|]. by apply IH, front_run_inv. Qed.
End safety.

(** ** Theorems *)

(** No open period that Redis already has ends in the future. *)
Definition until_past {D} `{!RedisServer D} (w : world D) : Prop := ∀ s d t x n,
  w_nodes w !! 0%nat = Some d → w_now w ≤ t → r_get d t (cb_until_key (service_name s)) = Some x → parse_Z x = Some n → n * 1000 ≤ w_now w.

Section theorems.
Context {D : Type} `{!RedisServer D} `{!RedisLaws D} {HJ : JsonText}.
Variable cfg : front_config.

Lemma front_new_inv (w : world D) : 0 ≤ w_now w → until_past w → front_inv (w_now w) (λ _, False) (front_new w).
Proof.
  intros Hw Hu. split; simpl; try done.
  - split; [done|]. intros s d t x n Hd Ht Hg Hx. left. by eapply Hu.
  - by intros e ?%elem_of_nil.
  - by intros [] t k s r l2.
Qed.

(** C32: the gateway refuses a request only because a service failed.  Any number of requests
    for both services run side by side, at any gateway and interleaved at every command of
    Redis; connections and replies may be lost, services answer what they like, clients leave,
    time passes.  When a request is answered that its service is not available without having
    been passed on, then a call of the same service had failed before, and the request that made
    it still runs or ended less than thirty seconds ago.  (No open period from before the start
    ends after it.) *)
Theorem refusals_have_a_culprit xs (w : world D) l1 t k s l2 :
  0 ≤ w_now w → until_past w →
  fr_log (front_history cfg xs (front_new w)) = l1 ++ Entry t k s (Replied service_busy_response) :: l2 →
  (∀ t' s' c, Entry t' k s' (Asked c) ∉ l1) →
  ∃ k' t0, Entry t0 k' s Failed ∈ l1 ∧ ∀ t1 e, Entry t1 k' s e ∈ l1 → over e = true → t < t1 + 30000.
Proof.
  intros Hw Hu Hlog Hno. pose proof (history_inv cfg (w_now w) Hw xs _ (front_new_inv w Hw Hu)) as [_ _ _ _ H].
  exact (H l1 t k s _ l2 Hlog eq_refl Hno).
Qed.

(** No answer of the HTTP server makes the gateway refuse a request: as long as no call of it
    fails to reach it, a refused request has been passed on. *)
Theorem reachable_server_is_asked xs (w : world D) l1 t k l2 :
  0 ≤ w_now w → until_past w →
  fr_log (front_history cfg xs (front_new w)) = l1 ++ Entry t k HttpServer (Replied service_busy_response) :: l2 →
  (∀ k' t0, Entry t0 k' HttpServer Failed ∉ l1) → ¬ ∀ t' s' c, Entry t' k s' (Asked c) ∉ l1.
Proof.
  intros Hw Hu Hlog Hnf Hno. pose proof (history_inv cfg (w_now w) Hw xs _ (front_new_inv w Hw Hu)) as [_ _ _ _ H].
  destruct (H l1 t k HttpServer _ l2 Hlog eq_refl Hno) as (k' & t0 & Hf & _). by apply (Hnf k' t0).
Qed.

(** A request without a token asks neither the breaker nor the server. *)
Theorem request_without_token_goes_nowhere q (f : front (D := D)) : has_bearer_token (hq_headers q) = false →
  front_run cfg f (Begin (ToAuthenticated q)) =
    Front (fr_world f) (delete (fr_next f) (fr_running f)) (S (fr_next f))
      (fr_log f ++ [Entry (w_now (fr_world f)) (fr_next f) HttpServer (Replied missing_token_response)]).
Proof. intros H. simpl. unfold proxy_to_authenticated_http_server. by rewrite H. Qed.
End theorems.

(** ** Runs *)

Definition plain_front : front_config := FrontConfig "http://127.0.0.1:8082//" (λ _, true) [("traceparent", "00-1-1-01")].
Definition a_request : http_request :=
  HttpRequest "GET" "/api/admin/shows?page=2" [("host", "bookit.in"); ("authorization", "Bearer x"); ("traceparent", "old")] "".
Definition at_noon : world mem_redis := mem_world 1 5000.
Lemma at_noon_past : until_past at_noon.
Proof. intros s d t x n [= <-] _ Hg. destruct s; discriminate Hg. Qed.

(** What a request runs before or after its call. *)
Definition steps_of (k : nat) : list front_step := replicate 6 (Run k).
Definition failed_search (k : nat) : list front_step := Begin (ToSearch ∅) :: steps_of k ++ EndSearch k SearchStatus :: steps_of k.
Definition run_of (xs : list front_step) : list (Z * nat * string) :=
  map (λ e, (en_at e, en_request e, match en_event e with Asked _ => "asked" | Failed => "failed" | Replied r => show_Z (hr_status r) | Gone => "gone" end))
    (fr_log (front_history (HJ := mem_json) plain_front xs (front_new at_noon))).

(** Three searches that the search server answers with a status close it off for thirty
    seconds; the HTTP server is not concerned. *)
Definition search_outage : list front_step :=
  failed_search 0 ++ failed_search 1 ++ failed_search 2 ++
  Pass 29000 :: Begin (ToSearch ∅) :: steps_of 3 ++ Begin (ToHttp a_request) :: steps_of 4 ++ Pass 1000 :: Begin (ToSearch ∅) :: steps_of 5.
Example search_outage_run : run_of search_outage =
  [(5000, 0%nat, "asked"); (5000, 0%nat, "failed"); (5000, 0%nat, "503"); (5000, 1%nat, "asked"); (5000, 1%nat, "failed"); (5000, 1%nat, "503");
   (5000, 2%nat, "asked"); (5000, 2%nat, "failed"); (5000, 2%nat, "503"); (34000, 3%nat, "503"); (34000, 4%nat, "asked"); (35000, 5%nat, "asked")].
Proof. vm_compute. reflexivity. Qed.

(** The state says OPEN before the end of the open period is there.  Request 3 reads the one
    without the other, takes the period to be over and makes the breaker half-open: request 4
    is passed on too, right after three failures. *)
Definition lost_trip : list front_step :=
  let failing k := Begin (ToHttp a_request) :: steps_of k ++ [EndHttp k Unreachable] in
  failing 0%nat ++ steps_of 0 ++ failing 1%nat ++ steps_of 1 ++ failing 2%nat ++ replicate 5 (Run 2) ++
  Begin (ToHttp a_request) :: steps_of 3 ++ steps_of 2 ++ Begin (ToHttp a_request) :: steps_of 4.
Example lost_trip_run : run_of lost_trip =
  [(5000, 0%nat, "asked"); (5000, 0%nat, "failed"); (5000, 0%nat, "503"); (5000, 1%nat, "asked"); (5000, 1%nat, "failed"); (5000, 1%nat, "503");
   (5000, 2%nat, "asked"); (5000, 2%nat, "failed"); (5000, 3%nat, "asked"); (5000, 2%nat, "503"); (5000, 4%nat, "asked")].
Proof. vm_compute. reflexivity. Qed.

Lemma refusals_have_a_culprit_witness :
  let log := fr_log (front_history (HJ := mem_json) plain_front search_outage (front_new at_noon)) in
  ∃ k' t0, Entry t0 k' SearchServer Failed ∈ take 9 log ∧ ∀ t1 e, Entry t1 k' SearchServer e ∈ take 9 log → over e = true → 34000 < t1 + 30000.
Proof.
  assert (fr_log (front_history (HJ := mem_json) plain_front search_outage (front_new at_noon)) =
    take 9 (fr_log (front_history (HJ := mem_json) plain_front search_outage (front_new at_noon))) ++
      Entry 34000 3 SearchServer (Replied (service_busy_response (HJ := mem_json))) ::
    drop 10 (fr_log (front_history (HJ := mem_json) plain_front search_outage (front_new at_noon)))) as Hlog by (vm_compute; reflexivity).
  assert (∀ t' s' c, Entry t' 3 s' (Asked c) ∉ take 9 (fr_log (front_history (HJ := mem_json) plain_front search_outage (front_new at_noon)))) as Hno.
  { intros t' s' c. vm_compute. intros H. repeat (apply elem_of_cons in H as [H|H]; [discriminate H|]). by apply elem_of_nil in H. }
  exact (refusals_have_a_culprit plain_front search_outage at_noon _ _ _ _ _ ltac:(done) at_noon_past Hlog Hno).
Defined.
