(* ===== verification/Tickets.v ===== *)
(** * Tickets: the tickets of a user and the summary of a checkout
    ([apps/http-server/src/api/user/tickets.rs], [get_checkout_summary] of
    [api/user/payments.rs])

    A ticket is an order with the labels of its seats.  The shows in MongoDB are an argument,
    in the order in which it finds them: their identifiers in hexadecimal and their titles,
    or nothing for a document that cannot be read; [None] when a query fails. *)

From stdpp Require Import gmap.
From S2P Require Import Prelude Text Keys Redis RedisMem SeatLock SingleNodeLock SeatBitmap Events Db Payments PaymentsProps HttpPayments HttpPaymentsProps HttpGuards HttpAuthProps Checkout.

#[local] Open Scope string_scope.
#[local] Open Scope list_scope.
#[local] Open Scope Z_scope.

(** Identifier and title of each document, no title when it cannot be read. *)
Abbreviation show_documents := (list (string * option string)).

(** [ObjectId::parse_str] followed by [to_hex], and [DateTime::to_string]. *)
Class TicketLibs := {
  oid_hex : string → option string; time_display : Z → string;
  oid_hex_back s h : oid_hex s = Some h → oid_hex h = Some h
}.

Record user_ticket := UserTicket {
  ut_booking_id : string; ut_status : string; ut_total_amount : string; ut_show_title : string; ut_venue_name : string;
  ut_show_time : string; ut_seats : list string
}.

Definition seat_label (r : seat_row) : string := sp_row_letter (ss_place r) +:+ show_Z (sp_seat_number (ss_place r)).
(** [{:?}]. *)
Definition seat_class_debug (c : seat_class) : string :=
  match c with Standard => "Standard" | Premium => "Premium" | Vip => "Vip" | Ga => "Ga" end.
(** [as_i64] of each element, [as i32]. *)
Definition order_seat_ids (o : order_row) : list Z := map i32 (od_seat_ids o).

Section tickets.
Context {D : Type} {HP : PaymentLibs} {HL : CheckoutLibs} {HT : TicketLibs} {HC : ClaimsDecoder} {HD : TokenDecoder}.
Abbreviation S := (St (site D)).

(** [inner_join] of orders and schedules. *)
Definition orders_with_schedules (d : db) : list (order_row * schedule_row) :=
  omap (λ o, s ← d_schedules d !! od_schedule_id o; Some (o, s)) (d_orders d).
Definition seats_with_ids (ids : list Z) (d : db) : list seat_row := filter (λ r, ss_id r ∈ ids) (d_seats d).

(** The seats, without a query when there are no identifiers. *)
Definition load_seats (ids : list Z) : S (list seat_row + guard_error) :=
  if bool_decide (ids = []) then mret (inl []) else or_err (Database library_error) (db_query (seats_with_ids ids)).

Definition ticket_of (title : string) (o : order_row) (sch : schedule_row) (labels : list string) : user_ticket :=
  UserTicket (uuid_text (od_id o)) (od_status o) (od_total_amount o) title (default "Unknown Venue" (sc_venue_name sch))
    (time_display (sc_start_time sch)) labels.

(** [while let Some(Ok(show))]: the titles of the documents before the first that cannot be
    read. *)
Fixpoint read_while (l : show_documents) : list (string * string) :=
  match l with (id, Some title) :: l => (id, title) :: read_while l | _ => [] end.
Definition shows_by_id (l : show_documents) : gmap string string := foldl (λ m kv, <[kv.1 := kv.2]> m) ∅ (read_while l).
(** [find_one]. *)
Definition title_in (shows : option show_documents) (mongo_show_id : string) : string :=
  match oid_hex mongo_show_id with
  | Some oid =>
      match (l ← shows; head (filter (λ kv, kv.1 = oid) l)) with Some (_, Some title) => title | _ => "Unknown Show" end
  | None => "Unknown Show"
  end.

Definition db_err : guard_error := Internal "Failed to acquire DB connection".

(** The user of the request. *)
Definition ticket_user (secret : string) (authorization : option string) : Z + guard_error :=
  match authorization ≫= strip_prefix "Bearer " with
  | None => inr (BadRequest "missing bearer token")
  | Some token =>
      if bool_decide (token = "mock_token") then inl 1
      else match decode_token secret token with inr e => inr e | inl c => user_id_from_claims c end
  end.

Definition get_user_tickets (shows : option show_documents) (secret : string) (authorization : option string) :
    S (list user_ticket + guard_error) :=
  user_id ←? mret (ticket_user secret authorization);
  conn ← db_get;
  _ ←? check conn db_err;
  user_orders ←? or_err (Database library_error) (db_query (λ d, filter (λ os, od_user_id os.1 = user_id) (orders_with_schedules d)));
  all_seats ←? load_seats (concat (map (λ os, order_seat_ids os.1) user_orders));
  shows_map ←? mret (match omap (λ os, oid_hex (sc_mongo_show_id os.2)) user_orders with
                     | [] => inl ∅
                     | ids => match shows with Some l => inl (shows_by_id (filter (λ kv, kv.1 ∈ ids) l)) | None => inr (Internal library_error) end
                     end);
  mret (inl (map (λ os : order_row * schedule_row,
    ticket_of (default "Unknown Show" (shows_map !! sc_mongo_show_id os.2)) os.1 os.2
      (map seat_label (filter (λ r, ss_id r ∈ order_seat_ids os.1) all_seats))) user_orders)).

(** Anyone may ask. *)
Definition get_ticket_details (shows : option show_documents) (ticket_id : Z) : S (user_ticket + guard_error) :=
  conn ← db_get;
  _ ←? check conn db_err;
  found ← db_query (λ d, head (filter (λ os, od_id os.1 = ticket_id) (orders_with_schedules d)));
  os ←? or_err (NotFound ("Order " +:+ uuid_text ticket_id +:+ " not found")) (mret (default None found));
  booked_seats ←? load_seats (order_seat_ids (os : order_row * schedule_row).1);
  mret (inl (ticket_of (title_in shows (sc_mongo_show_id os.2)) os.1 os.2 (map seat_label booked_seats))).

(** *** The summary of a checkout *)

Record checkout_summary_request := CheckoutSummaryRequest { sq_schedule_id : Z; sq_seat_ids : list Z }.
Record seat_summary := SeatSummary {
  sy_seat_id : Z; sy_row_letter : string; sy_seat_number : Z; sy_seat_class : string; sy_price : string
}.
Record checkout_summary := CheckoutSummary {
  cy_schedule_id : Z; cy_show_title : string; cy_show_time : string; cy_venue_name : string; cy_venue_address : string;
  cy_venue_city : string; cy_seats : list seat_summary; cy_estimated_amount : string
}.

Definition get_checkout_summary (shows : option show_documents) (secret : string) (authorization : option string)
    (rq : checkout_summary_request) : S (checkout_summary + app_error) :=
  _ ←? mret (authenticated_user authorization secret);
  if bool_decide (sq_seat_ids rq = []) then mret (inr (bad_request "at least one seat_id is required"))
  else
    conn ← db_get;
    _ ←? check conn (internal "database unavailable");
    found ← db_query (λ d, d_schedules d !! sq_schedule_id rq);
    sch ←? or_err (not_found "schedule not found") (mret (default None found));
    seats ←? or_err (internal library_error) (db_query (seats_with_ids (sq_seat_ids rq)));
    let seat_summaries := map (λ s, SeatSummary (ss_id s) (sp_row_letter (ss_place s)) (sp_seat_number (ss_place s))
                                      (seat_class_debug (sp_seat_class (ss_place s))) (ss_price s)) seats in
    mret (inl (CheckoutSummary (sc_id sch) (title_in shows (sc_mongo_show_id sch)) (time_display (sc_start_time sch)) (default "Unknown Venue" (sc_venue_name sch))
      (default "Unknown Address" (sc_venue_address sch)) (default "Unknown City" (sc_venue_city sch)) seat_summaries
      (total_text (map ss_price seats)))).
End tickets.

(** * Properties: the list of tickets against single tickets, the summary against the charge *)

Section tickets.
Context {D : Type} {HP : PaymentLibs} {HL : CheckoutLibs} {HT : TicketLibs} {HC : ClaimsDecoder} {HD : TokenDecoder}.
Implicit Types (st : site D).

Definition the_ticket (shows : option show_documents) (d : db) (os : order_row * schedule_row) : user_ticket :=
  ticket_of (title_in shows (sc_mongo_show_id os.2)) os.1 os.2 (map seat_label (seats_with_ids (order_seat_ids os.1) d)).
Definition untitled (t : user_ticket) : user_ticket :=
  UserTicket (ut_booking_id t) (ut_status t) (ut_total_amount t) "Unknown Show" (ut_venue_name t) (ut_show_time t) (ut_seats t).

(** The orders of a user, and the identifiers of their shows. *)
Definition own_orders (u : Z) (d : db) : list (order_row * schedule_row) := filter (λ os, od_user_id os.1 = u) (orders_with_schedules d).
Definition own_shows (u : Z) (d : db) : list string := omap (λ os, oid_hex (sc_mongo_show_id os.2)) (own_orders u d).

Lemma or_err_ok {A E} (e : E) (m : St (site D) (option A)) a st st' : m st = (Some a, st') → or_err e m st = (inl a, st').
Proof. intros H. unfold or_err. by rewrite (bind_step _ _ _ _ _ H). Qed.
Lemma and_then_ok {A A' E} (m : St (site D) (A + E)) (f : A → St (site D) (A' + E)) a st st' :
  m st = (inl a, st') → and_then m f st = f a st'.
Proof. intros H. unfold and_then. by rewrite (bind_step _ _ _ _ _ H). Qed.

Lemma load_seats_ok ids st : w_faults (s_world st) = [] → load_seats ids st = (inl (seats_with_ids ids (s_db st)), st).
Proof.
  intros Hf. unfold load_seats. case_bool_decide as H.
  - subst. unfold seats_with_ids. rewrite filter_no; [done|]. apply Forall_forall. by intros r _ []%elem_of_nil.
  - apply or_err_ok. by rewrite db_query_ok.
Qed.

Lemma details_ok shows id os st : w_faults (s_world st) = [] →
  head (filter (λ os, od_id os.1 = id) (orders_with_schedules (s_db st))) = Some os →
  get_ticket_details shows id st = (inl (the_ticket shows (s_db st) os), st).
Proof.
  intros Hf Hh. unfold get_ticket_details. rewrite (bind_step _ _ _ true st) by by apply db_get_ok.
  rewrite (and_then_ok _ _ tt st st) by done. rewrite (bind_step _ _ _ (Some (Some os)) st) by by rewrite db_query_ok, Hh.
  rewrite (and_then_ok _ _ os st st) by done. by rewrite (and_then_ok _ _ _ st st (load_seats_ok _ _ Hf)).
Qed.

(** Fetched together or one by one. *)
Lemma filter_seats ids all d : (∀ i, i ∈ ids → i ∈ all) → filter (λ r, ss_id r ∈ ids) (seats_with_ids all d) = seats_with_ids ids d.
Proof.
  intros H. unfold seats_with_ids. rewrite list_filter_filter. apply list_filter_iff. intros r. split; [by intros [? _]|]. intros Hr. split; [done|by apply H].
Qed.

Lemma own_order d os u : NoDup (od_id <$> d_orders d) → os ∈ own_orders u d →
  head (filter (λ os', od_id os'.1 = od_id os.1) (orders_with_schedules d)) = Some os.
Proof.
  intros Hnd [_ Hin]%list_elem_of_filter. unfold orders_with_schedules in *. revert Hin. induction (d_orders d) as [|o l IH]; [by intros []%elem_of_nil|].
  simpl in *. apply NoDup_cons in Hnd as [Hn Hnd]. destruct (d_schedules d !! od_schedule_id o) as [s|]; simpl; [|by apply IH].
  intros [->|Hin]%elem_of_cons; simpl; rewrite filter_cons; [by rewrite decide_True|]. rewrite decide_False; [by apply IH|]. simpl. intros E. apply Hn.
  rewrite E. apply list_elem_of_omap in Hin as (o' & Ho' & Hs). destruct (d_schedules d !! od_schedule_id o'); simplify_eq/=.
  by apply list_elem_of_fmap_2.
Qed.

(** *** Titles *)

Lemma read_while_in l kv : kv ∈ read_while l → (kv.1, Some kv.2) ∈ l.
Proof.
  induction l as [|[i [t|]] l IH]; simpl; [by intros ?%elem_of_nil| |by intros ?%elem_of_nil].
  intros [->|H]%elem_of_cons; [by left|right; by apply IH].
Qed.
Lemma read_while_all l : Forall (λ kv, is_Some kv.2) l → (λ kv, (kv.1, Some kv.2)) <$> read_while l = l.
Proof. induction 1 as [|[i o] l [t Ht] _ IH]; [done|]. simpl in Ht. subst o. cbn [read_while]. rewrite fmap_cons. by rewrite IH. Qed.
Lemma read_while_keys l : NoDup l.*1 → NoDup (read_while l).*1.
Proof.
  induction l as [|[i [t|]] l IH]; simpl; [done| |intros _; constructor]. intros [Hn Hd]%NoDup_cons. constructor; [|by apply IH].
  intros (kv & -> & Hkv%read_while_in)%list_elem_of_fmap. apply Hn. by apply (list_elem_of_fmap_2 fst) in Hkv.
Qed.

Lemma insert_all_lookup (l : list (string * string)) (m : gmap string string) k t : NoDup l.*1 → (∀ x, x ∈ l.*1 → m !! x = None) →
  foldl (λ m kv, <[kv.1 := kv.2]> m) m l !! k = Some t ↔ (k, t) ∈ l ∨ m !! k = Some t.
Proof.
  revert m. induction l as [|[i a] l IH]; intros m Hnd Hm; simpl in *; [split; [by right|by intros [[]%elem_of_nil|?]]|].
  apply NoDup_cons in Hnd as [Hn Hnd]. rewrite IH; [|done|].
  - destruct (decide (i = k)) as [->|Hk].
    + rewrite lookup_insert_eq. rewrite elem_of_cons. rewrite (Hm k) by left. split.
      * intros [?|[= ->]]; [left; by right|left; by left].
      * intros [[[= ->]|?]|?]; [by right|by left|done].
    + rewrite lookup_insert_ne by done. rewrite elem_of_cons. split; [intros [?|?]; [left; by right|by right]|].
      intros [[[= -> ->]|?]|?]; [done|by left|by right].
  - intros x Hx. rewrite lookup_insert_ne; [apply Hm; by right|]. intros ->. done.
Qed.

Lemma shows_by_id_lookup l k t : NoDup l.*1 → shows_by_id l !! k = Some t ↔ (k, t) ∈ read_while l.
Proof.
  intros Hnd. unfold shows_by_id. rewrite insert_all_lookup; [|by apply read_while_keys|done]. rewrite lookup_empty. naive_solver.
Qed.

Lemma head_by_id (l : show_documents) k o : NoDup l.*1 → (k, o) ∈ l → head (filter (λ kv, kv.1 = k) l) = Some (k, o).
Proof.
  induction l as [|[i a] l IH]; intros Hnd Hin; [by apply elem_of_nil in Hin|]. simpl in Hnd. apply NoDup_cons in Hnd as [Hn Hnd].
  rewrite filter_cons. simpl. apply elem_of_cons in Hin as [[= -> ->]|Hin]; [by rewrite decide_True|].
  rewrite decide_False; [by apply IH|]. intros ->. apply Hn. by apply (list_elem_of_fmap_2 fst) in Hin.
Qed.

Lemma filter_keys (ids : list string) (l : show_documents) : NoDup l.*1 → NoDup (filter (λ kv, kv.1 ∈ ids) l).*1.
Proof. intros H. eapply sublist_NoDup; [exact H|]. apply fmap_sublist, sublist_filter. Qed.

(** The title in the list is the one of the details or none; it is that one when the identifier
    is written as [to_hex] writes it and all documents can be read. *)
Lemma title_found (l : show_documents) (ids : list string) s : NoDup l.*1 → (∀ h, oid_hex s = Some h → h ∈ ids) → (∀ h, h ∈ ids → oid_hex h = Some h) →
  let title := default "Unknown Show" (shows_by_id (filter (λ kv, kv.1 ∈ ids) l) !! s) in
  (title = title_in (Some l) s ∨ title = "Unknown Show") ∧
  ((∀ h, oid_hex s = Some h → h = s) → Forall (λ kv, kv.1 ∈ ids → is_Some kv.2) l → title = title_in (Some l) s).
Proof.
  intros Hnd Hids Hhex title. pose proof (filter_keys ids l Hnd) as Hnd'. subst title.
  destruct (shows_by_id (filter (λ kv, kv.1 ∈ ids) l) !! s) as [t|] eqn:E; simpl.
  - apply (shows_by_id_lookup _ _ _ Hnd'), read_while_in in E. simpl in E. apply list_elem_of_filter in E as [Hin Hl]. simpl in Hin.
    assert (title_in (Some l) s = t) as ->; [|split; [by left|done]].
    unfold title_in. rewrite (Hhex s Hin). simpl. by rewrite (head_by_id l s (Some t)).
  - split; [by right|]. intros Hs Hall. unfold title_in. destruct (oid_hex s) as [h|] eqn:Hh; [|done]. pose proof (Hs h eq_refl) as E0. subst h. simpl.
    destruct (head (filter (λ kv, kv.1 = s) l)) as [[k o]|] eqn:Hhead; [|done]. destruct o as [t|]; [exfalso|done].
    assert ((k, Some t) ∈ filter (λ kv, kv.1 = s) l) as Hin by (by apply head_Some_elem_of).
    apply list_elem_of_filter in Hin as [Hk Hin]. simpl in Hk. subst k.
    assert (shows_by_id (filter (λ kv, kv.1 ∈ ids) l) !! s = Some t) as Hx; [|congruence]. apply (shows_by_id_lookup _ _ _ Hnd').
    assert ((s, Some t) ∈ filter (λ kv, kv.1 ∈ ids) l) as Hf by (apply list_elem_of_filter; split; [by apply Hids|done]).
    rewrite <-(read_while_all (filter (λ kv, kv.1 ∈ ids) l)) in Hf.
    + apply list_elem_of_fmap in Hf as ([k t'] & [= <- <-] & Hf). exact Hf.
    + apply Forall_forall. intros kv [Hkv Hin']%list_elem_of_filter. rewrite Forall_forall in Hall. by apply Hall.
Qed.

(** *** The list *)

Lemma connected st : let '(b, st1) := db_get st in s_db st1 = s_db st ∧ (w_faults (s_world st) = [] → b = true ∧ st1 = st).
Proof.
  pose proof (db_get_ok st) as Hok. assert (∀ b st1, db_get st = (b, st1) → s_db st1 = s_db st) as H.
  { intros b st1 Hb. unfold db_get, mbind, St_bind, redis_of, zoom in Hb. simpl in Hb. destruct (draw (s_world st)) as [fl w]. by injection Hb as <- <-. }
  destruct (db_get st) as [b st1] eqn:E. split; [by apply (H b)|]. intros Hf. specialize (Hok Hf). by injection Hok as -> ->.
Qed.

Lemma queried {A} (q : db → A) st : let '(r, st1) := db_query q st in s_db st1 = s_db st ∧ (r = None ∨ r = Some (q (s_db st))) ∧
  (w_faults (s_world st) = [] → r = Some (q (s_db st)) ∧ st1 = st).
Proof.
  pose proof (db_query_ok q st) as Hok. destruct (db_query q st) as [r st1] eqn:E.
  assert (s_db st1 = s_db st ∧ (r = None ∨ r = Some (q (s_db st)))) as [H1 H2].
  { unfold db_query, db_run, mbind, St_bind in E. destruct (redis_of draw st) as [fl st2] eqn:Ed.
    unfold redis_of, zoom in Ed. destruct (draw (s_world st)) as [fl' w]. injection Ed as <- <-. simpl in E.
    destruct fl'; simpl in E; injection E as <- <-; auto. }
  split; [done|]. split; [done|]. intros Hf. specialize (Hok Hf). by injection Hok as -> ->.
Qed.

Lemma loaded ids st : let '(r, st1) := load_seats ids st in s_db st1 = s_db st ∧
  ((∃ e, r = inr e) ∨ r = inl (seats_with_ids ids (s_db st))) ∧
  (w_faults (s_world st) = [] → r = inl (seats_with_ids ids (s_db st)) ∧ st1 = st).
Proof.
  pose proof (load_seats_ok ids st) as Hok. unfold load_seats in *. case_bool_decide as H.
  - subst ids. simpl. assert (seats_with_ids [] (s_db st) = []) as ->; [|auto].
    unfold seats_with_ids. apply filter_no, Forall_forall. by intros r _ []%elem_of_nil.
  - unfold or_err, mbind, St_bind in *. pose proof (queried (seats_with_ids ids) st) as Hq.
    destruct (db_query (seats_with_ids ids) st) as [r st1]. destruct Hq as (Hd & [-> | ->] & Hf); simpl in *; (split; [done|]).
    + split; [by eauto|]. intros H0. by destruct (Hf H0).
    + split; [by right|]. intros H0. by destruct (Hf H0) as [_ ->].
Qed.

(** What the list says of an order. *)
Definition listed (shows : option show_documents) (u : Z) (d : db) (os : order_row * schedule_row) : user_ticket :=
  ticket_of (default "Unknown Show" ((l ← shows; shows_by_id (filter (λ kv, kv.1 ∈ own_shows u d) l) !! sc_mongo_show_id os.2))) os.1 os.2
    (map seat_label (seats_with_ids (order_seat_ids os.1) d)).

Lemma listed_orders shows secret authorization u st : ticket_user secret authorization = inl u →
  let '(r, st') := get_user_tickets shows secret authorization st in s_db st' = s_db st ∧
  (w_faults (s_world st) = [] → is_Some shows → ∃ ts, r = inl ts) ∧
  ∀ ts, r = inl ts → (shows = None → own_shows u (s_db st) = []) ∧ ts = map (listed shows u (s_db st)) (own_orders u (s_db st)).
Proof.
  intros Hu. unfold get_user_tickets, and_then, or_err, check, mbind, St_bind, mret, St_ret. simpl. rewrite Hu. simpl.
  pose proof (connected st) as Hc. destruct (db_get st) as [b st1]. destruct Hc as [Hd1 Hf1].
  destruct b; simpl; [|split; [done|]; split; [by intros [? _]%Hf1|done]].
  pose proof (queried (own_orders u) st1) as Hq. fold (own_orders u). destruct (db_query (own_orders u) st1) as [r st2].
  rewrite Hd1 in *. destruct Hq as (Hd2 & [-> | ->] & Hf2); simpl.
  { split; [done|]. split; [|done]. intros H0. destruct (Hf1 H0) as [_ ->]. by destruct (Hf2 H0). }
  set (all := concat _). pose proof (loaded all st2) as Hl. destruct (load_seats all st2) as [r st3]. rewrite Hd2 in Hl.
  fold (own_shows u (s_db st)). destruct Hl as (Hd3 & Hl & Hf3).
  assert (w_faults (s_world st) = [] → r = inl (seats_with_ids all (s_db st))) as Hq.
  { intros H0. destruct (Hf1 H0) as [_ ->]. destruct (Hf2 H0) as [_ ->]. by apply Hf3. }
  destruct Hl as [[e ->] | ->]; simpl; [split; [done|]; split; [by intros ?%Hq|done]|].
  assert (∀ os, os ∈ own_orders u (s_db st) → filter (λ r, ss_id r ∈ order_seat_ids os.1) (seats_with_ids all (s_db st)) =
    seats_with_ids (order_seat_ids os.1) (s_db st)) as Hseats.
  { intros os Hin. apply filter_seats. intros i Hi. apply list_elem_of_In, in_concat. exists (order_seat_ids os.1).
    split; [by apply (in_map (λ os, order_seat_ids os.1)), list_elem_of_In|by apply list_elem_of_In]. }
  assert (∀ m, (∀ os, os ∈ own_orders u (s_db st) → (l ← shows; shows_by_id (filter (λ kv, kv.1 ∈ own_shows u (s_db st)) l) !! sc_mongo_show_id os.2) = m !! sc_mongo_show_id os.2) →
    map (λ os, ticket_of (default "Unknown Show" ((m : gmap string string) !! sc_mongo_show_id os.2)) os.1 os.2
      (map seat_label (filter (λ r, ss_id r ∈ order_seat_ids os.1) (seats_with_ids all (s_db st))))) (own_orders u (s_db st)) =
    map (listed shows u (s_db st)) (own_orders u (s_db st))) as Hmap.
  { intros m Hm. apply map_ext_in. intros os Hin%list_elem_of_In. unfold listed. by rewrite (Hm os Hin), (Hseats os Hin). }
  destruct (own_shows u (s_db st)) as [|x ids] eqn:Hown.
  - simpl. split; [by rewrite Hd3|]. split; [by eauto|]. intros ts [= <-]. split; [done|]. apply Hmap.
    intros os _. destruct shows as [l|]; simpl; [|by rewrite lookup_empty].
    rewrite filter_no; [done|]. apply Forall_forall. by intros kv _ []%elem_of_nil.
  - destruct shows as [l|]; simpl; (split; [by rewrite Hd3|]); [|split; [by intros _ []|done]].
    split; [by eauto|]. intros ts [= <-]. split; [done|]. by apply Hmap.
Qed.

(** The title that MongoDB has for an order can be found by the list: the schedule has the
    identifier as [to_hex] writes it, and the documents of the user's shows can be read. *)
Definition titles_readable (shows : option show_documents) (u : Z) (d : db) (os : order_row * schedule_row) : Prop :=
  (∀ h, oid_hex (sc_mongo_show_id os.2) = Some h → h = sc_mongo_show_id os.2) ∧
  ∀ l, shows = Some l → Forall (λ kv, kv.1 ∈ own_shows u d → is_Some kv.2) l.

Lemma listed_ticket shows u d os : (∀ l, shows = Some l → NoDup l.*1) → (shows = None → own_shows u d = []) → os ∈ own_orders u d →
  (listed shows u d os = the_ticket shows d os ∨ listed shows u d os = untitled (the_ticket shows d os)) ∧
  (titles_readable shows u d os → listed shows u d os = the_ticket shows d os).
Proof.
  intros Hnd Hnone Hin.
  assert (∀ h, oid_hex (sc_mongo_show_id os.2) = Some h → h ∈ own_shows u d) as Hids.
  { intros h Hh. apply list_elem_of_omap. by exists os. }
  unfold listed, the_ticket. destruct shows as [l|]; simpl.
  - destruct (title_found l (own_shows u d) (sc_mongo_show_id os.2) (Hnd l eq_refl) Hids) as [Hor Heq].
    { intros h (os' & _ & Hh)%list_elem_of_omap. by eapply oid_hex_back. }
    split; [by destruct Hor as [-> | ->]; [left|right]|]. intros [H1 H2]. by rewrite (Heq H1 (H2 l eq_refl)).
  - assert (title_in None (sc_mongo_show_id os.2) = "Unknown Show") as ->; [|auto]. unfold title_in. by destruct (oid_hex _).
Qed.

(** C29: the list of a user's tickets and the single tickets agree.  On any network the list
    changes nothing, and when it is answered it has one ticket for each order of the user, in
    the order of the orders: the one that the details of this order show, or the same without
    its title.  It has the title when the schedule's identifier of the show is written as
    [to_hex] writes it and MongoDB can read the documents of all shows of the user.  It is
    answered when neither the network nor the query of MongoDB fails. *)
Theorem user_tickets_are_details shows secret authorization u st :
  ticket_user secret authorization = inl u → NoDup (od_id <$> d_orders (s_db st)) → (∀ l, shows = Some l → NoDup l.*1) →
  let '(answer, st') := get_user_tickets shows secret authorization st in
  s_db st' = s_db st ∧
  (w_faults (s_world st) = [] → is_Some shows → ∃ ts, answer = inl ts) ∧
  ∀ ts (quiet : site D), answer = inl ts → w_faults (s_world quiet) = [] → s_db quiet = s_db st →
    Forall2 (λ os t, ∃ t', get_ticket_details shows (od_id os.1) quiet = (inl t', quiet) ∧ (t = t' ∨ t = untitled t') ∧
        (titles_readable shows u (s_db st) os → t = t'))
      (own_orders u (s_db st)) ts.
Proof.
  intros Hu Hnd Hdocs. pose proof (listed_orders shows secret authorization u st Hu) as H.
  destruct (get_user_tickets shows secret authorization st) as [answer st']. destruct H as (Hd & Hans & Hlist).
  split; [done|]. split; [done|]. intros ts quiet Ha Hf Hq. destruct (Hlist ts Ha) as [Hnone ->].
  apply Forall2_fmap_r, Forall_Forall2_diag, Forall_forall. intros os Hin.
  exists (the_ticket shows (s_db st) os). split; [|by apply listed_ticket].
  rewrite <-Hq in *. apply details_ok; [done|]. by apply (own_order _ _ u).
Qed.
End tickets.

(** ** The summary and the charge *)

#[local] Existing Instance single_node_lock.

Lemma filter_iff_in {A} (P Q : A → Prop) `{∀ x, Decision (P x)} `{∀ x, Decision (Q x)} (l : list A) :
  (∀ x, x ∈ l → P x ↔ Q x) → filter P l = filter Q l.
Proof.
  induction l as [|x l IH]; intros Hpq; [done|]. rewrite !filter_cons, IH by (intros y Hy; apply Hpq; by right).
  pose proof (Hpq x ltac:(left)) as Hx. destruct (decide (P x)), (decide (Q x)); tauto.
Qed.

Lemma row_by_id l (r r' : seat_row) : NoDup (ss_id <$> l) → r ∈ l → r' ∈ l → ss_id r = ss_id r' → r = r'.
Proof.
  intros Hnd [i Hi]%list_elem_of_lookup [j Hj]%list_elem_of_lookup E.
  assert (i = j) as -> by (eapply (NoDup_lookup _ i j (ss_id r)); [exact Hnd|by rewrite list_lookup_fmap, Hi|by rewrite list_lookup_fmap, Hj; simpl; rewrite E]).
  congruence.
Qed.

Section summary.
Context {D : Type} `{!RedisServer D} `{!RedisLaws D} {HJ : JsonText} {HP : PaymentLibs} {HL : CheckoutLibs} {HT : TokenDecoder} {HTL : TicketLibs}.
Implicit Types (st : site D).

Lemma all_requested rq d : NoDup (ss_id <$> d_seats d) → length (requested_seats rq d) = length (rq_seat_ids rq) →
  seats_with_ids (rq_seat_ids rq) d = requested_seats rq d.
Proof.
  intros Hnd Hlen. destruct (requested_seats_cover rq d Hnd Hlen) as [_ Hc]. unfold seats_with_ids, requested_seats.
  apply filter_iff_in. intros r Hr. split; [|by intros [? _]]. intros Hin. split; [done|].
  apply Hc in Hin. apply list_elem_of_fmap in Hin as (r' & E & [[_ Hs] Hr']%list_elem_of_filter).
  by rewrite (row_by_id _ r r' Hnd Hr Hr' E).
Qed.

(** C30: what the summary states is what is charged.  When a user may buy some seats, the
    amount that the summary of these seats estimates is the amount of the payment request
    that the server files for them. *)
Theorem summary_states_the_charge authorization jwt_secret secret rq u shows st :
  authenticated_user authorization jwt_secret = inl u → request_invalid rq = false → check_signature secret rq = None →
  may_buy u rq st →
  let '(answer, st1) := get_checkout_summary shows jwt_secret authorization (CheckoutSummaryRequest (rq_schedule_id rq) (rq_seat_ids rq)) st in
  let '(accepted, st2) := request_payment authorization jwt_secret secret rq st1 in
  ∃ s pid, answer = inl s ∧ accepted = inl (PaymentAccepted 202 pid "pending") ∧ map sy_seat_id (cy_seats s) ≡ₚ rq_seat_ids rq ∧
    (last (d_outbox (s_db st2)) ≫= λ e, jget "amount" (oe_payload e)) = Some (JStr (cy_estimated_amount s)).
Proof.
  intros Hu Hinv Hsig Hmb. pose proof Hmb as [Hf _ _ (Hids & Hlen & _) _ (_ & Hks) _].
  apply elem_of_dom in Hks as [sch Hsch].
  assert (get_checkout_summary shows jwt_secret authorization (CheckoutSummaryRequest (rq_schedule_id rq) (rq_seat_ids rq)) st = (inl
    (CheckoutSummary (sc_id sch) (title_in shows (sc_mongo_show_id sch))
      (time_display (sc_start_time sch)) (default "Unknown Venue" (sc_venue_name sch))
      (default "Unknown Address" (sc_venue_address sch)) (default "Unknown City" (sc_venue_city sch))
      (map (λ s, SeatSummary (ss_id s) (sp_row_letter (ss_place s)) (sp_seat_number (ss_place s)) (seat_class_debug (sp_seat_class (ss_place s))) (ss_price s))
        (seats_with_ids (rq_seat_ids rq) (s_db st)))
      (total_text (map ss_price (seats_with_ids (rq_seat_ids rq) (s_db st))))), st)) as ->.
  { unfold get_checkout_summary. rewrite (and_then_ok _ _ u st st) by (by rewrite Hu). cbn [sq_seat_ids sq_schedule_id].
    rewrite bool_decide_false by (intros Hnil; unfold request_invalid in Hinv; by rewrite Hnil in Hinv).
    rewrite (bind_step _ _ _ true st) by by apply db_get_ok. rewrite (and_then_ok _ _ tt st st) by done.
    rewrite (bind_step _ _ _ (Some (Some sch)) st) by by rewrite db_query_ok, Hsch.
    rewrite (and_then_ok _ _ sch st st) by done.
    by rewrite (and_then_ok _ _ (seats_with_ids (rq_seat_ids rq) (s_db st)) st st) by (apply or_err_ok; by rewrite db_query_ok). }
  destruct (request_ok authorization jwt_secret secret rq u st Hu Hinv Hsig Hmb) as (d & d' & _ & _ & ->).
  eexists _, _. split; [done|]. split; [done|]. rewrite (all_requested rq _ Hids Hlen). split.
  - simpl. rewrite map_map. simpl. apply submseteq_length_Permutation.
    + apply NoDup_submseteq; [apply (sublist_NoDup _ (ss_id <$> d_seats (s_db st))); [done|apply fmap_sublist, sublist_filter]|].
      intros x (r & -> & [[? _] _]%list_elem_of_filter)%list_elem_of_fmap. done.
    + rewrite length_map. lia.
  - simpl. rewrite last_snoc. reflexivity.
Qed.
End summary.

(** ** Runs *)

Lemma ascii_lower_again a : ascii_lower (ascii_lower a) = ascii_lower a.
Proof. destruct a as [[] [] [] [] [] [] [] []]; reflexivity. Qed.
Lemma string_lower_again s : string_lower (string_lower s) = string_lower s.
Proof. induction s as [|a s IH]; [done|]. simpl. by rewrite ascii_lower_again, IH. Qed.

(** An identifier of 24 digits, in lower case. *)
Definition plain_oid_hex (s : string) : option string :=
  let h := string_lower s in if (String.length h =? 24)%nat then Some h else None.

#[export, program] Instance plain_tickets : TicketLibs := {| oid_hex := plain_oid_hex; time_display := show_Z |}.
Next Obligation.
  unfold plain_oid_hex. intros s h H. destruct (String.length (string_lower s) =? 24)%nat eqn:E; [|done]. injection H as <-.
  by rewrite string_lower_again, E.
Qed.

Definition two_orders : db :=
  Db [SeatRow 1 7 Booked "100" some_place; SeatRow 2 7 Booked "100" (SeatPlace 2 None Base "A" 2 Standard);
      SeatRow 3 7 Booked "400" (SeatPlace 3 None Base "B" 1 Vip)]
    [OrderRow 90 50 1 7 [1; 3] "590" "" None "completed"; OrderRow 91 51 2 7 [2] "118" "" None "completed"; OrderRow 92 52 1 7 [] "0" "" None "cancelled"]
    [] [] [] [] some_users {[7 := some_schedule 7]} [] 8 4 {[1 := some_layout]} 3 2 1.
Definition two_orders_site : site mem_redis := Site two_orders (mem_world 1 1000) (λ k, Z.of_nat k) 0.
Definition one_title : list (string * option string) := [("64b000000000000000000001", Some "Jaws")].
Definition bearer : option string := Some "Bearer mock_token".

Lemma user_tickets_are_details_witness :
  match (get_user_tickets (Some one_title) "s" bearer two_orders_site).1 with
  | inl ts => map (λ t, (ut_show_title t, ut_total_amount t, ut_seats t)) ts = [("Jaws", "590", ["A1"; "B1"]); ("Jaws", "0", [])]
  | inr _ => False
  end ∧
  let '(answer, st') := get_user_tickets (Some one_title) "s" bearer two_orders_site in
  s_db st' = two_orders ∧
  (w_faults (s_world two_orders_site) = [] → is_Some (Some one_title) → ∃ ts, answer = inl ts) ∧
  ∀ ts (quiet : site mem_redis), answer = inl ts → w_faults (s_world quiet) = [] → s_db quiet = two_orders →
    Forall2 (λ os t, ∃ t', get_ticket_details (Some one_title) (od_id os.1) quiet = (inl t', quiet) ∧ (t = t' ∨ t = untitled t') ∧
        (titles_readable (Some one_title) 1 two_orders os → t = t'))
      (own_orders 1 two_orders) ts.
Proof.
  split; [vm_compute; reflexivity|].
  assert (NoDup (od_id <$> d_orders two_orders)) as Hnd by (apply (bool_decide_unpack _); vm_compute; exact I).
  assert (∀ l, Some one_title = Some l → NoDup l.*1) as Hdocs by (intros l [= <-]; apply (bool_decide_unpack _); vm_compute; exact I).
  exact (user_tickets_are_details (Some one_title) "s" bearer 1 two_orders_site eq_refl Hnd Hdocs).
Defined.

(** *** Titles that the list loses *)

Definition with_show (id : string) (s : schedule_row) : schedule_row :=
  Schedule (sc_id s) id (sc_show_type s) (sc_layout_id s) (sc_start_time s) (sc_booking_open_at s) (sc_lifecycle_state s) (sc_created_at s)
    (sc_deleted_at s) (sc_venue_name s) (sc_venue_address s) (sc_venue_city s) (sc_venue_state s) (sc_date s) (sc_slot s) (sc_end_time s).
(** User 1 has the orders 90 and 91 for the schedules 7 and 8. *)
Definition two_shows (id7 id8 : string) : site mem_redis :=
  Site (Db [] [OrderRow 90 50 1 7 [] "590" "" None "completed"; OrderRow 91 51 1 8 [] "118" "" None "completed"]
    [] [] [] [] some_users {[7 := with_show id7 (some_schedule 7); 8 := with_show id8 (some_schedule 8)]} [] 9 4 {[1 := some_layout]} 3 2 1)
    (mem_world 1 1000) (λ k, Z.of_nat k) 0.
Definition listed_titles (shows : option (list (string * option string))) (st : site mem_redis) : option (list string) :=
  match (get_user_tickets shows "s" bearer st).1 with inl ts => Some (map ut_show_title ts) | inr _ => None end.
Definition shown_title (shows : option (list (string * option string))) (id : Z) (st : site mem_redis) : option string :=
  match (get_ticket_details shows id st).1 with inl t => Some (ut_show_title t) | inr _ => None end.

(** The shows are keyed by [to_hex] and looked up by the identifier as it was stored. *)
Lemma upper_case_show_is_unknown :
  let shows := Some [("64b00000000000000000000a", Some "Jaws"); ("64b00000000000000000000b", Some "Heat")] in
  let st := two_shows "64B00000000000000000000A" "64b00000000000000000000b" in
  listed_titles shows st = Some ["Unknown Show"; "Heat"] ∧ shown_title shows 90 st = Some "Jaws".
Proof. vm_compute. done. Qed.

(** A document that cannot be read ends the list of titles: the shows after it are unknown. *)
Lemma unreadable_show_hides_others :
  let shows := Some [("64b00000000000000000000a", None); ("64b00000000000000000000b", Some "Heat")] in
  let st := two_shows "64b00000000000000000000a" "64b00000000000000000000b" in
  listed_titles shows st = Some ["Unknown Show"; "Unknown Show"] ∧ shown_title shows 91 st = Some "Heat".
Proof. vm_compute. done. Qed.

Lemma summary_states_the_charge_witness :
  let '(answer, st1) := get_checkout_summary (Some one_title) "secret" (Some "Bearer mock_token") (CheckoutSummaryRequest 7 [3]) (pp_site open_shop) in
  let '(accepted, st2) := request_payment (Some "Bearer mock_token") "secret" "secret" (seat_request "k") st1 in
  ∃ s pid, answer = inl s ∧ accepted = inl (PaymentAccepted 202 pid "pending") ∧ map sy_seat_id (cy_seats s) ≡ₚ [3] ∧
    (last (d_outbox (s_db st2)) ≫= λ e, jget "amount" (oe_payload e)) = Some (JStr (cy_estimated_amount s)).
Proof.
  pose proof (summary_states_the_charge (Some "Bearer mock_token") "secret" "secret" (seat_request "k") 1 (Some one_title) (pp_site open_shop)
    eq_refl eq_refl eq_refl open_shop_may_buy) as H.
  exact H.
Defined.
