(* ===== verification/Catalogue.v ===== *)
(** * Catalogue: the shows as they are read
    ([list_shows], [list_shows_grid], [get_show_details] of
    [apps/http-server/src/api/user/shows.rs], [get_movies] of [user/movies.rs],
    [list_shows], [get_show] and [elasticsearch_show_ids] of [admin/shows.rs])

    The lists are read through the cache.  How documents and JSON texts become shows is
    derived code over libraries, and so is the order in which MongoDB finds documents: the
    fields of [ShowText].  Elasticsearch is a function from the body of a query to the
    answer, none when there is no answer of success that is JSON. *)

From stdpp Require Import gmap sorting.
From S2P Require Import Prelude Text Keys Redis RedisMem SeatLock Events Db HttpCache HttpPayments ShowModel Mongo Shows SearchIndex.

#[local] Open Scope string_scope.
#[local] Open Scope list_scope.
#[local] Open Scope Z_scope.

Class ShowText := {
  read_show : document → option show;
  show_json : show → json;
  de_show : json → option show;
  natural : gmap string document → list (string * document);    (* a query without an order *)
  by_weight : list document → list document;                    (* { "weight": -1, "next_start_time": 1 } *)
  by_creation : list document → list document;                  (* { "created_at": -1 } *)
  title_or_tag : string → document → bool;                      (* the two expressions of the fallback *)
  regex_ok : string → bool;                                     (* an expression that MongoDB accepts *)
  skip_ok : Z → bool                                            (* what the driver can send *)
}.

(** ** Queries *)

(** [null] matches a missing field as well. *)
Definition field_null (k : string) (d : document) : bool := match assoc k d with None | Some BNull => true | _ => false end.
Definition field_is (k v : string) (d : document) : bool := match assoc k d with Some (BString s) => bool_decide (s = v) | _ => false end.
Definition active_show (d : document) : bool := field_null "deleted_at" d.

(** [skip] and [limit]; no limit is 0, and a negative one is that of a single batch. *)
Definition page_of (skip limit : Z) (l : list document) : list document :=
  let l := drop (Z.to_nat skip) l in if limit =? 0 then l else take (Z.to_nat (Z.abs limit)) l.

(** [sort_by_key] with [Reverse(created_at)]. *)
Definition newer (a b : show) : Prop :=
  match sh_created_at a, sh_created_at b with _, None => True | None, Some _ => False | Some s, Some t => t ≤ s end.
#[export] Instance newer_dec a b : Decision (newer a b).
Proof. unfold newer. repeat case_match; apply _. Defined.

(** [get_cities]. *)
Definition cities : list string :=
  ["Mumbai"; "Bengaluru"; "Delhi-NCR"; "Hyderabad"; "Chennai"; "Pune"; "Kolkata"; "Ahmedabad"; "Chandigarh"; "Kochi"].

Section catalogue.
Context {D : Type} `{!RedisServer D} {HJ : JsonText} {HO : ObjectIds} {HT : ShowText}.
Abbreviation C := (St (catalog D)).

Definition documents (p : document → bool) (m : mongo) : list document := filter (λ d, p d = true) (map snd (natural (mg_shows m))).

Definition shows_json (l : list show) : json := JArr (map show_json l).
Definition de_shows : json → option (list show) := de_vec de_show.
Definition cached_shows (key : string) : C (option (list show)) := on_redis (get_async_cached de_shows key).
Definition cache_shows (key : string) (l : list show) (ttl : Z) : C unit := on_redis (set_async_cached key (shows_json l) ttl).

(** A query of the shows; [None] is an error of the driver. *)
Definition find_documents (q : mongo → list document) : C (list document + app_error) := or_err (internal mongo_error) (mongo_query q).

(** *** Public lists *)

Definition list_shows : C (list show + app_error) :=
  hit ← cached_shows CACHE_SHOWS;
  match hit with
  | Some cached => mret (inl cached)
  | None =>
      found ←? find_documents (documents active_show);
      let shows := merge_sort newer (omap read_show found) in
      cache_shows CACHE_SHOWS shows TTL_SHOWS ;;
      mret (inl shows)
  end.

Record grid_query := GridQuery { gq_page : option Z; gq_limit : option Z; gq_city : option string }.
Record grid_response := GridResponse { gr_shows : list show; gr_has_more : bool }.

Definition grid_city (city : option string) : option string :=
  match city with
  | Some c => if bool_decide (c ≠ "All") && negb (is_empty (trim c)) then Some (trim c) else None
  | None => None
  end.
Definition grid_key (city : option string) : string :=
  match grid_city city with Some c => CACHE_DASHBOARD_GRID +:+ ":city:" +:+ c | None => CACHE_DASHBOARD_GRID end.
Definition in_city (city : option string) (d : document) : bool := match city with Some c => field_is "city" c d | None => true end.
Definition grid_documents (city : option string) (skip limit : Z) (m : mongo) : list document :=
  page_of skip limit (by_weight (documents (λ d, active_show d && in_city (grid_city city) d) m)).

(** [u64] arithmetic, without overflow checks. *)
Definition grid_skip (page limit : Z) : Z := u64 (u64 (page - 1) * limit).

Definition list_shows_grid (q : grid_query) : C (grid_response + app_error) :=
  let page := default 1 (gq_page q) in
  let limit := default 30 (gq_limit q) in
  let cache_key := grid_key (gq_city q) in
  let first := (page =? 1) && (limit =? 30) in
  hit ← (if first then cached_shows cache_key else mret None);
  match hit with
  | Some cached => mret (inl (GridResponse cached true))
  | None =>
      let skip := grid_skip page limit in
      if negb (skip_ok skip) then mret (inr (internal mongo_error))
      else
        found ←? find_documents (grid_documents (gq_city q) skip (i64 limit));
        let shows := omap read_show found in
        let has_more := Z.of_nat (length shows) =? limit in
        when first (cache_shows cache_key shows TTL_DASHBOARD_GRID) ;;
        mret (inl (GridResponse shows has_more))
  end.

(** *** Movies *)

Definition movie_documents (show_type : option string) (ids : list string) (m : mongo) : list document :=
  map snd (filter (λ kd, bool_decide (kd.1 ∈ ids) && active_show kd.2 &&
                         match show_type with Some st => bool_decide (st = "All") || field_is "show_type" st kd.2 | None => true end = true)
    (natural (mg_shows m))).

Definition get_movies (show_type city : option string) : C (list show + app_error) :=
  let cache_key := cache_movies_key show_type city in
  hit ← on_redis (get_cached de_shows cache_key);
  match hit with
  | Some cached => mret (inl cached)
  | None =>
      conn ← on_site db_get;
      _ ←? check conn (internal mongo_error);
      now ← on_redis now_ms;
      active_show_ids ←? or_err (internal mongo_error) (on_site (db_query (active_show_ids (default EmptyString city) now)));
      match omap parse_object_id active_show_ids with
      | [] => mret (inl [])
      | object_ids =>
          found ←? find_documents (movie_documents show_type object_ids);
          let movies := merge_sort newer (omap read_show found) in
          on_redis (set_cached cache_key (shows_json movies) TTL_MOVIES_ALL) ;;
          mret (inl movies)
      end
  end.

(** *** One show *)

(** [find_one]: the document read as a show; an error when it cannot be read. *)
Definition find_show (oid : string) : C (option show + app_error) :=
  found ←? or_err (internal mongo_error) (mongo_query (λ m, read_show <$> mg_shows m !! oid));
  mret (match found with None => inl None | Some (Some s) => inl (Some s) | Some None => inr (internal mongo_error) end).

Definition get_show_details (id : string) : C (show + app_error) :=
  match parse_object_id id with
  | None => mret (inr (bad_request "Invalid Show ID format"))
  | Some oid => s ←? find_show oid; mret (match s with Some s => inl s | None => inr (not_found "Show not found") end)
  end.

(** *** The administration *)

(** [_id] becomes [id]. *)
Definition show_value (id : string) (s : show) : json :=
  match show_json s with
  | JObj l => JObj (filter (λ kv, kv.1 ≠ "_id" ∧ kv.1 ≠ "id") l ++ [("id", JStr id)])
  | j => j
  end.

Definition get_show (id : string) : C (json + app_error) :=
  match parse_object_id id with
  | None => mret (inr (bad_request "Invalid show id"))
  | Some oid =>
      s ←? find_show oid;
      mret (match s with Some s => inl (show_value id s) | None => inr (not_found "Show not found") end)
  end.

Definition elastic_query (search : string) (show_type : option string) (from limit : Z) : json :=
  let filters := match show_type with
    | Some st => if is_empty (trim st) then [] else [JObj [("term", JObj [("show_type", JStr st)])]]
    | None => []
    end in
  JObj [("from", JNum from); ("size", JNum limit); ("_source", JBool false);
        ("query", JObj [("bool", JObj [
           ("must", JArr [multi_match search ["title^3"; "tags^2"; "venue"; "description"; "category_ids"] [("fuzziness", JStr "AUTO")]]);
           ("filter", JArr filters);
           ("must_not", JArr [JObj [("exists", JObj [("field", JStr "deleted_at")])]])])])].

(** [url] is the address of the environment. *)
Definition elasticsearch_show_ids (url : option string) (answer : json → option json) (search : string) (show_type : option string)
    (from limit : Z) : option (list string) :=
  match trim_end_slashes <$> url with
  | None | Some EmptyString => None
  | Some _ =>
      payload ← answer (elastic_query search show_type from limit);
      hits ← (jget "hits" payload ≫= jget "hits") ≫= as_array;
      Some (omap (M := list) (λ hit, jget "_id" hit ≫= as_str) hits)
  end.

Record list_shows_query := ListShowsQuery { lq_show_type : option string; lq_search : option string; lq_page : option Z; lq_limit : option Z }.

Definition admin_match (show_type : option string) (search : option string) (ids : option (list string)) (kd : string * document) : bool :=
  active_show kd.2 && match show_type with Some st => field_is "show_type" st kd.2 | None => true end &&
  match ids, search with
  | Some ids, _ => bool_decide (kd.1 ∈ ids)
  | None, Some s => title_or_tag s kd.2
  | None, None => true
  end.

(** The last position of an identifier in a list, for [HashMap::collect]. *)
Fixpoint rank (ids : list string) (id : string) : option nat :=
  match ids with
  | [] => None
  | i :: ids => match rank ids id with Some n => Some (Datatypes.S n) | None => if bool_decide (i = id) then Some 0%nat else None end
  end.
Definition ranked (ids : list string) (a b : string * json) : Prop :=
  match rank ids a.1, rank ids b.1 with _, None => True | None, Some _ => False | Some m, Some n => (m ≤ n)%nat end.
#[export] Instance ranked_dec ids a b : Decision (ranked ids a b).
Proof. unfold ranked. repeat case_match; apply _. Defined.

Definition list_shows_admin (url : option string) (answer : json → option json) (q : list_shows_query) : C (list json + app_error) :=
  let limit := Z.min (default 50 (lq_limit q)) 200 in
  let page := default 0 (lq_page q) in
  let search := match trim <$> lq_search q with Some s => if is_empty s then None else Some s | None => None end in
  let elastic_ids := search ≫= λ s, elasticsearch_show_ids url answer s (lq_show_type q) (u64 (page * limit)) limit in
  let skip := match elastic_ids with Some _ => 0 | None => u64 (page * limit) end in
  let refused := match elastic_ids, search with None, Some s => negb (regex_ok s) | _, _ => false end in
  if negb (skip_ok skip) || refused then mret (inr (internal mongo_error))
  else
    found ←? find_documents (λ m, page_of skip limit (by_creation
      (map snd (filter (λ kd, admin_match (lq_show_type q) search (omap (M := list) parse_object_id <$> elastic_ids) kd = true) (natural (mg_shows m))))));
    let results := map (λ s, (default EmptyString (sh_id s), show_value (default EmptyString (sh_id s)) s)) (omap read_show found) in
    mret (inl (map snd (match elastic_ids with Some ids => merge_sort (ranked ids) results | None => results end))).
End catalogue.
