(* ===== verification/CatalogueProps.v ===== *)
(** * CatalogueProps: what the public reads of the shows

    Over a network without faults.  [Cat I]: the cache server, the time and the MongoDB
    state satisfy [I].  The list of all shows follows the administration; the lists of a
    city and the movies do not, and stay for the day that they are cached. *)

From Stdlib Require Import Sorted.
From stdpp Require Import gmap sorting.
From S2P Require Import Prelude Text Keys Redis RedisMem SeatLock Events Db HttpCache HttpPayments ShowModel Mongo Shows SearchIndex.
From S2P Require Import PublicSchedules PublicLists SearchProps SearchBlocks Catalogue.

#[local] Open Scope string_scope.
#[local] Open Scope list_scope.
#[local] Open Scope Z_scope.

Section steps.
Context {D : Type} `{!RedisServer D} `{!RedisLaws D} {HJ : JsonText} {HO : ObjectIds} {HT : ShowText}.
Implicit Types (c : catalog D) (n : D) (m : mongo).

Definition the_world c : world D := s_world (ct_site c).
Definition the_time c : Z := w_now (the_world c).

(** The state with other contents of the cache server. *)
Definition put c n : catalog D :=
  Catalog (Site (s_db (ct_site c)) (World (<[0%nat := n]> (w_nodes (the_world c))) (the_time c) [] (w_log (the_world c)))
    (s_uuids (ct_site c)) (s_drawn (ct_site c))) (ct_mongo c).

Record quiet c n : Prop := { qu_faults : w_faults (the_world c) = []; qu_server : w_nodes (the_world c) !! 0%nat = Some n }.

Lemma on_site_step {A} (f : St (site D) A) c a st : f (ct_site c) = (a, st) → on_site f c = (a, Catalog st (ct_mongo c)).
Proof. intros H. unfold on_site, zoom. by rewrite H. Qed.
Lemma on_site_same {A} (f : St (site D) A) c a : f (ct_site c) = (a, ct_site c) → on_site f c = (a, c).
Proof. intros H. rewrite (on_site_step f c _ _ H). by destruct c. Qed.

Definition looked_up {T} (de : json → option T) (key : string) (t : Z) n : option T := raw ← r_get n t key; j ← json_parse raw; de j.

Lemma get_async_step {T} (de : json → option T) key c n : quiet c n →
  on_redis (get_async_cached de key) c = (looked_up de key (the_time c) n, c).
Proof. intros [H1 H2]. apply on_site_same. exact (cached_step de key (ct_site c) n H1 H2). Qed.

Lemma get_step {T} (de : json → option T) key c n : quiet c n → on_redis (get_cached de key) c = (looked_up de key (the_time c) n, c).
Proof.
  intros [H1 H2]. apply on_site_same. destruct c as [[d [ns t fl lg] us k] m]. unfold the_world in *. simpl in *. subst fl.
  unfold redis_of, zoom, get_cached. cbn [s_world]. rewrite (bind_step _ _ _ true (World ns t [] lg)) by done. cbn [negb].
  rewrite (bind_step _ _ _ _ _ (node_cmd_ok 0 (cmd_get key) ns t lg n H2)). simpl. by rewrite list_insert_id.
Qed.

Lemma put_eq c n : Catalog (Site (s_db (ct_site c)) (World (<[0%nat := n]> (w_nodes (s_world (ct_site c)))) (w_now (s_world (ct_site c))) []
  (w_log (s_world (ct_site c)))) (s_uuids (ct_site c)) (s_drawn (ct_site c))) (ct_mongo c) = put c n.
Proof. done. Qed.

Lemma set_async_step key j ttl c n : quiet c n → r_px_ok (ttl * 1000) = true →
  on_redis (set_async_cached key j ttl) c = (tt, put c (r_set_px n (the_time c) key (json_print j) (ttl * 1000))).
Proof. intros [H1 H2] Ht. exact (on_site_step _ c _ _ (cache_step key j ttl (ct_site c) n H1 H2 Ht)). Qed.

Lemma set_step key j ttl c n : quiet c n → r_px_ok (ttl * 1000) = true →
  on_redis (set_cached key j ttl) c = (true, put c (r_set_px n (the_time c) key (json_print j) (ttl * 1000))).
Proof.
  intros [H1 H2] Ht. destruct c as [[d [ns t fl lg] us k] m]. unfold the_world, the_time, put in *. simpl in *. subst fl.
  unfold on_redis, on_site, redis_of, zoom, set_cached. cbn [s_world ct_site]. rewrite (bind_step _ _ _ true (World ns t [] lg)) by done. cbn [negb].
  rewrite (bind_step _ _ _ _ _ (node_cmd_ok 0 (cmd_setex key (json_print j) ttl) ns t lg n H2)). unfold cmd_setex. rewrite Ht. simpl.
  done.
Qed.

Lemma invalidate_at_step key c n : quiet c n → on_redis (invalidate_async key) c = (tt, put c (r_del n key)).
Proof. intros [H1 H2]. exact (on_site_step _ c _ _ (invalidate_step key (ct_site c) n H1 H2)). Qed.

Lemma mongo_query_step {A} (q : mongo → A) c n : quiet c n → mongo_query q c = (Some (q (ct_mongo c)), c).
Proof. intros [H1 H2]. destruct c as [[d [ns t fl lg] us k] m]. unfold the_world in *. simpl in *. by subst fl. Qed.

Lemma mongo_run_step tx c n : quiet c n →
  mongo_run tx c = match tx (ct_mongo c) with Some m => (true, Catalog (ct_site c) m) | None => (false, c) end.
Proof. intros [H1 H2]. destruct c as [[d [ns t fl lg] us k] m]. unfold the_world in *. simpl in *. subst fl. unfold mongo_run. simpl. by destruct (tx m). Qed.

Lemma quiet_put c n n' : quiet c n → quiet (put c n') n'.
Proof. intros [H1 H2]. split; [done|]. simpl. apply list_lookup_insert_eq. by eapply lookup_lt_Some. Qed.

(** ** Invariants of the cache, the time and the catalogue *)

Implicit Type I : D → Z → mongo → Prop.
Definition Cat I c : Prop := ∃ n, quiet c n ∧ I n (the_time c) (ct_mongo c).

Lemma cat_weaken I I' c : (∀ n, I n (the_time c) (ct_mongo c) → I' n (the_time c) (ct_mongo c)) → Cat I c → Cat I' c.
Proof. intros H (n & Hq & HI). exists n. auto. Qed.

Lemma keeps_get_async {T} I (de : json → option T) key : keeps (Cat I) (on_redis (get_async_cached de key)).
Proof. intros c (n & Hq & HI). rewrite (get_async_step de key c n Hq). by exists n. Qed.
Lemma keeps_get_cached {T} I (de : json → option T) key : keeps (Cat I) (on_redis (get_cached de key)).
Proof. intros c (n & Hq & HI). rewrite (get_step de key c n Hq). by exists n. Qed.
Lemma keeps_query_of {A} I (q : mongo → A) : keeps (Cat I) (mongo_query q).
Proof. intros c (n & Hq & HI). rewrite (mongo_query_step q c n Hq). by exists n. Qed.
Lemma keeps_site_get I : keeps (Cat I) (on_site (db_get (D:=D))).
Proof. intros c (n & Hq & HI). rewrite (on_site_same _ c true); [by exists n|]. apply db_get_ok, Hq. Qed.
Lemma keeps_site_query {A} I (q : db → A) : keeps (Cat I) (on_site (db_query (D:=D) q)).
Proof. intros c (n & Hq & HI). rewrite (on_site_same _ c (Some (q (s_db (ct_site c))))); [by exists n|]. apply db_query_ok, Hq. Qed.
Lemma keeps_clock I : keeps (Cat I) (on_redis (D:=D) now_ms).
Proof. intros c (n & Hq & HI). unfold on_redis. rewrite (on_site_same _ c (the_time c)); [by exists n|]. destruct c as [[d [ns t fl lg] us k] m]. done. Qed.

Lemma hoare_invalidate_key I I' key : (∀ n t m, I n t m → I' (r_del n key) t m) →
  hoare (Cat I) (on_redis (invalidate_async key)) (λ _, Cat I').
Proof.
  intros H c (n & Hq & HI). rewrite (invalidate_at_step key c n Hq). exists (r_del n key). split; [by apply (quiet_put c n)|]. by apply H.
Qed.
Lemma keeps_set_async I key j ttl : 0 < ttl ≤ TTL_24_HOURS →
  (∀ n t m, I n t m → I (r_set_px n t key (json_print j) (ttl * 1000)) t m) → keeps (Cat I) (on_redis (set_async_cached key j ttl)).
Proof.
  intros Ht H c (n & Hq & HI). rewrite (set_async_step key j ttl c n Hq (day_ok ttl Ht)). eexists. split; [by apply (quiet_put c n)|]. by apply H.
Qed.
Lemma keeps_set_cached I key j ttl : 0 < ttl ≤ TTL_24_HOURS →
  (∀ n t m, I n t m → I (r_set_px n t key (json_print j) (ttl * 1000)) t m) → keeps (Cat I) (on_redis (set_cached key j ttl)).
Proof.
  intros Ht H c (n & Hq & HI). rewrite (set_step key j ttl c n Hq (day_ok ttl Ht)). eexists. split; [by apply (quiet_put c n)|]. by apply H.
Qed.

(** A transaction that is refused changes nothing. *)
Lemma hoare_mongo_run I I' tx : (∀ n t m m', tx m = Some m' → I n t m → I' n t m') →
  hoare (Cat I) (mongo_run tx) (λ ok, if ok then Cat I' else Cat I).
Proof.
  intros H c (n & Hq & HI). rewrite (mongo_run_step tx c n Hq). destruct (tx (ct_mongo c)) as [m'|] eqn:E; [|by exists n].
  exists n. split; [by destruct Hq|]. by eapply H.
Qed.
End steps.

#[export] Hint Resolve keeps_get_async keeps_get_cached keeps_query_of keeps_site_get keeps_site_query keeps_clock : keeps.

(** ** Requests *)

Inductive catalog_op :=
  | CoAdmin (o : admin_op)
  | CoList
  | CoGrid (q : grid_query)
  | CoMovies (show_type city : option string)
  | CoShow (id : string)
  | CoTick (ms : N).

Section requests.
Context {D : Type} `{!RedisServer D} {HJ : JsonText} {HO : ObjectIds} {HT : ShowText}.

Definition catalog_run (o : catalog_op) : St (catalog D) unit :=
  match o with
  | CoAdmin o => admin_run o ;; mret tt
  | CoList => list_shows ;; mret tt
  | CoGrid q => list_shows_grid q ;; mret tt
  | CoMovies show_type city => get_movies show_type city ;; mret tt
  | CoShow id => get_show_details id ;; mret tt
  | CoTick ms => on_redis (advance ms)
  end.
Definition catalog_history (os : list catalog_op) : St (catalog D) unit := for_each os catalog_run.
End requests.

(** The keys that the administration takes out of the cache. *)
Definition dropped (k : string) : Prop :=
  k = CACHE_SHOWS ∨ k = CACHE_DASHBOARD_GRID ∨ k = cache_schedules_active_key ∨ ∃ id, k = cache_show_key id.

Section effects.
Context {D : Type} `{!RedisServer D} `{!RedisLaws D} {HJ : JsonText} {HO : ObjectIds} {HT : ShowText}.
Implicit Types (I J : D → Z → mongo → Prop).

(** A transaction of the administration. *)
Definition admin_tx (tx : mongo → option mongo) : Prop := ∃ oid event s now,
  tx = create_show_tx oid event (with_created_at now (show_of_request s now)) now ∨
  (∃ created, tx = update_show_tx oid event (with_identity oid created (show_of_request s now)) now) ∨ tx = delete_show_tx oid event now.

(** A change of the shows turns [I] into [J], the invalidation of [CACHE_SHOWS] makes it [I]
    again. *)
Lemma keeps_invalidate_lists I J :
  (∀ n t m, J n t m → I (r_del n CACHE_SHOWS) t m) → (∀ n t m, I n t m → I (r_del n CACHE_DASHBOARD_GRID) t m) →
  hoare (Cat J) (invalidate_lists (D:=D)) (λ _, Cat I).
Proof. intros H1 H2. eapply hoare_bind; [by apply (hoare_invalidate_key J I)|]. intros []. by apply hoare_invalidate_key. Qed.

Lemma keeps_admin I J o :
  (∀ tx n t m m', admin_tx tx → tx m = Some m' → I n t m → J n t m') →
  (∀ k n t m, dropped k → k ≠ CACHE_SHOWS → k ≠ CACHE_DASHBOARD_GRID → J n t m → J (r_del n k) t m) →
  (∀ n t m, J n t m → I (r_del n CACHE_SHOWS) t m) → (∀ n t m, I n t m → I (r_del n CACHE_DASHBOARD_GRID) t m) →
  keeps (Cat I) (admin_run (D:=D) o).
Proof.
  intros Hchange Hk Hs Hg.
  assert (∀ id, hoare (Cat J) (invalidate_show (D:=D) id) (λ _, Cat I)) as Hshow.
  { intros id. eapply hoare_bind; [apply (hoare_invalidate_key J J)|intros []].
    { intros n t m. apply Hk; [right; right; right; by exists id|discriminate..]. }
    eapply hoare_bind; [apply (hoare_invalidate_key J J)|intros []].
    { intros n t m. apply Hk; [right; right; by left|discriminate..]. }
    by apply keeps_invalidate_lists. }
  assert (∀ A tx (e : app_error) (a : A) (inv : St (catalog D) unit), admin_tx tx → hoare (Cat J) inv (λ _, Cat I) →
    keeps (Cat I) (ok ← mongo_run tx; if negb ok then mret (inr e) else inv ;; mret (inl a))) as Hrun.
  { intros A tx e a inv Htx Hinv. eapply hoare_bind; [apply (hoare_mongo_run I J); intros n t m m'; by apply Hchange|].
    intros [|]; simpl; [|apply keeps_ret]. eapply hoare_bind; [exact Hinv|]. intros []. by apply hoare_ret. }
  destruct o as [oid event body|event id body|event id]; simpl; (apply keeps_bind; [|intros; apply keeps_ret]).
  - unfold create_show. destruct (is_empty _); [apply keeps_ret|]. apply keeps_bind; [apply keeps_clock|]. intros now.
    apply Hrun; [exists oid, event, body, now; by left|]. by apply keeps_invalidate_lists.
  - unfold update_show. destruct (parse_object_id id) as [oid|]; [|apply keeps_ret]. apply keeps_bind; [apply keeps_query_of|].
    intros [[[created_at|]|]|]; try apply keeps_ret. apply keeps_bind; [apply keeps_clock|]. intros now.
    apply Hrun; [|done]. exists oid, event, body, now. right. left. by exists created_at.
  - unfold delete_show. destruct (parse_object_id id) as [oid|]; [|apply keeps_ret]. apply keeps_bind; [apply keeps_clock|]. intros now.
    apply Hrun; [|done]. exists oid, event, (form EmptyString), now. by do 2 right.
Qed.

(** *** Readers *)

(** What a reader caches under its key keeps [I]. *)
Definition may_cache I (key : string) (ttl : Z) : Prop := ∀ n t m raw, I n t m → I (r_set_px n t key raw (ttl * 1000)) t m.

Lemma keeps_find I q : keeps (Cat I) (find_documents (D:=D) q).
Proof. apply keeps_or_err, keeps_query_of. Qed.

Definition list_body : St (catalog D) (list show + app_error) :=
  found ←? find_documents (documents active_show);
  let shows := merge_sort newer (omap read_show found) in
  cache_shows CACHE_SHOWS shows TTL_SHOWS ;; mret (inl shows).
Definition grid_body (q : grid_query) : St (catalog D) (grid_response + app_error) :=
  let page := default 1 (gq_page q) in
  let limit := default 30 (gq_limit q) in
  let first := (page =? 1) && (limit =? 30) in
  let skip := grid_skip page limit in
  if negb (skip_ok skip) then mret (inr (internal mongo_error))
  else
    found ←? find_documents (grid_documents (gq_city q) skip (i64 limit));
    let shows := omap read_show found in
    when first (cache_shows (grid_key (gq_city q)) shows TTL_DASHBOARD_GRID) ;;
    mret (inl (GridResponse shows (Z.of_nat (length shows) =? limit))).
Definition movies_body (show_type city : option string) : St (catalog D) (list show + app_error) :=
  conn ← on_site db_get;
  _ ←? check conn (internal mongo_error);
  now ← on_redis now_ms;
  active_show_ids ←? or_err (internal mongo_error) (on_site (db_query (active_show_ids (default EmptyString city) now)));
  match omap parse_object_id active_show_ids with
  | [] => mret (inl [])
  | object_ids =>
      found ←? find_documents (movie_documents show_type object_ids);
      let movies := merge_sort newer (omap read_show found) in
      on_redis (set_cached (cache_movies_key show_type city) (shows_json movies) TTL_MOVIES_ALL) ;;
      mret (inl movies)
  end.

Lemma day_shows : 0 < TTL_SHOWS ≤ TTL_24_HOURS. Proof. by vm_compute. Qed.
Lemma day_grid : 0 < TTL_DASHBOARD_GRID ≤ TTL_24_HOURS. Proof. by vm_compute. Qed.
Lemma day_movies : 0 < TTL_MOVIES_ALL ≤ TTL_24_HOURS. Proof. by vm_compute. Qed.

Lemma keeps_list_body I : may_cache I CACHE_SHOWS TTL_SHOWS → keeps (Cat I) list_body.
Proof.
  intros H. apply keeps_and_then; [apply keeps_find|]. intros found. apply keeps_bind; [|intros; apply keeps_ret].
  apply keeps_set_async; [apply day_shows|]. intros n t m. apply H.
Qed.
Lemma keeps_grid_body I q : ((default 1 (gq_page q) =? 1) && (default 30 (gq_limit q) =? 30) = true → may_cache I (grid_key (gq_city q)) TTL_DASHBOARD_GRID) →
  keeps (Cat I) (grid_body q).
Proof.
  intros H. unfold grid_body. destruct (negb _); [apply keeps_ret|]. apply keeps_and_then; [apply keeps_find|]. intros found.
  apply keeps_bind; [|intros; apply keeps_ret]. destruct (_ && _); [|apply keeps_ret].
  apply keeps_set_async; [apply day_grid|]. intros n t m. by apply H.
Qed.
Lemma keeps_movies_body I show_type city : may_cache I (cache_movies_key show_type city) TTL_MOVIES_ALL → keeps (Cat I) (movies_body show_type city).
Proof.
  intros H. unfold movies_body. apply keeps_bind; [apply keeps_site_get|]. intros conn. apply keeps_and_then; [apply keeps_check|]. intros _.
  apply keeps_bind; [apply keeps_clock|]. intros now. apply keeps_and_then; [apply keeps_or_err, keeps_site_query|]. intros ids.
  destruct (omap _ _) as [|i l]; [apply keeps_ret|]. apply keeps_and_then; [apply keeps_find|]. intros found.
  apply keeps_bind; [|intros; apply keeps_ret]. apply keeps_set_cached; [apply day_movies|]. intros n t m. apply H.
Qed.

Lemma keeps_show_details I id : keeps (Cat I) (get_show_details (D:=D) id).
Proof.
  unfold get_show_details. destruct (parse_object_id id) as [oid|]; [|apply keeps_ret]. apply keeps_and_then; [|intros; apply keeps_ret].
  apply keeps_and_then; [apply keeps_or_err, keeps_query_of|]. intros found. apply keeps_ret.
Qed.

Lemma keeps_tick I ms : (∀ n t m, I n t m → I n (t + Z.of_N ms) m) → keeps (Cat I) (on_redis (D:=D) (advance ms)).
Proof. intros H c (n & [H1 H2] & HI). exists n. destruct c as [[d [ns t fl lg] us k] m]. split; [done|]. by apply H. Qed.
End effects.

(** ** The list of all shows *)

(** What the libraries do with shows: a query finds the documents there are, and shows that
    were read from documents come back from JSON as they were written. *)
Class ShowLaws (HT : ShowText) (HJ : JsonText) := {
  natural_perm g : natural g ≡ₚ map_to_list g;
  creation_perm l : by_creation l ≡ₚ l;
  shows_back l : Forall (λ s, ∃ d, read_show d = Some s) l → ∃ l', (json_parse (json_print (shows_json l)) ≫= de_shows) = Some l' ∧
    map show_json l' = map show_json l ∧ map sh_created_at l' = map sh_created_at l
}.

(** The shows that are not deleted, of the documents that can be read. *)
Definition active_shows {HT : ShowText} (m : mongo) : list show :=
  omap read_show (filter (λ d, active_show d = true) (map snd (map_to_list (mg_shows m)))).

Record lists_shows {HT : ShowText} (m : mongo) (l : list show) : Prop := ListsShows {
  sl_shows : map show_json l ≡ₚ map show_json (active_shows m);
  sl_order : StronglySorted newer l
}.

#[export] Instance newer_trans : Transitive newer.
Proof. intros a b c. unfold newer. destruct (sh_created_at a), (sh_created_at b), (sh_created_at c); try done. lia. Qed.
#[export] Instance newer_total : Total newer.
Proof. intros a b. unfold newer. destruct (sh_created_at a), (sh_created_at b); try (by left); try (by right). lia. Qed.

Lemma newer_same l l' : map sh_created_at l' = map sh_created_at l → StronglySorted newer l → StronglySorted newer l'.
Proof.
  intros E H. revert l' E. induction H as [|a l Hl IH Ha]; intros [|b l'] E; try done; [constructor|]. simpl in E. injection E as Eb E.
  constructor; [by apply IH|]. clear Hl IH. revert l' E. induction Ha as [|x l Hx Ha IH]; intros [|y l'] E; try done.
  simpl in E. injection E as Ey E. constructor; [|by apply IH]. unfold newer in *. by rewrite Eb, Ey.
Qed.

Section all_shows.
Context {D : Type} `{!RedisServer D} `{!RedisLaws D} {HJ : JsonText} {HO : ObjectIds} {HT : ShowText} {HL : ShowLaws HT HJ}.

Definition cache_right (n : D) (t : Z) (m : mongo) : Prop := ∀ l, looked_up de_shows CACHE_SHOWS t n = Some l → lists_shows m l.

Lemma found_lists m : lists_shows m (merge_sort newer (omap read_show (documents active_show m))).
Proof.
  split; [|apply (StronglySorted_merge_sort newer)]. rewrite merge_sort_Permutation. unfold active_shows, documents. by rewrite natural_perm.
Qed.
Lemma found_back m l : let found := merge_sort newer (omap read_show (documents active_show m)) in
  (json_parse (json_print (shows_json found)) ≫= de_shows) = Some l → lists_shows m l.
Proof.
  intros found. destruct (found_lists m) as [H1 H2]. fold found in H1, H2. destruct (shows_back found) as (l' & -> & Hj & Hc).
  { unfold found. rewrite merge_sort_Permutation. apply Forall_forall. intros s Hs. apply list_elem_of_omap in Hs as (d & _ & Hd). by exists d. }
  intros [= <-]. split; [by rewrite Hj|by apply (newer_same found)].
Qed.

Lemma cache_right_time n t t' m : t ≤ t' → cache_right n t m → cache_right n t' m.
Proof.
  intros Ht H l. unfold looked_up. destruct (get_expire n t t' CACHE_SHOWS Ht) as [->| ->]; [|done]. apply H.
Qed.
Lemma cache_right_other n t m key raw ttl : key ≠ CACHE_SHOWS → cache_right n t m → cache_right (r_set_px n t key raw ttl) t m.
Proof. intros Hk H l. unfold looked_up. rewrite get_set_px, decide_False by done. apply H. Qed.
Lemma cache_right_del n t m key : key ≠ CACHE_SHOWS → cache_right n t m → cache_right (r_del n key) t m.
Proof. intros Hk H l. unfold looked_up. rewrite get_del, decide_False by done. apply H. Qed.
Lemma cache_right_none n t m : cache_right (r_del n CACHE_SHOWS) t m.
Proof. intros l. unfold looked_up. by rewrite get_del, decide_True. Qed.

Lemma grid_key_ne city : grid_key city ≠ CACHE_SHOWS.
Proof. unfold grid_key. by destruct (grid_city city). Qed.
Lemma movies_key_ne show_type city : cache_movies_key show_type city ≠ CACHE_SHOWS.
Proof. unfold cache_movies_key. destruct show_type as [st|]; [destruct (negb _)|]; by destruct (city_filter city). Qed.

(** The list, and nothing but the cache changes. *)
Lemma list_shows_right m : hoare (λ c, Cat cache_right c ∧ ct_mongo c = m) (list_shows (D:=D))
  (λ r c, (∃ l, r = inl l ∧ lists_shows m l) ∧ Cat cache_right c ∧ ct_mongo c = m).
Proof.
  intros c [(n & Hq & Hn) <-]. unfold list_shows, cached_shows, cache_shows. rewrite (bind_step _ _ _ _ _ (get_async_step de_shows CACHE_SHOWS c n Hq)).
  destruct (looked_up de_shows CACHE_SHOWS (the_time c) n) as [l|] eqn:Hl; [split; [exists l; auto|]; split; [by exists n|done]|].
  rewrite (and_then_step _ _ c (documents active_show (ct_mongo c)) c) by (apply or_err_step, (mongo_query_step _ c n Hq)).
  rewrite (bind_step _ _ _ _ _ (set_async_step _ _ _ c n Hq (day_ok _ day_shows))). split; [eexists; split; [done|apply found_lists]|].
  split; [|done]. eexists. split; [by apply (quiet_put c n)|]. intros l. unfold looked_up. simpl. rewrite get_set_px by done. rewrite decide_True by done.
  destruct (_ <? _); [|done]. apply found_back.
Qed.

Lemma run_right o : keeps (Cat cache_right) (catalog_run (D:=D) o).
Proof.
  destruct o as [o| |q|show_type city|id|ms]; simpl; try (apply keeps_bind; [|intros; apply keeps_ret]).
  - apply (keeps_admin _ (λ _ _ _, True)); try done.
    + intros n t m _. apply cache_right_none.
    + intros n t m. by apply cache_right_del.
  - intros c Hc. by destruct (list_shows_right (ct_mongo c) c (conj Hc eq_refl)) as (_ & ? & _).
  - apply keeps_bind; [destruct (_ && _); [apply keeps_get_async|apply keeps_ret]|]. intros [l|]; [apply keeps_ret|].
    apply (keeps_grid_body _ q). intros _ n t m raw. apply cache_right_other, grid_key_ne.
  - apply keeps_bind; [apply keeps_get_cached|]. intros [l|]; [apply keeps_ret|]. apply (keeps_movies_body _ show_type city).
    intros n t m raw. apply cache_right_other, movies_key_ne.
  - apply keeps_show_details.
  - apply keeps_tick. intros n t m. apply cache_right_time. lia.
Qed.

(** C13: the list of all shows follows the administration.  Without faults and from an empty
    entry, after any creations, updates and removals of shows and public reads, one after the
    other, and with time passing, the list has, in the JSON that the public gets, the shows of the database that are
    not deleted, each once, those that were created last first. *)
Theorem list_of_shows_follows_database os c n :
  quiet c n → (∀ t, r_get n t CACHE_SHOWS = None) →
  let '(_, c1) := catalog_history os c in
  let '(r, c2) := list_shows c1 in
  ∃ l, r = inl l ∧ map show_json l ≡ₚ map show_json (active_shows (ct_mongo c1)) ∧ StronglySorted newer l ∧ ct_mongo c2 = ct_mongo c1.
Proof.
  intros Hq Hn. assert (Cat cache_right c) as Hc.
  { exists n. split; [done|]. intros l. unfold looked_up. by rewrite Hn. }
  pose proof (keeps_for_each (Cat cache_right) os catalog_run (λ o _, run_right o) c Hc) as H1.
  change (for_each os catalog_run) with (catalog_history (D:=D) os) in H1. destruct (catalog_history os c) as [u c1]. simpl in H1.
  pose proof (list_shows_right (ct_mongo c1) c1 (conj H1 eq_refl)) as H2. destruct (list_shows c1) as [r c2].
  simpl in H2. destruct H2 as ((l & -> & [H2 H3]) & _ & H4). by exists l.
Qed.
End all_shows.

(** ** An instance: shows with an identifier, a title and a time of creation *)

Definition titled (id : option string) (title : string) (created : option Z) : show :=
  Show id MMovie title None [] None None None None None None None [] None None None ComingSoon None None None None None None None
    None None None None None None created None.
Definition plain_opt {A} (f : A → json) (o : option A) : json := match o with Some a => f a | None => JNull end.

#[export] Instance plain_shows : ShowText := {
  read_show d :=
    match assoc "title" d with
    | Some (BString title) =>
        Some (titled (match assoc "_id" d with Some (BObjectId i) => Some i | _ => None end) title
          (match assoc "created_at" d with Some (BDateTime t) => Some t | _ => None end))
    | _ => None
    end;
  show_json s := JArr [plain_opt JStr (sh_id s); JStr (sh_title s); plain_opt JNum (sh_created_at s)];
  de_show j :=
    match j with
    | JArr [id; JStr title; created] =>
        Some (titled (as_str id) title (match created with JNum t => Some t | _ => None end))
    | _ => None
    end;
  natural := map_to_list;
  by_weight := id;
  by_creation := id;
  title_or_tag s d := field_is "title" s d;
  regex_ok _ := true;
  skip_ok n := bool_decide (0 ≤ n < 2 ^ 63)
}.

Lemma titled_back s : de_show (show_json s) = Some (titled (sh_id s) (sh_title s) (sh_created_at s)).
Proof. destruct s as [id ? title]. simpl. by destruct id, sh_created_at. Qed.

#[export] Instance plain_shows_laws : ShowLaws plain_shows mem_json.
Proof.
  split; [done|done|]. intros l _. exists (map (λ s, titled (sh_id s) (sh_title s) (sh_created_at s)) l). split_and!.
  - assert (json_parse (json_print (shows_json l)) = Some (shows_json l)) as -> by apply json_text_roundtrip.
    unfold de_shows, shows_json. cbn [mbind option_bind de_vec]. apply mapM_Some. apply Forall2_fmap_l, Forall2_fmap_r, Forall_Forall2_diag.
    apply Forall_forall. intros s _. apply titled_back.
  - rewrite map_map. by apply map_ext.
  - rewrite map_map. by apply map_ext.
Qed.

(** Three shows, one of them removed, one updated, with reads between. *)
Definition busy_catalogue : list catalog_op :=
  [CoAdmin (AdCreate "s1" "e5" (form "First")); CoList; CoTick 1000; CoAdmin (AdCreate "s2" "e6" (form "Second")); CoGrid (GridQuery None None None);
   CoAdmin (AdDelete "e7" "s0"); CoMovies (Some "Movie") None; CoShow "s1"; CoTick 2000; CoAdmin (AdUpdate "e8" "s1" (form "Better"))].

Lemma list_of_shows_follows_database_witness :
  let '(_, c1) := catalog_history busy_catalogue (administration catalogue) in
  let '(r, c2) := list_shows c1 in
  (∃ l, r = inl l ∧ map show_json l ≡ₚ map show_json (active_shows (ct_mongo c1)) ∧ StronglySorted newer l ∧ ct_mongo c2 = ct_mongo c1) ∧
  match r with inl l => map sh_title l = ["Second"; "Better"] | inr _ => False end.
Proof.
  assert (quiet (administration catalogue) mem_empty) as Hq by (split; reflexivity).
  pose proof (list_of_shows_follows_database (HL := plain_shows_laws) busy_catalogue (administration catalogue) mem_empty Hq (λ t, eq_refl)) as H.
  destruct (catalog_history busy_catalogue (administration catalogue)) as [u c1] eqn:E1. destruct (list_shows c1) as [r c2] eqn:E2.
  split; [exact H|]. assert (r = (list_shows (catalog_history busy_catalogue (administration catalogue)).2).1) as -> by (rewrite E1; simpl; by rewrite E2).
  vm_compute. reflexivity.
Defined.
