(* ===== verification/CatalogueStale.v ===== *)
(** * CatalogueStale: the lists that do not follow the administration

    The entry of a city and the entries of the movies are under keys that no change of a
    show takes out of the cache. *)

From Stdlib Require Import Sorted.
From stdpp Require Import gmap sorting.
From S2P Require Import Prelude Text Keys Redis RedisMem SeatLock HttpCache Events Db HttpPayments ShowModel Mongo Shows SearchIndex.
From S2P Require Import SearchProps SearchBlocks PublicSchedules PublicLists Catalogue CatalogueProps.

#[local] Open Scope string_scope.
#[local] Open Scope list_scope.
#[local] Open Scope Z_scope.

Section stale.
Context {D : Type} `{!RedisServer D} `{!RedisLaws D} {HJ : JsonText} {HO : ObjectIds} {HT : ShowText}.

(** An entry, until it expires. *)
Definition kept (key raw : string) (dl : Z) (n : D) (t : Z) (m : mongo) : Prop := ∀ t', t ≤ t' → t' < dl → r_get n t' key = Some raw.
Definition past (dl : Z) (n : D) (t : Z) (m : mongo) : Prop := dl ≤ t.

Lemma past_kept key raw dl c : Cat (past dl) c → Cat (kept key raw dl) c.
Proof. apply cat_weaken. unfold past, kept. intros n H t' H1 H2. lia. Qed.

Lemma kept_set key raw dl k ttl : k ≠ key → may_cache (kept key raw dl) k ttl.
Proof. intros Hk n t m raw' H t' H1 H2. rewrite get_set_px, decide_False by done. by apply H. Qed.

(** An entry that was just written. *)
Lemma kept_fresh key raw c n ttl : quiet c n →
  Cat (kept key raw (the_time c + ttl * 1000)) (put c (r_set_px n (the_time c) key raw (ttl * 1000))).
Proof.
  intros Hq. eexists. split; [by apply (quiet_put c n)|]. intros t' H1 H2. simpl in H1.
  rewrite get_set_px, decide_True by done. by rewrite (proj2 (Z.ltb_lt _ _)).
Qed.
Context (key raw : string) (dl : Z) (l : list show).
Hypothesis Hraw : (json_parse raw ≫= de_shows) = Some l.

(** A reader writes under its key when it finds nothing there. *)
Lemma keeps_reader {A} k ttl (get : St (catalog D) (option (list show))) (body : St (catalog D) A) (hit : list show → A) :
  (∀ c n, quiet c n → get c = (looked_up de_shows k (the_time c) n, c)) →
  (∀ I, may_cache I k ttl → keeps (Cat I) body) →
  keeps (Cat (kept key raw dl)) (h ← get; match h with Some l => mret (hit l) | None => body end).
Proof.
  intros Hget Hbody c (n & Hq & Hn). rewrite (bind_step _ _ _ _ _ (Hget c n Hq)).
  destruct (looked_up de_shows k (the_time c) n) as [l'|] eqn:Hl; [by exists n|].
  destruct (decide (k = key)) as [->|Hne].
  - destruct (decide (dl ≤ the_time c)) as [Hdl|Hdl].
    + apply past_kept, (Hbody (past dl)); [by intros ? ? ? ? H|]. by exists n.
    + assert (looked_up de_shows key (the_time c) n = Some l) as H by (unfold looked_up; rewrite Hn by lia; exact Hraw). congruence.
  - apply (Hbody (kept key raw dl)); [by apply kept_set|]. by exists n.
Qed.

Lemma run_kept o : ¬ dropped key → keeps (Cat (kept key raw dl)) (catalog_run o).
Proof.
  intros Hkey. assert (∀ k n t m, dropped k → kept key raw dl n t m → kept key raw dl (r_del n k) t m) as Hdel.
  { intros k n t m Hk H t' H1 H2. rewrite get_del, decide_False by (by intros ->). by apply H. }
  destruct o as [o| |q|show_type city|id|ms]; simpl; try (apply keeps_bind; [|intros; apply keeps_ret]).
  - apply (keeps_admin _ (kept key raw dl)); [done|intros k n t m Hk _ _; by apply Hdel| |]; intros n t m; apply Hdel; [by left|right; by left].
  - apply (keeps_reader CACHE_SHOWS TTL_SHOWS _ list_body inl); [intros c n; apply get_async_step|]. apply keeps_list_body.
  - unfold list_shows_grid. destruct (_ && _) eqn:E.
    + apply (keeps_reader (grid_key (gq_city q)) TTL_DASHBOARD_GRID _ _ (λ l, inl (GridResponse l true))); [intros c n; apply get_async_step|].
      intros I HI. pose proof (keeps_grid_body I q (λ _, HI)) as H. unfold grid_body in H. by rewrite E in H.
    + apply keeps_bind; [apply keeps_ret|]. intros [l'|]; [apply keeps_ret|].
      pose proof (keeps_grid_body (kept key raw dl) q) as H. unfold grid_body in H. rewrite E in H. by apply H.
  - apply (keeps_reader (cache_movies_key show_type city) TTL_MOVIES_ALL _ (movies_body show_type city) inl); [intros c n; apply get_step|].
    intros I HI. by apply keeps_movies_body.
  - apply keeps_show_details.
  - apply keeps_tick. intros n t m H t' H1 H2. apply H; lia.
Qed.

Lemma history_kept os : ¬ dropped key → keeps (Cat (kept key raw dl)) (catalog_history os).
Proof. intros Hkey. apply keeps_for_each. intros o _. by apply run_kept. Qed.

End stale.

Section theorems.
Context {D : Type} `{!RedisServer D} `{!RedisLaws D} {HJ : JsonText} {HO : ObjectIds} {HT : ShowText} {HL : ShowLaws HT HJ}.

Lemma grid_key_kept city x : grid_city city = Some x → ¬ dropped (grid_key city).
Proof. unfold grid_key. intros ->. by intros [|[|[|[id ?]]]]. Qed.
Lemma movies_key_kept show_type city : ¬ dropped (cache_movies_key show_type city).
Proof.
  unfold cache_movies_key. destruct show_type as [st|]; [destruct (negb _)|]; destruct (city_filter city); by intros [|[|[|[id ?]]]].
Qed.

(** The first page of a city does not follow the administration.  Once a request has
    cached it, the page shows the same shows until the entry expires a day later, whatever
    shows are created, updated and removed meanwhile, and whatever the public reads; and it
    then says that there are more, even when there are none. *)
Theorem city_page_outlives_its_shows city x os c n :
  grid_city (Some city) = Some x → skip_ok 0 = true → quiet c n → (∀ t, r_get n t (grid_key (Some city)) = None) →
  let q := GridQuery None None (Some city) in
  let '(r, c1) := list_shows_grid q c in
  let '(_, c2) := catalog_history os c1 in
  let '(r2, _) := list_shows_grid q c2 in
  the_time c2 < the_time c + TTL_DASHBOARD_GRID * 1000 →
  ∃ page page2, r = inl page ∧ r2 = inl page2 ∧ map show_json (gr_shows page2) = map show_json (gr_shows page) ∧ gr_has_more page2 = true.
Proof.
  intros Hx Hs Hq Hn q. set (key := grid_key (Some city)) in *. set (found := omap read_show (grid_documents (Some city) 0 30 (ct_mongo c))).
  set (dl := the_time c + TTL_DASHBOARD_GRID * 1000).
  assert (list_shows_grid q c = (inl (GridResponse found (Z.of_nat (length found) =? 30)),
    put c (r_set_px n (the_time c) key (json_print (shows_json found)) (TTL_DASHBOARD_GRID * 1000)))) as ->.
  { unfold list_shows_grid, cached_shows, cache_shows. cbn [gq_page gq_limit gq_city q default from_option id].
    change ((1 =? 1) && (30 =? 30)) with true. cbv iota. rewrite (bind_step _ _ _ _ _ (get_async_step de_shows key c n Hq)).
    unfold looked_up. rewrite Hn. cbn [mbind option_bind]. change (grid_skip 1 30) with 0. change (i64 30) with 30. rewrite Hs. cbn [negb].
    rewrite (and_then_step _ _ c (grid_documents (Some city) 0 30 (ct_mongo c)) c) by (apply or_err_step, (mongo_query_step _ c n Hq)).
    fold found. cbn [when]. by rewrite (bind_step _ _ _ _ _ (set_async_step _ _ _ c n Hq (day_ok _ day_grid))). }
  destruct (shows_back found) as (l & Hl & Hj & _).
  { apply Forall_forall. intros s (d & _ & Hd)%list_elem_of_omap. by exists d. }
  pose proof (kept_fresh key (json_print (shows_json found)) c n TTL_DASHBOARD_GRID Hq) as H1.
  pose proof (history_kept key _ dl l Hl os (grid_key_kept _ _ Hx) _ H1) as H2.
  destruct (catalog_history os _) as [u c2]. simpl in H2. destruct H2 as (n2 & Hq2 & H2).
  destruct (list_shows_grid q c2) as [r2 c3] eqn:E. intros Hdl. eexists _, (GridResponse l true). split; [done|].
  assert (list_shows_grid q c2 = (inl (GridResponse l true), c2)) as E2.
  { unfold list_shows_grid, cached_shows. cbn [gq_page gq_limit gq_city q default from_option id].
    change ((1 =? 1) && (30 =? 30)) with true. cbv iota. rewrite (bind_step _ _ _ _ _ (get_async_step de_shows key c2 n2 Hq2)).
    assert (looked_up de_shows key (the_time c2) n2 = Some l) as -> by (unfold looked_up; rewrite H2 by (done || lia); exact Hl). done. }
  rewrite E2 in E. injection E as <- _. split_and!; [done|exact Hj|done].
Qed.
(** *** Movies *)

Lemma no_such_movies st ids m : st ≠ "All" → map_Forall (λ _ d, field_is "show_type" st d = false) (mg_shows m) → movie_documents (Some st) ids m = [].
Proof.
  intros Hst Hm. unfold movie_documents. destruct (filter _ _) as [|kd l] eqn:E; [done|].
  assert (kd ∈ kd :: l) as Hkd by left. rewrite <-E in Hkd. apply list_elem_of_filter in Hkd as [Hp Hkd]. exfalso.
  rewrite natural_perm in Hkd. destruct kd as [k d]. apply elem_of_map_to_list in Hkd. specialize (Hm _ _ Hkd). simpl in *.
  rewrite Hm, (bool_decide_false (st = "All")), andb_false_r in Hp by done. discriminate.
Qed.

Lemma movies_found (show_type city : option string) c n : quiet c n →
  looked_up de_shows (cache_movies_key show_type city) (the_time c) n = None →
  let ids := omap parse_object_id (active_show_ids (default EmptyString city) (the_time c) (s_db (ct_site c))) in
  ids ≠ [] →
  let movies := merge_sort newer (omap read_show (movie_documents show_type ids (ct_mongo c))) in
  get_movies show_type city c =
    (inl movies, put c (r_set_px n (the_time c) (cache_movies_key show_type city) (json_print (shows_json movies)) (TTL_MOVIES_ALL * 1000))).
Proof.
  intros Hq Hn ids Hids movies. unfold get_movies. rewrite (bind_step _ _ _ _ _ (get_step de_shows _ c n Hq)). rewrite Hn.
  rewrite (bind_step _ _ _ true c) by (by apply on_site_same, db_get_ok, Hq). rewrite (and_then_step _ _ c tt c) by done.
  rewrite (bind_step _ _ _ (the_time c) c) by (by destruct c as [[? []] ?]).
  rewrite (and_then_step _ _ c (active_show_ids (default EmptyString city) (the_time c) (s_db (ct_site c))) c)
    by (apply or_err_step, on_site_same, db_query_ok, Hq).
  fold ids. destruct ids as [|i l] eqn:Hi; [done|].
  rewrite (and_then_step _ _ c (movie_documents show_type ids (ct_mongo c)) c) by (subst ids; rewrite Hi; apply or_err_step, (mongo_query_step _ c n Hq)).
  cbv zeta. rewrite Hi. fold movies. by rewrite (bind_step _ _ _ _ _ (set_step _ _ _ c n Hq (day_ok _ day_movies))).
Qed.

(** One request empties the list of all movies for a day.  The key of the cache does
    not tell [all] from [All], and the query does: a request for the movies of type [all], or
    of another spelling, finds none and caches that under the key of all movies of the city.
    From then on, until the entry expires, a request for all of them answers that there are
    none, whatever is administered and read meanwhile. *)
Theorem lower_case_all_empties_movies st city os c n :
  eq_ignore_ascii_case st "All" = true → st ≠ "All" →
  map_Forall (λ _ d, field_is "show_type" st d = false) (mg_shows (ct_mongo c)) →
  quiet c n → (∀ t, r_get n t (cache_movies_key None city) = None) →
  omap parse_object_id (active_show_ids (default EmptyString city) (the_time c) (s_db (ct_site c))) ≠ [] →
  let '(_, c1) := get_movies (Some st) city c in
  let '(_, c2) := catalog_history os c1 in
  let '(r, _) := get_movies None city c2 in
  the_time c2 < the_time c + TTL_MOVIES_ALL * 1000 → r = inl [].
Proof.
  intros Hst Hne Hm Hq Hn Hids. assert (cache_movies_key (Some st) city = cache_movies_key None city) as Hkey.
  { unfold cache_movies_key. by rewrite Hst. }
  rewrite (movies_found (Some st) city c n Hq); [|unfold looked_up; by rewrite Hkey, Hn|done]. rewrite no_such_movies, Hkey by done.
  change (merge_sort newer (omap read_show [])) with ([] : list show).
  destruct (shows_back []) as (l & Hl & Hj & _); [constructor|]. destruct l as [|]; [|done].
  set (key := cache_movies_key None city) in *. pose proof (kept_fresh key (json_print (shows_json [])) c n TTL_MOVIES_ALL Hq) as H1.
  pose proof (history_kept key _ _ [] Hl os (movies_key_kept _ _) _ H1) as H2.
  destruct (catalog_history os _) as [u c2]. simpl in H2. destruct H2 as (n2 & Hq2 & H2).
  destruct (get_movies None city c2) as [r c3] eqn:E. intros Hdl. unfold get_movies in E.
  rewrite (bind_step _ _ _ _ _ (get_step de_shows key c2 n2 Hq2)) in E.
  assert (looked_up de_shows key (the_time c2) n2 = Some []) as Hl2 by (unfold looked_up; rewrite H2 by (done || lia); exact Hl).
  rewrite Hl2 in E. by injection E as <- _.
Qed.
End theorems.

(** A page of a city, of which the show is then removed. *)
Lemma city_page_outlives_its_shows_witness :
  let q := GridQuery None None (Some "Pune") in
  let '(r, c1) := list_shows_grid q (administration catalogue) in
  let '(_, c2) := catalog_history [CoAdmin (AdDelete "e5" "s0"); CoTick 80000000] c1 in
  let '(r2, _) := list_shows_grid q c2 in
  the_time c2 < the_time (administration catalogue) + TTL_DASHBOARD_GRID * 1000 →
  ∃ page page2, r = inl page ∧ r2 = inl page2 ∧ map show_json (gr_shows page2) = map show_json (gr_shows page) ∧ gr_has_more page2 = true.
Proof.
  assert (quiet (administration catalogue) mem_empty) as Hq by (split; reflexivity).
  pose proof (city_page_outlives_its_shows (HL := plain_shows_laws) "Pune" "Pune" [CoAdmin (AdDelete "e5" "s0"); CoTick 80000000] (administration catalogue)
    mem_empty eq_refl eq_refl Hq (λ t, eq_refl)) as H.
  exact H.
Defined.

(** A film that is on tomorrow. *)
Definition on_tomorrow : catalog mem_redis :=
  Catalog (Site (with_schedules <[1 := Schedule 1 "s0" Movie None 86405000 5000 Scheduled 0 None None None (Some "Pune") None 0 Evening 90005000]> no_rows)
    (mem_world 1 5000) (λ k, Z.of_nat k) 0) catalogue.

Example all_movies_tomorrow : (get_movies None None on_tomorrow).1 = inl [titled None "Old" None].
Proof. vm_compute. reflexivity. Qed.

Lemma lower_case_all_empties_movies_witness :
  let '(_, c1) := get_movies (Some "all") None on_tomorrow in
  let '(_, c2) := catalog_history [CoMovies None None; CoAdmin (AdCreate "s1" "e5" (form "First"))] c1 in
  let '(r, _) := get_movies None None c2 in
  the_time c2 < the_time on_tomorrow + TTL_MOVIES_ALL * 1000 → r = inl [].
Proof.
  assert (quiet on_tomorrow mem_empty) as Hq by (split; reflexivity).
  assert (map_Forall (λ _ d, field_is "show_type" "all" d = false) (mg_shows (ct_mongo on_tomorrow))) as Hm by (by apply map_Forall_singleton).
  pose proof (lower_case_all_empties_movies (HL := plain_shows_laws) "all" None [CoMovies None None; CoAdmin (AdCreate "s1" "e5" (form "First"))] on_tomorrow
    mem_empty eq_refl ltac:(discriminate) Hm Hq (λ t, eq_refl) ltac:(discriminate)) as H.
  exact H.
Defined.

(** * The searches of the administration *)

(** ** Ranks *)

Lemma rank_none ids i : i ∉ ids → rank ids i = None.
Proof. induction ids as [|j ids IH]; [done|]. intros [H1 H2]%not_elem_of_cons. simpl. rewrite IH by done. by rewrite bool_decide_false. Qed.
Lemma rank_some ids i : i ∈ ids → ∃ n, rank ids i = Some n.
Proof.
  induction 1 as [i ids|i j ids _ [n IH]]; simpl; [|rewrite IH; by eexists]. rewrite bool_decide_true by done.
  destruct (rank ids i) as [n|]; by eexists.
Qed.
Lemma rank_inj ids i j n : NoDup ids → rank ids i = Some n → rank ids j = Some n → i = j.
Proof.
  intros Hnd. revert n. induction Hnd as [|x ids Hx _ IH]; intros n; [done|]. simpl.
  destruct (rank ids i) as [a|] eqn:Hi, (rank ids j) as [b|] eqn:Hj.
  - intros [= <-] [= E]. apply (IH a); [done|]. by rewrite E.
  - intros [= <-]. by case_bool_decide.
  - case_bool_decide; [|done]. by intros [= <-].
  - do 2 (case_bool_decide; [|done]). by subst.
Qed.

#[export] Instance ranked_trans ids : Transitive (ranked ids).
Proof. intros a b c. unfold ranked. destruct (rank ids a.1), (rank ids b.1), (rank ids c.1); try done. lia. Qed.
#[export] Instance ranked_total ids : Total (ranked ids).
Proof. intros a b. unfold ranked. destruct (rank ids a.1), (rank ids b.1); try (by left); try (by right). lia. Qed.

Lemma ranked_cons i ids a b : i ≠ a.1 → i ≠ b.1 → ranked ids a b → ranked (i :: ids) a b.
Proof.
  intros Ha Hb. unfold ranked. simpl. rewrite !(bool_decide_false (i = _)) by done.
  destruct (rank ids a.1), (rank ids b.1); try done. lia.
Qed.

(** What is taken from identifiers one by one is in their order. *)
Lemma ranked_order ids (f : string → option (string * json)) : NoDup ids → (∀ i x, f i = Some x → x.1 = i) → StronglySorted (ranked ids) (omap f ids).
Proof.
  intros Hnd Hf. induction Hnd as [|i ids Hi _ IH]; [constructor|].
  assert (∀ x, x ∈ omap f ids → x.1 ∈ ids) as Hin by (intros x (j & Hj & Hx)%list_elem_of_omap; by rewrite (Hf j x Hx)).
  assert (StronglySorted (ranked (i :: ids)) (omap f ids)) as H.
  { assert (∀ x, x ∈ omap f ids → i ≠ x.1) as Hne by (intros x Hx%Hin; congruence). revert IH Hne. generalize (omap f ids). intros l.
    induction 1 as [|x l _ IH Hx]; intros Hne; [constructor|]. constructor; [apply IH; intros y Hy; apply Hne; by right|].
    rewrite Forall_forall in *. intros y Hy. apply ranked_cons; [apply Hne; by left|apply Hne; by right|by apply Hx]. }
  simpl. destruct (f i) as [x|] eqn:Hx; [|done]. constructor; [done|]. apply Forall_forall. intros y Hy%Hin. unfold ranked. rewrite (Hf i x Hx). simpl.
  rewrite (rank_none ids i) by done. rewrite bool_decide_true by done. destruct (rank_some ids y.1 Hy) as [n ->]. lia.
Qed.

(** *** The answer *)

Section search.
Context {D : Type} `{!RedisServer D} `{!RedisLaws D} {HJ : JsonText} {HO : ObjectIds} {HT : ShowText} {HL : ShowLaws HT HJ}.

(** A show as it is listed, when it is active, of the type asked for, and can be read. *)
Definition entry_of (show_type : option string) (m : mongo) (i : string) : option (string * json) :=
  d ← mg_shows m !! i;
  if active_show d && match show_type with Some st => field_is "show_type" st d | None => true end
  then (λ s, (i, show_value i s)) <$> read_show d else None.

Definition rows_asked (show_type search : option string) (ids : list string) (m : mongo) : list (string * document) :=
  filter (λ kd, admin_match show_type search (Some ids) kd = true) (natural (mg_shows m)).

Lemma rows_asked_elem show_type search ids m i d : (i, d) ∈ rows_asked show_type search ids m ↔
  i ∈ ids ∧ mg_shows m !! i = Some d ∧ active_show d && match show_type with Some st => field_is "show_type" st d | None => true end = true.
Proof.
  unfold rows_asked. rewrite list_elem_of_filter, natural_perm, elem_of_map_to_list. unfold admin_match. simpl.
  rewrite andb_true_iff, bool_decide_eq_true. tauto.
Qed.
Lemma rows_asked_keys show_type search ids m : NoDup (map fst (rows_asked show_type search ids m)).
Proof.
  assert (NoDup (map fst (natural (mg_shows m)))) as H by (rewrite natural_perm; apply NoDup_fst_map_to_list).
  unfold rows_asked. revert H. generalize (natural (mg_shows m)). induction l as [|x l IH]; simpl; [done|]. intros [H1 H2]%NoDup_cons.
  rewrite filter_cons. case_decide; [|by apply IH]. simpl. constructor; [|by apply IH]. intros (y & E & [_ Hy]%list_elem_of_filter)%list_elem_of_fmap.
  apply H1, list_elem_of_fmap. by exists y.
Qed.
Lemma rows_asked_length show_type search ids m : (length (rows_asked show_type search ids m) ≤ length ids)%nat.
Proof.
  rewrite <-(length_map fst). apply submseteq_length, NoDup_submseteq; [apply rows_asked_keys|].
  intros i ([j d] & -> & H)%list_elem_of_fmap. by apply rows_asked_elem in H as [? _].
Qed.

Definition well_named (m : mongo) : Prop := map_Forall (λ i d, ∀ s, read_show d = Some s → sh_id s = Some i) (mg_shows m).

Definition listed_rows (rows : list (string * document)) : list (string * json) :=
  map (λ s, (default EmptyString (sh_id s), show_value (default EmptyString (sh_id s)) s)) (omap read_show (map snd rows)).

Lemma listed_rows_eq m rows : well_named m → (∀ i d, (i, d) ∈ rows → mg_shows m !! i = Some d) →
  listed_rows rows = omap (λ kd, (λ s, (kd.1, show_value kd.1 s)) <$> read_show kd.2) rows.
Proof.
  intros Hm. unfold listed_rows. induction rows as [|[i d] rows IH]; intros H; [done|]. simpl.
  assert (∀ j e, (j, e) ∈ rows → mg_shows m !! j = Some e) as H' by (intros j e He; apply H; by right).
  destruct (read_show d) as [s|] eqn:Hs; simpl; [|by apply IH]. rewrite (Hm i d (H i d ltac:(by left)) s Hs). simpl. f_equal. by apply IH.
Qed.

Lemma listed_perm show_type search ids m : NoDup ids → well_named m →
  listed_rows (rows_asked show_type search ids m) ≡ₚ omap (entry_of show_type m) ids.
Proof.
  intros Hids Hm. rewrite (listed_rows_eq m) by (done || (intros i d H; by apply rows_asked_elem in H as (_ & ? & _))).
  apply NoDup_Permutation.
  - apply (NoDup_fmap_1 fst). pose proof (rows_asked_keys show_type search ids m) as H. revert H. generalize (rows_asked show_type search ids m).
    induction l as [|[i d] l IH]; [done|]. simpl. intros [H1 H2]%NoDup_cons. destruct (read_show d) as [s|]; simpl; [|by apply IH].
    constructor; [|by apply IH]. intros (x & E & ([j e] & Hj & Hx)%list_elem_of_omap)%list_elem_of_fmap. apply H1, list_elem_of_fmap. exists (j, e).
    simpl in *. destruct (read_show e); [|done]. injection Hx as <-. by split.
  - clear Hm. induction Hids as [|i ids Hi _ IH]; [constructor|]. simpl. destruct (entry_of show_type m i) as [x|] eqn:Hx; [|done].
    constructor; [|done]. intros (j & Hj & E)%list_elem_of_omap. assert (∀ k y, entry_of show_type m k = Some y → y.1 = k) as Hk.
    { intros k y. unfold entry_of. destruct (mg_shows m !! k); [|done]. simpl. destruct (_ && _); [|done]. destruct (read_show _); [|done]. by intros [= <-]. }
    apply Hi. by rewrite <-(Hk _ _ Hx), (Hk _ _ E).
  - intros x. rewrite !list_elem_of_omap. split.
    + intros ([i d] & (Hi & Hd & Ha)%rows_asked_elem & Hx). exists i. split; [done|]. unfold entry_of. rewrite Hd. simpl. by rewrite Ha.
    + intros (i & Hi & Hx). unfold entry_of in Hx. destruct (mg_shows m !! i) as [d|] eqn:Hd; [|done]. simpl in Hx. destruct (_ && _) eqn:Ha; [|done].
      exists (i, d). split; [|done]. by apply rows_asked_elem.
Qed.
Lemma all_of_page limit (l : list document) : Z.of_nat (length l) ≤ limit → page_of 0 limit l = l.
Proof. intros H. unfold page_of. simpl. destruct (limit =? 0); [done|]. apply take_ge. lia. Qed.

(** A search of the administration answers in the order of Elasticsearch.  When
    Elasticsearch answers with identifiers, no more than asked for and none twice, the list is
    made of exactly the shows with these identifiers that are in the catalogue, not deleted,
    of the type asked for and can be read, in the order of the identifiers. *)
Theorem admin_search_keeps_ranking url answer q s ids (c : catalog D) n :
  let limit := Z.min (default 50 (lq_limit q)) 200 in
  trim <$> lq_search q = Some s → s ≠ EmptyString →
  elasticsearch_show_ids url answer s (lq_show_type q) (u64 (default 0 (lq_page q) * limit)) limit = Some ids →
  NoDup ids → Forall (λ i, parse_object_id i = Some i) ids → Z.of_nat (length ids) ≤ limit → skip_ok 0 = true →
  well_named (ct_mongo c) → quiet c n →
  list_shows_admin url answer q c = (inl (map snd (omap (entry_of (lq_show_type q) (ct_mongo c)) ids)), c).
Proof.
  intros limit Hs Hne He Hids Hp Hlen Hskip Hm Hq. unfold list_shows_admin. fold limit. rewrite Hs.
  assert (is_empty s = false) as -> by (by destruct s). cbn [mbind option_bind]. rewrite He. cbn [fmap option_fmap option_map]. rewrite Hskip. cbn [negb orb].
  assert (omap (M := list) parse_object_id ids = ids) as ->.
  { clear -Hp. induction Hp as [|i ids Hi _ IH]; [done|]. simpl. rewrite Hi. f_equal. exact IH. }
  set (m := ct_mongo c). set (rows := λ m, rows_asked (lq_show_type q) (Some s) ids m).
  rewrite (and_then_step _ _ c (page_of 0 limit (by_creation (map snd (rows m)))) c) by (apply or_err_step; by rewrite (mongo_query_step _ c n Hq)).
  rewrite all_of_page.
  2: { pose proof (rows_asked_length (lq_show_type q) (Some s) ids m). rewrite creation_perm, length_map. unfold rows. lia. }
  match goal with |- context [merge_sort (ranked ids) ?l] => set (listed := l) end. assert (listed ≡ₚ omap (M := list) (entry_of (lq_show_type q) m) ids) as Hl.
  { unfold listed. rewrite creation_perm. by apply listed_perm. }
  assert (∀ i x, entry_of (lq_show_type q) m i = Some x → x.1 = i) as Hk.
  { intros i x. unfold entry_of. destruct (mg_shows m !! i); [|done]. simpl. destruct (_ && _); [|done]. destruct (read_show _); [|done]. by intros [= <-]. }
  assert (merge_sort (ranked ids) listed = omap (M := list) (entry_of (lq_show_type q) m) ids) as ->; [|done].
  apply (StronglySorted_unique_strong (ranked ids)); [|apply (StronglySorted_merge_sort (ranked ids))|by apply ranked_order|by rewrite merge_sort_Permutation].
  intros x y Hx Hy H1 H2. rewrite merge_sort_Permutation, Hl in Hx. apply list_elem_of_omap in Hx as (i & Hi & Hx), Hy as (j & Hj & Hy).
  assert (i = j) as <-; [|congruence]. revert H1 H2. unfold ranked. rewrite (Hk i x Hx), (Hk j y Hy).
  destruct (rank_some ids i Hi) as [a Ha], (rank_some ids j Hj) as [b Hb]. rewrite Ha, Hb. intros H1 H2.
  apply (rank_inj ids i j a); [done|done|]. rewrite Hb. f_equal. lia.
Qed.
End search.

(** Three shows of which one is removed; Elasticsearch ranks the younger first. *)
Definition named (i title : string) : document := ("_id", BObjectId i) :: film title.
Definition three_shows : mongo :=
  Mongo {["s0" := named "s0" "Rock"; "s1" := named "s1" "Rock again"; "s2" := ("deleted_at", BDateTime 7) :: named "s2" "Rocks"]} [] [] None None None None ∅.
Definition ranking (_ : json) : option json :=
  Some (JObj [("hits", JObj [("hits", JArr [JObj [("_id", JStr "s1")]; JObj [("_id", JStr "s2")]; JObj [("_id", JStr "s0")]])])]).
Definition rock : list_shows_query := ListShowsQuery None (Some " rock ") None None.

Lemma admin_search_keeps_ranking_witness :
  list_shows_admin (Some "http://es/") ranking rock (administration three_shows) =
    (inl (map snd (omap (M := list) (entry_of None three_shows) ["s1"; "s2"; "s0"])), administration three_shows) ∧
  map fst (omap (M := list) (entry_of None three_shows) ["s1"; "s2"; "s0"]) = ["s1"; "s0"].
Proof.
  split; [|vm_compute; reflexivity].
  assert (quiet (administration three_shows) mem_empty) as Hq by (split; reflexivity).
  assert (well_named three_shows) as Hm.
  { intros i d. unfold three_shows. simpl. rewrite !lookup_insert_Some, lookup_singleton_Some.
    intros [[<- <-]|[_ [[<- <-]|[_ [<- <-]]]]] s [= <-]; reflexivity. }
  assert (NoDup ["s1"; "s2"; "s0"]) as Hids by (apply (bool_decide_unpack _); vm_compute; exact I).
  pose proof (admin_search_keeps_ranking (HL := plain_shows_laws) (Some "http://es/") ranking rock "rock" ["s1"; "s2"; "s0"] (administration three_shows)
    mem_empty eq_refl ltac:(discriminate) eq_refl Hids ltac:(repeat constructor) ltac:(vm_compute; discriminate) eq_refl Hm Hq) as H.
  exact H.
Defined.
