(* ===== verification/Categories.v ===== *)
(** * Categories: the categories of shows
    ([apps/http-server/src/api/admin/categories.rs], [user/categories.rs])

    The administration lists, creates, reads, updates and removes categories; the public
    gets those of the shows to come.  Documents, JSON texts and the order by name are
    library code: the fields of [CategoryText]. *)

From stdpp Require Import gmap.
From S2P Require Import Prelude Text Keys Redis RedisMem SeatLock Events Db HttpCache HttpPayments ShowModel Mongo Shows SearchIndex.
From S2P Require Import PublicSchedules PublicLists SearchProps SearchBlocks Catalogue CatalogueProps.

#[local] Open Scope string_scope.
#[local] Open Scope list_scope.
#[local] Open Scope Z_scope.

Record category := Category {
  ca_id : option string; ca_name : string; ca_slug : string; ca_description : option string; ca_image_url : option string;
  ca_created_at : option Z; ca_updated_at : option Z
}.
Record category_response := CategoryResponse {
  cr_id : string; cr_name : string; cr_slug : string; cr_description : option string; cr_image_url : option string;
  cr_created_at : option Z; cr_updated_at : option Z
}.
Record category_request := CategoryRequest { cq_name : string; cq_slug : string; cq_description : option string; cq_image_url : option string }.

Definition response_of (c : category) : category_response :=
  CategoryResponse (default EmptyString (ca_id c)) (ca_name c) (ca_slug c) (ca_description c) (ca_image_url c) (ca_created_at c) (ca_updated_at c).

Class CategoryText := {
  read_category : document → option category;
  category_json : category → json;
  de_category : json → option category;
  response_json : category_response → json;
  de_response : json → option category_response;
  by_name : list document → list document;      (* { "name": 1 } *)
  to_rfc3339 : Z → string
}.

Definition CACHE_KEY_PUBLIC : string := "categories:public:all".
Definition CACHE_KEY_ADMIN : string := "categories:admin:all".
Definition TTL_24H : Z := 60 * 60 * 24.

(** ** The collection *)

Definition with_categories (f : gmap string document → gmap string document) (m : mongo) : mongo :=
  Mongo (mg_shows m) (mg_changes m) (mg_outbox m) (mg_lsn m) (mg_sequence m) (mg_checkpoint m) (mg_indexed m) (f (mg_categories m)).

Definition request_document (q : category_request) : document :=
  [("name", BString (cq_name q)); ("slug", BString (cq_slug q)); ("description", b_str (cq_description q)); ("image_url", b_str (cq_image_url q))].
Definition category_document (c : category) : document :=
  match ca_id c with Some id => [("_id", BObjectId id)] | None => [] end ++
  [("name", BString (ca_name c)); ("slug", BString (ca_slug c)); ("description", b_str (ca_description c)); ("image_url", b_str (ca_image_url c));
   ("created_at", b_option BDateTime (ca_created_at c)); ("updated_at", b_option BDateTime (ca_updated_at c))].

Definition insert_category (oid : string) (d : document) (m : mongo) : option mongo :=
  match mg_categories m !! oid with Some _ => None | None => Some (with_categories <[oid := ("_id", BObjectId oid) :: d]> m) end.
(** [$set] of every field of the request, and [$currentDate]; how many documents match. *)
Definition update_category_stmt (oid : string) (q : category_request) (now : Z) (m : mongo) : Z * mongo :=
  match mg_categories m !! oid with
  | Some d => (1, with_categories <[oid := set_field "updated_at" (BDateTime now) (foldl (λ d kv, set_field kv.1 kv.2 d) d (request_document q))]> m)
  | None => (0, m)
  end.
Definition delete_category_stmt (oid : string) (m : mongo) : Z * mongo :=
  match mg_categories m !! oid with Some _ => (1, with_categories (delete oid) m) | None => (0, m) end.

(** The values of a field in some documents, those of arrays one by one.  Repetitions do not
    matter where they go, which is an [$in]. *)
Definition distinct_values (k : string) (l : list document) : list bson :=
  l ≫= λ d, match assoc k d with Some (BArray l) => l | Some v => [v] | None => [] end.

(** [$gte] compares with texts only. *)
Definition text_from (k text : string) (d : document) : bool :=
  match assoc k d with Some (BString s) => String.leb text s | _ => false end.

Section categories.
Context {D : Type} `{!RedisServer D} {HJ : JsonText} {HO : ObjectIds} {HT : ShowText} {HC : CategoryText}.
Abbreviation C := (St (catalog D)).

(** A statement that answers; [None] is an error, or an answer that is lost. *)
Definition mongo_stmt {A} (f : mongo → A * mongo) : C (option A) := λ c0,
  let '(fl, c) := on_redis draw c0 in
  match fl with
  | FDown => (None, c)
  | FOk => (Some (f (ct_mongo c)).1, Catalog (ct_site c) (f (ct_mongo c)).2)
  | FReplyLost => (None, Catalog (ct_site c) (f (ct_mongo c)).2)
  end.

Definition named_categories (p : string → bool) (m : mongo) : list document :=
  by_name (map snd (filter (λ kd, p kd.1 = true) (natural (mg_categories m)))).
Definition db_error_text : string := "DB Error: " +:+ mongo_error.

(** *** The administration *)

Definition list_categories : C (list category_response + app_error) :=
  hit ← on_redis (get_async_cached (de_vec de_response) CACHE_KEY_ADMIN);
  match hit with
  | Some cached => mret (inl cached)
  | None =>
      found ←? or_err (internal db_error_text) (mongo_query (named_categories (λ _, true)));
      let categories := map response_of (omap read_category found) in
      on_redis (set_async_cached CACHE_KEY_ADMIN (JArr (map response_json categories)) TTL_24H) ;;
      mret (inl categories)
  end.

Definition bust_cache : C unit := on_redis (invalidate_async CACHE_KEY_PUBLIC) ;; on_redis (invalidate_async CACHE_KEY_ADMIN).

Definition create_category (oid : string) (payload : category_request) : C (category_response + app_error) :=
  created_at ← on_redis now_ms;
  updated_at ← on_redis now_ms;
  let new_cat := Category None (cq_name payload) (cq_slug payload) (cq_description payload) (cq_image_url payload) (Some created_at) (Some updated_at) in
  ok ← mongo_run (insert_category oid (category_document new_cat));
  if negb ok then mret (inr (internal ("Failed to insert category: " +:+ mongo_error)))
  else
    bust_cache ;;
    mret (inl (response_of (Category (Some oid) (ca_name new_cat) (ca_slug new_cat) (ca_description new_cat) (ca_image_url new_cat)
                              (ca_created_at new_cat) (ca_updated_at new_cat)))).

Definition get_category (id : string) : C (category_response + app_error) :=
  match parse_object_id id with
  | None => mret (inr (bad_request "Invalid Category ID format"))
  | Some oid =>
      found ←? or_err (internal "DB Error") (mongo_query (λ m, read_category <$> mg_categories m !! oid));
      mret (match found with
            | None => inr (not_found "Category not found")
            | Some None => inr (internal "DB Error")
            | Some (Some c) => inl (response_of c)
            end)
  end.

Definition update_category (id : string) (payload : category_request) : C (unit + app_error) :=
  match parse_object_id id with
  | None => mret (inr (bad_request "Invalid Category ID format"))
  | Some oid =>
      now ← on_redis now_ms;
      matched ←? or_err (internal ("Failed to update category: " +:+ mongo_error)) (mongo_stmt (update_category_stmt oid payload now));
      if matched =? 0 then mret (inr (not_found "Category not found"))
      else bust_cache ;; mret (inl tt)
  end.

Definition delete_category (id : string) : C (unit + app_error) :=
  match parse_object_id id with
  | None => mret (inr (bad_request "Invalid Category ID format"))
  | Some oid =>
      deleted ←? or_err (internal db_error_text) (mongo_stmt (delete_category_stmt oid));
      if deleted =? 0 then mret (inr (not_found "Category not found"))
      else bust_cache ;; mret (inl tt)
  end.

(** *** The public *)

Definition category_ids_to_come (now : Z) (m : mongo) : list string :=
  omap (λ v, match v with BString id => parse_object_id id | _ => None end)
    (distinct_values "category_ids" (documents (λ d, active_show d && text_from "next_start_time" (to_rfc3339 now) d) m)).

Definition list_public_categories : C (list category + app_error) :=
  hit ← on_redis (get_async_cached (de_vec de_category) CACHE_KEY_PUBLIC);
  match hit with
  | Some cached => mret (inl cached)
  | None =>
      now ← on_redis now_ms;
      category_ids ←? or_err (internal db_error_text) (mongo_query (category_ids_to_come now));
      if bool_decide (category_ids = []) then mret (inl [])
      else
        found ←? or_err (internal db_error_text) (mongo_query (named_categories (λ id, bool_decide (id ∈ category_ids))));
        let categories := omap read_category found in
        on_redis (set_async_cached CACHE_KEY_PUBLIC (JArr (map category_json categories)) TTL_24H) ;;
        mret (inl categories)
  end.
End categories.

(** * Properties: the list of the administration is right, that of the public is empty *)

(** ** Requests *)

Inductive category_op :=
  | CgCreate (oid : string) (payload : category_request)
  | CgUpdate (id : string) (payload : category_request)
  | CgDelete (id : string)
  | CgRead (id : string)
  | CgList
  | CgPublic
  | CgShow (o : catalog_op).

Section requests.
Context {D : Type} `{!RedisServer D} {HJ : JsonText} {HO : ObjectIds} {HT : ShowText} {HC : CategoryText}.

Definition category_run (o : category_op) : St (catalog D) unit :=
  match o with
  | CgCreate oid payload => create_category oid payload ;; mret tt
  | CgUpdate id payload => update_category id payload ;; mret tt
  | CgDelete id => delete_category id ;; mret tt
  | CgRead id => get_category id ;; mret tt
  | CgList => list_categories ;; mret tt
  | CgPublic => list_public_categories ;; mret tt
  | CgShow o => catalog_run o
  end.
Definition category_history (os : list category_op) : St (catalog D) unit := for_each os category_run.
End requests.

Section effects.
Context {D : Type} `{!RedisServer D} `{!RedisLaws D} {HJ : JsonText} {HO : ObjectIds} {HT : ShowText} {HC : CategoryText}.
Implicit Types (I J : D → Z → mongo → Prop).

(** A change of the categories turns [I] into [J], and taking both lists out of the cache
    makes it [I] again. *)
Lemma keeps_category_change I J o :
  (∀ f n t m, I n t m → J n t (with_categories f m)) →
  (∀ n t m, J n t m → J (r_del n CACHE_KEY_PUBLIC) t m) → (∀ n t m, J n t m → I (r_del n CACHE_KEY_ADMIN) t m) →
  match o with CgCreate _ _ | CgUpdate _ _ | CgDelete _ => True | _ => False end → keeps (Cat I) (category_run (D:=D) o).
Proof.
  intros Hch Hp Ha. assert (hoare (Cat J) (bust_cache (D:=D)) (λ _, Cat I)) as Hbust.
  { eapply hoare_bind; [by apply (hoare_invalidate_key J J)|]. intros []. by apply hoare_invalidate_key. }
  assert (∀ (f : mongo → Z * mongo) (e e' : app_error), (∀ m, (∃ g, f m = (1, with_categories g m)) ∨ f m = (0, m)) →
    keeps (Cat I) (n ←? or_err e (mongo_stmt f); if n =? 0 then mret (inr e') else bust_cache ;; mret (inl tt))) as Hstmt.
  { intros f e e' Hf c (n & Hq & HI). destruct (Hf (ct_mongo c)) as [[g E]|E].
    - assert (mongo_stmt f c = (Some 1, Catalog (ct_site c) (with_categories g (ct_mongo c)))) as Es.
      { destruct c as [[d [ns t fl lg] us k] m], Hq as [H1 H2]. unfold the_world in *. simpl in *. subst fl. unfold mongo_stmt. simpl. by rewrite E. }
      rewrite (and_then_step _ _ c 1 _ (or_err_step _ _ _ _ _ Es)). change (1 =? 0) with false. cbv iota.
      refine (hoare_bind (Cat J) (λ _, Cat I) (λ _, Cat I) _ _ Hbust (λ _, keeps_ret _ _) _ _). exists n. split; [by destruct Hq|]. by apply Hch.
    - assert (mongo_stmt f c = (Some 0, c)) as Es.
      { destruct c as [[d [ns t fl lg] us k] m], Hq as [H1 H2]. unfold the_world in *. simpl in *. subst fl. unfold mongo_stmt. simpl. by rewrite E. }
      rewrite (and_then_step _ _ c 0 _ (or_err_step _ _ _ _ _ Es)). by exists n. }
  destruct o as [oid payload|id payload|id| | | |]; try done; intros _; simpl; (apply keeps_bind; [|intros; apply keeps_ret]).
  - unfold create_category. apply keeps_bind; [apply keeps_clock|]. intros t1. apply keeps_bind; [apply keeps_clock|]. intros t2.
    eapply hoare_bind; [apply (hoare_mongo_run I J)|].
    { intros n t m m'. unfold insert_category. destruct (mg_categories m !! oid); [done|]. intros [= <-]. apply Hch. }
    intros [|]; simpl; [|apply keeps_ret]. eapply hoare_bind; [exact Hbust|]. intros []. by apply hoare_ret.
  - unfold update_category. destruct (parse_object_id id) as [oid|]; [|apply keeps_ret]. apply keeps_bind; [apply keeps_clock|]. intros now.
    apply Hstmt. intros m. unfold update_category_stmt. destruct (mg_categories m !! oid); [left; by eexists|by right].
  - unfold delete_category. destruct (parse_object_id id) as [oid|]; [|apply keeps_ret].
    apply Hstmt. intros m. unfold delete_category_stmt. destruct (mg_categories m !! oid); [left; by eexists|by right].
Qed.

Lemma keeps_category_read I id : keeps (Cat I) (get_category (D:=D) id).
Proof.
  unfold get_category. destruct (parse_object_id id) as [oid|]; [|apply keeps_ret]. apply keeps_and_then; [apply keeps_or_err, keeps_query_of|].
  intros found. apply keeps_ret.
Qed.

Lemma day_categories : 0 < TTL_24H ≤ TTL_24_HOURS.
Proof. by vm_compute. Qed.

(** The reads of the shows cache under keys of their own. *)
Lemma keeps_show_reads I o :
  (∀ k ttl, (∃ r, k = String.append "cache:" r) → may_cache I k ttl) → (∀ n t m ms, I n t m → I n (t + Z.of_N ms) m) →
  match o with CoAdmin _ => False | _ => True end → keeps (Cat I) (catalog_run (D:=D) o).
Proof.
  intros Hc Ht. destruct o as [o| |q|show_type city|id|ms]; simpl; try done; intros _; try (apply keeps_bind; [|intros; apply keeps_ret]).
  - apply keeps_bind; [apply keeps_get_async|]. intros [l|]; [apply keeps_ret|]. apply keeps_list_body, Hc. by eexists.
  - apply keeps_bind; [destruct (_ && _); [apply keeps_get_async|apply keeps_ret]|]. intros [l|]; [apply keeps_ret|].
    apply (keeps_grid_body _ q). intros _. apply Hc. unfold grid_key. destruct (grid_city _); by eexists.
  - apply keeps_bind; [apply keeps_get_cached|]. intros [l|]; [apply keeps_ret|]. apply (keeps_movies_body _ show_type city), Hc.
    unfold cache_movies_key. destruct show_type as [st|]; [destruct (negb _)|]; destruct (city_filter city); by eexists.
  - apply keeps_show_details.
  - apply keeps_tick. intros n t m. apply Ht.
Qed.
End effects.

(** ** The theorems *)

(** Responses come back from JSON as they were written. *)
Class CategoryLaws (HC : CategoryText) (HJ : JsonText) := {
  categories_back l : Forall (λ r, ∃ d c, read_category d = Some c ∧ r = response_of c) l →
    ∃ l', (json_parse (json_print (JArr (map response_json l))) ≫= de_vec de_response) = Some l' ∧ map response_json l' = map response_json l
}.

Section theorems.
Context {D : Type} `{!RedisServer D} `{!RedisLaws D} {HJ : JsonText} {HO : ObjectIds} {HT : ShowText} {HC : CategoryText} {HL : CategoryLaws HC HJ} {HL2 : ShowLaws HT HJ}.

(** What a query finds. *)
Definition all_categories (m : mongo) : list category_response := map response_of (omap read_category (named_categories (λ _, true) m)).
Definition categories_right (n : D) (t : Z) (m : mongo) : Prop :=
  ∀ l, looked_up (de_vec de_response) CACHE_KEY_ADMIN t n = Some l → map response_json l = map response_json (all_categories m).

Lemma categories_right_set key raw ttl n t m : key ≠ CACHE_KEY_ADMIN → categories_right n t m → categories_right (r_set_px n t key raw ttl) t m.
Proof. intros Hk H l. unfold looked_up. rewrite get_set_px, decide_False by done. apply H. Qed.
Lemma categories_right_del key n t m : key ≠ CACHE_KEY_ADMIN → categories_right n t m → categories_right (r_del n key) t m.
Proof. intros Hk H l. unfold looked_up. rewrite get_del, decide_False by done. apply H. Qed.
Lemma categories_right_none n t m : categories_right (r_del n CACHE_KEY_ADMIN) t m.
Proof. intros l. unfold looked_up. by rewrite get_del, decide_True. Qed.
Lemma categories_right_time n t t' m : t ≤ t' → categories_right n t m → categories_right n t' m.
Proof. intros Ht H l. unfold looked_up. destruct (get_expire n t t' CACHE_KEY_ADMIN Ht) as [->| ->]; [|done]. apply H. Qed.

Lemma file_event_keeps event oid op d now m m' : file_event event oid op d now m = Some m' → mg_shows m' = mg_shows m ∧ mg_categories m' = mg_categories m.
Proof.
  unfold file_event, next_lsn. destruct (increment _) as [n|]; [|done]. simpl. unfold insert_event. destruct (existsb _ _); [done|]. by intros [= <-].
Qed.

(** The transactions of the shows leave the categories, and write no text as a start. *)
Definition undated (d : document) : Prop := ∀ s, assoc "next_start_time" d ≠ Some (BString s).

Lemma show_undated s : undated (show_document s) ∧ ∀ oid, undated (("_id", BObjectId oid) :: show_document s).
Proof.
  assert (∀ s, undated (show_document s)) as H.
  { intros x t. unfold show_document. destruct (sh_id x), (sh_category_ids x); simpl; by destruct (sh_next_start_time x). }
  split; [apply H|]. intros oid t. simpl. apply H.
Qed.

Lemma set_other k v k' d : k ≠ k' → assoc k' (set_field k v d) = assoc k' d.
Proof.
  intros Hk. unfold set_field. destruct (existsb _ d).
  - induction d as [|[a b] d IH]; [done|]. cbn [map fst assoc]. destruct (decide (a = k)) as [->|]; cbn [assoc].
    + by rewrite !decide_False by congruence.
    + by rewrite IH.
  - induction d as [|[a b] d IH]; cbn [app assoc]; [by rewrite decide_False by congruence|]. by rewrite IH.
Qed.

Lemma admin_tx_spec tx m m' : admin_tx tx → tx m = Some m' →
  mg_categories m' = mg_categories m ∧ (map_Forall (λ _, undated) (mg_shows m) → map_Forall (λ _, undated) (mg_shows m')).
Proof.
  intros (oid & event & q & now & [->|[[created ->]| ->]]).
  - unfold create_show_tx, insert_show. destruct (mg_shows m !! oid); [done|]. simpl. intros [-> ->]%file_event_keeps. split; [done|].
    intros H. apply map_Forall_insert_2; [apply show_undated|done].
  - unfold update_show_tx. intros [-> ->]%file_event_keeps. unfold replace_show. destruct (mg_shows m !! oid); [|done]. split; [done|].
    intros H. apply map_Forall_insert_2; [apply show_undated|done].
  - unfold delete_show_tx. intros [-> ->]%file_event_keeps. unfold update_show_fields. destruct (mg_shows m !! oid) as [d|] eqn:Hd; [|done]. split; [done|].
    intros H. apply map_Forall_insert_2; [|done]. intros s. rewrite set_other by done. by apply (H oid).
Qed.

Lemma list_right m : hoare (λ c, Cat categories_right c ∧ ct_mongo c = m) (list_categories (D:=D))
  (λ r c, (∃ l, r = inl l ∧ map response_json l = map response_json (all_categories m)) ∧ Cat categories_right c ∧ ct_mongo c = m).
Proof.
  intros c [(n & Hq & Hn) <-]. unfold list_categories. rewrite (bind_step _ _ _ _ _ (get_async_step _ CACHE_KEY_ADMIN c n Hq)).
  destruct (looked_up (de_vec de_response) CACHE_KEY_ADMIN (the_time c) n) as [l|] eqn:Hl; [split; [exists l; auto|]; split; [by exists n|done]|].
  rewrite (and_then_step _ _ c (named_categories (λ _, true) (ct_mongo c)) c) by (apply or_err_step, (mongo_query_step _ c n Hq)).
  fold (all_categories (ct_mongo c)). rewrite (bind_step _ _ _ _ _ (set_async_step _ _ _ c n Hq (day_ok _ day_categories))).
  split; [by eexists|]. split; [|done]. eexists. split; [by apply (quiet_put c n)|]. intros l. unfold looked_up. simpl.
  rewrite get_set_px by done. rewrite decide_True by done. destruct (_ <? _); [|done]. cbn [mbind option_bind].
  destruct (categories_back (all_categories (ct_mongo c))) as (l' & Hl' & Hj).
  { apply Forall_forall. intros r (x & -> & Hx)%list_elem_of_fmap. apply list_elem_of_omap in Hx as (d & _ & Hd). by exists d, x. }
  intros Hx. assert (Some l = Some l') as [= ->]; [|exact Hj]. rewrite <-Hl'. symmetry. exact Hx.
Qed.

Lemma public_right : keeps (Cat categories_right) (list_public_categories (D:=D)).
Proof.
  unfold list_public_categories. apply keeps_bind; [apply keeps_get_async|]. intros [l|]; [apply keeps_ret|].
  apply keeps_bind; [apply keeps_clock|]. intros now. apply keeps_and_then; [apply keeps_or_err, keeps_query_of|]. intros ids.
  case_bool_decide; [apply keeps_ret|]. apply keeps_and_then; [apply keeps_or_err, keeps_query_of|]. intros found.
  apply keeps_bind; [|intros; apply keeps_ret]. apply keeps_set_async; [apply day_categories|]. intros n t m. by apply categories_right_set.
Qed.

Lemma category_run_right o : keeps (Cat categories_right) (category_run (D:=D) o).
Proof.
  assert (match o with CgCreate _ _ | CgUpdate _ _ | CgDelete _ => True | _ => False end → keeps (Cat categories_right) (category_run (D:=D) o)) as Hch.
  { apply (keeps_category_change _ (λ _ _ _, True)); try done. intros n t m _. apply categories_right_none. }
  destruct o as [oid payload|id payload|id|id| | |o]; try by apply Hch.
  - simpl. apply keeps_bind; [apply keeps_category_read|intros; apply keeps_ret].
  - simpl. apply keeps_bind; [|intros; apply keeps_ret]. intros c Hc. by destruct (list_right (ct_mongo c) c (conj Hc eq_refl)) as (_ & ? & _).
  - simpl. apply keeps_bind; [apply public_right|intros; apply keeps_ret].
  - destruct o as [o| |q|show_type city|id|ms]; [|apply keeps_show_reads; try done..]; try (intros k ttl [r ->] n t m raw; by apply categories_right_set);
      try (intros n t m ms'; apply categories_right_time; lia).
    simpl. apply keeps_bind; [|intros; apply keeps_ret]. apply (keeps_admin _ categories_right).
    + intros tx n t m m' Htx Hm H l Hl. destruct (admin_tx_spec tx m m' Htx Hm) as [Hc _]. unfold all_categories, named_categories. rewrite Hc. by apply H.
    + intros k n t m Hk _ _. apply categories_right_del. by destruct Hk as [->|[->|[->|[i ->]]]].
    + intros n t m. by apply categories_right_del.
    + intros n t m. by apply categories_right_del.
Qed.

(** The list of categories follows the administration.  From an empty entry, after any
    history of creations, updates and removals of categories and shows, of reads and of
    passing time, the administration gets, in JSON, what a fresh query of the collection
    finds. *)
Theorem category_list_follows_database os c n :
  quiet c n → (∀ t, r_get n t CACHE_KEY_ADMIN = None) →
  let '(_, c1) := category_history os c in
  let '(r, c2) := list_categories c1 in
  ∃ l, r = inl l ∧ map response_json l = map response_json (all_categories (ct_mongo c1)) ∧ ct_mongo c2 = ct_mongo c1.
Proof.
  intros Hq Hn. assert (Cat categories_right c) as Hc.
  { exists n. split; [done|]. intros l. unfold looked_up. by rewrite Hn. }
  pose proof (keeps_for_each (Cat categories_right) os category_run (λ o _, category_run_right o) c Hc) as H1.
  change (for_each os category_run) with (category_history (D:=D) os) in H1. destruct (category_history os c) as [u c1]. simpl in H1.
  pose proof (list_right (ct_mongo c1) c1 (conj H1 eq_refl)) as H2. destruct (list_categories c1) as [r c2].
  simpl in H2. destruct H2 as ((l & -> & H2) & _ & H4). by exists l.
Qed.
(** *** The public *)

(** No start is a text, and no list of the public is cached. *)
Definition nothing_to_come (n : D) (t : Z) (m : mongo) : Prop :=
  map_Forall (λ _, undated) (mg_shows m) ∧ ∀ t', t ≤ t' → r_get n t' CACHE_KEY_PUBLIC = None.

Lemma undated_ids now m : map_Forall (λ _, undated) (mg_shows m) → category_ids_to_come now m = [].
Proof.
  intros H. unfold category_ids_to_come. assert (documents (λ d, active_show d && text_from "next_start_time" (to_rfc3339 now) d) m ⊆ []) as Hs.
  { intros d. unfold documents. rewrite list_elem_of_filter. intros [[_ Ht]%andb_true_iff Hd]. exfalso. apply list_elem_of_fmap in Hd as ([i e] & -> & Hd).
    revert Hd. rewrite natural_perm, elem_of_map_to_list. intros Hd. specialize (H _ _ Hd). unfold text_from in Ht.
    simpl in Ht. destruct (assoc _ e) as [[]|] eqn:E; try done. by apply (H s). }
  destruct (documents _ m) as [|d l]; [done|]. exfalso. by apply (not_elem_of_nil d), Hs, elem_of_cons; left.
Qed.

Lemma nothing_set key raw ttl n t m : key ≠ CACHE_KEY_PUBLIC → nothing_to_come n t m → nothing_to_come (r_set_px n t key raw ttl) t m.
Proof. intros Hk [H1 H2]. split; [done|]. intros t' Ht. rewrite get_set_px, decide_False by done. by apply H2. Qed.
Lemma nothing_del key n t m : nothing_to_come n t m → nothing_to_come (r_del n key) t m.
Proof. intros [H1 H2]. split; [done|]. intros t' Ht. rewrite get_del. case_decide; [done|]. by apply H2. Qed.

Lemma public_nothing : hoare (Cat nothing_to_come) (list_public_categories (D:=D)) (λ r c, r = inl [] ∧ Cat nothing_to_come c).
Proof.
  intros c (n & Hq & [H1 H2]). unfold list_public_categories. rewrite (bind_step _ _ _ _ _ (get_async_step _ CACHE_KEY_PUBLIC c n Hq)).
  unfold looked_up. rewrite H2 by done. cbn [mbind option_bind]. rewrite (bind_step _ _ _ (the_time c) c) by (by destruct c as [[? []] ?]).
  rewrite (and_then_step _ _ c (category_ids_to_come (the_time c) (ct_mongo c)) c) by (apply or_err_step, (mongo_query_step _ c n Hq)).
  rewrite undated_ids by done. split; [done|]. by exists n.
Qed.

Lemma category_run_nothing o : keeps (Cat nothing_to_come) (category_run (D:=D) o).
Proof.
  assert (match o with CgCreate _ _ | CgUpdate _ _ | CgDelete _ => True | _ => False end → keeps (Cat nothing_to_come) (category_run (D:=D) o)) as Hch.
  { apply (keeps_category_change _ nothing_to_come); [by intros f n t m [H1 H2]| |]; intros n t m; apply nothing_del. }
  destruct o as [oid payload|id payload|id|id| | |o]; try by apply Hch.
  - simpl. apply keeps_bind; [apply keeps_category_read|intros; apply keeps_ret].
  - simpl. apply keeps_bind; [|intros; apply keeps_ret]. unfold list_categories. apply keeps_bind; [apply keeps_get_async|].
    intros [l|]; [apply keeps_ret|]. apply keeps_and_then; [apply keeps_or_err, keeps_query_of|]. intros found.
    apply keeps_bind; [|intros; apply keeps_ret]. apply keeps_set_async; [apply day_categories|]. intros n t m. by apply nothing_set.
  - simpl. apply keeps_bind; [|intros; apply keeps_ret]. intros c Hc. by destruct (public_nothing c Hc).
  - destruct o as [o| |q|show_type city|id|ms]; [|apply keeps_show_reads; try done..]; try (intros k ttl [r ->] n t m raw; by apply nothing_set);
      try (intros n t m ms' [H1 H2]; split; [done|]; intros t' Ht; apply H2; lia).
    simpl. apply keeps_bind; [|intros; apply keeps_ret]. apply (keeps_admin _ nothing_to_come); try (intros; by apply nothing_del).
    intros tx n t m m' Htx Hm [H1 H2]. split; [|done]. destruct (admin_tx_spec tx m m' Htx Hm) as [_ H]. by apply H.
Qed.

(** The public is shown no category that the server made public.  The query for the
    shows to come compares their start with a text, and the server stores starts as dates, of
    which it has none: so as long as no start was stored as a text by something else, the
    list of the public is empty after any history of requests, whatever categories and shows
    the administration has made. *)
Theorem public_categories_stay_empty os c n :
  quiet c n → (∀ t, r_get n t CACHE_KEY_PUBLIC = None) → map_Forall (λ _, undated) (mg_shows (ct_mongo c)) →
  (list_public_categories (category_history os c).2).1 = inl [].
Proof.
  intros Hq Hn Hm. apply public_nothing.
  assert (keeps (Cat nothing_to_come) (category_history (D:=D) os)) as H by (apply keeps_for_each; intros o _; apply category_run_nothing).
  apply H. exists n. split; [done|]. by split.
Qed.
End theorems.

(** ** An instance *)

#[export] Instance plain_categories : CategoryText := {
  read_category d :=
    match assoc "name" d with
    | Some (BString name) => Some (Category (match assoc "_id" d with Some (BObjectId i) => Some i | _ => None end) name EmptyString None None None None)
    | _ => None
    end;
  category_json c := JArr [plain_opt JStr (ca_id c); JStr (ca_name c)];
  de_category j := match j with JArr [id; JStr name] => Some (Category (as_str id) name EmptyString None None None None) | _ => None end;
  response_json r := JArr [JStr (cr_id r); JStr (cr_name r)];
  de_response j := match j with JArr [JStr id; JStr name] => Some (CategoryResponse id name EmptyString None None None None) | _ => None end;
  by_name := id;
  to_rfc3339 t := show_Z t
}.

#[export] Instance plain_categories_laws : CategoryLaws plain_categories mem_json.
Proof.
  split. intros l _. exists (map (λ r, CategoryResponse (cr_id r) (cr_name r) EmptyString None None None None) l). split.
  - assert (json_parse (json_print (JArr (map response_json l))) = Some (JArr (map response_json l))) as -> by apply json_text_roundtrip.
    cbn [mbind option_bind de_vec]. apply mapM_Some. apply Forall2_fmap_l, Forall2_fmap_r, Forall_Forall2_diag. by apply Forall_forall.
  - rewrite map_map. by apply map_ext.
Qed.

Definition music (name : string) : category_request := CategoryRequest name "slug" None None.
Definition category_days : list category_op :=
  [CgCreate "c1" (music "Jazz"); CgList; CgCreate "c2" (music "Rock"); CgPublic; CgUpdate "c1" (music "Blues"); CgShow (CoTick 1000); CgDelete "c2";
   CgShow (CoAdmin (AdCreate "s1" "e5" (form "Concert")))].

Lemma category_list_follows_database_witness :
  let '(_, c1) := category_history category_days (administration catalogue) in
  let '(r, c2) := list_categories c1 in
  (∃ l, r = inl l ∧ map response_json l = map response_json (all_categories (ct_mongo c1)) ∧ ct_mongo c2 = ct_mongo c1) ∧
  match r with inl l => map cr_name l = ["Blues"] | inr _ => False end.
Proof.
  assert (quiet (administration catalogue) mem_empty) as Hq by (split; reflexivity).
  pose proof (category_list_follows_database (HL := plain_categories_laws) category_days (administration catalogue) mem_empty Hq (λ t, eq_refl)) as H.
  destruct (category_history category_days (administration catalogue)) as [u c1] eqn:E1. destruct (list_categories c1) as [r c2] eqn:E2.
  split; [exact H|]. assert (r = (list_categories (category_history category_days (administration catalogue)).2).1) as -> by (rewrite E1; simpl; by rewrite E2).
  vm_compute. reflexivity.
Defined.

Lemma public_categories_stay_empty_witness :
  (list_public_categories (category_history category_days (administration catalogue)).2).1 = inl [].
Proof.
  assert (quiet (administration catalogue) mem_empty) as Hq by (split; reflexivity).
  assert (map_Forall (λ _, undated) (mg_shows catalogue)) as Hm by (by apply map_Forall_singleton).
  pose proof (public_categories_stay_empty (HL2 := plain_shows_laws) category_days (administration catalogue) mem_empty Hq (λ t, eq_refl) Hm) as H.
  exact H.
Defined.
