(* ===== verification/AdminReads.v ===== *)
(** * AdminReads: the schedules, the figures and the shows of the administration
    ([list_schedules] of [apps/http-server/src/api/admin/schedules_v2.rs], [get_stats] of
    [admin/stats.rs])

    For the shows: what a request that is answered with success leaves is what the details
    then say.

    [titles] are the titles of the shows that MongoDB finds, by [to_hex].  [bookings] are the
    amounts in the table [bookings], where no code of the repository writes. *)

From stdpp Require Import gmap sorting.
From S2P Require Import Prelude Text Keys Redis RedisMem SeatLock Events Db HttpPayments HttpCache ShowModel Mongo Shows Schedules SearchProps SearchBlocks Layouts ScheduleJson PublicSchedules PublicLists Catalogue CatalogueProps Categories.

#[local] Open Scope string_scope.
#[local] Open Scope list_scope.
#[local] Open Scope Z_scope.

(** ** Schedules *)

Record admin_schedule := AdminSchedule {
  as_row : schedule_row; as_show_title : string; as_total_seats : Z; as_available_seats : Z; as_booked_seats : Z;
  as_seconds_until_booking_open : Z; as_booking_open : bool
}.

Definition kept_rows (d : db) : list schedule_row :=
  merge_sort starts_before (filter (λ s, sc_deleted_at s = None) (map snd (map_to_list (d_schedules d)))).

Section schedules.
Context {D : Type} `{!RedisServer D} {HS : ScheduleLibs}.
Abbreviation S := (St (site D)).

Definition admin_counts (ids : list Z) : S (gmap Z Z * gmap Z Z + app_error) :=
  if bool_decide (ids = []) then mret (inl (∅, ∅))
  else
    totals ←? query (grouped_counts (λ _, true) ids);
    available ←? query (grouped_counts is_available ids);
    mret (inl (totals, available)).

Fixpoint enriched (titles : gmap string string) (c : gmap Z Z * gmap Z Z) (rows : list schedule_row) : S (list admin_schedule) :=
  match rows with
  | [] => mret []
  | s :: rows =>
      let total := default 0 (c.1 !! sc_id s) in
      let available := default 0 (c.2 !! sc_id s) in
      now ← redis_of now_ms;
      rest ← enriched titles c rows;
      mret (AdminSchedule s (default "Unknown Show" (titles !! sc_mongo_show_id s)) total available (total - available)
              (seconds_until (sc_booking_open_at s) now) (booking_open s) :: rest)
  end.

Definition list_schedules (find_titles : list string → gmap string string) : S (list admin_schedule + app_error) :=
  _ ←? connected;
  rows ←? query kept_rows;
  c ←? admin_counts (map sc_id rows);
  let titles := match filter (λ i, object_id_ok i = true) (map sc_mongo_show_id rows) with [] => ∅ | ids => find_titles ids end in
  l ← enriched titles c rows;
  mret (inl l).
End schedules.

(** ** Figures *)

Record stats := Stats {
  st_total_users : Z; st_total_shows : Z; st_total_bookings : Z; st_total_revenue : string; st_total_schedules : Z; st_available_seats : Z
}.
Class StatsText := {
  stats_json : stats → json;
  de_stats : json → option stats;
  sum_f64 : list string → string       (* of the amounts, when there are any *)
}.

Section figures.
Context {D : Type} `{!RedisServer D} {HJ : JsonText} {HO : ObjectIds} {HT : ShowText} {HS : StatsText}.
Variable bookings : list string.
Abbreviation C := (St (catalog D)).

(** A count that fails is 0. *)
Definition counted (q : db → Z) : C Z := n ← on_site (db_query q); mret (default 0 n).

Definition get_stats : C (stats + app_error) :=
  hit ← on_redis (get_async_cached de_stats ADMIN_STATS);
  match hit with
  | Some cached => mret (inl cached)
  | None =>
      conn ← on_site db_get;
      _ ←? check conn (internal "Failed to acquire DB connection");
      total_users ← counted (λ d, Z.of_nat (size (d_users d)));
      total_bookings ← counted (λ _, Z.of_nat (length bookings));
      total_schedules ← counted (λ d, Z.of_nat (length (filter (λ s, sc_deleted_at s = None) (map snd (map_to_list (d_schedules d))))));
      revenue ← on_site (db_query (λ _, bookings));
      available_seats ← counted (λ d, Z.of_nat (length (filter (λ r, ss_status r = Available) (d_seats d))));
      total_shows ← mongo_query (λ m, Z.of_nat (length (documents active_show m)));
      let total_revenue := match default [] revenue with [] => "0.0" | l => sum_f64 l end in
      let figures := Stats total_users (default 0 total_shows) total_bookings total_revenue total_schedules available_seats in
      on_redis (set_async_cached ADMIN_STATS (stats_json figures) TTL_ADMIN_STATS) ;;
      mret (inl figures)
  end.
End figures.

(** ** What they count *)

Lemma grouped_counts_lookup p ids d i : i ∈ ids →
  default 0 (grouped_counts p ids d !! i) = Z.of_nat (length (filter (λ r, ss_schedule_id r = i ∧ p r = true) (d_seats d))).
Proof.
  intros Hi. unfold grouped_counts. induction (d_seats d) as [|r l IH]; [done|]. simpl. rewrite filter_cons.
  destruct (decide (ss_schedule_id r = i)) as [<-|Hne].
  - rewrite bool_decide_true by done. simpl. destruct (p r) eqn:Hp.
    + rewrite lookup_insert_eq. simpl. rewrite IH. rewrite decide_True by done. simpl. lia.
    + rewrite IH. by rewrite decide_False by (intros [_ ?]; congruence).
  - rewrite (decide_False (P := _ ∧ _)) by (by intros [? _]). destruct (_ && _); [|done]. by rewrite lookup_insert_ne.
Qed.

Section counts.
Context {D : Type} `{!RedisServer D} {HS : ScheduleLibs}.
Implicit Types (st : site D).

Definition seats_of (s : Z) (p : seat_row → bool) (d : db) : Z := Z.of_nat (length (filter (λ r, ss_schedule_id r = s ∧ p r = true) (d_seats d))).

Lemma seats_split s p d : seats_of s (λ _, true) d = seats_of s p d + seats_of s (λ r, negb (p r)) d.
Proof.
  unfold seats_of. induction (d_seats d) as [|r l IH]; [done|]. rewrite !filter_cons. destruct (decide (ss_schedule_id r = s)) as [->|Hne].
  - rewrite (decide_True (P := s = s ∧ true = true)) by done. destruct (p r); simpl.
    + rewrite decide_True, decide_False by (done || by intros []). simpl. lia.
    + rewrite decide_False, decide_True by (done || by intros []). simpl. lia.
  - rewrite !decide_False by (by intros [? _]). exact IH.
Qed.

Lemma enriched_rows titles c rows : ∀ st, ∃ l, enriched titles c rows st = (l, st) ∧ map as_row l = rows ∧
  Forall (λ e, as_total_seats e = default 0 (c.1 !! sc_id (as_row e)) ∧ as_available_seats e = default 0 (c.2 !! sc_id (as_row e)) ∧
    as_booked_seats e = as_total_seats e - as_available_seats e ∧ as_booking_open e = booking_open (as_row e)) l.
Proof.
  induction rows as [|s rows IH]; intros st; [by exists []|]. destruct (IH st) as (l & E & H & Hc). simpl.
  rewrite (bind_step _ _ _ (w_now (s_world st)) st) by (by destruct st as [? []]). rewrite (bind_step _ _ _ l st) by done.
  eexists. split; [done|]. simpl. split; [by rewrite H|]. by constructor.
Qed.

(** The administration sees every schedule with its seats.  On a network without faults
    the list has every schedule that is not removed, once, by starting time, with the number
    of its seats, of those that are available, and of the others as booked. *)
Theorem admin_list_counts_seats find_titles st :
  w_faults (s_world st) = [] → map_Forall (λ i s, sc_id s = i) (d_schedules (s_db st)) →
  ∃ l, list_schedules find_titles st = (inl l, st) ∧
    map as_row l ≡ₚ filter (λ s, sc_deleted_at s = None) (map snd (map_to_list (d_schedules (s_db st)))) ∧ Sorted.StronglySorted starts_before (map as_row l) ∧
    Forall (λ e, let i := sc_id (as_row e) in as_total_seats e = seats_of i (λ _, true) (s_db st) ∧
      as_available_seats e = seats_of i is_available (s_db st) ∧ as_booked_seats e = seats_of i (λ r, negb (is_available r)) (s_db st)) l.
Proof.
  intros Hf Hid. unfold list_schedules. set (d := s_db st).
  assert (∀ A (q : db → A), query q st = (inl (q d), st)) as Hq.
  { intros A q. unfold query. apply or_err_step. by rewrite db_query_ok. }
  rewrite (and_then_step _ _ st tt st) by (unfold connected; by rewrite (bind_step _ _ _ true st) by by apply db_get_ok).
  rewrite (and_then_step _ _ st _ st (Hq _ kept_rows)). set (rows := kept_rows d).
  assert (∃ c, admin_counts (map sc_id rows) st = (inl c, st) ∧ ∀ i, i ∈ map sc_id rows →
    default 0 (c.1 !! i) = seats_of i (λ _, true) d ∧ default 0 (c.2 !! i) = seats_of i is_available d) as (c & Ec & Hc).
  { unfold admin_counts. case_bool_decide as He.
    - eexists. split; [done|]. rewrite He. by intros i ?%not_elem_of_nil.
    - rewrite (and_then_step _ _ st _ st (Hq _ _)), (and_then_step _ _ st _ st (Hq _ _)). eexists. split; [done|].
      intros i Hi. unfold seats_of. simpl. by rewrite !grouped_counts_lookup. }
  rewrite (and_then_step _ _ st c st Ec). match goal with |- context [enriched ?t c rows] => set (titles := t) end.
  destruct (enriched_rows titles c rows st) as (l & El & Hl & Hcounts). rewrite (bind_step _ _ _ l st El).
  exists l. split; [done|]. rewrite Hl. split; [unfold rows, kept_rows; by rewrite merge_sort_Permutation|].
  split; [apply (StronglySorted_merge_sort starts_before)|]. rewrite Forall_forall in Hcounts |- *. intros e He. destruct (Hcounts e He) as (H1 & H2 & H3 & _).
  assert (sc_id (as_row e) ∈ map sc_id rows) as Hi by (rewrite <-Hl; apply list_elem_of_fmap_2, list_elem_of_fmap_2, He).
  destruct (Hc _ Hi) as [E1 E2]. split_and!; [congruence|congruence|]. rewrite H3, H1, H2, E1, E2, (seats_split _ is_available). lia.
Qed.
End counts.

Section sales.
Context {D : Type} `{!RedisServer D} `{!RedisLaws D} {HJ : JsonText} {HO : ObjectIds} {HT : ShowText} {HL : ShowLaws HT HJ} {HS : StatsText}.

(** The figures that are not cached: those of the database, and for the sales those of
    [bookings].  With no rows there, as the repository leaves it, no order is ever counted. *)
Theorem figures_count_database bookings (c : catalog D) n :
  quiet c n → (∀ t, r_get n t ADMIN_STATS = None) →
  let d := s_db (ct_site c) in
  ∃ f, (get_stats bookings c).1 = inl f ∧ st_total_users f = Z.of_nat (size (d_users d)) ∧
    st_total_shows f = Z.of_nat (length (filter (λ x, active_show x = true) (map snd (map_to_list (mg_shows (ct_mongo c)))))) ∧
    st_available_seats f = Z.of_nat (length (filter (λ r, ss_status r = Available) (d_seats d))) ∧
    st_total_bookings f = Z.of_nat (length bookings) ∧ (bookings = [] → st_total_revenue f = "0.0").
Proof.
  intros Hq Hn d. unfold get_stats. rewrite (bind_step _ _ _ _ _ (get_async_step de_stats ADMIN_STATS c n Hq)). unfold looked_up. rewrite Hn.
  cbn [mbind option_bind]. assert (∀ q, counted q c = (q d, c)) as Hc.
  { intros q. unfold counted. rewrite (bind_step _ _ _ (Some (q d)) c); [done|]. by apply on_site_same, db_query_ok, Hq. }
  rewrite (bind_step _ _ _ true c) by (by apply on_site_same, db_get_ok, Hq). rewrite (and_then_step _ _ c tt c) by done.
  do 3 rewrite (bind_step _ _ _ _ _ (Hc _)). rewrite (bind_step _ _ _ (Some bookings) c) by (by apply on_site_same, db_query_ok, Hq).
  rewrite (bind_step _ _ _ _ _ (Hc _)), (bind_step _ _ _ _ _ (mongo_query_step _ c n Hq)).
  assert (0 < TTL_ADMIN_STATS ≤ TTL_24_HOURS) as Ht by (by vm_compute).
  rewrite (bind_step _ _ _ _ _ (set_async_step _ _ _ c n Hq (day_ok _ Ht))). eexists. split; [done|]. cbn -[size].
  split_and!; [done| |done|done|by intros ->]. unfold documents. by rewrite natural_perm.
Qed.
End sales.

(** ** Shows: what is accepted is served

    The shows are read as [show_of_document] reads them. *)

Section shows.
Context {D : Type} `{!RedisServer D} {HJ : JsonText} {HO : ObjectIds} {HT : ShowText}.
Variable parse_rfc3339 : string → option Z.
Variable f32_of_double : string → string.
Variable f32_of_int : Z → string.
Variable object_id_of : bson → option string.
Abbreviation reader := (show_of_document parse_rfc3339 f32_of_double f32_of_int object_id_of).
Hypothesis reads_shows : ∀ d, read_show d = reader d.
Hypothesis reads_creation : ∀ d, show_created_at d = sh_created_at <$> reader d.

(** The show of a request, and a show that is marked as removed. *)
Definition asked_show (oid : string) (created : option Z) (body : create_show_request) (now : Z) : show :=
  with_identity oid created (show_of_request body now).
Definition removed_show (now : Z) (s : show) : show :=
  Show (sh_id s) (sh_show_type s) (sh_title s) (sh_description s) (sh_tags s) (sh_category_ids s)
    (sh_poster_url s) (sh_backdrop_url s) (sh_thumbnail_url s) (sh_trailer_url s) (sh_teaser_url s)
    (sh_language s) (sh_genre s) (sh_score s) (sh_weight s) (sh_next_start_time s) (sh_status s) (sh_duration_minutes s)
    (sh_director s) (sh_director_photo_url s) (sh_cast s) (sh_host s) (sh_host_photo_url s) (sh_performers s)
    (sh_sport s) (sh_team_a s) (sh_team_b s) (sh_venue s) (sh_match_round s) (sh_city s) (sh_created_at s) (Some now).

(** The show that the database has under an identifier, and what requests for it answer. *)
Definition stored_show (oid : string) (c : catalog D) : option show := mg_shows (ct_mongo c) !! oid ≫= reader.
Definition details_are (id : string) (s : show) (c : catalog D) : Prop :=
  ∀ c' : catalog D, ct_mongo c' = ct_mongo c → (on_redis draw c').1 = FOk → (get_show_details id c').1 = inl s.

Lemma redis_mongo {A} (f : St (world D) A) c : ct_mongo (on_redis f c).2 = ct_mongo c.
Proof. by apply (keeps_on_redis (ct_mongo c) f c). Qed.

Lemma stored_details id oid s c : parse_object_id id = Some oid → stored_show oid c = Some s → details_are id s c.
Proof.
  unfold stored_show, details_are, get_show_details. intros -> Hs c' Hm Hf. pose proof (redis_mongo draw c') as Hd.
  unfold find_show, or_err, and_then, mongo_query, mbind, St_bind, mret, St_ret. destruct (on_redis draw c') as [fl c1]. simpl in *. subst fl.
  rewrite Hd, Hm. destruct (mg_shows (ct_mongo c) !! oid) as [d|]; [|done]. simpl in *. by rewrite reads_shows, Hs.
Qed.

(** What holds of the database after requests to Redis, and after a committed transaction. *)
Lemma keeps_mongo {A} (Q : mongo → Prop) (f : St (world D) A) : keeps (λ c, Q (ct_mongo c)) (on_redis f).
Proof. intros c Hc. by rewrite redis_mongo. Qed.
Lemma hoare_committed m tx : hoare (mongo_is m) (mongo_run (D:=D) tx) (λ ok c, ok = true → tx m = Some (ct_mongo c)).
Proof.
  intros c Hc. unfold mongo_run. pose proof (redis_mongo draw c) as H. destruct (on_redis draw c) as [fl c1].
  unfold mongo_is in *. simpl in *. rewrite H, Hc. by destruct fl, (tx m).
Qed.

(** A request that runs one transaction and then drops entries of the cache succeeds with what
    the transaction made. *)
Lemma hoare_one_tx {A} m tx (Q : mongo → Prop) (k : St (catalog D) (A + app_error)) e : (∀ m', tx m = Some m' → Q m') →
  (∀ P : mongo → Prop, keeps (λ c, P (ct_mongo c)) k) →
  hoare (mongo_is m) (ok ← mongo_run tx; if negb ok then mret (inr e) else k) (λ r c, ∀ a, r = inl a → Q (ct_mongo c)).
Proof.
  intros HQ Hk. eapply hoare_bind; [apply hoare_committed|]. intros [|]; simpl.
  - intros c Hc a _. apply (Hk Q), HQ, Hc, eq_refl.
  - by intros c _ a.
Qed.

Lemma keeps_lists (Q : mongo → Prop) : keeps (λ c, Q (ct_mongo c)) (invalidate_lists (D:=D)).
Proof. apply keeps_bind; intros; apply keeps_mongo. Qed.
Lemma keeps_show (Q : mongo → Prop) id : keeps (λ c, Q (ct_mongo c)) (invalidate_show (D:=D) id).
Proof. do 2 (apply keeps_bind; [apply keeps_mongo|intros _]). apply keeps_lists. Qed.
Lemma hoare_query m {A} (q : mongo → A) : hoare (mongo_is m) (mongo_query (D:=D) q) (λ r c, (r = None ∨ r = Some (q m)) ∧ mongo_is m c).
Proof.
  intros c Hc. split; [|by apply keeps_mongo_query]. unfold mongo_query. pose proof (redis_mongo draw c) as H. destruct (on_redis draw c) as [fl c1].
  unfold mongo_is in *. simpl in *. rewrite H, Hc. destruct fl; auto.
Qed.

Lemma removed_read now d s : reader d = Some s → reader (set_field "deleted_at" (BDateTime now) d) = Some (removed_show now s).
Proof.
  unfold show_of_document. rewrite assoc_set_field, !set_other by done. intros H.
  repeat (apply bind_Some in H as (? & E & H); rewrite E; clear E; cbn [mbind option_bind]).
  apply bind_Some in H as (? & _ & H). by injection H as <-.
Qed.

Lemma asked_read oid created body now : show_ok f32_of_double (show_of_request body 0) →
  reader (show_document (asked_show oid created body now)) = Some (asked_show oid created body now).
Proof. intros [Hw Hd Hs Hc]. apply show_read_back. by split. Qed.

(** What each request leaves, when it succeeds. *)
Lemma created_show m oid event body : hoare (mongo_is m) (create_show (D:=D) oid event body)
  (λ r c, ∀ a, r = inl a → ∃ now, mg_shows (ct_mongo c) !! oid = Some (show_document (asked_show oid (Some now) body now))).
Proof.
  unfold create_show. destruct (is_empty _); [by intros ? _ ?|]. eapply hoare_bind; [apply keeps_on_redis|]. intros now.
  apply (hoare_one_tx _ _ (λ m, ∃ now, mg_shows m !! oid = Some (show_document (asked_show oid (Some now) body now)))).
  - intros m'. unfold create_show_tx, insert_show. destruct (mg_shows _ !! oid); [done|]. simpl. intros [-> _]%file_event_keeps.
    exists now. simpl. by rewrite lookup_insert_eq.
  - intros P. apply keeps_bind; [apply keeps_lists|]. intros; apply keeps_ret.
Qed.

Lemma updated_show m event id body : hoare (mongo_is m) (update_show (D:=D) event id body)
  (λ r c, ∀ a, r = inl a → ∃ oid d created now, parse_object_id id = Some oid ∧ mg_shows m !! oid = Some d ∧ show_created_at d = Some created ∧
     mg_shows (ct_mongo c) !! oid = Some (show_document (asked_show oid created body now))).
Proof.
  unfold update_show. destruct (parse_object_id id) as [oid|]; [|by intros ? _ ?].
  eapply hoare_bind; [apply hoare_query|]. intros r. apply hoare_pure. intros [-> | ->]; [by intros ? _ ?|].
  destruct (mg_shows m !! oid) as [d|] eqn:Hd; cbn [mbind option_bind]; [|by intros ? _ ?].
  destruct (show_created_at d) as [created|] eqn:Hcr; [|by intros ? _ ?].
  eapply hoare_bind; [apply keeps_on_redis|]. intros now.
  eapply hoare_conseq; [done| |apply (hoare_one_tx _ _ (λ m', mg_shows m' !! oid = Some (show_document (asked_show oid created body now))))].
  - intros r c H a ->. exists oid, d, created, now. eauto.
  - intros m'. unfold update_show_tx, replace_show. rewrite Hd. intros [-> _]%file_event_keeps. simpl. by rewrite lookup_insert_eq.
  - intros P. apply keeps_bind; [apply keeps_show|]. intros; apply keeps_ret.
Qed.

Lemma deleted_show m event id : hoare (mongo_is m) (delete_show (D:=D) event id)
  (λ r c, ∀ a, r = inl a → ∃ oid now, parse_object_id id = Some oid ∧
     mg_shows (ct_mongo c) !! oid = set_field "deleted_at" (BDateTime now) <$> mg_shows m !! oid).
Proof.
  unfold delete_show. destruct (parse_object_id id) as [oid|]; [|by intros ? _ ?].
  eapply hoare_bind; [apply keeps_on_redis|]. intros now.
  eapply hoare_conseq; [done| |apply (hoare_one_tx _ _ (λ m', mg_shows m' !! oid = set_field "deleted_at" (BDateTime now) <$> mg_shows m !! oid))].
  - intros r c H a ->. exists oid, now. eauto.
  - intros m'. unfold delete_show_tx, update_show_fields. intros [-> _]%file_event_keeps.
    destruct (mg_shows m !! oid) as [d|] eqn:Hd; [|done]. simpl. by rewrite lookup_insert_eq.
  - intros P. apply keeps_bind; [apply keeps_show|]. intros; apply keeps_ret.
Qed.

Lemma answered {A} (h : St (catalog D) (A + app_error)) c :
  ((r ← h; mret (match r with inl _ => true | inr _ => false end)) c).1 = true →
  ∃ a, (h c).1 = inl a ∧ ((r ← h; mret (match r with inl _ => true | inr _ => false end)) c).2 = (h c).2.
Proof. unfold mbind, St_bind. destruct (h c) as [[a|e] c1]; [|done]. intros _. by exists a. Qed.

(** C14: What the administration accepts is served.  A request to create a show that is answered
    with success leaves under the new identifier the show of the request, created now; one to
    update a show replaces it by the show of the request with the identifier and the time of
    creation of the old one, so that a removed show is back; one to remove a show marks it and
    changes no other field.  Until the shows change again every answer to a request for the
    details that no fault hits is that show, the removed one included. *)
Theorem accepted_show_is_served o c : (admin_run o c).1 = true →
  let c1 := (admin_run o c).2 in
  match o with
  | AdCreate oid event body => show_ok f32_of_double (show_of_request body 0) → parse_object_id oid = Some oid →
      ∃ now, details_are oid (asked_show oid (Some now) body now) c1
  | AdUpdate event id body => show_ok f32_of_double (show_of_request body 0) →
      ∃ oid old now, parse_object_id id = Some oid ∧ stored_show oid c = Some old ∧
        details_are id (asked_show oid (sh_created_at old) body now) c1
  | AdDelete event id =>
      ∃ oid now, parse_object_id id = Some oid ∧ ∀ old, stored_show oid c = Some old → details_are id (removed_show now old) c1
  end.
Proof.
  intros Hr c1. assert (mongo_is (ct_mongo c) c) as Hc by done. subst c1.
  destruct o as [oid event body|event id body|event id]; simpl in Hr |- *; apply answered in Hr as (a & Ha & ->).
  - intros Hb Hid. destruct (created_show _ oid event body c Hc a Ha) as (now & H). exists now.
    apply (stored_details _ oid); [done|]. unfold stored_show. rewrite H. by apply asked_read.
  - intros Hb. destruct (updated_show _ event id body c Hc a Ha) as (oid & d & created & now & Hid & Hd & Hcr & H).
    rewrite reads_creation in Hcr. apply fmap_Some in Hcr as (old & Hold & ->). exists oid, old, now. split; [done|].
    split; [unfold stored_show; by rewrite Hd|]. apply (stored_details _ oid); [done|]. unfold stored_show. rewrite H. by apply asked_read.
  - destruct (deleted_show _ event id c Hc a Ha) as (oid & now & Hid & H). exists oid, now. split; [done|].
    unfold stored_show at 1. intros old (d & Hd & Hold)%bind_Some. apply (stored_details _ oid); [done|]. unfold stored_show. rewrite H, Hd. by apply removed_read.
Qed.
End shows.

(** A show that was created and removed is updated. *)
Definition read_as : document → option show := show_of_document (λ _, None) id show_Z (λ _, None).
Definition whole_ids : ObjectIds := {|
  parse_object_id s := if is_empty s then None else Some s;
  show_created_at d := sh_created_at <$> read_as d;
  mongo_error := "mongo"
|}.
Definition whole_shows : ShowText := {|
  read_show := read_as; show_json := show_json; de_show := de_show; natural := map_to_list; by_weight := id; by_creation := id;
  title_or_tag := title_or_tag; regex_ok := regex_ok; skip_ok := skip_ok
|}.
Definition before_update : catalog mem_redis :=
  (admin_requests (HO := whole_ids) [AdCreate "s1" "e5" (form "First"); AdDelete "e6" "s1"] (administration catalogue)).2.

Lemma accepted_show_is_served_witness :
  let o := AdUpdate "e7" "s1" (form "Second") in
  let c1 := (admin_run (HO := whole_ids) o before_update).2 in
  ((λ s, (sh_title s, sh_deleted_at s)) <$> (mg_shows (ct_mongo before_update) !! "s1" ≫= read_as)) = Some ("First", Some 5000) ∧
  (∃ oid old now, Some "s1" = Some oid ∧ mg_shows (ct_mongo before_update) !! oid ≫= read_as = Some old ∧
     details_are (HO := whole_ids) (HT := whole_shows) "s1" (asked_show oid (sh_created_at old) (form "Second") now) c1) ∧
  ((λ s, (sh_title s, sh_deleted_at s)) <$> (mg_shows (ct_mongo c1) !! "s1" ≫= read_as)) = Some ("Second", None).
Proof.
  intros o c1. split; [vm_compute; reflexivity|]. split; [|vm_compute; reflexivity].
  assert (show_ok id (show_of_request (form "Second") 0)) as Hok by (split; [done|done|intros x; simpl; discriminate|intros l; simpl; discriminate]).
  exact (accepted_show_is_served (HO := whole_ids) (HT := whole_shows) (λ _, None) id show_Z (λ _, None) (λ _, eq_refl) (λ _, eq_refl)
    o before_update ltac:(vm_compute; reflexivity) Hok).
Defined.
