(* ===== verification/HttpUploads.v ===== *)
(** * HttpUploads: files in the object storage
    ([apps/http-server/src/services/r2.rs], [api/admin/upload.rs], [api/internal.rs])

    The bucket is a map from keys to what is stored: a later object replaces an earlier one
    under the same key.  [env] is the environment of the process; reading the multipart form
    and drawing the PDF are library code, and their results are arguments. *)

From stdpp Require Import gmap.
From S2P Require Import Prelude Text Redis RedisMem SeatLock HttpPayments NotifyConfig.

#[local] Open Scope string_scope.
#[local] Open Scope list_scope.
#[local] Open Scope Z_scope.

Record stored := Stored { so_content_type : string; so_data : string }.
Record bucket (D : Type) := Bucket { bk_world : world D; bk_objects : gmap string stored }.
Arguments Bucket {D}. Arguments bk_world {D}. Arguments bk_objects {D}.

Record upload_result := UploadResult { up_url : string; up_key : string }.
Record form_field := FormField { fd_file_name : option string; fd_content_type : option string; fd_data : string + string }.

Definition need (env : environment) (name : string) : string + app_error :=
  match value env name with Some v => inl v | None => inr (internal (name +:+ " must be configured")) end.

(** The endpoint of the client. *)
Definition build_client (env : environment) : string + app_error :=
  let account_id := default EmptyString (env "CLOUDFLARE_R2_ACCOUNT_ID") in
  if negb ((String.length account_id =? 32)%nat && forallb hex_digit (bytes account_id))
  then inr (internal "CLOUDFLARE_R2_ACCOUNT_ID must contain 32 hexadecimal characters")
  else if is_empty (trim (default EmptyString (env "CLOUDFLARE_R2_ACCESS_KEY_ID"))) ||
          is_empty (trim (default EmptyString (env "CLOUDFLARE_R2_SECRET_ACCESS_KEY")))
  then inr (internal "R2 access key and secret key must be configured")
  else match resolve_endpoint account_id (env "CLOUDFLARE_R2_ENDPOINT") with
       | Some e => inl e
       | None => inr (internal "CLOUDFLARE_R2_ENDPOINT must be the HTTPS R2 S3 endpoint for CLOUDFLARE_R2_ACCOUNT_ID; omit it to derive automatically")
       end.

Section uploads.
Context {D : Type} `{!RedisServer D} {HU : UrlParser}.
Variable env : environment.
Abbreviation B := (St (bucket D)).

Definition settings : string * string + app_error :=
  match need env "CLOUDFLARE_R2_BUCKET", need env "NEXT_PUBLIC_R2_PUBLIC_URL" with
  | inr e, _ => inr e
  | _, inr e => inr e
  | inl bucket, inl public_url =>
      match upload_settings env with
      | Some s => inl s
      | None => inr (internal "NEXT_PUBLIC_R2_PUBLIC_URL must be an HTTP(S) public bucket URL")
      end
  end.

Definition on_world {A} (m : St (world D) A) : B A := zoom bk_world (λ w b, Bucket w (bk_objects b)) m.

(** The object may be stored and its answer lost. *)
Definition put_object (key : string) (o : stored) : B bool :=
  fl ← on_world draw;
  when (bool_decide (fl ≠ FDown)) (st_modify (λ b, Bucket (bk_world b) (<[key := o]> (bk_objects b)))) ;;
  mret (bool_decide (fl = FOk)).

Definition url_of (public_url key : string) : string := trim_end_slashes public_url +:+ "/" +:+ key.
Definition upload_failed : app_error := internal "R2 upload failed".

Definition upload_from_multipart (next_field : option form_field + string) : B (upload_result + app_error) :=
  match settings, build_client env with
  | inr e, _ | _, inr e => mret (inr e)
  | inl (_, pub_url), inl _ =>
      match next_field with
      | inr e => mret (inr (bad_request e))
      | inl None => mret (inr (bad_request "No file provided in multipart form"))
      | inl (Some field) =>
          match fd_data field with
          | inr e => mret (inr (bad_request e))
          | inl data =>
              now ← on_world now_ms;
              let key := show_Z now +:+ "-" +:+ default "upload" (fd_file_name field) in
              ok ← put_object key (Stored (default "application/octet-stream" (fd_content_type field)) data);
              mret (if (ok : bool) then inl (UploadResult (url_of pub_url key) key) else inr upload_failed)
          end
      end
  end.

Definition upload_pdf_bytes (pdf_bytes file_name : string) : B (upload_result + app_error) :=
  now ← on_world now_ms;
  let key := "tickets/" +:+ show_Z now +:+ "-" +:+ file_name in
  if bool_decide (default EmptyString (env "APP_MODE") = "test")
  then mret (inl (UploadResult (url_of (default "https://example.com" (env "NEXT_PUBLIC_R2_PUBLIC_URL")) key) key))
  else
    match settings, build_client env with
    | inr e, _ | _, inr e => mret (inr e)
    | inl (_, pub_url), inl _ =>
        ok ← put_object key (Stored "application/pdf" pdf_bytes);
        mret (if (ok : bool) then inl (UploadResult (url_of pub_url key) key) else inr upload_failed)
    end.

(** [create_pdf_bytes] draws the text of the request. *)
Definition generate_pdf_ticket (pdf : option string) (order_id : string) : B (string + app_error) :=
  match pdf with
  | None => mret (inr (internal "pdf"))
  | Some pdf_bytes =>
      upload_res ←? upload_pdf_bytes pdf_bytes ("ticket_" +:+ order_id +:+ ".pdf");
      mret (inl (up_url upload_res))
  end.
End uploads.

(** ** What is stored *)

Section properties.
Context {D : Type} `{!RedisServer D} {HU : UrlParser}.
Variable env : environment.
Implicit Types (b : bucket D).

(** An upload that is answered with a key is in the bucket, under that key, and the URL is
    the public one of the key; whatever the network does, nothing else in the bucket changes. *)
Theorem upload_is_stored field b :
  let '(r, b') := upload_from_multipart env (inl (Some field)) b in
  let key := show_Z (w_now (bk_world b)) +:+ "-" +:+ default "upload" (fd_file_name field) in
  (∀ u, r = inl u → ∃ data pub, fd_data field = inl data ∧ up_key u = key ∧ up_url u = url_of pub key ∧
    bk_objects b' !! key = Some (Stored (default "application/octet-stream" (fd_content_type field)) data)) ∧
  ∀ k, k ≠ key → bk_objects b' !! k = bk_objects b !! k.
Proof.
  unfold upload_from_multipart. destruct (settings env) as [[bk pub]|e]; [|done]. destruct (build_client env) as [c|e]; [|done].
  destruct (fd_data field) as [data|e]; [|done]. destruct b as [[ns t fl lg] objects].
  unfold mbind, St_bind, on_world, zoom, put_object, now_ms. simpl. destruct fl as [|[| |] fl]; simpl; split; try done;
    try (intros k Hk; by rewrite lookup_insert_ne by congruence); intros u [= <-]; exists data, pub; by rewrite lookup_insert_eq.
Qed.

(** Files with one name in one millisecond share a key: both are answered with the same URL,
    and the bucket has the second. *)
Theorem uploads_share_a_key name type1 data1 type2 data2 b bk pub c :
  settings env = inl (bk, pub) → build_client env = inl c → w_faults (bk_world b) = [] →
  let '(r1, b1) := upload_from_multipart env (inl (Some (FormField (Some name) (Some type1) (inl data1)))) b in
  let '(r2, b2) := upload_from_multipart env (inl (Some (FormField (Some name) (Some type2) (inl data2)))) b1 in
  ∃ u, r1 = inl u ∧ r2 = inl u ∧ bk_objects b2 !! up_key u = Some (Stored type2 data2).
Proof.
  intros Hs Hc Hf. unfold upload_from_multipart. rewrite Hs, Hc. destruct b as [[ns t fl lg] objects]. simpl in Hf. subst fl.
  unfold mbind, St_bind, on_world, zoom, put_object, now_ms. simpl. eexists. split; [done|]. split; [done|]. by rewrite lookup_insert_eq.
Qed.
End properties.
