(* ===== verification/LoadTest.v ===== *)
(** * LoadTest: the generator of lock contention ([apps/load-test-runner/src/main.rs])

    A run is a dispatcher, that puts a message into a bounded channel at each tick, and
    workers that take the messages one after the other and ask the gateway for the test
    seat at each.  They are one system ([load]) with a step per point where a task waits;
    a schedule ([list load_event]) is any interleaving of the steps, with whatever other
    clients do to the gateway in between.  The gateway is an interface, [SlotService].  The
    observed rate, a division of two floats, and its text are parameters. *)

From S2P Require Import Prelude Text Keys Redis RedisMem SeatLock SingleNodeLock RateLimit ShowActor Events.
From S2P Require Import Gateway GatewayRequests GatewayApi NotifyConfig Outbox.

#[local] Open Scope string_scope.
#[local] Open Scope list_scope.
#[local] Open Scope Z_scope.
#[local] Arguments Z.mul : simpl never.
#[local] Arguments Z.add : simpl never.
#[local] Arguments Z.sub : simpl never.

Definition newline : string := String (Ascii.ascii_of_nat 10) EmptyString.
Definition quote1 : string := String (Ascii.ascii_of_nat 34) EmptyString.

(** ** The payload *)

Record lock_payload := LockPayload {
  lp_showtime_id : Z; lp_seat_ids : list Z; lp_user_id : Z; lp_total_seat_count : Z; lp_seat_indices : list Z
}.

(** A field under one of two names: exactly one entry has either. *)
Definition aliased (names : string * string) (l : list (string * json)) : option json :=
  match filter (λ kv, kv.1 = names.1 ∨ kv.1 = names.2) l with [(_, v)] => Some v | _ => None end.

Definition payload_names : list (string * string) :=
  [("showtime_id", "showtimeId"); ("seat_ids", "seatIds"); ("user_id", "userId");
   ("total_seat_count", "totalSeatCount"); ("seat_indices", "seatIndices")].

Definition de_lock_payload (j : json) : option lock_payload :=
  fs ← (match j with
        | JObj l => mapM (λ names, aliased names l) payload_names
        | JArr l => Some l
        | _ => None
        end);
  match fs with
  | [a; b; c; d; e] =>
      a ← de_i32 a; b ← de_vec de_i32 b; c ← de_i32 c; d ← de_i32 d; e ← de_vec de_i32 e;
      Some (LockPayload a b c d e)
  | _ => None
  end.

(** The errors of the program, by where they come from. *)
Inductive load_error :=
  | Required (name : string)
  | NotJson
  | NotIsolated
  | NotInteger (name : string)
  | OutOfBounds (name : string) (maximum : Z)
  | NoConnection
  | CallFailed
  | SeatNotFree
  | PushFailed
  | PushRejected (status : Z)
  | LoadTestFailed.

Definition validate (p : lock_payload) : unit + load_error :=
  if (lp_showtime_id p <=? 0)
     || (lp_user_id p <=? 0)
     || (lp_total_seat_count p <=? 0)
     || bool_decide (length (lp_seat_ids p) ≠ 1%nat)
     || bool_decide (length (lp_seat_indices p) ≠ 1%nat)
     || (default 0 (lp_seat_ids p !! 0%nat) <=? 0)
     || (default 0 (lp_seat_indices p !! 0%nat) <=? 0)
     || (lp_total_seat_count p <? default 0 (lp_seat_indices p !! 0%nat))
  then inr NotIsolated
  else inl tt.

(** The requests are those of [packages/proto]: the seats of [GatewayApi] with the user and
    the show. *)
Record slot_request := SlotRequest { sl_user_id : Z; sl_showtime_id : Z; sl_seats : seat_request }.
Definition lock_request (p : lock_payload) : slot_request :=
  SlotRequest (lp_user_id p) (lp_showtime_id p) (SeatRequest (lp_seat_ids p) (lp_seat_indices p) (lp_total_seat_count p)).
Definition unlock_request (p : lock_payload) : slot_request :=
  SlotRequest (lp_user_id p) (lp_showtime_id p) (SeatRequest (lp_seat_ids p) (lp_seat_indices p) (lp_total_seat_count p)).

(** ** The configuration *)

Record config := Config {
  cf_target : string; cf_payload : lock_payload; cf_rps : Z; cf_duration_seconds : Z;
  cf_workers : Z; cf_threads : Z; cf_run_id : string; cf_pushgateway_url : string
}.

Definition required_var (env : environment) (name : string) : string + load_error :=
  match env name with Some v => inl v | None => inr (Required name) end.

Definition positive (env : environment) (name : string) (dflt maximum : Z) : Z + load_error :=
  match (match env name with
         | None => Some dflt
         | Some v => parse_u64 v
         end) with
  | None => inr (NotInteger name)
  | Some value => if (value =? 0) || (maximum <? value) then inr (OutOfBounds name maximum) else inl value
  end.

Definition orr {A B E} (x : A + E) (f : A → B + E) : B + E := match x with inl a => f a | inr e => inr e end.

Definition from_env `{JsonText} (env : environment) : config + load_error :=
  orr (required_var env "LOAD_TEST_GRPC_PAYLOAD") (λ text,
  orr (match json_parse text ≫= de_lock_payload with Some p => inl p | None => inr NotJson end) (λ payload,
  orr (validate payload) (λ _,
  orr (positive env "LOAD_TEST_RPS" 50 10000) (λ rps,
  orr (positive env "LOAD_TEST_DURATION_SECONDS" 600 14400) (λ duration_seconds,
  orr (positive env "LOAD_TEST_CONCURRENCY" 100 5000) (λ workers,
  orr (positive env "LOAD_TEST_THREADS" 4 32) (λ threads,
  orr (required_var env "LOAD_TEST_RUN_ID") (λ run_id,
  inl (Config
    (default "http://gateway-keeper.bookit.svc.cluster.local:50052" (env "LOAD_TEST_GRPC_TARGET"))
    payload rps duration_seconds workers threads run_id
    (default "http://load-test-pushgateway.monitoring.svc.cluster.local:9091" (env "LOAD_TEST_PUSHGATEWAY_URL"))))))))))).

(** [u64::saturating_mul]. *)
Definition saturating_mul (a b : Z) : Z := Z.min (a * b) (2 ^ 64 - 1).
Definition attempts_of (c : config) : Z := saturating_mul (cf_rps c) (cf_duration_seconds c).
Definition queue_size (c : config) : Z := saturating_mul (cf_workers c) 2.

(** ** The counters *)

Record counters := Counters { requested : Z; accepted : Z; conflicts : Z; transport_errors : Z; dropped : Z }.
Definition no_counters : counters := Counters 0 0 0 0 0.

(** [AtomicU64::fetch_add] of 1 wraps around. *)
Definition bump (x : Z) : Z := u64 (x + 1).
Definition count_requested (c : counters) : counters :=
  Counters (bump (requested c)) (accepted c) (conflicts c) (transport_errors c) (dropped c).
Definition count_transport_error (c : counters) : counters :=
  Counters (requested c) (accepted c) (conflicts c) (bump (transport_errors c)) (dropped c).
Definition count_dropped (c : counters) : counters :=
  Counters (requested c) (accepted c) (conflicts c) (transport_errors c) (bump (dropped c)).
(** How an answer is counted: a response, or no response. *)
Definition count_answer (r : option lock_response) (c : counters) : counters :=
  match r with
  | Some r =>
      if lr_success r
      then Counters (requested c) (bump (accepted c)) (conflicts c) (transport_errors c) (dropped c)
      else Counters (requested c) (accepted c) (bump (conflicts c)) (transport_errors c) (dropped c)
  | None => count_transport_error c
  end.

(** ** The service under test *)

(** A connection is made or not; a call has a response or fails, by a status or by the
    timeout of ten seconds. *)
Class SlotService (S : Type) := {
  sv_connect : St S bool;
  sv_lock_slot : slot_request → St S (option lock_response);
  sv_unlock_slot : slot_request → St S bool
}.

(** ** The dispatcher and the workers *)

(** Where a worker stands: before its connection, at the mutex of the receiver, with the
    mutex and waiting for a message, with a message, and gone. *)
Inductive load_worker := Connecting | AtMutex | Receiving | Asking | NotConnected | Drained.

#[export] Instance load_worker_eq : EqDecision load_worker.
Proof. solve_decision. Defined.

Definition gone (w : load_worker) : bool := match w with NotConnected | Drained => true | _ => false end.

(** The ticks to come, whether the sender lives, the messages in the channel. *)
Record load := Load {
  ld_ticks : Z; ld_open : bool; ld_queued : Z; ld_workers : list load_worker; ld_counters : counters
}.

Definition set_worker (i : nat) (w : load_worker) (l : load) : load :=
  Load (ld_ticks l) (ld_open l) (ld_queued l) (<[i := w]> (ld_workers l)) (ld_counters l).
Definition set_counters (f : counters → counters) (l : load) : load :=
  Load (ld_ticks l) (ld_open l) (ld_queued l) (ld_workers l) (f (ld_counters l)).

Section phase.
Context {S : Type} `{!SlotService S}.

Inductive load_event :=
  | Tick                            (** the dispatcher: [try_send] *)
  | DropSender
  | Connect (i : nat)
  | TakeMutex (i : nat)
  | Receive (i : nat)
  | Ask (i : nat)                   (** the call and its answer *)
  | Elsewhere (s : S).              (** the service, on its own or for others *)

Definition tick (capacity : Z) (l : load) : load :=
  if ld_queued l <? capacity
  then Load (ld_ticks l - 1) (ld_open l) (ld_queued l + 1) (ld_workers l) (ld_counters l)
  else Load (ld_ticks l - 1) (ld_open l) (ld_queued l) (ld_workers l) (count_dropped (ld_counters l)).

(** [recv]: a message, the end of a channel that is closed and empty, or nothing yet. *)
Definition receive (i : nat) (l : load) : option load :=
  if 0 <? ld_queued l
  then Some (Load (ld_ticks l) (ld_open l) (ld_queued l - 1) (<[i := Asking]> (ld_workers l)) (count_requested (ld_counters l)))
  else if ld_open l then None else Some (set_worker i Drained l).

(** [None] when the step is not possible. *)
Definition load_step (c : config) (e : load_event) (x : load * S) : option (load * S) :=
  let '(l, s) := x in
  match e with
  | Tick => if 0 <? ld_ticks l then Some (tick (queue_size c) l, s) else None
  | DropSender =>
      if (ld_ticks l <=? 0) && ld_open l
      then Some (Load (ld_ticks l) false (ld_queued l) (ld_workers l) (ld_counters l), s) else None
  | Connect i =>
      match ld_workers l !! i with
      | Some Connecting =>
          let '(ok, s) := sv_connect s in
          Some (if (ok : bool) then set_worker i AtMutex l
                else set_worker i NotConnected (set_counters count_transport_error l), s)
      | _ => None
      end
  | TakeMutex i =>
      match ld_workers l !! i with
      | Some AtMutex => if bool_decide (Receiving ∈ ld_workers l) then None else Some (set_worker i Receiving l, s)
      | _ => None
      end
  | Receive i =>
      match ld_workers l !! i with
      | Some Receiving => l ← receive i l; Some (l, s)
      | _ => None
      end
  | Ask i =>
      match ld_workers l !! i with
      | Some Asking =>
          let '(r, s) := sv_lock_slot (lock_request (cf_payload c)) s in
          Some (set_worker i AtMutex (set_counters (count_answer r) l), s)
      | _ => None
      end
  | Elsewhere s => Some (l, s)
  end.

Fixpoint load_steps (c : config) (es : list load_event) (x : load * S) : option (load * S) :=
  match es with
  | [] => Some x
  | e :: es => x ← load_step c e x; load_steps c es x
  end.

Definition load_start (c : config) : load :=
  Load (attempts_of c) true 0 (replicate (Z.to_nat (cf_workers c)) Connecting) no_counters.

(** Every worker is joined. *)
Definition joined (l : load) : bool := (ld_ticks l <=? 0) && negb (ld_open l) && forallb gone (ld_workers l).

(** ** The whole run *)

Definition verify_free_test_seat (c : config) : St S (unit + load_error) :=
  connected ← sv_connect;
  if negb connected then mret (inr NoConnection) else
  response ← sv_lock_slot (lock_request (cf_payload c));
  match response with
  | None => mret (inr CallFailed)
  | Some r =>
      if negb (lr_success r) || negb (bool_decide (default 0 (lp_seat_ids (cf_payload c) !! 0%nat) ∈ lr_locked r))
      then mret (inr SeatNotFree)
      else sv_unlock_slot (unlock_request (cf_payload c)) ;; mret (inl tt)
  end.

Record summary (F : Type) := Summary {
  su_counters : counters; su_duration_seconds : Z; su_observed_rps : F; su_target_rps : Z; su_workers : Z; su_threads : Z
}.

Definition verdict (c : counters) : unit + load_error :=
  if (accepted c =? 0) || (0 <? transport_errors c) || (0 <? dropped c) then inr LoadTestFailed else inl tt.

(** [F] is [f64], [show3] its text with three decimals. *)
Section report.
Context {F : Type}.
Variable show3 : F → string.

Definition gauge (name value : string) : string :=
  "# TYPE " +:+ name +:+ " gauge" +:+ newline +:+ name +:+ "{test_case=" +:+ quote1 +:+ "rust_lock_job" +:+ quote1 +:+ "} "
  +:+ value +:+ newline.
Definition metrics (su : summary F) : string :=
  gauge "bookit_load_test_rust_lock_requested_requests" (show_Z (requested (su_counters F su))) +:+
  gauge "bookit_load_test_rust_lock_accepted_requests" (show_Z (accepted (su_counters F su))) +:+
  gauge "bookit_load_test_rust_lock_conflict_requests" (show_Z (conflicts (su_counters F su))) +:+
  gauge "bookit_load_test_rust_lock_transport_errors" (show_Z (transport_errors (su_counters F su))) +:+
  gauge "bookit_load_test_rust_lock_dropped_requests" (show_Z (dropped (su_counters F su))) +:+
  gauge "bookit_load_test_rust_lock_observed_rps" (show3 (su_observed_rps F su)) +:+
  gauge "bookit_load_test_rust_lock_complete" "1".
Definition push_url (c : config) : string :=
  trim_end_slashes (cf_pushgateway_url c) +:+ "/metrics/job/bookit_rust_lock_load/run_id/" +:+ cf_run_id c.

(** [put] is the Pushgateway: a status for a URL and a body, or no answer. *)
Definition push_metrics (put : string → string → option Z) (c : config) (su : summary F) : unit + load_error :=
  match put (push_url c) (metrics su) with
  | None => inr PushFailed
  | Some status => if (200 <=? status) && (status <? 300) then inl tt else inr (PushRejected status)
  end.

(** The interleaving [es] of the load phase, what becomes of the service in the two seconds after
    the verification ([rest]), the seconds the phase took with the observed rate for the number
    of requests, and the Pushgateway are what the run meets.  [None]: the workers
    are not joined by the end of [es].  The summary is what is printed. *)
Definition run (c : config) (rest : S → S) (es : list load_event) (elapsed : Z) (rate : Z → F) (put : string → string → option Z) (s : S) :
    option (option (summary F) * (unit + load_error) * S) :=
  match verify_free_test_seat c s with
  | (inr e, s) => Some (None, inr e, s)
  | (inl _, s) =>
      '(l, s) ← load_steps c es (load_start c, rest s);
      if negb (joined l) then None else
      let '(connected, s) := sv_connect s in
      if negb connected then Some (None, inr NoConnection, s) else
      let '(_, s) := sv_unlock_slot (unlock_request (cf_payload c)) s in
      let su := Summary F (ld_counters l) elapsed (rate (requested (ld_counters l))) (cf_rps c) (cf_workers c) (cf_threads c) in
      Some (Some su, orr (push_metrics put c su) (λ _, verdict (su_counters F su)), s)
  end.
End report.
End phase.
Arguments load_event : clear implicits.
Arguments Summary {F}. Arguments su_counters {F}. Arguments su_duration_seconds {F}. Arguments su_observed_rps {F}.
Arguments su_target_rps {F}. Arguments su_workers {F}. Arguments su_threads {F}.

(** ** What a configuration guarantees *)

Lemma orr_inl {A B E} (x : A + E) (f : A → B + E) b : orr x f = inl b → ∃ a, x = inl a ∧ f a = inl b.
Proof. destruct x as [a|e]; [by exists a|done]. Qed.

Lemma positive_inl env name dflt maximum x :
  0 ≤ dflt → positive env name dflt maximum = inl x → 1 ≤ x ≤ maximum.
Proof.
  intros Hd. unfold positive. destruct (env name) as [v|]; simpl.
  - unfold parse_u64. destruct (parse_Z v) as [z|]; simpl; [|done]. destruct (_ && _) eqn:Hz; [|done].
    apply andb_true_iff in Hz as [[_ Hz%Z.leb_le]%andb_true_iff _].
    destruct (_ || _) eqn:E; [done|]. intros [= ->]. apply orb_false_iff in E as [E1%Z.eqb_neq E2%Z.ltb_ge]. lia.
  - destruct (_ || _) eqn:E; [done|]. intros [= ->]. apply orb_false_iff in E as [E1%Z.eqb_neq E2%Z.ltb_ge]. lia.
Qed.

(** One seat, inside the plan. *)
Definition isolated_seat (p : lock_payload) : Prop :=
  ∃ seat index, lp_seat_ids p = [seat] ∧ lp_seat_indices p = [index] ∧ 0 < seat ∧ 0 < index ≤ lp_total_seat_count p ∧
    0 < lp_showtime_id p ∧ 0 < lp_user_id p.

Lemma validate_inl p : validate p = inl tt ↔ isolated_seat p.
Proof.
  unfold validate, isolated_seat. split.
  - destruct (_ || _) eqn:E; [done|]. intros _.
    repeat match goal with H : _ || _ = false |- _ => apply orb_false_iff in H as [H ?] end.
    repeat match goal with
           | H : bool_decide _ = false |- _ => apply bool_decide_eq_false in H; apply dec_stable in H
           | H : (_ <=? _) = false |- _ => apply Z.leb_gt in H | H : (_ <? _) = false |- _ => apply Z.ltb_ge in H end.
    destruct (lp_seat_ids p) as [|seat []]; try done. destruct (lp_seat_indices p) as [|index []]; try done.
    simpl in *. exists seat, index. repeat split; lia.
  - intros (seat & index & -> & -> & H). cbn [length]. rewrite !(bool_decide_eq_false_2 (1%nat ≠ 1%nat)) by auto.
    destruct (_ || _) eqn:E; [|done]. exfalso. simpl in E.
    rewrite !orb_true_iff, !Z.leb_le, Z.ltb_lt in E. lia.
Qed.

Lemma from_env_inl `{JsonText} env c :
  from_env env = inl c →
  isolated_seat (cf_payload c) ∧ 1 ≤ cf_rps c ≤ 10000 ∧ 1 ≤ cf_duration_seconds c ≤ 14400 ∧
  1 ≤ cf_workers c ≤ 5000 ∧ 1 ≤ cf_threads c ≤ 32.
Proof.
  unfold from_env. intros (text & _ & (p & _ & ([] & Hv%validate_inl & Hc)%orr_inl)%orr_inl)%orr_inl.
  apply orr_inl in Hc as (rps & Hr%positive_inl & Hc); [|lia].
  apply orr_inl in Hc as (dur & Hd%positive_inl & Hc); [|lia].
  apply orr_inl in Hc as (ws & Hw%positive_inl & Hc); [|lia].
  apply orr_inl in Hc as (ths & Ht%positive_inl & Hc); [|lia].
  apply orr_inl in Hc as (id & _ & [= <-]). simpl. auto 10.
Qed.

(** What the load phase needs of a configuration: nothing saturates and no counter can wrap
    around. *)
Definition config_ok (c : config) : Prop :=
  attempts_of c = cf_rps c * cf_duration_seconds c ∧ 0 < attempts_of c ∧ queue_size c = 2 * cf_workers c ∧ 0 < cf_workers c ∧
  attempts_of c + cf_workers c < 2 ^ 64.

Lemma config_ok_bounds c :
  1 ≤ cf_rps c ≤ 10000 → 1 ≤ cf_duration_seconds c ≤ 14400 → 1 ≤ cf_workers c ≤ 5000 → config_ok c.
Proof.
  intros Hr Hd Hw. unfold config_ok, attempts_of, queue_size, saturating_mul.
  assert (1 ≤ cf_rps c * cf_duration_seconds c ≤ 144000000) by nia. lia.
Qed.

Lemma from_env_ok `{JsonText} env c : from_env env = inl c → config_ok c.
Proof. intros (_ & Hr & Hd & Hw & _)%from_env_inl. by apply config_ok_bounds. Qed.

(** ** Sums over the workers *)

Definition at_state (w w' : load_worker) : Z := if bool_decide (w = w') then 1 else 0.
Fixpoint tally (f : load_worker → Z) (ws : list load_worker) : Z :=
  match ws with [] => 0 | w :: ws => f w + tally f ws end.

Lemma tally_insert f ws i w w' : ws !! i = Some w → tally f (<[i := w']> ws) = tally f ws - f w + f w'.
Proof.
  revert i. induction ws as [|x ws IH]; intros [|i] H; simpl in *; simplify_eq; [lia|]. rewrite (IH i H). lia.
Qed.
Lemma tally_nonneg f ws : (∀ w, 0 ≤ f w) → 0 ≤ tally f ws.
Proof. intros Hf. induction ws as [|w ws IH]; simpl; [lia|]. specialize (Hf w). lia. Qed.
Lemma tally_replicate f n w : tally f (replicate n w) = Z.of_nat n * f w.
Proof. induction n as [|n IH]; simpl tally; [lia|]. rewrite IH. lia. Qed.
Lemma at_state_bounds w w' : 0 ≤ at_state w w' ≤ 1.
Proof. unfold at_state. case_bool_decide; lia. Qed.
Lemma tally_at_nonneg w ws : 0 ≤ tally (at_state w) ws.
Proof. apply tally_nonneg. intros w'. pose proof (at_state_bounds w w'). lia. Qed.
Lemma tally_at_le w ws : tally (at_state w) ws ≤ Z.of_nat (length ws).
Proof. induction ws as [|x ws IH]; simpl tally; [done|]. pose proof (at_state_bounds w x). rewrite length_cons. lia. Qed.
Lemma tally_at_elem w ws : w ∈ ws ↔ 0 < tally (at_state w) ws.
Proof.
  induction ws as [|x ws IH]; simpl; [split; [by intros ?%not_elem_of_nil|lia]|].
  rewrite elem_of_cons, IH. unfold at_state at 2. pose proof (tally_at_nonneg w ws). case_bool_decide; split; try lia; tauto.
Qed.

(** ** The accounts of the load phase *)

Record accounts (c : config) (l : load) : Prop := {
  ac_ticks : 0 ≤ ld_ticks l;
  ac_queue : 0 ≤ ld_queued l ≤ queue_size c;
  ac_requested : 0 ≤ requested (ld_counters l);
  ac_accepted : 0 ≤ accepted (ld_counters l);
  ac_conflicts : 0 ≤ conflicts (ld_counters l);
  ac_dropped : 0 ≤ dropped (ld_counters l);
  (** each attempt is to come, waits, was dropped or was made *)
  ac_attempts : ld_ticks l + ld_queued l + dropped (ld_counters l) + requested (ld_counters l) = attempts_of c;
  (** each request is answered, or under way; a worker without connection is an error too *)
  ac_answers : requested (ld_counters l) + tally (at_state NotConnected) (ld_workers l) =
    accepted (ld_counters l) + conflicts (ld_counters l) + transport_errors (ld_counters l) + tally (at_state Asking) (ld_workers l);
  ac_failed : tally (at_state NotConnected) (ld_workers l) ≤ transport_errors (ld_counters l);
  ac_workers : Z.of_nat (length (ld_workers l)) = cf_workers c;
  ac_closed : ld_open l = false → ld_ticks l = 0;
  ac_drained : 0 < tally (at_state Drained) (ld_workers l) → ld_open l = false ∧ ld_queued l = 0;
  ac_mutex : tally (at_state Receiving) (ld_workers l) ≤ 1
}.

Lemma bump_small x : 0 ≤ x < 2 ^ 64 - 1 → bump x = x + 1.
Proof. intros H. apply Z.mod_small. lia. Qed.

(** The states of workers that are named are compared by evaluation. *)
Ltac eval_states :=
  repeat match goal with
    | |- context [at_state ?a ?b] => let v := eval vm_compute in (at_state a b) in change (at_state a b) with v
    | H : context [at_state ?a ?b] |- _ => let v := eval vm_compute in (at_state a b) in change (at_state a b) with v in H
    end.
Ltac insert_states :=
  repeat match goal with
    | Hi : ?ws !! ?i = Some ?w |- context [tally ?f (<[?i:=?w']> ?ws)] => rewrite (tally_insert f ws i w w' Hi)
    end; eval_states.

Lemma accounts_start c : config_ok c → accounts c (load_start c).
Proof.
  intros (Ha & Hp & Hq & Hw & Hb). split; simpl; rewrite ?tally_replicate, ?length_replicate; eval_states; try lia; done.
Qed.

Section steps.
Context {S : Type} `{!SlotService S}.
Variable c : config.
Hypothesis Hc : config_ok c.

(** What is counted, with what a worker may still count as an error, stays below [2^64]. *)
Lemma accounts_bounds l : accounts c l →
  requested (ld_counters l) + dropped (ld_counters l) + ld_ticks l + ld_queued l < 2 ^ 64 - 1 ∧
  accepted (ld_counters l) + conflicts (ld_counters l) + transport_errors (ld_counters l)
    + tally (at_state Connecting) (ld_workers l) + tally (at_state Asking) (ld_workers l) < 2 ^ 64.
Proof.
  intros H. destruct Hc as (_ & _ & _ & Hw & Hb). destruct H.
  assert (tally (at_state NotConnected) (ld_workers l) + tally (at_state Connecting) (ld_workers l) ≤ Z.of_nat (length (ld_workers l))).
  { clear. induction (ld_workers l) as [|w ws IH]; simpl tally; [done|]. rewrite length_cons. destruct w; eval_states; lia. }
  lia.
Qed.

(** Facts on the sums of [l], for arithmetic. *)
Ltac sums l :=
  pose proof (tally_at_nonneg NotConnected (ld_workers l)); pose proof (tally_at_nonneg Asking (ld_workers l));
  pose proof (tally_at_nonneg Connecting (ld_workers l)); pose proof (tally_at_nonneg Receiving (ld_workers l));
  pose proof (tally_at_nonneg Drained (ld_workers l)).

Lemma accounts_tick l : 0 < ld_ticks l → accounts c l → accounts c (tick (queue_size c) l).
Proof.
  intros Ht Hl. pose proof (accounts_bounds l Hl) as [Hb _]. sums l. destruct Hl. unfold tick.
  destruct (Z.ltb_spec (ld_queued l) (queue_size c)); split; simpl; rewrite ?bump_small by lia; try lia; auto;
    intros; exfalso; destruct (ld_open l); intuition lia.
Qed.

Lemma accounts_receive i l l' :
  ld_workers l !! i = Some Receiving → receive i l = Some l' → accounts c l → accounts c l'.
Proof.
  intros Hi Hr Hl. pose proof (accounts_bounds l Hl) as [Hb _]. sums l. destruct Hl. unfold receive in Hr.
  destruct (Z.ltb_spec 0 (ld_queued l)); [|destruct (ld_open l) eqn:Ho; [done|]]; injection Hr as <-; split; simpl;
    rewrite ?length_insert, ?bump_small by lia; insert_states; try lia; auto; intros; split; auto; lia.
Qed.

Lemma accounts_take i l :
  ld_workers l !! i = Some AtMutex → Receiving ∉ ld_workers l → accounts c l → accounts c (set_worker i Receiving l).
Proof.
  intros Hi Hm Hl. rewrite tally_at_elem in Hm. destruct Hl.
  split; simpl; rewrite ?length_insert; insert_states; try lia; auto. intros. apply ac_drained0. lia.
Qed.

Lemma accounts_connect i ok l :
  ld_workers l !! i = Some Connecting → accounts c l →
  accounts c (if ok : bool then set_worker i AtMutex l else set_worker i NotConnected (set_counters count_transport_error l)).
Proof.
  intros Hi Hl. assert (0 < tally (at_state Connecting) (ld_workers l)) by (apply tally_at_elem; by eapply list_elem_of_lookup_2).
  pose proof (accounts_bounds l Hl) as [_ Hb]. sums l. destruct Hl.
  destruct ok; split; simpl; rewrite ?length_insert, ?bump_small by lia; insert_states; try lia; auto; intros; apply ac_drained0; lia.
Qed.

Lemma accounts_ask i r l :
  ld_workers l !! i = Some Asking → accounts c l → accounts c (set_worker i AtMutex (set_counters (count_answer r) l)).
Proof.
  intros Hi Hl. assert (0 < tally (at_state Asking) (ld_workers l)) by (apply tally_at_elem; by eapply list_elem_of_lookup_2).
  pose proof (accounts_bounds l Hl) as [_ Hb]. sums l. destruct Hl.
  destruct r as [r|]; [destruct r as [[] ? ?]|]; split; simpl; rewrite ?length_insert, ?bump_small by lia; insert_states; try lia; auto;
    intros; apply ac_drained0; lia.
Qed.

Lemma accounts_step e l s l' s' : load_step c e (l, s) = Some (l', s') → accounts c l → accounts c l'.
Proof.
  intros He Hl. destruct e; simpl in He.
  - destruct (Z.ltb_spec 0 (ld_ticks l)); simplify_eq. by apply accounts_tick.
  - destruct (_ && _) eqn:E; simplify_eq. apply andb_true_iff in E as [E%Z.leb_le Ho]. destruct Hl.
    split; simpl; auto; [lia|]. intros. exfalso. rewrite Ho in *. intuition congruence.
  - destruct (ld_workers l !! i) as [[]|] eqn:Hi; try done. destruct (sv_connect s) as [ok s1]. simplify_eq. by apply accounts_connect.
  - destruct (ld_workers l !! i) as [[]|] eqn:Hi; try done. case_bool_decide; simplify_eq. by apply accounts_take.
  - destruct (ld_workers l !! i) as [[]|] eqn:Hi; try done. destruct (receive i l) eqn:Hr; simplify_eq/=. by eapply accounts_receive.
  - destruct (ld_workers l !! i) as [[]|] eqn:Hi; try done. destruct (sv_lock_slot _ s) as [r s1]. simplify_eq. by apply accounts_ask.
  - by simplify_eq.
Qed.

Lemma accounts_steps es l s l' s' : load_steps c es (l, s) = Some (l', s') → accounts c l → accounts c l'.
Proof.
  revert l s. induction es as [|e es IH]; intros l s; cbn [load_steps]; [by intros [= <- <-]|].
  destruct (load_step c e (l, s)) as [[l1 s1]|] eqn:He; simpl; [|done]. intros Hs Hl. eapply IH; [exact Hs|]. exact (accounts_step _ _ _ _ _ He Hl).
Qed.

(** *** The end *)

Definition own (e : load_event S) : bool := match e with Elsewhere _ => false | _ => true end.

(** The steps a worker can still make without a message. *)
Definition rank (w : load_worker) : Z :=
  match w with Connecting => 3 | AtMutex => 2 | Receiving => 1 | Asking => 3 | NotConnected | Drained => 0 end.
Definition work_left (l : load) : Z :=
  4 * ld_ticks l + 3 * ld_queued l + (if ld_open l then 1 else 0) + tally rank (ld_workers l).

Lemma work_left_step e l s l' s' :
  load_step c e (l, s) = Some (l', s') → work_left l' + (if own e then 1 else 0) ≤ work_left l.
Proof.
  intros He. unfold work_left. destruct e; simpl in He.
  - destruct (0 <? _); simplify_eq. unfold tick. destruct (_ <? _); simpl; lia.
  - destruct (_ && _) eqn:E; simplify_eq. apply andb_true_iff in E as [_ Ho]. rewrite Ho. simpl. lia.
  - destruct (ld_workers l !! i) as [[]|] eqn:Hi; try done. destruct (sv_connect s) as [[] s1]; simplify_eq; simpl;
      rewrite (tally_insert _ _ _ _ _ Hi); simpl; lia.
  - destruct (ld_workers l !! i) as [[]|] eqn:Hi; try done. case_bool_decide; simplify_eq. simpl. rewrite (tally_insert _ _ _ _ _ Hi). simpl. lia.
  - destruct (ld_workers l !! i) as [[]|] eqn:Hi; try done. unfold receive in He.
    destruct (Z.ltb_spec 0 (ld_queued l)); [|destruct (ld_open l) eqn:Ho; [done|]]; simplify_eq/=; rewrite (tally_insert _ _ _ _ _ Hi); simpl; rewrite ?Ho; lia.
  - destruct (ld_workers l !! i) as [[]|] eqn:Hi; try done. destruct (sv_lock_slot _ s) as [r s1]. simplify_eq. simpl. rewrite (tally_insert _ _ _ _ _ Hi). simpl. lia.
  - simplify_eq. simpl. lia.
Qed.

Lemma work_left_steps es l s l' s' :
  load_steps c es (l, s) = Some (l', s') → work_left l' + Z.of_nat (length (filter own es)) ≤ work_left l.
Proof.
  revert l s. induction es as [|e es IH]; intros l s; cbn [load_steps]; [intros [= <- <-]; simpl; lia|].
  destruct (load_step c e (l, s)) as [[l1 s1]|] eqn:He; simpl; [|done]. intros Hs%IH.
  apply work_left_step in He. rewrite filter_cons. destruct (own e); simpl; rewrite ?length_cons; lia.
Qed.

Lemma work_left_nonneg l : accounts c l → 0 ≤ work_left l.
Proof.
  intros []. unfold work_left. assert (0 ≤ tally rank (ld_workers l)) by (apply tally_nonneg; intros []; simpl; lia).
  destruct (ld_open l); lia.
Qed.

(** While the workers are not joined some step is possible. *)
Lemma load_progress l s : accounts c l → joined l = false → ∃ e, own e ∧ is_Some (load_step c e (l, s)).
Proof.
  intros [] Hj. unfold joined in Hj. destruct (Z.leb_spec (ld_ticks l) 0) as [Ht|Ht].
  2:{ exists Tick. split; [done|]. simpl. by rewrite (proj2 (Z.ltb_lt 0 (ld_ticks l))) by lia. }
  destruct (ld_open l) eqn:Ho.
  { exists DropSender. split; [done|]. simpl. by rewrite (proj2 (Z.leb_le _ _) Ht), Ho. }
  simpl in Hj. assert (∃ i w, ld_workers l !! i = Some w ∧ gone w = false) as (i & w & Hi & Hw).
  { clear -Hj. induction (ld_workers l) as [|w ws IH]; [done|]. simpl in Hj. apply andb_false_iff in Hj as [Hw|Hw].
    - by exists 0%nat, w.
    - destruct (IH Hw) as (i & w' & Hi & ?). by exists (Datatypes.S i), w'. }
  assert (∀ j, ld_workers l !! j = Some Receiving → ∃ e : load_event S, own e ∧ is_Some (load_step c e (l, s))) as Hr.
  { intros j Hr. exists (Receive j). split; [done|]. simpl. rewrite Hr. unfold receive. rewrite Ho. by destruct (0 <? _). }
  destruct w; try done.
  - exists (Connect i). split; [done|]. simpl. rewrite Hi. by destruct (sv_connect s).
  - destruct (decide (Receiving ∈ ld_workers l)) as [[j Hj']%list_elem_of_lookup|Hn]; [by eapply Hr|].
    exists (TakeMutex i). split; [done|]. simpl. rewrite Hi. by rewrite bool_decide_eq_false_2.
  - by eapply Hr.
  - exists (Ask i). split; [done|]. simpl. rewrite Hi. by destruct (sv_lock_slot _ s).
Qed.

Lemma joined_stops l s e : joined l = true → own e → load_step c e (l, s) = None.
Proof.
  unfold joined. rewrite !andb_true_iff, Z.leb_le, negb_true_iff. intros [[Ht Ho] Hg].
  assert (∀ i w, ld_workers l !! i = Some w → gone w = true) as Hall.
  { intros i w Hi. rewrite forallb_forall in Hg. apply Hg. apply list_elem_of_In. by eapply list_elem_of_lookup_2. }
  destruct e; simpl; try done; intros _.
  - by rewrite (proj2 (Z.ltb_ge 0 (ld_ticks l))) by lia.
  - by rewrite Ho, andb_false_r.
  - destruct (ld_workers l !! i) as [w|] eqn:Hi; [|done]. apply Hall in Hi. by destruct w.
  - destruct (ld_workers l !! i) as [w|] eqn:Hi; [|done]. apply Hall in Hi. by destruct w.
  - destruct (ld_workers l !! i) as [w|] eqn:Hi; [|done]. apply Hall in Hi. by destruct w.
  - destruct (ld_workers l !! i) as [w|] eqn:Hi; [|done]. apply Hall in Hi. by destruct w.
Qed.

(** When the workers are joined, an empty channel is certain unless no worker connected. *)
Lemma joined_accounts l : accounts c l → joined l = true →
  ld_ticks l = 0 ∧ tally (at_state Asking) (ld_workers l) = 0 ∧
  (ld_queued l = 0 ∨ tally (at_state NotConnected) (ld_workers l) = cf_workers c).
Proof.
  unfold joined. rewrite !andb_true_iff, Z.leb_le, negb_true_iff. intros [] [[Ht Ho] Hg]. split; [lia|].
  assert (tally (at_state Asking) (ld_workers l) = 0 ∧
    tally (at_state NotConnected) (ld_workers l) + tally (at_state Drained) (ld_workers l) = Z.of_nat (length (ld_workers l))) as [Ha Hn].
  { clear -Hg. induction (ld_workers l) as [|w ws IH]; simpl tally; [done|]. simpl in Hg. apply andb_true_iff in Hg as [Hw Hg].
    destruct (IH Hg). rewrite length_cons. destruct w; try done; eval_states; lia. }
  split; [done|]. destruct (decide (0 < tally (at_state Drained) (ld_workers l))) as [Hd|Hd]; [left; by apply ac_drained0|right].
  pose proof (tally_at_nonneg Drained (ld_workers l)). lia.
Qed.
End steps.

(** ** Properties *)

Section properties.
Context {S : Type} `{!SlotService S} `{JsonText}.

(** A run whose workers are joined: what it has seen. *)
Lemma run_summary {F} (show3 : F → string) c rest es elapsed rate put (s : S) su r s' :
  run show3 c rest es elapsed rate put s = Some (Some su, r, s') →
  ∃ s1 l s3, load_steps c es (load_start c, s1) = Some (l, s3) ∧ joined l = true ∧ su_counters su = ld_counters l ∧
    r = orr (push_metrics show3 put c su) (λ _, verdict (su_counters su)).
Proof.
  unfold run. destruct (verify_free_test_seat c s) as [[[]|e] s1]; [|done].
  destruct (load_steps c es (load_start c, rest s1)) as [[l s3]|] eqn:Hl; simpl; [|done].
  destruct (joined l) eqn:Hj; simpl; [|done]. destruct (sv_connect s3) as [[] s4]; simpl; [|done].
  destruct (sv_unlock_slot _ s4) as [ok s5]. intros [= <- <- <-]. by exists (rest s1), l, s3.
Qed.

(** C38: A load test that passes has done all of its work.  For a configuration the program
    accepts, under any interleaving of the dispatcher and the workers and whatever the gateway
    answers, a run whose metrics are accepted passes exactly when [RPS * duration] requests
    were made, a response came to each of them, at least one of them locked the seat, and every
    worker had its connection: no request of a passed run is missing, dropped or unanswered. *)
Theorem passed_load_test_is_complete {F} (show3 : F → string) env c rest es elapsed rate put (s : S) su r s' :
  from_env env = inl c → run show3 c rest es elapsed rate put s = Some (Some su, r, s') → push_metrics show3 put c su = inl tt →
  let n := su_counters su in
  r = inl tt ↔ requested n = cf_rps c * cf_duration_seconds c ∧ accepted n + conflicts n = requested n ∧
    0 < accepted n ∧ transport_errors n = 0.
Proof.
  intros Hc%from_env_ok (s1 & l & s3 & Hl & Hj & Hsm & ->)%run_summary Hp. rewrite Hp, Hsm. simpl.
  apply (accounts_steps c Hc) in Hl; [|by apply accounts_start]. destruct (joined_accounts c l Hl Hj) as (Ht & Ha & Hq).
  destruct Hc as (Hat & _ & _ & Hw & _). pose proof (tally_at_nonneg NotConnected (ld_workers l)). destruct Hl. unfold verdict.
  destruct (Z.eqb_spec (accepted (ld_counters l)) 0), (Z.ltb_spec 0 (transport_errors (ld_counters l))),
    (Z.ltb_spec 0 (dropped (ld_counters l))); simpl; split; intros; try done; lia.
Qed.

(** The load phase ends.  Under any schedule the dispatcher and the workers make at
    most four steps for each attempt and three for each worker, and one more; a
    phase that can make no further step, whatever the gateway would answer, has joined all of
    its workers, and one that has joined them makes none. *)
Theorem load_phase_ends env c es (s s' : S) l :
  from_env env = inl c → load_steps c es (load_start c, s) = Some (l, s') →
  Z.of_nat (length (filter own es)) ≤ 4 * (cf_rps c * cf_duration_seconds c) + 3 * cf_workers c + 1 ∧
  (joined l = true ↔ ∀ e, own e → load_step c e (l, s') = None).
Proof.
  intros Hc%from_env_ok Hl. pose proof (accounts_steps c Hc _ _ _ _ _ Hl (accounts_start c Hc)) as Hacc. split.
  - pose proof (work_left_steps c _ _ _ _ _ Hl) as Hw. pose proof (work_left_nonneg c l Hacc).
    destruct Hc as (Ha & _ & _ & Hk & _). unfold work_left in Hw at 2. simpl in Hw. rewrite tally_replicate in Hw. simpl rank in Hw. lia.
  - split; [intros Hj e; by apply joined_stops|]. intros Hn. apply not_false_iff_true. intros Hj.
    destruct (load_progress c l s' Hacc Hj) as (e & He & [x Hx]). by rewrite Hn in Hx.
Qed.

(** What the program reports is what happened, and what it accepts is bounded.  For a
    configuration it accepts no multiplication saturates and the channel has two places for
    each worker; at any moment of the load phase each attempt is still to come, in the
    channel, dropped or requested; a request is accepted, a conflict, under way or a transport
    error; one worker at most waits for a message; no counter wraps around. *)
Theorem load_counters_account env c es (s s' : S) l :
  from_env env = inl c → load_steps c es (load_start c, s) = Some (l, s') →
  let n := ld_counters l in
  ld_ticks l + ld_queued l + dropped n + requested n = cf_rps c * cf_duration_seconds c ∧
  requested n + tally (at_state NotConnected) (ld_workers l) =
    accepted n + conflicts n + transport_errors n + tally (at_state Asking) (ld_workers l) ∧
  0 ≤ ld_queued l ≤ 2 * cf_workers c ∧ tally (at_state Receiving) (ld_workers l) ≤ 1 ∧
  Forall (λ x, 0 ≤ x ≤ 144005000) [requested n; accepted n; conflicts n; transport_errors n; dropped n].
Proof.
  intros Hf Hl. pose proof (from_env_ok env c Hf) as Hc. apply from_env_inl in Hf as (_ & Hr & Hd & Hw & _).
  apply (accounts_steps c Hc) in Hl; [|by apply accounts_start]. pose proof Hc as (Ha & _ & Hq & _).
  pose proof (tally_at_nonneg NotConnected (ld_workers l)). pose proof (tally_at_nonneg Asking (ld_workers l)).
  pose proof (tally_at_le NotConnected (ld_workers l)).
  assert (cf_rps c * cf_duration_seconds c ≤ 144000000) by nia. destruct Hl.
  split; [lia|]. split; [done|]. split; [lia|]. split; [done|]. repeat constructor; lia.
Qed.
End properties.

(** ** Against the gateway *)

Section gateway_service.
Context {D : Type} `{!RedisServer D} {HS : SeatLock D} {HJ : JsonText}.

(** A gateway that is up, and asked by nobody else during a call. *)
#[export] Instance gateway_service : SlotService (gateway D) := {|
  sv_connect := mret true;
  sv_lock_slot rq :=
    r ← lock_slot (sl_user_id rq) (sl_showtime_id rq) (sl_seats rq);
    mret (match r with Some (inl r) => Some r | _ => None end);
  sv_unlock_slot rq :=
    r ← unlock_slot (sl_user_id rq) (sl_showtime_id rq) (sl_seats rq);
    mret (match r with Some (inl _) => true | _ => false end)
|}.

(** The answer of the gateway to the payload of a load test.  The request passes the check of
    the handler; what the gateway answers is about the one seat, and success says that the
    seat is locked: the second test of [verify_free_test_seat] never decides. *)
Theorem isolated_seat_is_answered p (g : gateway D) :
  isolated_seat p → channels_created g →
  let rq := lock_request p in
  match (lock_slot (sl_user_id rq) (sl_showtime_id rq) (sl_seats rq) g).1 with
  | None => False
  | Some (inr e) => ∃ x, e = ApiError 3 (gw_error_text x)
  | Some (inl r) =>
      if lr_success r then lr_locked r = lp_seat_ids p ∧ lr_failed r = []
      else lr_locked r = [] ∧ lr_failed r = lp_seat_ids p
  end.
Proof.
  intros (seat & index & Hs & Hi & Hseat & Hindex & Hshow & Huser) Hg. simpl. unfold lock_slot. simpl.
  assert (slot_request_invalid (lp_showtime_id p) (lp_total_seat_count p) (lp_seat_ids p) (lp_seat_indices p) = false) as ->.
  { unfold slot_request_invalid. rewrite Hs, Hi. simpl. rewrite !orb_false_iff, Z.ltb_ge, !Z.leb_gt, ?bool_decide_eq_false.
    repeat split; try lia; try done. }
  destruct (lock_answer (lp_user_id p) (lp_showtime_id p) (lp_seat_ids p) (lp_seat_indices p) (lp_total_seat_count p) g Hg) as (r & Hr & Hp).
  unfold mbind, St_bind. destruct (lock _ _ _ _ _ g) as [r' g']. simpl in Hr. subst r'. simpl.
  destruct r as [r|x]; [|by exists x]. unfold answers_for in Hp. rewrite Hs in Hp |- *. simpl.
  case_bool_decide as Hl; simpl.
  - rewrite Hl in Hp. split; [done|]. symmetry in Hp. by apply Permutation_singleton_l in Hp.
  - symmetry in Hp. apply Permutation_singleton_l in Hp. symmetry in Hp. apply app_eq_unit in Hp as [[? ?]|[? ?]]; done.
Qed.
End gateway_service.

(** ** A run against a gateway in memory *)

#[local] Existing Instance single_node_lock.

Definition load_env : environment := λ name,
  if bool_decide (name = "LOAD_TEST_GRPC_PAYLOAD") then
    Some (json_print (JObj [("showtimeId", JNum 7); ("seat_ids", JArr [JNum 11]); ("userId", JNum 3);
                            ("total_seat_count", JNum 10); ("seatIndices", JArr [JNum 1])]))
  else if bool_decide (name = "LOAD_TEST_RPS") then Some "2"
  else if bool_decide (name = "LOAD_TEST_DURATION_SECONDS") then Some "1"
  else if bool_decide (name = "LOAD_TEST_CONCURRENCY") then Some "2"
  else if bool_decide (name = "LOAD_TEST_RUN_ID") then Some "r1"
  else None.
Definition load_config : config :=
  Config "http://gateway-keeper.bookit.svc.cluster.local:50052" (LockPayload 7 [11] 3 10 [1]) 2 1 2 4 "r1"
    "http://load-test-pushgateway.monitoring.svc.cluster.local:9091".
Definition load_schedule : list (load_event (gateway mem_redis)) :=
  [Connect 0; Tick; TakeMutex 0; Receive 0; Connect 1; TakeMutex 1; Tick; Receive 1; Ask 1; DropSender;
   Ask 0; TakeMutex 0; Receive 0; TakeMutex 1; Receive 1].
Definition load_gateway : gateway mem_redis := gateway_new true (mem_world 2 1000).
(** The Pushgateway takes what is for the run. *)
Definition load_put (url body : string) : option Z :=
  if bool_decide (url = "http://load-test-pushgateway.monitoring.svc.cluster.local:9091/metrics/job/bookit_rust_lock_load/run_id/r1")
  then Some 200 else None.
Definition load_result := run id load_config id load_schedule 1 show_Z load_put load_gateway.

Example load_config_read : from_env load_env = inl load_config.
Proof. vm_compute. reflexivity. Qed.
Example load_result_summary :
  (λ x, x.1) <$> load_result = Some (Some (Summary (Counters 2 1 1 0 0) 1 "2" 2 2 4), inl tt).
Proof. vm_compute. reflexivity. Qed.

Lemma passed_load_test_is_complete_witness :
  ∃ s', run id load_config id load_schedule 1 show_Z load_put load_gateway =
          Some (Some (Summary (Counters 2 1 1 0 0) 1 "2" 2 2 4), inl tt, s') ∧
    (@inl unit load_error tt = inl tt ↔ 2 = 2 * 1 ∧ 1 + 1 = 2 ∧ 0 < 1 ∧ 0 = 0).
Proof.
  eexists. split; [vm_compute; reflexivity|].
  refine (passed_load_test_is_complete id load_env load_config id load_schedule 1 show_Z load_put load_gateway
    (Summary (Counters 2 1 1 0 0) 1 "2" 2 2 4) (inl tt) _ _ _ _); [vm_compute; reflexivity|vm_compute; reflexivity|reflexivity].
Defined.

(** The first five steps of the schedule: one worker asks. *)
Definition load_prefix : load := Load 1 true 0 [Asking; AtMutex] (Counters 1 0 0 0 0).

Lemma load_phase_ends_witness :
  Z.of_nat (length (filter own (take 5 load_schedule))) ≤ 4 * (2 * 1) + 3 * 2 + 1 ∧
  (joined load_prefix = true ↔ ∀ e, own e → load_step load_config e (load_prefix, load_gateway) = None).
Proof.
  refine (load_phase_ends load_env load_config (take 5 load_schedule) load_gateway load_gateway load_prefix _ _); vm_compute; reflexivity.
Defined.

Lemma load_counters_account_witness :
  1 + 0 + 0 + 1 = 2 * 1 ∧ 1 + 0 = 0 + 0 + 0 + 1 ∧ 0 ≤ 0 ≤ 2 * 2 ∧ 0 ≤ 1 ∧ Forall (λ x, 0 ≤ x ≤ 144005000) [1; 0; 0; 0; 0].
Proof.
  refine (load_counters_account load_env load_config (take 5 load_schedule) load_gateway load_gateway load_prefix _ _); vm_compute; reflexivity.
Defined.
