(* ===== verification/Topology.v ===== *)
(** * Topology: the queues of RabbitMQ and what reaches them
    ([main.rs] of payment-processor, notification-worker and gateway-keeper, [start_consumers]
    of [apps/lock-server/src/consumer_active.rs], [declare_topology] and [publish] of
    [apps/outbox-server/src/publisher.rs], [publish_to_locking_queue] of
    [apps/gateway-keeper/src/state_active.rs])

    Each service declares the exchanges, queues and bindings it uses when it starts.  The
    broker is the class [Broker]: its laws are the rules of AMQP 0-9-1 for declarations,
    routing, dead letters and restarts, on a view of its exchanges, queues and bindings.
    What lapin's default options say about durability is the class [LapinOptions]. *)

From stdpp Require Import gmap.
From S2P Require Import Prelude Text Keys Redis Events Db Outbox.

#[local] Open Scope string_scope.
#[local] Open Scope list_scope.
#[local] Open Scope Z_scope.

(** ** What the services declare *)

Inductive exchange_kind := Direct | Fanout.
Inductive declaration :=
  | ExchangeDeclare (exchange : string) (kind : exchange_kind) (durable : bool)
  | QueueDeclare (queue : string) (durable : bool) (arguments : list (string * string))
  | QueueBind (queue exchange routing_key : string).

#[export] Instance exchange_kind_eq : EqDecision exchange_kind.
Proof. solve_decision. Defined.
#[export] Instance declaration_eq : EqDecision declaration.
Proof. solve_decision. Defined.

(** The field [durable] of [ExchangeDeclareOptions::default()] and of
    [QueueDeclareOptions::default()]. *)
Class LapinOptions := { exchange_durable : bool; queue_durable : bool }.

Inductive service := OutboxServer | PaymentProcessor | NotificationWorker | GatewayKeeper | LockServer.
#[export] Instance service_eq : EqDecision service.
Proof. solve_decision. Defined.

Section declarations.
Context `{!LapinOptions}.

Definition dead_letters_to (exchange : string) : list (string * string) :=
  [("x-dead-letter-exchange", exchange); ("x-dead-letter-routing-key", "failed")].

Definition declare_topology : list declaration :=
  [ExchangeDeclare "payment_dlx" Direct exchange_durable;
   QueueDeclare "payment_failed" queue_durable [];
   QueueBind "payment_failed" "payment_dlx" "failed";
   QueueDeclare "payment_processing" queue_durable (dead_letters_to "payment_dlx");
   ExchangeDeclare "booking_events_exchange" Fanout exchange_durable].

Definition payment_topology : list declaration :=
  [ExchangeDeclare "payment_dlx" Direct exchange_durable;
   QueueDeclare "payment_failed" queue_durable [];
   QueueBind "payment_failed" "payment_dlx" "failed";
   QueueDeclare "payment_processing" queue_durable (dead_letters_to "payment_dlx");
   ExchangeDeclare "booking_events_exchange" Fanout exchange_durable].

Definition notification_topology : list declaration :=
  [ExchangeDeclare "booking_events_exchange" Fanout exchange_durable;
   ExchangeDeclare "notification_dlx" Direct exchange_durable;
   QueueDeclare "notification_failed" true [];
   QueueBind "notification_failed" "notification_dlx" "failed";
   QueueDeclare "notification_queue" true (dead_letters_to "notification_dlx");
   QueueBind "notification_queue" "booking_events_exchange" ""].

Definition gateway_topology : list declaration := [QueueDeclare "locking_queue" true []].
Definition lock_server_topology : list declaration := [QueueDeclare "locking_queue" true []].

Definition topology (s : service) : list declaration :=
  match s with
  | OutboxServer => declare_topology
  | PaymentProcessor => payment_topology
  | NotificationWorker => notification_topology
  | GatewayKeeper => gateway_topology
  | LockServer => lock_server_topology
  end.
End declarations.

(** ** The rules of the broker *)

Section rules.
Context {M : Type}.

(** A message with its persistence. *)
Record amqp_queue := AmqpQueue { qu_durable : bool; qu_arguments : list (string * string); qu_messages : list (bool * M) }.
Record entities := Entities {
  en_exchanges : gmap string (exchange_kind * bool);
  en_queues : gmap string amqp_queue;
  en_bindings : gset (string * string * string)
}.
Definition no_entities : entities := Entities ∅ ∅ ∅.

(** A declaration creates what is missing, and is refused for other settings than those of
    what exists; a binding needs its queue and its exchange. *)
Definition declare (d : declaration) (v : entities) : option entities :=
  match d with
  | ExchangeDeclare x kind durable =>
      match en_exchanges v !! x with
      | None => Some (Entities (<[x := (kind, durable)]> (en_exchanges v)) (en_queues v) (en_bindings v))
      | Some e => if bool_decide (e = (kind, durable)) then Some v else None
      end
  | QueueDeclare q durable arguments =>
      match en_queues v !! q with
      | None => Some (Entities (en_exchanges v) (<[q := AmqpQueue durable arguments []]> (en_queues v)) (en_bindings v))
      | Some u => if bool_decide (qu_durable u = durable ∧ qu_arguments u = arguments) then Some v else None
      end
  | QueueBind q x key =>
      match en_queues v !! q, en_exchanges v !! x with
      | Some _, Some _ => Some (Entities (en_exchanges v) (en_queues v) ({[(q, x, key)]} ∪ en_bindings v))
      | _, _ => None
      end
  end.

(** The queues a message goes to: of the default exchange, the queue of that name. *)
Definition goes_to (x key : string) (v : entities) (q : string) : bool :=
  if bool_decide (x = "") then bool_decide (q = key)
  else match en_exchanges v !! x with
       | Some (Direct, _) => bool_decide ((q, x, key) ∈ en_bindings v)
       | Some (Fanout, _) => existsb (λ b, bool_decide (b.1.1 = q ∧ b.1.2 = x)) (elements (en_bindings v))
       | None => false
       end.
Definition append (m : bool * M) (u : amqp_queue) : amqp_queue :=
  AmqpQueue (qu_durable u) (qu_arguments u) (qu_messages u ++ [m]).

(** [None]: no such exchange, the channel is closed.  The boolean: a queue took the message. *)
Definition publish (x key : string) (m : bool * M) (v : entities) : option (bool * entities) :=
  if bool_decide (x ≠ "" ∧ en_exchanges v !! x = None) then None
  else Some (existsb (goes_to x key v) (map_to_list (en_queues v)).*1,
             Entities (en_exchanges v) (map_imap (λ q u, Some (if goes_to x key v q then append m u else u)) (en_queues v))
               (en_bindings v)).

Definition argument (name : string) (u : amqp_queue) : option string :=
  (list_to_map (qu_arguments u) : gmap string string) !! name.

(** The first message of a queue is acknowledged, or rejected without requeueing (as a message
    whose expiration passes): it goes to the queue's dead-letter exchange, if there is one. *)
Definition set_messages (q : string) (u : amqp_queue) (l : list (bool * M)) (v : entities) : entities :=
  Entities (en_exchanges v) (<[q := AmqpQueue (qu_durable u) (qu_arguments u) l]> (en_queues v)) (en_bindings v).
Definition acknowledge (q : string) (v : entities) : entities :=
  match en_queues v !! q with
  | Some u => match qu_messages u with _ :: l => set_messages q u l v | [] => v end
  | None => v
  end.
Definition reject (q : string) (v : entities) : entities :=
  match en_queues v !! q with
  | Some u =>
      match qu_messages u with
      | m :: l =>
          let v := set_messages q u l v in
          match argument "x-dead-letter-exchange" u, argument "x-dead-letter-routing-key" u with
          | Some x, Some key => match publish x key m v with Some (_, v) => v | None => v end
          | _, _ => v
          end
      | [] => v
      end
  | None => v
  end.

(** What is not durable does not survive, nor the bindings of it, nor messages that are not
    persistent. *)
Definition restart_queue (u : amqp_queue) : option amqp_queue :=
  if qu_durable u then Some (AmqpQueue true (qu_arguments u) (filter (λ m, m.1 = true) (qu_messages u))) else None.
Definition survives (v : entities) (b : string * string * string) : Prop :=
  (qu_durable <$> en_queues v !! b.1.1) = Some true ∧ (snd <$> en_exchanges v !! b.1.2) = Some true.
Definition restart (v : entities) : entities :=
  Entities (filter (λ e, e.2.2 = true) (en_exchanges v)) (omap restart_queue (en_queues v))
    (filter (survives v) (en_bindings v)).

(** [b_publish] answers whether a queue took the message, [None] when the channel was closed
    for want of the exchange. *)
Class Broker (B : Type) := {
  b_view : B → entities;
  b_new : B;
  b_declare : declaration → B → option B;
  b_publish : string → string → bool * M → B → option (bool * B);
  b_acknowledge : string → B → B;
  b_reject : string → B → B;
  b_restart : B → B;
  view_new : b_view b_new = no_entities;
  view_declare d b : b_view <$> b_declare d b = declare d (b_view b);
  view_publish x key m b : prod_map id b_view <$> b_publish x key m b = publish x key m (b_view b);
  view_acknowledge q b : b_view (b_acknowledge q b) = acknowledge q (b_view b);
  view_reject q b : b_view (b_reject q b) = reject q (b_view b);
  view_restart b : b_view (b_restart b) = restart (b_view b)
}.
End rules.
Arguments entities : clear implicits.
Arguments Broker : clear implicits.

(** ** The services at work *)

(** The body of an event of the outbox, or of a message of the gateway. *)
Abbreviation body := (amqp_message + seat_lock_message)%type.

Section services.
Context `{!LapinOptions} {B : Type} `{!Broker body B}.

(** The declarations of a start, up to the first that is refused. *)
Fixpoint declare_all (ds : list declaration) (b : B) : bool * B :=
  match ds with
  | [] => (true, b)
  | d :: ds => match b_declare d b with Some b => declare_all ds b | None => (false, b) end
  end.
Definition start (s : service) : B → bool * B := declare_all (topology s).

(** How [publish] of the outbox ends: an acknowledgement without a returned message, or an error. *)
Inductive publication := Confirmed | Unsupported | Unroutable | ChannelClosed.

(** Delivery mode 2 is persistence. *)
Definition publish_event (ttl : option string) (e : claimed_event) (b : B) : publication * B :=
  match route_for (ce_event_type e) with
  | None => (Unsupported, b)
  | Some r =>
      match b_publish (exchange r) (routing_key r) (true, inl (message_of ttl r e)) b with
      | None => (ChannelClosed, b)
      | Some (routed, b) => (if negb routed && am_mandatory (message_of ttl r e) then Unroutable else Confirmed, b)
      end
  end.

(** The gateway publishes with default properties: not persistent, and not mandatory. *)
Definition publish_to_locking_queue (m : seat_lock_message) (b : B) : B :=
  match b_publish "" "locking_queue" (false, inr m) b with Some (_, b) => b | None => b end.

Inductive broker_op :=
  | BStart (s : service)
  | BEvent (e : claimed_event)
  | BLock (m : seat_lock_message)
  | BAcknowledge (q : string)
  | BReject (q : string)
  | BRestart.

Definition broker_step (ttl : option string) (o : broker_op) (b : B) : B :=
  match o with
  | BStart s => (start s b).2
  | BEvent e => (publish_event ttl e b).2
  | BLock m => publish_to_locking_queue m b
  | BAcknowledge q => b_acknowledge q b
  | BReject q => b_reject q b
  | BRestart => b_restart b
  end.
Definition broker_run (ttl : option string) (os : list broker_op) : B := fold_left (λ b o, broker_step ttl o b) os b_new.

(** The services started since the last restart of the broker. *)
Definition since_restart (os : list broker_op) : list service :=
  fold_left (λ ss o, match o with BStart s => ss ++ [s] | BRestart => [] | _ => ss end) os [].
End services.

(** ** The broker a history leaves *)

Section invariant.
Context `{!LapinOptions} {B : Type} `{!Broker body B}.
Implicit Types (v : entities body) (D : list declaration) (b : B).

Definition planned : list declaration :=
  topology OutboxServer ++ topology PaymentProcessor ++ topology NotificationWorker ++ topology GatewayKeeper ++ topology LockServer.

Lemma topology_planned s d : d ∈ topology s → d ∈ planned.
Proof. unfold planned. destruct s; rewrite !elem_of_app; tauto. Qed.

(** Two declarations of one name with other settings. *)
Definition clash (d d' : declaration) : bool :=
  match d, d' with
  | ExchangeDeclare x kind durable, ExchangeDeclare x' kind' durable' =>
      bool_decide (x = x') && negb (bool_decide (kind = kind') && bool_decide (durable = durable'))
  | QueueDeclare q durable args, QueueDeclare q' durable' args' =>
      bool_decide (q = q') && negb (bool_decide (durable = durable') && bool_decide (args = args'))
  | _, _ => false
  end.

Lemma planned_agree d d' : d ∈ planned → d' ∈ planned → clash d d' = false.
Proof.
  assert (forallb (λ d, forallb (λ d', negb (clash d d')) planned) planned = true) as Hall.
  { unfold planned, topology, declare_topology, payment_topology, notification_topology.
    destruct exchange_durable, queue_durable; vm_compute; reflexivity. }
  intros Hd%list_elem_of_In Hd'%list_elem_of_In. rewrite forallb_forall in Hall. pose proof (Hall d Hd) as Hn.
  rewrite forallb_forall in Hn. specialize (Hn d' Hd'). by apply negb_true_iff in Hn.
Qed.

Definition present (d : declaration) v : Prop :=
  match d with
  | ExchangeDeclare x kind durable => en_exchanges v !! x = Some (kind, durable)
  | QueueDeclare q durable args => ∃ l, en_queues v !! q = Some (AmqpQueue durable args l)
  | QueueBind q x key => (q, x, key) ∈ en_bindings v
  end.

(** [D] is what was declared since the broker's last start: all of it is there, and whatever
    is there was planned; what does not survive a restart is from [D]. *)
Record declared D v : Prop := {
  dc_exchange x kind durable : en_exchanges v !! x = Some (kind, durable) →
    ExchangeDeclare x kind durable ∈ planned ∧ (durable = false → ExchangeDeclare x kind durable ∈ D);
  dc_queue q u : en_queues v !! q = Some u →
    QueueDeclare q (qu_durable u) (qu_arguments u) ∈ planned ∧
    (qu_durable u = false → QueueDeclare q (qu_durable u) (qu_arguments u) ∈ D);
  dc_binding q x key : (q, x, key) ∈ en_bindings v → QueueBind q x key ∈ planned ∧ (exchange_durable = false → QueueBind q x key ∈ D);
  dc_present d : d ∈ D → present d v;
  dc_planned d : d ∈ D → d ∈ planned;
  dc_persistent q u : en_queues v !! q = Some u → Forall (λ m, m.1 = negb (bool_decide (q = "locking_queue"))) (qu_messages u)
}.

(** The messages of a queue. *)
Definition messages v (q : string) : list (bool * body) := default [] (qu_messages <$> en_queues v !! q).

(** A binding is declared after its queue and its exchange. *)
Definition ready D (d : declaration) : Prop :=
  match d with
  | QueueBind q x _ => (∃ durable args, QueueDeclare q durable args ∈ D) ∧ ∃ kind durable, ExchangeDeclare x kind durable ∈ D
  | _ => True
  end.

Lemma declared_again D d v : d ∈ planned → present d v → declared D v → declared (D ++ [d]) v.
Proof.
  intros Hd Hp []. split; try done.
  - intros x kind durable [? ?]%dc_exchange0. split; [done|]. rewrite elem_of_app. auto.
  - intros q u [? ?]%dc_queue0. split; [done|]. rewrite elem_of_app. auto.
  - intros q x key [? ?]%dc_binding0. split; [done|]. rewrite elem_of_app. auto.
  - intros d' [?| ->%list_elem_of_singleton]%elem_of_app; auto.
  - intros d' [?| ->%list_elem_of_singleton]%elem_of_app; auto.
Qed.

(** What is declared is new, or there already with these settings. *)
Lemma new_or_present D d v : d ∈ planned → declared D v →
  match d with
  | ExchangeDeclare x kind durable => en_exchanges v !! x = None ∨ present d v
  | QueueDeclare q durable args => en_queues v !! q = None ∨ present d v
  | QueueBind _ _ _ => True
  end.
Proof.
  intros Hd Hv. destruct d as [x kind durable|q durable args|q x key]; [| |done].
  - destruct (en_exchanges v !! x) as [[kind' durable']|] eqn:Hx; [right|by left].
    apply (dc_exchange _ _ Hv) in Hx as Hp. destruct Hp as [Hp _]. pose proof (planned_agree _ _ Hd Hp) as Hc. simpl in Hc.
    rewrite bool_decide_true in Hc by done. simpl in Hc. apply negb_false_iff, andb_true_iff in Hc as [<-%bool_decide_eq_true <-%bool_decide_eq_true]. done.
  - destruct (en_queues v !! q) as [[durable' args' l]|] eqn:Hq; [right|by left].
    apply (dc_queue _ _ Hv) in Hq as Hp. destruct Hp as [Hp _]. pose proof (planned_agree _ _ Hd Hp) as Hc. simpl in Hc.
    rewrite bool_decide_true in Hc by done. simpl in Hc. apply negb_false_iff, andb_true_iff in Hc as [<-%bool_decide_eq_true <-%bool_decide_eq_true]. by exists l.
Qed.

Lemma present_declare d d' v v' : declare d v = Some v' → present d' v → present d' v'.
Proof.
  destruct d as [x kind durable|q durable args|q x key]; simpl.
  - destruct (en_exchanges v !! x) as [e|] eqn:Hx; [case_bool_decide; by intros [= <-]|]. intros [= <-].
    destruct d' as [x' ? ?|q' ? ?|q' x' ?]; simpl; try done. destruct (decide (x = x')) as [<-|]; [by rewrite Hx|by rewrite lookup_insert_ne].
  - destruct (en_queues v !! q) as [e|] eqn:Hq; [case_bool_decide; by intros [= <-]|]. intros [= <-].
    destruct d' as [x' ? ?|q' ? ?|q' x' ?]; simpl; try done. destruct (decide (q = q')) as [<-|]; [rewrite Hq; by intros []|by rewrite lookup_insert_ne].
  - destruct (en_queues v !! q), (en_exchanges v !! x); try done. intros [= <-].
    destruct d' as [x' ? ?|q' ? ?|q' x' ?]; simpl; try done. set_solver.
Qed.

Lemma declare_declared D d v :
  d ∈ planned → ready D d → declared D v → ∃ v', declare d v = Some v' ∧ declared (D ++ [d]) v' ∧ ∀ q, messages v' q = messages v q.
Proof.
  intros Hd Hr Hv. pose proof (new_or_present D d v Hd Hv) as Hn.
  assert (present d v → declare d v = Some v → ∃ v', declare d v = Some v' ∧ declared (D ++ [d]) v' ∧ ∀ q, messages v' q = messages v q) as Hagain.
  { intros Hp Hs. exists v. split; [done|]. split; [by apply declared_again|done]. }
  assert (∀ v', declare d v = Some v' → present d v' → (∀ q, messages v' q = messages v q) →
    (∀ x kind durable, en_exchanges v' !! x = Some (kind, durable) → en_exchanges v !! x = Some (kind, durable) ∨ d = ExchangeDeclare x kind durable) →
    (∀ q u, en_queues v' !! q = Some u → en_queues v !! q = Some u ∨ d = QueueDeclare q (qu_durable u) (qu_arguments u) ∧ qu_messages u = []) →
    (∀ q x key, (q, x, key) ∈ en_bindings v' → (q, x, key) ∈ en_bindings v ∨ d = QueueBind q x key) →
    ∃ v', declare d v = Some v' ∧ declared (D ++ [d]) v' ∧ ∀ q, messages v' q = messages v q) as Hnew.
  { intros v' Hs Hp Hm He Hq Hb. exists v'. split; [done|]. split; [|done]. pose proof Hv as []. split.
    - intros x kind durable [[? ?]%dc_exchange0| ->]%He; rewrite elem_of_app, list_elem_of_singleton; auto.
    - intros q u [[? ?]%dc_queue0|[-> _]]%Hq; rewrite elem_of_app, list_elem_of_singleton; auto.
    - intros q x key [[? ?]%dc_binding0| ->]%Hb; rewrite elem_of_app, list_elem_of_singleton; auto.
    - intros d' [?| ->%list_elem_of_singleton]%elem_of_app; [|done]. eapply present_declare; [exact Hs|]. auto.
    - intros d' [?| ->%list_elem_of_singleton]%elem_of_app; auto.
    - intros q u [Hu|[_ ->]]%Hq; [|done]. by apply dc_persistent0. }
  destruct d as [x kind durable|q durable args|q x key]; simpl in *.
  - destruct Hn as [Hx|Hx]; [|apply Hagain; [done|]; rewrite Hx; by rewrite bool_decide_true].
    rewrite Hx in *. eapply Hnew; [done|simpl; by rewrite lookup_insert_eq|done| | |]; simpl; auto.
    intros x' k' d'. destruct (decide (x = x')) as [<-|]; [rewrite lookup_insert_eq; intros [= <- <-]; auto|rewrite lookup_insert_ne by done; auto].
  - destruct Hn as [Hq|[l Hq]]; [|apply Hagain; [by exists l|]; rewrite Hq; by rewrite bool_decide_true].
    rewrite Hq in *. eapply Hnew; [done|exists []; simpl; by rewrite lookup_insert_eq| | | |]; simpl; auto.
    + intros q'. unfold messages. simpl. destruct (decide (q = q')) as [<-|]; [by rewrite lookup_insert_eq, Hq|by rewrite lookup_insert_ne].
    + intros q' u. destruct (decide (q = q')) as [<-|]; [rewrite lookup_insert_eq; intros [= <-]; auto|rewrite lookup_insert_ne by done; auto].
  - destruct Hr as [(du & args & Hq) (k & du' & Hx)]. apply (dc_present _ _ Hv) in Hq as [l Hq], Hx. simpl in Hx. rewrite Hq, Hx in *.
    eapply Hnew; [done|simpl; set_solver|done| | |]; simpl; auto. intros q' x' key'. rewrite elem_of_union, elem_of_singleton. naive_solver.
Qed.
(** *** Starts *)

Fixpoint ready_all D (ds : list declaration) : Prop :=
  match ds with [] => True | d :: ds => ready D d ∧ ready_all (D ++ [d]) ds end.

Lemma topology_ready D s : ready_all D (topology s).
Proof.
  destruct s; simpl; repeat split; try done; repeat eexists; rewrite !elem_of_app, !list_elem_of_singleton; eauto 12.
Qed.

Lemma declare_all_declared D ds b :
  (∀ d, d ∈ ds → d ∈ planned) → ready_all D ds → declared D (b_view b) →
  ∃ b', declare_all ds b = (true, b') ∧ declared (D ++ ds) (b_view b') ∧ ∀ q, messages (b_view b') q = messages (b_view b) q.
Proof.
  revert D b. induction ds as [|d ds IH]; intros D b Hp Hr Hb; simpl.
  - exists b. by rewrite app_nil_r.
  - destruct Hr as [Hd Hr]. destruct (declare_declared D d (b_view b)) as (v1 & Hv1 & Hb1 & Hm1); [set_solver|done|done|].
    pose proof (view_declare d b) as Hl. rewrite Hv1 in Hl. destruct (b_declare d b) as [b1|]; [|done]. simpl in Hl. injection Hl as <-.
    destruct (IH (D ++ [d]) b1) as (b' & -> & Hb' & Hm'); [set_solver|done|done|].
    exists b'. rewrite <-app_assoc in Hb'. split; [done|]. split; [done|]. intros q. by rewrite Hm', Hm1.
Qed.

Lemma start_declared D s b : declared D (b_view b) →
  ∃ b', start s b = (true, b') ∧ declared (D ++ topology s) (b_view b') ∧ ∀ q, messages (b_view b') q = messages (b_view b) q.
Proof. intros Hb. apply declare_all_declared; [apply topology_planned|apply topology_ready|done]. Qed.

(** *** Messages *)

(** Lock messages are not persistent, all others are. *)
Definition kept (q : string) (m : bool * body) : Prop := m.1 = negb (bool_decide (q = "locking_queue")).

(** Same exchanges, bindings and queues, but for the messages. *)
Definition same_settings v v' : Prop :=
  en_exchanges v' = en_exchanges v ∧ en_bindings v' = en_bindings v ∧
  ∀ q, (λ u, (qu_durable u, qu_arguments u)) <$> en_queues v' !! q = (λ u, (qu_durable u, qu_arguments u)) <$> en_queues v !! q.

Lemma declared_same D v v' : same_settings v v' →
  (∀ q, Forall (kept q) (messages v q) → Forall (kept q) (messages v' q)) →
  declared D v → declared D v'.
Proof.
  intros (He & Hb & Hq) Hm Hv. pose proof Hv as []. split; rewrite ?He, ?Hb; try done.
  - intros q u Hu. specialize (Hq q). rewrite Hu in Hq. destruct (en_queues v !! q) as [w|] eqn:Hw; [|done].
    simpl in Hq. injection Hq as -> ->. by apply dc_queue0.
  - intros d Hd. pose proof (dc_present0 d Hd) as Hp. destruct d as [x kind durable|q durable args|q x key]; simpl in *; rewrite ?He, ?Hb; try done.
    destruct Hp as [l Hl]. specialize (Hq q). rewrite Hl in Hq. destruct (en_queues v' !! q) as [[du a l']|]; [|done]. simpl in Hq. injection Hq as -> ->. by exists l'.
  - intros q u Hu. specialize (Hm q). unfold messages in Hm. rewrite Hu in Hm. apply Hm.
    specialize (Hq q). rewrite Hu in Hq. destruct (en_queues v !! q) as [w|] eqn:Hw; [|done]. simpl. by eapply dc_persistent0.
Qed.

(** What a publication leaves: the message at the end of each queue it goes to. *)
Lemma publish_messages x key m v r v' : publish x key m v = Some (r, v') →
  same_settings v v' ∧ (∀ q, messages v' q = messages v q ++ (if bool_decide (is_Some (en_queues v !! q)) && goes_to x key v q then [m] else [])) ∧
  (r = true ↔ ∃ q, is_Some (en_queues v !! q) ∧ goes_to x key v q = true).
Proof.
  unfold publish. case_bool_decide; [done|]. intros [= <- <-]. split; [|split].
  - split; [done|]. split; [done|]. intros q. simpl. rewrite map_lookup_imap. destruct (en_queues v !! q); simpl; [|done]. by destruct (goes_to x key v q).
  - intros q. unfold messages. simpl. rewrite map_lookup_imap. destruct (en_queues v !! q) as [u|]; simpl; [|done].
    destruct (goes_to x key v q); simpl; [done|by rewrite app_nil_r].
  - rewrite existsb_exists. split.
    + intros (q & Hq%list_elem_of_In & Hg). apply list_elem_of_fmap in Hq as ([q' u] & -> & Hq%elem_of_map_to_list). exists q'. by rewrite Hq.
    + intros (q & [u Hq] & Hg). exists q. split; [|done]. apply list_elem_of_In, list_elem_of_fmap. exists (q, u). split; [done|]. by apply elem_of_map_to_list.
Qed.

(** Where messages are published: lock messages to their queue, the others elsewhere. *)
Definition proper (x key : string) (m : bool * body) : Prop := m.1 = negb (bool_decide (x = "" ∧ key = "locking_queue")).

Lemma planned_binding q x key : QueueBind q x key ∈ planned → q ≠ "locking_queue" ∧ (x = "payment_dlx" → q = "payment_failed").
Proof.
  assert (forallb (λ d, match d with
    | QueueBind q x _ => negb (bool_decide (q = "locking_queue")) && (negb (bool_decide (x = "payment_dlx")) || bool_decide (q = "payment_failed"))
    | _ => true end) planned = true) as Hall.
  { unfold planned, topology, declare_topology, payment_topology, notification_topology.
    destruct exchange_durable, queue_durable; vm_compute; reflexivity. }
  intros Hd%list_elem_of_In. rewrite forallb_forall in Hall. specialize (Hall _ Hd). simpl in Hall.
  apply andb_true_iff in Hall as [H1%negb_true_iff%bool_decide_eq_false H2%orb_true_iff]. split; [done|]. intros Hx.
  destruct H2 as [H2%negb_true_iff%bool_decide_eq_false|H2%bool_decide_eq_true]; done.
Qed.

Lemma goes_to_bound D x key v q : declared D v → x ≠ "" → goes_to x key v q = true → ∃ key', (q, x, key') ∈ en_bindings v ∧ QueueBind q x key' ∈ planned.
Proof.
  intros Hv Hx. unfold goes_to. rewrite bool_decide_false by done. destruct (en_exchanges v !! x) as [[[] durable]|]; [| |done].
  - intros Hb%bool_decide_eq_true. exists key. split; [done|]. by apply (dc_binding _ _ Hv).
  - rewrite existsb_exists. intros ([[q' x'] key'] & Hb%list_elem_of_In%elem_of_elements & [Hq Hx']%bool_decide_eq_true). simpl in *. subst.
    exists key'. split; [done|]. by apply (dc_binding _ _ Hv).
Qed.

Lemma publish_declared D x key m v r v' :
  publish x key m v = Some (r, v') → proper x key m → declared D v → declared D v'.
Proof.
  intros Hp Hm Hv. destruct (publish_messages _ _ _ _ _ _ Hp) as (Hs & Hq & _). apply (declared_same D v); [done| |done].
  intros q Hf. rewrite Hq. apply Forall_app. split; [done|]. destruct (_ && _) eqn:E; [|done]. apply Forall_singleton.
  apply andb_true_iff in E as [_ E]. unfold kept, proper in *. rewrite Hm. f_equal. apply bool_decide_ext.
  destruct (decide (x = "")) as [->|Hx].
  - unfold goes_to in E. simpl in E. apply bool_decide_eq_true in E as ->. tauto.
  - apply (goes_to_bound D) in E as (key' & _ & [Hb _]%planned_binding); [|done|done]. tauto.
Qed.

Lemma set_messages_same q u l v : en_queues v !! q = Some u → same_settings v (set_messages q u l v).
Proof.
  intros Hu. split; [done|]. split; [done|]. intros q'. simpl. destruct (decide (q = q')) as [<-|]; [by rewrite lookup_insert_eq, Hu|by rewrite lookup_insert_ne].
Qed.
Lemma set_messages_messages q u l v q' : messages (set_messages q u l v) q' = if decide (q = q') then l else messages v q'.
Proof. unfold messages. simpl. case_decide as E; [rewrite E; by rewrite lookup_insert_eq|by rewrite lookup_insert_ne]. Qed.

Lemma set_messages_declared D q u m l v :
  en_queues v !! q = Some u → qu_messages u = m :: l → declared D v → declared D (set_messages q u l v).
Proof.
  intros Hu Hm. apply declared_same; [by apply set_messages_same|]. intros q'. rewrite set_messages_messages. case_decide as E; [|done].
  rewrite <-E. unfold messages. rewrite Hu. simpl. rewrite Hm. by intros [_ Hf]%Forall_cons.
Qed.

Lemma acknowledge_declared D q v : declared D v → declared D (acknowledge q v).
Proof.
  unfold acknowledge. destruct (en_queues v !! q) as [u|] eqn:Hu; [|done]. destruct (qu_messages u) as [|m l] eqn:Hm; [done|]. by eapply set_messages_declared.
Qed.

(** The dead-letter exchanges. *)
Lemma planned_arguments q durable args x : QueueDeclare q durable args ∈ planned →
  (list_to_map args : gmap string string) !! "x-dead-letter-exchange" = Some x → q ≠ "locking_queue" ∧ x ≠ "".
Proof.
  assert (forallb (λ d, match d with
    | QueueDeclare q _ args => match (list_to_map args : gmap string string) !! "x-dead-letter-exchange" with
                               | Some x => negb (bool_decide (q = "locking_queue")) && negb (bool_decide (x = ""))
                               | None => true end
    | _ => true end) planned = true) as Hall.
  { unfold planned, topology, declare_topology, payment_topology, notification_topology.
    destruct exchange_durable, queue_durable; vm_compute; reflexivity. }
  intros Hd%list_elem_of_In Hx. rewrite forallb_forall in Hall. specialize (Hall _ Hd). simpl in Hall. rewrite Hx in Hall.
  apply andb_true_iff in Hall as [H1%negb_true_iff%bool_decide_eq_false H2%negb_true_iff%bool_decide_eq_false]. done.
Qed.

Lemma reject_declared D q v : declared D v → declared D (reject q v).
Proof.
  intros Hv. unfold reject. destruct (en_queues v !! q) as [u|] eqn:Hu; [|done]. destruct (qu_messages u) as [|m l] eqn:Hm; [done|].
  pose proof (set_messages_declared D q u m l v Hu Hm Hv) as Hs. cbv zeta.
  destruct (argument "x-dead-letter-exchange" u) as [x|] eqn:Hx; [|done]. destruct (argument "x-dead-letter-routing-key" u) as [key|]; [|done].
  destruct (publish x key m _) as [[r v']|] eqn:Hp; [|done]. eapply publish_declared; [exact Hp| |done].
  apply (dc_queue _ _ Hv) in Hu as Hq. destruct Hq as [Hq _]. destruct (planned_arguments _ _ _ _ Hq Hx) as [Hn Hne].
  pose proof (dc_persistent _ _ Hv _ _ Hu) as Hf. rewrite Hm in Hf. apply Forall_cons in Hf as [Hf _].
  unfold proper. rewrite Hf. f_equal. apply bool_decide_ext. tauto.
Qed.

(** *** Restarts *)

Lemma restart_queues v q : en_queues (restart v) !! q = en_queues v !! q ≫= restart_queue.
Proof. simpl. by rewrite lookup_omap. Qed.

Lemma planned_exchange x kind durable : ExchangeDeclare x kind durable ∈ planned → durable = exchange_durable.
Proof.
  assert (forallb (λ d, match d with ExchangeDeclare _ _ durable => Bool.eqb durable exchange_durable | _ => true end) planned = true) as Hall.
  { unfold planned, topology, declare_topology, payment_topology, notification_topology.
    destruct exchange_durable, queue_durable; vm_compute; reflexivity. }
  intros Hd%list_elem_of_In. rewrite forallb_forall in Hall. specialize (Hall _ Hd). by apply Bool.eqb_prop in Hall.
Qed.

Lemma restart_declared D v : declared D v → declared [] (restart v).
Proof.
  intros []. split; simpl; try (by intros ? ?%elem_of_nil).
  - intros x kind durable [Hx Hd]%map_lookup_filter_Some. simpl in Hd. apply dc_exchange0 in Hx as [? _]. split; [done|congruence].
  - intros q u. rewrite lookup_omap. destruct (en_queues v !! q) as [w|] eqn:Hw; simpl; [|done]. unfold restart_queue.
    destruct (qu_durable w) eqn:Hd; [|done]. intros [= <-]. simpl. apply dc_queue0 in Hw as [Hw _]. rewrite Hd in Hw. done.
  - intros q x key [[_ Hx] Hb]%elem_of_filter. simpl in Hx. apply dc_binding0 in Hb as [Hb _]. split; [done|]. intros He. exfalso.
    destruct (en_exchanges v !! x) as [[kind []]|] eqn:E; simplify_eq/=. apply dc_exchange0 in E as [E%planned_exchange _]. congruence.
  - intros q u. rewrite lookup_omap. destruct (en_queues v !! q) as [w|] eqn:Hw; simpl; [|done]. unfold restart_queue.
    destruct (qu_durable w) eqn:Hd; [|done]. intros [= <-]. simpl. apply dc_persistent0 in Hw. apply Forall_forall. intros m [_ Hm]%list_elem_of_filter. by apply (proj1 (Forall_forall _ _) Hw).
Qed.

(** *** Histories *)

Definition declarations (ss : list service) : list declaration := ss ≫= topology.

Lemma declarations_snoc ss s : declarations (ss ++ [s]) = declarations ss ++ topology s.
Proof. unfold declarations. rewrite bind_app. simpl. by rewrite app_nil_r. Qed.

Lemma event_declared ttl D e b : declared D (b_view b) → declared D (b_view (publish_event ttl e b).2).
Proof.
  intros Hb. unfold publish_event. destruct (route_for _) as [r|] eqn:Hr; [|done].
  pose proof (view_publish (exchange r) (routing_key r) (true, inl (message_of ttl r e)) b) as Hl.
  destruct (b_publish _ _ _ b) as [[routed b']|]; [|done]. simpl in Hl. symmetry in Hl. eapply publish_declared; [exact Hl| |done]. unfold route_for in Hr.
  repeat case_bool_decide; simplify_eq/=; done.
Qed.

Lemma lock_declared D m b : declared D (b_view b) → declared D (b_view (publish_to_locking_queue m b)).
Proof.
  intros Hb. unfold publish_to_locking_queue. pose proof (view_publish "" "locking_queue" (false, inr m) b) as Hl.
  destruct (b_publish _ _ _ b) as [[routed b']|]; [|done]. simpl in Hl. symmetry in Hl. by eapply publish_declared.
Qed.

Lemma run_declared ttl os : declared (declarations (since_restart os)) (b_view (broker_run ttl os)).
Proof.
  induction os as [|o os IH] using rev_ind.
  { unfold broker_run. simpl. rewrite view_new. split; simpl; try done; try (by intros ? ?%elem_of_nil). }
  unfold broker_run, since_restart in *. rewrite !fold_left_app. simpl. destruct o; simpl.
  - rewrite declarations_snoc. destruct (start_declared _ s _ IH) as (b' & -> & Hb & _). done.
  - by apply event_declared.
  - by apply lock_declared.
  - rewrite view_acknowledge. by apply acknowledge_declared.
  - rewrite view_reject. by apply reject_declared.
  - rewrite view_restart. by eapply restart_declared.
Qed.

Lemma since_declared ttl os s d : s ∈ since_restart os → d ∈ topology s → present d (b_view (broker_run ttl os)).
Proof.
  intros Hs Hd. apply (dc_present _ _ (run_declared ttl os)). unfold declarations. apply list_elem_of_bind. by exists s.
Qed.
End invariant.

(** ** Properties *)

Section properties.
Context `{!LapinOptions} {B : Type} `{!Broker body B}.
Implicit Types (ss : list service) (v : entities body).

(** C27: Services may start in any order and as often as they like.  Whatever was declared,
    published, rejected and restarted before, no declaration of a start is refused (two
    services never disagree on an exchange or a queue), and no message moves. *)
Theorem services_start_in_any_order ttl os s :
  let b := broker_run (B := B) ttl os in
  (start s b).1 = true ∧ ∀ q, messages (b_view (start s b).2) q = messages (b_view b) q.
Proof. simpl. by destruct (start_declared _ s _ (run_declared ttl os)) as (b' & -> & _ & Hm). Qed.

(** The queues an event is meant for, given the services started since the broker was. *)
Definition destinations (ss : list service) (event_type : string) : list string :=
  if bool_decide (event_type ∈ ["payment.requested"; "payment.cancellation_requested"]) then ["payment_processing"]
  else if bool_decide (NotificationWorker ∈ ss) then ["notification_queue"] else [].

Lemma payment_queue_bound ss v q :
  OutboxServer ∈ ss → (∀ s d, s ∈ ss → d ∈ topology s → present d v) →
  bool_decide (is_Some (en_queues v !! q)) && goes_to "" "payment_processing" v q = bool_decide (q ∈ ["payment_processing"]).
Proof.
  intros Hs Hp. unfold goes_to. simpl. destruct (decide (q = "payment_processing")) as [->|Hn].
  - destruct (Hp OutboxServer (QueueDeclare "payment_processing" queue_durable (dead_letters_to "payment_dlx")) Hs) as [l Hl]; [simpl; set_solver|].
    rewrite Hl. simpl. done.
  - rewrite (bool_decide_false (q = _)), andb_false_r by done. symmetry. apply bool_decide_false. set_solver.
Qed.

Ltac in_cases H := repeat (apply elem_of_cons in H as [H|H]; [simplify_eq|]); [..|by apply elem_of_nil in H].

Lemma planned_events q key : QueueBind q "booking_events_exchange" key ∈ planned → q = "notification_queue".
Proof. intros Hb. in_cases Hb. done. Qed.

Lemma events_bound_by s q key : QueueBind q "booking_events_exchange" key ∈ topology s → s = NotificationWorker.
Proof. destruct s; intros Hb; in_cases Hb; done. Qed.

Lemma events_queue_bound ss v q : exchange_durable = false →
  OutboxServer ∈ ss → (∀ s d, s ∈ ss → d ∈ topology s → present d v) → declared (declarations ss) v →
  bool_decide (is_Some (en_queues v !! q)) && goes_to "booking_events_exchange" "" v q =
    bool_decide (q ∈ if bool_decide (NotificationWorker ∈ ss) then ["notification_queue"] else []).
Proof.
  intros He Hs Hp Hv. assert (en_exchanges v !! "booking_events_exchange" = Some (Fanout, exchange_durable)) as Hx.
  { apply (Hp OutboxServer (ExchangeDeclare "booking_events_exchange" Fanout exchange_durable) Hs). simpl. set_solver. }
  destruct (bool_decide (q ∈ _)) eqn:E.
  - apply bool_decide_eq_true in E. case_bool_decide as Hw; [|by apply elem_of_nil in E]. apply list_elem_of_singleton in E as ->.
    destruct (Hp NotificationWorker (QueueDeclare "notification_queue" true (dead_letters_to "notification_dlx")) Hw) as [l Hl]; [simpl; set_solver|].
    rewrite Hl. unfold goes_to. simpl. rewrite Hx. apply existsb_exists. exists ("notification_queue", "booking_events_exchange", "").
    split; [|by rewrite bool_decide_true]. apply list_elem_of_In, elem_of_elements.
    apply (Hp NotificationWorker (QueueBind "notification_queue" "booking_events_exchange" "") Hw). simpl. set_solver.
  - apply bool_decide_eq_false in E. apply andb_false_iff. right. apply not_true_iff_false. intros Hg.
    apply (goes_to_bound _ _ _ _ _ Hv) in Hg as (key & Hb & Hpl); [|done]. apply planned_events in Hpl as ->.
    apply (dc_binding _ _ Hv) in Hb as [_ Hb]. specialize (Hb He). unfold declarations in Hb.
    apply list_elem_of_bind in Hb as (s & Hd & Hin). apply events_bound_by in Hd as ->. apply E. rewrite bool_decide_true by done. set_solver.
Qed.

(** C25: An event of the outbox reaches its worker.  Once the outbox server has started on a
    broker, whatever else happened there, the broker takes every routable event: a payment
    request or cancellation is put into the queue of the payment processor, which exists
    whether or not that worker ever started; a booking event is put into the queue of the
    notification worker if this worker has started since the broker did, and is confirmed and
    dropped otherwise; no other queue changes. *)
Theorem published_event_reaches_worker ttl os e r :
  exchange_durable = false → OutboxServer ∈ since_restart os → route_for (ce_event_type e) = Some r →
  let b := broker_run (B := B) ttl os in
  let '(c, b') := publish_event ttl e b in
  c = Confirmed ∧
  ∀ q, messages (b_view b') q = messages (b_view b) q ++
    (if bool_decide (q ∈ destinations (since_restart os) (ce_event_type e)) then [(true, inl (message_of ttl r e))] else []).
Proof.
  intros He Hs Hr. cbv zeta. pose proof (run_declared ttl os) as Hv. set (b := broker_run ttl os) in *.
  pose proof (λ s d, since_declared ttl os s d) as Hp. fold b in Hp.
  unfold publish_event. rewrite Hr. pose proof (view_publish (exchange r) (routing_key r) (true, inl (message_of ttl r e)) b) as Hl.
  assert (publish (exchange r) (routing_key r) (true, inl (message_of ttl r e)) (b_view b) ≠ None ∧
    ∀ q, bool_decide (is_Some (en_queues (b_view b) !! q)) && goes_to (exchange r) (routing_key r) (b_view b) q =
      bool_decide (q ∈ destinations (since_restart os) (ce_event_type e))) as [Hx Hq].
  { unfold route_for in Hr. unfold destinations, publish. case_bool_decide; [simplify_eq/=|case_bool_decide; simplify_eq/=].
    - split; [done|]. intros q. by eapply payment_queue_bound.
    - split; [|intros q; by apply events_queue_bound]. rewrite bool_decide_false; [done|]. intros [_ Hn].
      rewrite (Hp OutboxServer (ExchangeDeclare "booking_events_exchange" Fanout exchange_durable) Hs) in Hn; [done|]. simpl. set_solver. }
  destruct (b_publish _ _ _ b) as [[routed b']|]; simpl in Hl; [|congruence]. symmetry in Hl.
  destruct (publish_messages _ _ _ _ _ _ Hl) as (_ & Hm & Hro). split; [|intros q; by rewrite Hm, Hq].
  unfold route_for in Hr. case_bool_decide as Ht; [simplify_eq/=|case_bool_decide; simplify_eq/=; by rewrite andb_false_r].
  assert (routed = true) as ->; [|done]. apply Hro. exists "payment_processing". specialize (Hq "payment_processing").
  unfold destinations in Hq. rewrite (bool_decide_true (ce_event_type e ∈ _)) in Hq by done. simpl in Hq.
  by apply andb_true_iff in Hq as [Hq%bool_decide_eq_true ?].
Qed.

Lemma planned_durable q durable args : queue_durable = false → QueueDeclare q durable args ∈ planned →
  durable = bool_decide (q ∈ ["notification_queue"; "notification_failed"; "locking_queue"]).
Proof. intros Hq Hd. in_cases Hd; rewrite ?Hq; done. Qed.

(** C28: What a restart of the broker loses.  With lapin's defaults, that nothing is durable
    unless asked for, a restart keeps the events for the mails and the rejected ones of them, and
    no other message: every payment request and cancellation that was published and confirmed,
    every rejected payment and every lock message is gone, although the outbox sends its events
    as persistent messages and has marked them as published. *)
Theorem restart_keeps_mails_only ttl os q :
  queue_durable = false →
  let b := broker_run (B := B) ttl os in
  messages (b_view (b_restart b)) q =
    if bool_decide (q ∈ ["notification_queue"; "notification_failed"]) then messages (b_view b) q else [].
Proof.
  intros Hqd b. pose proof (run_declared ttl os) as Hv. fold b in Hv. rewrite view_restart. unfold messages. rewrite restart_queues.
  destruct (en_queues (b_view b) !! q) as [u|] eqn:Hu; simpl; [|by case_bool_decide].
  pose proof (dc_persistent _ _ Hv _ _ Hu) as Hf. apply (dc_queue _ _ Hv) in Hu as [Hp _]. apply (planned_durable _ _ _ Hqd) in Hp.
  unfold restart_queue. rewrite Hp. destruct (decide (q = "locking_queue")) as [->|Hn].
  - simpl. apply filter_no. eapply Forall_impl; [exact Hf|]. by intros m ->.
  - assert (bool_decide (q ∈ ["notification_queue"; "notification_failed"; "locking_queue"]) = bool_decide (q ∈ ["notification_queue"; "notification_failed"])) as ->.
    { apply bool_decide_ext. set_solver. }
    destruct (decide (q ∈ ["notification_queue"; "notification_failed"])) as [Hin|Hin];
      [rewrite !(bool_decide_true (q ∈ _)) by done|by rewrite !(bool_decide_false (q ∈ _)) by done].
    apply filter_every. eapply Forall_impl; [exact Hf|]. intros m ->. by rewrite bool_decide_false.
Qed.

Lemma payment_declared_by D v u : queue_durable = false → declared D v → en_queues v !! "payment_processing" = Some u →
  QueueDeclare "payment_processing" false (dead_letters_to "payment_dlx") ∈ D ∧ qu_arguments u = dead_letters_to "payment_dlx".
Proof.
  intros Hq Hv Hu. apply (dc_queue _ _ Hv) in Hu as [Hp Hd].
  assert (QueueDeclare "payment_processing" queue_durable (dead_letters_to "payment_dlx") ∈ planned) as Hpl.
  { apply (topology_planned OutboxServer). simpl. set_solver. }
  pose proof (planned_agree _ _ Hp Hpl) as Hc. simpl in Hc.
  apply negb_false_iff, andb_true_iff in Hc as [Hc1%bool_decide_eq_true Hc2%bool_decide_eq_true].
  rewrite Hc1, Hc2, Hq in Hd. auto.
Qed.

(** Who declares the queue of the payments declares where its rejected messages go. *)
Lemma payment_dead_letters ss v u : queue_durable = false → declared (declarations ss) v → en_queues v !! "payment_processing" = Some u →
  (∃ kind, en_exchanges v !! "payment_dlx" = Some (Direct, kind)) ∧ is_Some (en_queues v !! "payment_failed") ∧
  ("payment_failed", "payment_dlx", "failed") ∈ en_bindings v.
Proof.
  intros Hq Hv Hu. apply (payment_declared_by _ _ _ Hq Hv) in Hu as [Hd _]. unfold declarations in Hd.
  apply list_elem_of_bind in Hd as (s & Hd & Hs).
  assert (∀ d, d ∈ declare_topology → present d v) as Hp.
  { intros d Hin. apply (dc_present _ _ Hv). unfold declarations. apply list_elem_of_bind. exists s. split; [|done].
    destruct s; [done|done|..]; exfalso; in_cases Hd. }
  split; [|split].
  - exists exchange_durable. apply (Hp (ExchangeDeclare "payment_dlx" Direct exchange_durable)). simpl. set_solver.
  - destruct (Hp (QueueDeclare "payment_failed" queue_durable [])) as [l Hl]; [simpl; set_solver|]. by rewrite Hl.
  - apply (Hp (QueueBind "payment_failed" "payment_dlx" "failed")). simpl. set_solver.
Qed.

(** C26: A rejected payment is kept.  After any history, the first message of the queue of the
    payment processor is moved to the end of [payment_failed] when it is rejected or expires,
    and no other queue changes: the queue cannot exist without the exchange, the queue and the
    binding its dead letters need. *)
Theorem rejected_payment_is_kept ttl os m l q :
  queue_durable = false →
  let b := broker_run (B := B) ttl os in
  messages (b_view b) "payment_processing" = m :: l →
  messages (b_view (b_reject "payment_processing" b)) q =
    if bool_decide (q = "payment_processing") then l
    else if bool_decide (q = "payment_failed") then messages (b_view b) q ++ [m] else messages (b_view b) q.
Proof.
  intros Hqd b Hm. pose proof (run_declared ttl os) as Hv. fold b in Hv. rewrite view_reject. unfold reject. unfold messages in Hm.
  destruct (en_queues (b_view b) !! "payment_processing") as [u|] eqn:Hu; [|done]. simpl in Hm. rewrite Hm. cbv zeta.
  destruct (payment_declared_by _ _ _ Hqd Hv Hu) as [_ Ha]. destruct (payment_dead_letters _ _ _ Hqd Hv Hu) as ([k Hx] & [f Hf] & Hb).
  unfold argument. rewrite Ha. change ((list_to_map (dead_letters_to "payment_dlx") : gmap string string) !! "x-dead-letter-exchange") with (Some "payment_dlx").
  change ((list_to_map (dead_letters_to "payment_dlx") : gmap string string) !! "x-dead-letter-routing-key") with (Some "failed"). cbv iota.
  pose proof (set_messages_declared _ _ _ _ _ _ Hu Hm Hv) as Hs.
  destruct (publish "payment_dlx" "failed" m (set_messages "payment_processing" u l (b_view b))) as [[r v']|] eqn:Hp.
  2:{ unfold publish in Hp. simpl in Hp. rewrite Hx in Hp. by rewrite bool_decide_false in Hp by (intros [? ?]; done). }
  destruct (publish_messages _ _ _ _ _ _ Hp) as (_ & Hq & _). rewrite Hq, set_messages_messages.
  destruct (decide (q = "payment_failed")) as [->|Hn].
  - simpl. rewrite lookup_insert_ne, Hf by done. unfold goes_to. simpl. rewrite Hx. by rewrite bool_decide_true.
  - assert (goes_to "payment_dlx" "failed" (set_messages "payment_processing" u l (b_view b)) q = false) as ->.
    { apply not_true_iff_false. intros Hg. apply (goes_to_bound _ _ _ _ _ Hs) in Hg as (key' & _ & [_ Hpl]%planned_binding); [|done]. by apply Hn, Hpl. }
    rewrite andb_false_r, app_nil_r, (bool_decide_false (q = "payment_failed")) by done. case_decide; case_bool_decide; done.
Qed.
End properties.

(** ** A broker in memory *)

#[local] Instance lapin_defaults : LapinOptions := {| exchange_durable := false; queue_durable := false |}.

#[local] Instance mem_broker : Broker body (entities body).
Proof.
  refine {| b_view := id; b_new := no_entities; b_declare := declare; b_publish := publish; b_acknowledge := acknowledge;
            b_reject := reject; b_restart := restart |}; try done.
  - intros d b. change (id b) with b. by destruct (declare d b).
  - intros x key m b. change (id b) with b. by destruct (publish x key m b) as [[r b']|].
Defined.

Definition checkout_event : claimed_event := ClaimedEvent 1 1 "payment.requested" (JObj [("order_id", JStr "o1")]) 0.
Definition booking_event : claimed_event := ClaimedEvent 2 1 "OrderCompleted" (JObj [("order_id", JStr "o1")]) 0.
Definition busy_broker : list broker_op :=
  [BStart OutboxServer; BEvent booking_event; BStart NotificationWorker; BStart PaymentProcessor; BEvent checkout_event;
   BEvent booking_event; BStart LockServer; BLock (SeatLockMessage "lock" 3 7 [11] 1000)].
Definition busy : entities body := broker_run (B := entities body) None busy_broker.

(** The first booking event had no queue to go to. *)
Example busy_queues :
  (length <$> map (messages busy) ["payment_processing"; "payment_failed"; "notification_queue"; "locking_queue"]) = [1; 0; 1; 1]%nat.
Proof. vm_compute. reflexivity. Qed.

Lemma published_event_reaches_worker_witness :
  let '(c, b') := publish_event (B := entities body) None checkout_event busy in
  c = Confirmed ∧
  ∀ q, messages (b_view b') q = messages (b_view busy) q ++
    (if bool_decide (q ∈ destinations (since_restart busy_broker) (ce_event_type checkout_event))
     then [(true, inl (message_of None (Route "" "payment_processing") checkout_event))] else []).
Proof.
  pose proof (published_event_reaches_worker (B := entities body) None busy_broker checkout_event (Route "" "payment_processing")
    eq_refl ltac:(vm_compute; set_solver) eq_refl) as H. exact H.
Defined.

Lemma restart_keeps_mails_only_witness :
  messages (b_view (b_restart (B := entities body) busy)) "payment_processing" =
    if bool_decide ("payment_processing" ∈ ["notification_queue"; "notification_failed"]) then messages (b_view busy) "payment_processing" else [].
Proof.
  pose proof (restart_keeps_mails_only (B := entities body) None busy_broker "payment_processing" eq_refl) as H. exact H.
Defined.

Lemma rejected_payment_is_kept_witness :
  let m := (true, inl (message_of None (Route "" "payment_processing") checkout_event)) in
  messages (b_view (b_reject (B := entities body) "payment_processing" busy)) "payment_failed" =
    if bool_decide ("payment_failed" = "payment_processing") then []
    else if bool_decide ("payment_failed" = "payment_failed") then messages (b_view busy) "payment_failed" ++ [m]
    else messages (b_view busy) "payment_failed".
Proof.
  cbv zeta.
  pose proof (rejected_payment_is_kept (B := entities body) None busy_broker
    (true, inl (message_of None (Route "" "payment_processing") checkout_event)) [] "payment_failed" eq_refl
    ltac:(vm_compute; reflexivity)) as H. exact H.
Defined.
