(* ===== verification/Connections.v ===== *)
(** * Connections: how services reach Redis, PostgreSQL, MongoDB and RabbitMQ
    ([establish_pool] and [establish_seat_lock] of [packages/redis-conn/src/lib.rs],
    [packages/db/src/db.rs], [packages/mongo-conn/src/client.rs], [tls_config_from_env] and
    [connect_with_retry] of [packages/rmq-conn/src/lib.rs])

    Three of the four loops are the same: a bounded number of attempts with a doubling,
    capped wait between two of them.  RabbitMQ's is that of the crate tokio-retry: its
    delays and its driver are the class [RetryCrate].  What a service answers to the [k]-th
    attempt is an argument.  Durations are in milliseconds. *)

From S2P Require Import Prelude Text SeatLock SingleNodeLock NotifyConfig Outbox.

#[local] Open Scope string_scope.
#[local] Open Scope list_scope.
#[local] Open Scope Z_scope.

(** ** Settings *)

Definition env_u64 (env : environment) (name : string) (dflt : Z) : Z := default dflt (env name ≫= parse_u64).

(** [u64::clamp(1, u32::MAX) as u32]. *)
Definition env_u32 (env : environment) (name : string) (dflt : Z) : Z :=
  u32 (Z.max 1 (Z.min (env_u64 env name dflt) (2 ^ 32 - 1))).

(** The longest [Duration] is 2^64 - 1 seconds and 999999999 nanoseconds. *)
Definition duration_max : Z := (2 ^ 64 - 1) * 1000 + 999.
Definition duration_double (d : Z) : Z := Z.min (d * 2) duration_max.

(** ** The retry loop *)

(** An attempt connects, is refused, or fails for good. *)
Inductive attempt (A E : Type) := Built (a : A) | Refused (e : E) | Broken (e : E).
Arguments Built {A E}. Arguments Refused {A E}. Arguments Broken {A E}.

(** How a start ends: with the connection, with an error, or in a panic. *)
Inductive outcome (A E : Type) := Connected (a : A) | Failed (e : E) | Panicked.
Arguments Connected {A E}. Arguments Failed {A E}. Arguments Panicked {A E}.

(** [Ok] and [Err] of an attempt that may be made again. *)
Definition tried {A E : Type} (r : A + E) : attempt A E := match r with inl a => Built a | inr e => Refused e end.

Section loop.
Context {A E : Type}.
Variable build : Z → attempt A E.

(** [for attempt in k..=attempts], [n] rounds of it, with the waits; past the last round is
    the [unreachable!]. *)
Fixpoint retry_loop (n : nat) (k attempts delay max_delay : Z) : outcome A E * list Z :=
  match n with
  | O => (Panicked, [])
  | S n =>
      match build k with
      | Built a => (Connected a, [])
      | Broken e => (Failed e, [])
      | Refused e =>
          if k <? attempts
          then let '(r, waits) := retry_loop n (k + 1) attempts (Z.min (duration_double delay) max_delay) max_delay in
               (r, delay :: waits)
          else (Failed e, [])
      end
  end.

Definition connect_loop (env : environment) : outcome A E * list Z :=
  let attempts := env_u32 env "CONNECTION_RETRY_ATTEMPTS" 30 in
  let delay := env_u64 env "CONNECTION_RETRY_INITIAL_MS" 500 in
  let max_delay := env_u64 env "CONNECTION_RETRY_MAX_MS" 30000 in
  retry_loop (Z.to_nat attempts) 1 attempts delay max_delay.
End loop.

(** ** The services *)

Section services.
Context {E : Type}.
Variable env : environment.

(** [into_connection_info] reads the URL, [manager] makes the connection manager, and a pool
    is built with the timeout in seconds. *)
Definition establish_pool {I M P : Type} (into_connection_info : string → I + E) (manager : I → option M)
    (build : M → Z → Z → P + E) : outcome P E * list Z :=
  match env "REDIS_URL" with
  | None => (Panicked, [])
  | Some redis_url =>
      match into_connection_info redis_url with
      | inr e => (Failed e, [])
      | inl info =>
          match manager info with
          | None => (Panicked, [])
          | Some m =>
              let timeout := env_u64 env "REDIS_CONNECTION_TIMEOUT_SECS" 60 in
              connect_loop (λ k, tried (build m timeout k)) env
          end
      end
  end.

(** The last error of the loop is a panic. *)
Definition create_db_pool {P : Type} (build : string → Z → Z → P + E) : option P * list Z :=
  match env "DATABASE_URL" with
  | None => (None, [])
  | Some database_url =>
      let timeout := env_u64 env "DB_CONNECTION_TIMEOUT_SECS" 60 in
      let '(r, waits) := connect_loop (λ k, tried (build database_url timeout k)) env in
      (match r with Connected p => Some p | _ => None end, waits)
  end.

(** A client that cannot be built ends the loop; a ping that fails is tried again. *)
Definition create_mongo_client {O C : Type} (parse : string → O + E) (not_set : E) (with_options : O → C + E)
    (ping : C → Z → option E) : outcome C E * list Z :=
  match env "MONGODB_URL" with
  | None => (Failed not_set, [])
  | Some url =>
      match parse url with
      | inr e => (Failed e, [])
      | inl opts =>
          connect_loop (λ k, match with_options opts with
                             | inr e => Broken e
                             | inl client => match ping client k with None => Built client | Some e => Refused e end
                             end) env
      end
  end.
End services.

(** ** RabbitMQ *)

Record tls_config := TlsConfig { tls_identity : option (string * string); tls_cert_chain : option string }.

(** [read] is the file system; [None] is a panic. *)
Definition tls_config_from_env (env : environment) (read : string → option string) : option tls_config :=
  match env "RABBITMQ_TLS_IDENTITY_PATH", env "RABBITMQ_TLS_CA_PATH" with
  | Some identity_path, Some ca_path =>
      der ← read identity_path;
      ca ← read ca_path;
      Some (TlsConfig (Some (der, default EmptyString (env "RABBITMQ_TLS_IDENTITY_PASSWORD"))) (Some ca))
  | None, None => Some (TlsConfig None None)
  | _, _ => None
  end.

(** tokio-retry: the delays of [ExponentialBackoff], and [Retry::start], that makes the action's
    [k]-th call and after a failure waits for the next delay of the strategy, until there is
    none. *)
Class RetryCrate := {
  backoff : Z → Z → nat → list Z;
  backoff_length initial max_delay n : length (backoff initial max_delay n) = n;
  retry_start {A E : Type} : list Z → (Z → attempt A E) → outcome A E * list Z;
  retry_nil {A E} (action : Z → attempt A E) : retry_start [] action =
    (match action 1 with Built a => Connected a | Refused e => Failed e | Broken e => Panicked end, []);
  retry_cons {A E} d ds (action : Z → attempt A E) : retry_start (d :: ds) action =
    match action 1 with
    | Built a => (Connected a, [])
    | Broken _ => (Panicked, [])
    | Refused _ => let '(r, waits) := retry_start ds (λ k, action (k + 1)) in (r, d :: waits)
    end
}.

(** [connect] makes the connection with the settings, or fails.  A panic while the settings
    are read is a broken attempt. *)
Definition connect_with_retry `{RetryCrate} {C E : Type} (env : environment) (read : string → option string)
    (connect : string → tls_config → Z → C + E) (broken : E) : outcome C E * list Z :=
  match env "RABBITMQ_URL" with
  | None => (Panicked, [])
  | Some amqp_url =>
      let initial_delay := env_u64 env "CONNECTION_RETRY_INITIAL_MS" 500 in
      let max_delay := env_u64 env "CONNECTION_RETRY_MAX_MS" 30000 in
      let attempts := Z.max (env_u64 env "CONNECTION_RETRY_ATTEMPTS" 30) 1 in
      retry_start (backoff initial_delay max_delay (Z.to_nat attempts)) (λ k,
        match tls_config_from_env env read with
        | None => Broken broken
        | Some tls => tried (connect amqp_url tls k)
        end)
  end.

(** ** The seat lock *)

Inductive seat_lock_start (C E : Type) := NoLock | LockFailed (e : E) | ClusterMode (lock : C) | SingleNodeMode (urls : list string).
Arguments NoLock {C E}. Arguments LockFailed {C E}. Arguments ClusterMode {C E}. Arguments SingleNodeMode {C E}.

(** [cluster] is [ClusterLock::establish], [connect] says which single servers answer. *)
Definition establish_seat_lock {C E : Type} (env : environment) (cluster : list string → C + E) (connect : string → bool)
    (not_connected : E) : seat_lock_start C E :=
  let redis_mode := default "single" (env "REDIS_MODE") in
  if eq_ignore_ascii_case redis_mode "cluster"
  then match env "REDIS_CLUSTER_URL" with
       | None => NoLock
       | Some cluster_url => match cluster [cluster_url] with inl lock => ClusterMode lock | inr e => LockFailed e end
       end
  else match establish (env "REDIS_CLUSTER_URLS") (env "REDIS_URL") (env "REDIS_REMOTE_URL") connect with
       | SPanic => NoLock
       | SNotConnected => LockFailed not_connected
       | SPools urls => SingleNodeMode urls
       end.

(** ** The loop makes its attempts *)

Lemma parse_u64_bounds s z : parse_u64 s = Some z → 0 ≤ z < 2 ^ 64.
Proof.
  unfold parse_u64. destruct (parse_Z s) as [x|]; simpl; [|done]. destruct (_ && _) eqn:E; [|done]. intros [= <-].
  apply andb_true_iff in E as [[_ E1%Z.leb_le]%andb_true_iff E2%Z.ltb_lt]. lia.
Qed.
Lemma env_u64_bounds env name dflt : 0 ≤ dflt < 2 ^ 64 → 0 ≤ env_u64 env name dflt < 2 ^ 64.
Proof.
  intros Hd. unfold env_u64. destruct (env name) as [s|]; simpl; [|done]. destruct (parse_u64 s) as [z|] eqn:E; simpl; [|done].
  by eapply parse_u64_bounds.
Qed.
Lemma env_u32_bounds env name dflt : 1 ≤ env_u32 env name dflt < 2 ^ 32.
Proof.
  unfold env_u32. set (z := Z.max 1 _). assert (1 ≤ z < 2 ^ 32) by (unfold z; lia).
  unfold u32. rewrite wrap_u_small; [done|lia|unfold in_u; lia].
Qed.

(** The wait after the [i]-th attempt, from 0. *)
Definition wait (initial max_delay i : Z) : Z := if i =? 0 then initial else Z.min (initial * 2 ^ i) max_delay.

Lemma duration_double_exact d : 0 ≤ d < 2 ^ 64 → duration_double d = d * 2.
Proof. intros Hd. unfold duration_double, duration_max. lia. Qed.

Lemma wait_next initial max_delay i :
  0 ≤ initial < 2 ^ 64 → 0 ≤ max_delay < 2 ^ 64 → 0 ≤ i →
  Z.min (duration_double (wait initial max_delay i)) max_delay = wait initial max_delay (i + 1).
Proof.
  intros Hi Hm Hk. unfold wait. rewrite (proj2 (Z.eqb_neq (i + 1) 0)) by lia. rewrite Z.pow_add_r by lia. change (2 ^ 1) with 2.
  destruct (Z.eqb_spec i 0) as [->|]; [rewrite duration_double_exact by lia; f_equal; lia|].
  assert (0 < 2 ^ i) by (apply Z.pow_pos_nonneg; lia). rewrite duration_double_exact; nia.
Qed.

Section attempts.
Context {A E : Type}.
Variable build : Z → attempt A E.

Definition refused (k : Z) : Prop := ∃ e, build k = Refused e.
Definition last_outcome (x : attempt A E) : outcome A E :=
  match x with Built a => Connected a | Refused e | Broken e => Failed e end.

Lemma retry_loop_attempts n k attempts initial max_delay :
  0 ≤ initial < 2 ^ 64 → 0 ≤ max_delay < 2 ^ 64 → 1 ≤ k ≤ attempts → Z.of_nat n = attempts - k + 1 →
  ∃ j, k ≤ j ≤ attempts ∧ (∀ i, k ≤ i < j → refused i) ∧ (j = attempts ∨ ¬ refused j) ∧
    retry_loop build n k attempts (wait initial max_delay (k - 1)) max_delay =
      (last_outcome (build j), wait initial max_delay <$> seqZ (k - 1) (j - k)).
Proof.
  intros Hi Hm. revert k. induction n as [|n IH]; intros k Hk Hn; [lia|]. simpl.
  destruct (build k) as [a|e|e] eqn:Hb.
  - exists k. split; [lia|]. split; [lia|]. split; [right; intros [e He]; congruence|]. by rewrite Hb, Z.sub_diag.
  - destruct (Z.ltb_spec k attempts) as [Hlt|Hge].
    + destruct (IH (k + 1)) as (j & Hj & Href & Hend & Hr); [lia|lia|]. rewrite wait_next by lia.
      replace (k - 1 + 1) with (k + 1 - 1) by lia. rewrite Hr. exists j. split; [lia|]. split; [|split; [done|]].
      * intros i Hi'. destruct (decide (i = k)) as [->|]; [by exists e|]. apply Href. lia.
      * rewrite (seqZ_cons (k - 1) (j - k)) by lia. simpl. replace (Z.pred (j - k)) with (j - (k + 1)) by lia.
        by replace (Z.succ (k - 1)) with (k + 1 - 1) by lia.
    + exists k. split; [lia|]. split; [lia|]. split; [left; lia|]. by rewrite Hb, Z.sub_diag.
  - exists k. split; [lia|]. split; [lia|]. split; [right; intros [e' He]; congruence|]. by rewrite Hb, Z.sub_diag.
Qed.

(** Whatever the environment holds, the loop ends with the first attempt that is not refused, or
    with the last of the configured number, which is between one and 2^32 - 1: its outcome is
    that attempt's, [unreachable!] is not reached, and the waits are the initial delay and then
    its doublings, capped, none of which saturates. *)
Lemma connection_attempts env :
  let attempts := env_u32 env "CONNECTION_RETRY_ATTEMPTS" 30 in
  let initial := env_u64 env "CONNECTION_RETRY_INITIAL_MS" 500 in
  let max_delay := env_u64 env "CONNECTION_RETRY_MAX_MS" 30000 in
  ∃ j, 1 ≤ j ≤ attempts ∧ attempts < 2 ^ 32 ∧ (∀ i, 1 ≤ i < j → refused i) ∧ (j = attempts ∨ ¬ refused j) ∧
    connect_loop build env = (last_outcome (build j), wait initial max_delay <$> seqZ 0 (j - 1)).
Proof.
  simpl. pose proof (env_u32_bounds env "CONNECTION_RETRY_ATTEMPTS" 30) as Ha. unfold connect_loop.
  destruct (retry_loop_attempts (Z.to_nat (env_u32 env "CONNECTION_RETRY_ATTEMPTS" 30)) 1 (env_u32 env "CONNECTION_RETRY_ATTEMPTS" 30)
    (env_u64 env "CONNECTION_RETRY_INITIAL_MS" 500) (env_u64 env "CONNECTION_RETRY_MAX_MS" 30000)) as (j & Hj & Hr & He & Hl);
    try (apply env_u64_bounds; lia); try lia.
  exists j. split; [lia|]. split; [lia|]. split; [done|]. split; [done|]. exact Hl.
Qed.

Lemma connected_iff_ready env a :
  (connect_loop build env).1 = Connected a ↔
    ∃ j, 1 ≤ j ≤ env_u32 env "CONNECTION_RETRY_ATTEMPTS" 30 ∧ build j = Built a ∧ ∀ i, 1 ≤ i < j → refused i.
Proof.
  destruct (connection_attempts env) as (j & Hj & _ & Hr & He & ->). simpl. split.
  - intros Hl. exists j. split; [done|]. split; [|done]. destruct (build j) eqn:Hb; simplify_eq/=. done.
  - intros (j' & Hj' & Hb & Hr'). destruct (Z.lt_trichotomy j j') as [Hlt|[<-|Hgt]].
    + destruct He as [->|Hn]; [lia|]. exfalso. apply Hn, Hr'. lia.
    + by rewrite Hb.
    + destruct (Hr j') as [e He']; [lia|congruence].
Qed.

Lemma waits_bounded env :
  Z.of_nat (length (connect_loop build env).2) < env_u32 env "CONNECTION_RETRY_ATTEMPTS" 30 ∧
  Forall (λ d, 0 ≤ d ≤ Z.max (env_u64 env "CONNECTION_RETRY_INITIAL_MS" 500) (env_u64 env "CONNECTION_RETRY_MAX_MS" 30000))
    (connect_loop build env).2.
Proof.
  destruct (connection_attempts env) as (j & Hj & _ & _ & _ & ->). simpl. rewrite length_fmap, length_seqZ. split; [lia|].
  apply Forall_fmap, Forall_forall. intros i [Hi _]%elem_of_seqZ. simpl. unfold wait.
  pose proof (env_u64_bounds env "CONNECTION_RETRY_INITIAL_MS" 500 ltac:(lia)). pose proof (env_u64_bounds env "CONNECTION_RETRY_MAX_MS" 30000 ltac:(lia)).
  destruct (Z.eqb_spec i 0); [lia|]. assert (0 < 2 ^ i) by (apply Z.pow_pos_nonneg; lia). nia.
Qed.
End attempts.

Lemma ready_iff {A E} (build : Z → A + E) env a :
  (connect_loop (λ k, tried (build k)) env).1 = Connected a ↔
    ∃ j, 1 ≤ j ≤ env_u32 env "CONNECTION_RETRY_ATTEMPTS" 30 ∧ build j = inl a ∧ ∀ i, 1 ≤ i < j → ∃ e, build i = inr e.
Proof.
  rewrite connected_iff_ready. unfold refused. f_equiv. intros j.
  assert (tried (build j) = Built a ↔ build j = inl a) as -> by (unfold tried; destruct (build j); naive_solver).
  assert (∀ i, (∃ e, tried (build i) = Refused e) ↔ ∃ e, build i = inr e) as Hr by (intros i; unfold tried; destruct (build i); naive_solver).
  by setoid_rewrite Hr.
Qed.

(** C36: A service connects exactly when what it needs becomes ready in time.  Whatever the
    environment and the answers, the pool of PostgreSQL is made (and the start does not panic)
    exactly when its URL is set and one of the first attempts, as many as are configured,
    succeeds after refusals only; the same holds for Redis and for the ping of MongoDB, whose
    client must be valid; no start waits as often as it tries, nor longer at a time than the
    larger of the two configured delays. *)
Theorem services_connect_iff_ready {E I M P O C : Type} env (db_build : string → Z → Z → P + E)
    (info : string → I + E) (manager : I → option M) (redis_build : M → Z → Z → P + E)
    (parse : string → O + E) not_set (with_options : O → C + E) (ping : C → Z → option E) p c :
  let attempts := env_u32 env "CONNECTION_RETRY_ATTEMPTS" 30 in
  let longest := Z.max (env_u64 env "CONNECTION_RETRY_INITIAL_MS" 500) (env_u64 env "CONNECTION_RETRY_MAX_MS" 30000) in
  let ready {A} (build : Z → A + E) (a : A) := ∃ j, 1 ≤ j ≤ attempts ∧ build j = inl a ∧ ∀ i, 1 ≤ i < j → ∃ e, build i = inr e in
  ((create_db_pool env db_build).1 = Some p ↔
     ∃ url, env "DATABASE_URL" = Some url ∧ ready (db_build url (env_u64 env "DB_CONNECTION_TIMEOUT_SECS" 60)) p) ∧
  ((establish_pool env info manager redis_build).1 = Connected p ↔
     ∃ url i m, env "REDIS_URL" = Some url ∧ info url = inl i ∧ manager i = Some m ∧
       ready (redis_build m (env_u64 env "REDIS_CONNECTION_TIMEOUT_SECS" 60)) p) ∧
  ((create_mongo_client env parse not_set with_options ping).1 = Connected c ↔
     ∃ url opts, env "MONGODB_URL" = Some url ∧ parse url = inl opts ∧ with_options opts = inl c ∧
       ∃ j, 1 ≤ j ≤ attempts ∧ ping c j = None ∧ ∀ i, 1 ≤ i < j → ping c i ≠ None) ∧
  (∀ waits, waits ∈ [(create_db_pool env db_build).2; (establish_pool env info manager redis_build).2;
                     (create_mongo_client env parse not_set with_options ping).2] →
     Z.of_nat (length waits) < attempts ∧ Forall (λ d, 0 ≤ d ≤ longest) waits).
Proof.
  cbv zeta. pose proof (env_u32_bounds env "CONNECTION_RETRY_ATTEMPTS" 30) as Ha. split; [|split; [|split]].
  - unfold create_db_pool. destruct (env "DATABASE_URL") as [url|]; [|split; [done|by intros (? & ? & _)]].
    pose proof (ready_iff (db_build url (env_u64 env "DB_CONNECTION_TIMEOUT_SECS" 60)) env p) as Hr.
    assert (∀ x : outcome P E * list Z, (let '(r, waits) := x in (match r with Connected p => Some p | _ => None end, waits)).1 = Some p ↔
      x.1 = Connected p) as Hx by (intros [[] ?]; simpl; split; congruence).
    rewrite Hx, Hr. split; [by exists url|by intros (url' & [= ->] & ?)].
  - unfold establish_pool. destruct (env "REDIS_URL") as [url|]; [|split; [done|by intros (? & ? & ? & ? & _)]].
    destruct (info url) as [i|e] eqn:Hi; [|split; [done|intros (? & ? & ? & [= <-] & ? & _); congruence]].
    destruct (manager i) as [m|] eqn:Hm; [|split; [done|intros (? & ? & ? & [= <-] & ? & ? & _); congruence]]. rewrite ready_iff.
    split; [by exists url, i, m|]. intros (url' & i' & m' & [= <-] & Hi' & Hm' & Hj). rewrite Hi in Hi'. injection Hi' as <-.
    rewrite Hm in Hm'. by injection Hm' as <-.
  - unfold create_mongo_client. destruct (env "MONGODB_URL") as [url|]; [|split; [done|by intros (? & ? & ? & _)]].
    destruct (parse url) as [opts|e] eqn:Hp; [|split; [done|intros (? & ? & [= <-] & ? & _); congruence]]. rewrite connected_iff_ready. unfold refused.
    destruct (with_options opts) as [cl|e] eqn:Ho;
      [|split; [by intros (? & _ & ? & _)|intros (? & ? & [= <-] & ? & ? & _); congruence]]. split.
    + intros (j & Hj & Hb & Hr). destruct (ping cl j) eqn:Hpj; simplify_eq. exists url, opts. split_and!; try done. exists j. split_and!; try done; try lia.
      intros i Hi. destruct (Hr i Hi) as [e He]. by destruct (ping c i).
    + intros (url' & opts' & [= <-] & Hp' & Hc & j & Hj & Hb & Hr). rewrite Hp in Hp'. injection Hp' as <-. rewrite Ho in Hc. injection Hc as ->.
      exists j. rewrite Hb. split_and!; try done; try lia.
      intros i Hi. specialize (Hr i Hi). destruct (ping c i) as [e|]; [by exists e|done].
  - intros waits. rewrite !elem_of_cons, elem_of_nil. unfold create_db_pool, establish_pool, create_mongo_client.
    assert (Z.of_nat (length ([] : list Z)) < env_u32 env "CONNECTION_RETRY_ATTEMPTS" 30 ∧
      Forall (λ d, 0 ≤ d ≤ Z.max (env_u64 env "CONNECTION_RETRY_INITIAL_MS" 500) (env_u64 env "CONNECTION_RETRY_MAX_MS" 30000)) []) as Hnil
      by (split; [simpl; lia|done]).
    intros [->|[->|[->|[]]]].
    + destruct (env "DATABASE_URL") as [url|]; [|done].
      pose proof (waits_bounded (λ k, tried (db_build url (env_u64 env "DB_CONNECTION_TIMEOUT_SECS" 60) k)) env) as Hw.
      by destruct (connect_loop _ env).
    + destruct (env "REDIS_URL") as [url|]; [|done]. destruct (info url); [|done]. destruct (manager i); [|done]. apply waits_bounded.
    + destruct (env "MONGODB_URL") as [url|]; [|done]. destruct (parse url); [|done]. apply waits_bounded.
Qed.

(** ** RabbitMQ is tried once more *)

Section rabbit.
Context `{RetryCrate} {C E : Type}.

Lemma retry_start_last ds (action : Z → attempt C E) c :
  (∀ k, 1 ≤ k ≤ Z.of_nat (length ds) → refused action k) → action (Z.of_nat (length ds) + 1) = Built c →
  retry_start ds action = (Connected c, ds).
Proof.
  revert action. induction ds as [|d ds IH]; intros action Hr Hc; simpl length in *.
  - rewrite retry_nil. change (Z.of_nat 0 + 1) with 1 in Hc. by rewrite Hc.
  - destruct (Hr 1) as [e He]; [lia|]. rewrite retry_cons, He, (IH (λ k, action (k + 1))); [done| |].
    + intros k Hk. apply (Hr (k + 1)). lia.
    + rewrite <-Hc. f_equal. lia.
Qed.

(** The same setting allows RabbitMQ one attempt more than the other services.  With [n]
    attempts configured, a service that refuses [n] attempts and takes the next is reached by
    [connect_with_retry], after [n] waits, while the loop of the others has failed with the
    [n]-th error. *)
Theorem rabbit_is_tried_once_more env read url tls (connect : string → tls_config → Z → C + E) broken n c (errors : Z → E) :
  env "RABBITMQ_URL" = Some url → tls_config_from_env env read = Some tls →
  env_u64 env "CONNECTION_RETRY_ATTEMPTS" 30 = n → 1 ≤ n < 2 ^ 32 →
  (∀ k, 1 ≤ k ≤ n → connect url tls k = inr (errors k)) → connect url tls (n + 1) = inl c →
  connect_with_retry env read connect broken =
    (Connected c, backoff (env_u64 env "CONNECTION_RETRY_INITIAL_MS" 500) (env_u64 env "CONNECTION_RETRY_MAX_MS" 30000) (Z.to_nat n)) ∧
  (connect_loop (λ k, tried (connect url tls k)) env).1 = Failed (errors n).
Proof.
  intros Hu Ht Hn Hb Hr Hc. split.
  - unfold connect_with_retry. rewrite Hu, Ht, Hn, Z.max_l by lia. apply retry_start_last; rewrite backoff_length, Z2Nat.id by lia.
    + intros k Hk. unfold refused. rewrite Hr by lia. by eexists.
    + by rewrite Hc.
  - destruct (connection_attempts (λ k, tried (connect url tls k)) env)
      as (j & Hj & Hlt & Href & Hend & ->).
    assert (env_u32 env "CONNECTION_RETRY_ATTEMPTS" 30 = n) as Ha.
    { unfold env_u32. rewrite Hn. unfold u32. rewrite wrap_u_small; [lia|lia|unfold in_u; lia]. }
    rewrite Ha in *. assert (j = n) as ->.
    { destruct Hend as [|Hnr]; [done|]. exfalso. apply Hnr. unfold refused. rewrite Hr by lia. by eexists. }
    simpl. by rewrite Hr by lia.
Qed.
End rabbit.

(** With the defaults a service that never answers is tried for twelve minutes. *)
Example default_waits :
  let '(r, waits) := connect_loop (A := unit) (λ k, Refused k) (λ _, None) in
  r = Failed 30 ∧ take 8 waits = [500; 1000; 2000; 4000; 8000; 16000; 30000; 30000] ∧ foldr Z.add 0 waits = 721500.
Proof. vm_compute. auto. Qed.
