(* ===== verification/Tracing.v ===== *)
(** * Tracing: how a trace follows a request through the services
    ([packages/telemetry/src], [traced_properties] and [delivery_span] of
    [packages/rmq-conn/src/lib.rs])

    A span context travels as the fields [traceparent] and [tracestate]: in the headers of
    HTTP requests, in the metadata of gRPC calls, in the headers of messages and, through the
    outbox, in the payload of an event.  The format of the fields is that of the propagator
    ([TraceLib], third-party); the names and values HTTP and gRPC accept are [HeaderLib].
    A span is what is recorded of it; durations are left out. *)

From stdpp Require Import gmap.
From Stdlib Require Import Ascii.
From S2P Require Import Prelude Text Keys Redis Events Db Payments Outbox HttpPayments NotifyConfig.

#[local] Open Scope string_scope.
#[local] Open Scope list_scope.
#[local] Open Scope Z_scope.

(** ** Text *)

(** [str::from_utf8]. *)
Definition byte_in (lo hi : N) (a : ascii) : bool := ((lo <=? N_of_ascii a) && (N_of_ascii a <=? hi))%N.
Definition continuation : ascii → bool := byte_in 128 191.
Fixpoint utf8 (l : list ascii) : bool :=
  match l with
  | [] => true
  | a :: l1 =>
      if byte_in 0 127 a then utf8 l1
      else match l1 with
           | [] => false
           | b :: l2 =>
               if byte_in 194 223 a then continuation b && utf8 l2
               else match l2 with
                    | [] => false
                    | c :: l3 =>
                        if byte_in 224 224 a && byte_in 160 191 b || byte_in 225 236 a && continuation b
                           || byte_in 237 237 a && byte_in 128 159 b || byte_in 238 239 a && continuation b
                        then continuation c && utf8 l3
                        else match l3 with
                             | [] => false
                             | d :: l4 =>
                                 (byte_in 240 240 a && byte_in 144 191 b || byte_in 241 243 a && continuation b
                                  || byte_in 244 244 a && byte_in 128 143 b)
                                 && continuation c && continuation d && utf8 l4
                             end
                    end
           end
  end.
Definition from_utf8 (s : string) : option string := if utf8 (String.list_ascii_of_string s) then Some s else None.

Definition visible (s : string) : bool := forallb (byte_in 32 126) (String.list_ascii_of_string s).

Lemma visible_utf8 s : visible s = true → from_utf8 s = Some s.
Proof.
  unfold visible, from_utf8. generalize (String.list_ascii_of_string s). intros l Hl.
  assert (utf8 l = true) as ->; [|done]. induction l as [|a l IH]; [done|]. simpl in Hl. apply andb_true_iff in Hl as [Ha Hl].
  simpl. unfold byte_in in *. apply andb_true_iff in Ha as [H1%N.leb_le H2%N.leb_le].
  rewrite (proj2 (N.leb_le 0 _)), (proj2 (N.leb_le _ 127)) by lia. simpl. auto.
Qed.

(** ** Carriers *)

Abbreviation trace_carrier_map := (gmap string string).

(** The fields a context is written to, in order, and the context read from fields.  A valid
    context is written as both fields, an invalid one as none; what is read depends on the two
    fields only, and gives the context that was written. *)
Class TraceLib (C : Type) := {
  tl_valid : C → bool;
  tl_inject : C → list (string * string);
  tl_extract : (string → option string) → C;
  inject_fields c : (tl_inject c).*1 = if tl_valid c then ["traceparent"; "tracestate"] else [];
  inject_visible c k v : (k, v) ∈ tl_inject c → visible v = true;
  extract_ext get get' : (∀ k, k ∈ ["traceparent"; "tracestate"] → get k = get' k) → tl_extract get = tl_extract get';
  extract_inject c : tl_valid c = true → tl_extract (λ k, (list_to_map (tl_inject c) : gmap string string) !! k) = c
}.

(** Names and values that HTTP headers and gRPC metadata accept, as they are stored, and the
    values that are text. *)
Class HeaderLib := {
  header_name : string → option string;
  header_value : string → option string;
  header_to_str : string → option string;
  metadata_key : string → option string;
  metadata_value : string → option string;
  trace_names k : k ∈ ["traceparent"; "tracestate"] → header_name k = Some k ∧ metadata_key k = Some k;
  visible_values v : visible v = true → header_value v = Some v ∧ metadata_value v = Some v ∧ header_to_str v = Some v
}.

Section carriers.
Context {C : Type} `{!TraceLib C} `{!HeaderLib}.

(** The context of the current span is an argument. *)
Definition current_carrier (current : C) : trace_carrier_map :=
  fold_left (λ m kv, <[kv.1 := kv.2]> m) (tl_inject current) ∅.

Definition extract_context (get : string → option string) : C := tl_extract get.
Definition carrier_get (carrier : trace_carrier_map) (k : string) : option string := carrier !! k.

(** A header map has a list of values for each name: reading gives the first, inserting
    replaces them all. *)
Abbreviation header_map := (gmap string (list string)).
Definition header_get (headers : header_map) (k : string) : option string :=
  (headers !! k ≫= head) ≫= header_to_str.
Definition header_set (key value : string) (headers : header_map) : header_map :=
  match header_name key, header_value value with
  | Some key, Some value => <[key := [value]]> headers
  | _, _ => headers
  end.
Definition inject_headers (current : C) (headers : header_map) : header_map :=
  fold_left (λ m kv, header_set kv.1 kv.2 m) (tl_inject current) headers.

(** The iteration order of the carrier is that of [map_to_list]. *)
Definition metadata_set (key value : string) (metadata : header_map) : header_map :=
  match metadata_key key, metadata_value value with
  | Some key, Some value => <[key := [value]]> metadata
  | _, _ => metadata
  end.
Definition inject_grpc (current : C) (metadata : header_map) : header_map :=
  fold_left (λ m kv, metadata_set kv.1 kv.2 m) (map_to_list (current_carrier current)) metadata.

(** [serde_json::from_value] into a map of strings; anything else is the empty map. *)
Definition carrier_json (carrier : trace_carrier_map) : json := JObj (prod_map id JStr <$> map_to_list carrier).
Definition carrier_of_json (j : json) : option trace_carrier_map :=
  match j with
  | JObj l => kvs ← mapM (λ kv, v ← as_str kv.2; Some (kv.1, v)) l; Some (fold_left (λ m kv, <[kv.1 := kv.2]> m) kvs ∅)
  | _ => None
  end.
Definition payload_carrier (payload : json) : trace_carrier_map :=
  default ∅ (carrier_of_json (default JNull (jget "_trace_context" payload))).

(** ** Messages *)

Inductive amqp_value := LongString (bytes : string) | OtherValue.
Definition traced_properties (current : C) (headers : option (gmap string amqp_value)) : gmap string amqp_value :=
  fold_left (λ m kv, <[kv.1 := LongString kv.2]> m) (map_to_list (current_carrier current)) (default ∅ headers).

Definition delivery_carrier (headers : option (gmap string amqp_value)) : trace_carrier_map :=
  match headers with
  | None => ∅
  | Some headers =>
      fold_left (λ m key,
        match headers !! key with
        | Some (LongString value) => match from_utf8 value with Some value => <[key := value]> m | None => m end
        | _ => m
        end) ["traceparent"; "tracestate"] ∅
  end.

(** ** Spans *)

Record span := Span { sp_name : string; sp_kind : string; sp_parent : option C; sp_fields : gmap string string }.
Definition record_field (k v : string) (sp : span) : span := Span (sp_name sp) (sp_kind sp) (sp_parent sp) (<[k := v]> (sp_fields sp)).

Definition operation_span (name kind : string) (parent : option C) : span := Span name kind parent ∅.

(** The span of a delivery is a child of the context in its headers. *)
Definition delivery_span (headers : option (gmap string amqp_value)) (queue : string) : span :=
  operation_span (queue +:+ " process") "consumer" (Some (extract_context (carrier_get (delivery_carrier headers)))).

(** A future runs with a span; the span is what is left of it at the end. *)
Definition in_span {S A : Type} (sp : span) (future : St (span * S) A) : St S (A * span) := λ s,
  let '(a, (sp, s)) := future (sp, s) in (a, sp, s).
Definition unspanned {S A : Type} (m : St S A) : St (span * S) A := zoom snd (λ s x, (x.1, s)) m.
Definition on_span {S : Type} (f : span → span) : St (span * S) unit := st_modify (λ x, (f x.1, x.2)).

Definition in_result_span {S T E : Type} (sp : span) (future : St S (T + E)) : St S ((T + E) * span) :=
  in_span sp (
    result ← unspanned future;
    when (match result with inr _ => true | inl _ => false end) (on_span (record_field "otel.status_code" "ERROR")) ;;
    mret result).

(** A handler fails with a status, whose code is an integer. *)
Definition grpc_request {S R E : Type} (code_of : E → Z) (metadata : gmap string (list string)) (service method : string)
    (handler : St S (R + E)) : St S ((R + E) * span) :=
  let parent := extract_context (header_get metadata) in
  in_span (Span (service +:+ "/" +:+ method) "server" (Some parent)
             {["rpc.system" := "grpc"; "rpc.service" := service; "rpc.method" := method]}) (
    result ← unspanned handler;
    on_span (record_field "rpc.grpc.status_code" (show_Z (match result with inr e => code_of e | inl _ => 0 end))) ;;
    when (match result with inr _ => true | inl _ => false end) (on_span (record_field "otel.status_code" "ERROR")) ;;
    mret result).

(** [call] of [HttpTraceService]: [route] is the matched route, the status is the response's. *)
Definition http_trace {S R E : Type} (status_of : R → Z) (route : option string) (method : string) (headers : gmap string (list string))
    (inner : St S (R + E)) : St S ((R + E) * span) :=
  let route := default "unmatched" route in
  in_span (Span (method +:+ " " +:+ route) "server" (Some (extract_context (header_get headers)))
             {["http.request.method" := method; "http.route" := route]}) (
    result ← unspanned inner;
    match result with
    | inl response =>
        on_span (record_field "http.response.status_code" (show_Z (status_of response))) ;;
        when ((500 <=? status_of response) && (status_of response <? 600)) (on_span (record_field "otel.status_code" "ERROR"))
    | inr _ => on_span (record_field "otel.status_code" "ERROR")
    end ;;
    mret result).
End carriers.
Arguments span : clear implicits.

(** ** The process *)

(** The attributes of [init_telemetry]. *)
Definition resource_attributes (env : environment) (service_name : string) : list (string * string) :=
  let environment_name :=
    match env "BOOKIT_ENVIRONMENT" with
    | Some e => e
    | None => match env "APP_MODE" with Some e => e | None => default "local" (env "NODE_ENV") end
    end in
  [("service.name", service_name); ("deployment.environment", environment_name); ("cloud.region", default "local" (env "BOOKIT_REGION"))]
  ++ omap (M := list) (λ ek, v ← env ek.1; Some (ek.2, v)) [("K8S_NAMESPACE", "k8s.namespace.name"); ("POD_NAME", "k8s.pod.name")].

(** A log line: the object the formatter made, with the service and, inside a span of a trace,
    the ids of its trace and of the span.  [data] is the trace of the valid parent of the
    innermost span, and what the span's builder has. *)
Record otel_data := OtelData { od_parent_trace : option string; od_trace_id : option string; od_span_id : option string }.
Definition format_event (service_name : string) (buffer : option json) (data : option otel_data) : option json :=
  value ← buffer;
  match value with
  | JObj l =>
      let l := jset "service_name" (JStr service_name) l in
      Some (JObj (match data with
        | None => l
        | Some d =>
            match (match od_parent_trace d with Some t => Some t | None => od_trace_id d end), od_span_id d with
            | Some trace_id, Some span_id => jset "span_id" (JStr span_id) (jset "trace_id" (JStr trace_id) l)
            | _, _ => l
            end
        end))
  | _ => None
  end.

(** ** Round trips *)

Section properties.
Context {C : Type} `{!TraceLib C} `{!HeaderLib} {HP : PaymentLibs}.
Implicit Types (c : C).

Lemma inject_shape c : tl_valid c = true →
  ∃ a b, tl_inject c = [("traceparent", a); ("tracestate", b)] ∧ visible a = true ∧ visible b = true.
Proof.
  intros Hc. pose proof (inject_fields c) as Hf. rewrite Hc in Hf. pose proof (inject_visible c) as Hv.
  destruct (tl_inject c) as [|[k a] [|[k' b] [|]]]; try done. simpl in Hf. injection Hf as -> ->.
  exists a, b. split; [done|]. split; [apply (Hv "traceparent")|apply (Hv "tracestate")]; set_solver.
Qed.

(** Whoever answers with the two fields of a context gives the context. *)
Lemma extract_fields c a b get :
  tl_valid c = true → tl_inject c = [("traceparent", a); ("tracestate", b)] →
  get "traceparent" = Some a → get "tracestate" = Some b → tl_extract get = c.
Proof.
  intros Hc Hi Ha Hb. rewrite <-(extract_inject c Hc), Hi. apply extract_ext. intros k.
  intros [-> |[-> |[]%elem_of_nil]%elem_of_cons]%elem_of_cons; simpl; [by rewrite lookup_insert_eq|].
  by rewrite lookup_insert_ne, lookup_insert_eq.
Qed.

Lemma carrier_fields c a b : tl_inject c = [("traceparent", a); ("tracestate", b)] →
  map_to_list (current_carrier c) = [("traceparent", a); ("tracestate", b)] ∨
  map_to_list (current_carrier c) = [("tracestate", b); ("traceparent", a)].
Proof.
  intros Hi. unfold current_carrier. rewrite Hi. simpl.
  assert (map_to_list (<["tracestate":=b]> (<["traceparent":=a]> (∅ : gmap string string))) ≡ₚ [("tracestate", b); ("traceparent", a)]) as Hp.
  { rewrite !map_to_list_insert, map_to_list_empty; [done|done|]. by rewrite lookup_insert_ne. }
  symmetry in Hp. apply Permutation_length_2_inv in Hp as [?|?]; auto.
Qed.

Lemma delivery_fields m a b : m !! "traceparent" = Some (LongString a) → m !! "tracestate" = Some (LongString b) →
  visible a = true → visible b = true →
  delivery_carrier (Some m) !! "traceparent" = Some a ∧ delivery_carrier (Some m) !! "tracestate" = Some b.
Proof.
  intros Ha Hb Hva Hvb. unfold delivery_carrier. simpl. rewrite Ha, Hb, (visible_utf8 a Hva), (visible_utf8 b Hvb).
  rewrite lookup_insert_eq, lookup_insert_ne, lookup_insert_eq by done. done.
Qed.

Lemma trace_payload_fields c a b l : tl_inject c = [("traceparent", a); ("tracestate", b)] →
  let payload := JObj (("_trace_context", carrier_json (current_carrier c)) :: l) in
  payload_carrier payload !! "traceparent" = Some a ∧ payload_carrier payload !! "tracestate" = Some b.
Proof.
  intros Hi. unfold payload_carrier, carrier_json. simpl. destruct (carrier_fields c a b Hi) as [-> | ->]; simpl.
  - by rewrite lookup_insert_eq, lookup_insert_ne, lookup_insert_eq.
  - by rewrite lookup_insert_eq, lookup_insert_ne, lookup_insert_eq.
Qed.

(** C37: A trace survives the way between two services.  A valid span context is what the other
    side extracts, whichever way it was sent and whatever was in the headers, metadata or
    properties before: from the headers of a proxied HTTP request, from the metadata of a gRPC
    call, from the headers of a message (whose delivery span is its child), and, through the
    outbox, from the payload of a payment request, of a cancellation and of a booking event. *)
Theorem trace_context_round_trips c headers metadata properties queue prid user rid amount rq o key order schedule seats :
  tl_valid c = true → trace_carrier = carrier_json (current_carrier c) →
  extract_context (header_get (inject_headers c headers)) = c ∧
  extract_context (header_get (inject_grpc c metadata)) = c ∧
  sp_parent (delivery_span (C := C) (Some (traced_properties c properties)) queue) = Some c ∧
  ∀ payload, payload ∈ [payment_payload prid user amount rq; cancel_payload o rid key; order_payload order user schedule seats amount] →
    extract_context (carrier_get (payload_carrier payload)) = c.
Proof.
  intros Hc Ht. destruct (inject_shape c Hc) as (a & b & Hi & Ha & Hb).
  destruct (visible_values a Ha) as (Ha1 & Ha2 & Ha3), (visible_values b Hb) as (Hb1 & Hb2 & Hb3).
  destruct (trace_names "traceparent") as [Hn1 Hm1]; [set_solver|]. destruct (trace_names "tracestate") as [Hn2 Hm2]; [set_solver|].
  unfold extract_context. split; [|split; [|split]].
  - apply (extract_fields c a b); try done; unfold inject_headers, header_get, header_set; rewrite Hi; simpl; rewrite Hn1, Hn2, Ha1, Hb1.
    + by rewrite lookup_insert_ne, lookup_insert_eq.
    + by rewrite lookup_insert_eq.
  - apply (extract_fields c a b); try done; unfold inject_grpc, header_get, metadata_set;
      destruct (carrier_fields c a b Hi) as [-> | ->]; simpl; rewrite Hm1, Hm2, Ha2, Hb2;
      rewrite ?lookup_insert_eq; try done; by rewrite lookup_insert_ne, lookup_insert_eq.
  - simpl. f_equal. unfold extract_context, carrier_get.
    assert (traced_properties c properties !! "traceparent" = Some (LongString a) ∧
      traced_properties c properties !! "tracestate" = Some (LongString b)) as [Hp1 Hp2].
    { unfold traced_properties. destruct (carrier_fields c a b Hi) as [-> | ->]; simpl;
        by rewrite lookup_insert_eq, lookup_insert_ne, lookup_insert_eq. }
    destruct (delivery_fields _ a b Hp1 Hp2 Ha Hb). by apply (extract_fields c a b).
  - intros payload Hp. assert (∃ l, payload = JObj (("_trace_context", carrier_json (current_carrier c)) :: l)) as [l ->].
    { rewrite <-Ht. apply elem_of_cons in Hp as [->|Hp]; [by eexists|]. apply elem_of_cons in Hp as [->|Hp]; [by eexists|].
      apply list_elem_of_singleton in Hp as ->. by eexists. }
    destruct (trace_payload_fields c a b l Hi). unfold carrier_get. by apply (extract_fields c a b).
Qed.

(** Tracing changes no answer.  The result of a traced operation, handler or HTTP service and
    the state it leaves are those of the inner one, and the span is marked as an error exactly
    for a failure (of an HTTP service: also for a response of the class 5xx). *)
Theorem tracing_is_transparent {S T E : Type} (sp : span C) code_of metadata service method route (status_of : T → Z) headers
    (future : St S (T + E)) s :
  sp_fields sp !! "otel.status_code" = None →
  let failed (r : T + E) := match r with inr _ => true | inl _ => false end in
  let '(r, s') := future s in
  (∃ sp' : span C, in_result_span sp future s = (r, sp', s') ∧
     sp_fields sp' !! "otel.status_code" = (if failed r then Some "ERROR" else None)) ∧
  (∃ sp' : span C, grpc_request code_of metadata service method future s = (r, sp', s') ∧
     sp_fields sp' !! "rpc.grpc.status_code" = Some (show_Z (match r with inr e => code_of e | inl _ => 0 end)) ∧
     sp_fields sp' !! "otel.status_code" = (if failed r then Some "ERROR" else None)) ∧
  ∃ sp' : span C, http_trace status_of route method headers future s = (r, sp', s') ∧
     sp_fields sp' !! "otel.status_code" =
       (if match r with inr _ => true | inl t => (500 <=? status_of t) && (status_of t <? 600) end then Some "ERROR" else None).
Proof.
  intros Hsp. cbv zeta. destruct (future s) as [r s'] eqn:Hf. split; [|split].
  - unfold in_result_span, in_span, mbind, St_bind, unspanned, zoom. simpl. rewrite Hf. destruct r; eexists; split; try reflexivity; simpl; [done|].
    by rewrite lookup_insert_eq.
  - unfold grpc_request, in_span, mbind, St_bind, unspanned, zoom. simpl. rewrite Hf. destruct r; eexists; (split; [reflexivity|]); simpl.
    + split; [by rewrite lookup_insert_eq|]. rewrite !lookup_insert_ne by done. done.
    + split; [by rewrite lookup_insert_ne, lookup_insert_eq|]. by rewrite lookup_insert_eq.
  - unfold http_trace, in_span, mbind, St_bind, unspanned, zoom. simpl. rewrite Hf. destruct r as [t|e]; simpl.
    + destruct ((500 <=? status_of t) && _); simpl; eexists; (split; [reflexivity|]); simpl; [by rewrite lookup_insert_eq|].
      rewrite !lookup_insert_ne by done. done.
    + eexists. split; [reflexivity|]. simpl. by rewrite lookup_insert_eq.
Qed.
End properties.

(** ** A propagator *)

Definition demo_ctx : Type := option (string * string).
Definition demo_valid (c : demo_ctx) : bool := match c with Some (a, b) => visible a && visible b | None => false end.

#[local] Instance demo_trace : TraceLib demo_ctx.
Proof.
  refine {| tl_valid := demo_valid;
            tl_inject c := match c with Some (a, b) => if demo_valid c then [("traceparent", a); ("tracestate", b)] else [] | None => [] end;
            tl_extract get := match get "traceparent", get "tracestate" with Some a, Some b => Some (a, b) | _, _ => None end |}.
  - intros [[a b]|]; [|done]. by destruct (demo_valid _).
  - intros [[a b]|] k v; [|by intros ?%elem_of_nil]. simpl. destruct (visible a && visible b) eqn:E; [|by intros ?%elem_of_nil].
    apply andb_true_iff in E as [Ha Hb]. intros [[= -> ->]|[[= -> ->]|[]%elem_of_nil]%elem_of_cons]%elem_of_cons; done.
  - intros get get' Hg. by rewrite !Hg by set_solver.
  - intros [[a b]|] Hc; [|done]. simpl in Hc |- *. by rewrite Hc.
Defined.

#[local] Instance demo_headers : HeaderLib.
Proof.
  refine {| header_name := Some; metadata_key := Some; header_value v := if visible v then Some v else None;
            metadata_value v := if visible v then Some v else None; header_to_str v := if visible v then Some v else None |}; [done|].
  by intros v ->.
Defined.

Definition demo_context : demo_ctx := Some ("00-11111111111111111111111111111111-2222222222222222-01", "").
#[local] Instance demo_libs : PaymentLibs :=
  {| uuid_parse := parse_Z; uuid_text := show_Z; paise_of _ := 0; trace_carrier := carrier_json (current_carrier demo_context) |}.

Definition demo_request : payment_request := PaymentRequest 7 [11] "k" None None None.

Lemma trace_context_round_trips_witness :
  sp_parent (delivery_span (C := demo_ctx) (Some (traced_properties demo_context (Some {["traceparent" := LongString "old"]}))) "payment_processing")
    = Some demo_context ∧
  extract_context (carrier_get (payload_carrier (payment_payload 1 3 "10" demo_request))) = demo_context.
Proof.
  pose proof (trace_context_round_trips demo_context ∅ ∅ (Some {["traceparent" := LongString "old"]}) "payment_processing" 1 3 3 "10" demo_request
    (OrderRow 1 1 3 7 [11] "10" "r" None "completed") "k" 1 7 [11] eq_refl eq_refl) as (H1 & H2 & H3 & H4).
  split; [exact H3|]. apply (H4 (payment_payload 1 3 "10" demo_request)). apply elem_of_cons. by left.
Defined.
